(** * LFortran semantic analysis: lowering the AST to the ASR

    A shallow embedding of [src/lfortran/semantics/ast_to_asr.cpp]:
    the implicit-cast rules, the visitors shared by both passes, the
    symbol-table pass and the body pass, each as far as the properties
    proved at the end of the file need them.

    Conventions.
    - A C++ pointer to a node is the node itself; [nullptr] is [None].
    - [throw] is the outcome [Throw]; a failed [down_cast], a null
      dereference and an integer division the hardware traps on are the
      outcome [Undefined].
    - [LFORTRAN_ASSERT] is compiled out of release builds and is not
      modelled.
    - Source locations are kept on exceptions only; the nodes of the ASR
      do not carry them here, and the one function below that reads the
      location of a node of the ASR takes it from a parameter. *)

From Stdlib Require Import ZArith List String Ascii Bool Lia.
Import ListNotations.

Set Warnings "-register-all".
Set Implicit Arguments.

Local Open Scope Z_scope.
Local Open Scope list_scope.

(* ================================================================== *)
(** * Locations, exceptions and outcomes *)
(* ================================================================== *)

Record Location := mk_Location {
  first_line : nat; first_column : nat; last_line : nat; last_column : nat
}.

(** The two exception classes thrown in the file. *)
Inductive exception :=
| SemanticError (msg : string) (loc : Location)
| LFortranException (msg : string).

Inductive outcome (A : Type) :=
| Ok (a : A)
| Throw (e : exception)
| Undefined.

Arguments Ok {A} a.
Arguments Throw {A} e.
Arguments Undefined {A}.

Definition bind {A B} (c : outcome A) (k : A -> outcome B) : outcome B :=
  match c with
  | Ok a => k a
  | Throw e => Throw e
  | Undefined => Undefined
  end.

Notation "x <- c ;; k" := (bind c (fun x => k))
  (at level 61, c at next level, right associativity).
Notation "' pat <- c ;; k" := (bind c (fun x => match x with pat => k end))
  (at level 61, pat pattern, c at next level, right associativity).

(** Dereferencing a pointer that may be null, or a checked down-cast. *)
Definition deref {A} (p : option A) : outcome A :=
  match p with
  | Some a => Ok a
  | None => Undefined
  end.

Definition is_Throw {A} (c : outcome A) : bool :=
  match c with
  | Throw _ => true
  | _ => false
  end.

(* ================================================================== *)
(** * The ASR data types used by the analysis *)
(* ================================================================== *)

Module ASR.

(** Modelled from the spec: the header [asr.h] that declares
    [ttypeType] is not part of the sources.  The twelve tags are the ones
    the rule table has a column for ([num_types = 12]); the spec numbers
    the plain families 0..5 and gives each pointer variant the index of
    its plain counterpart modulo 6.  The tag [Class], which the table does
    not cover, is left out. *)
Inductive ttypeType :=
| Integer | Real | Complex | Character | Logical | Derived
| IntegerPointer | RealPointer | ComplexPointer
| CharacterPointer | LogicalPointer | DerivedPointer.

Definition ttypeType_index (t : ttypeType) : nat :=
  match t with
  | Integer => 0 | Real => 1 | Complex => 2
  | Character => 3 | Logical => 4 | Derived => 5
  | IntegerPointer => 6 | RealPointer => 7 | ComplexPointer => 8
  | CharacterPointer => 9 | LogicalPointer => 10 | DerivedPointer => 11
  end%nat.

(** [a->type == b->type] on the enumeration. *)
Definition ttypeType_eqb (a b : ttypeType) : bool :=
  Nat.eqb (ttypeType_index a) (ttypeType_index b).

(** Modelled from the spec: the type nodes of [asr.h] are not part of
    the sources.  A type node has its tag, the kind the numeric, logical
    and character variants carry, the name of the derived type a
    [Derived] variant refers to, and the number of its dimensions (the
    bounds themselves are not inspected by any function below). *)
Record ttype_t := mk_ttype {
  type : ttypeType;
  m_kind : Z;
  m_derived_type : string;
  n_dims : nat
}.

(** Modelled from the spec: the enumerations of [asr.h] are not part of
    the sources.  They have the enumerators the source names; [abiType]
    and [storage_typeType] have further ones, of which the source names
    none. *)
Inductive cast_kindType :=
| IntegerToReal | IntegerToInteger | RealToInteger | RealToComplex
| IntegerToComplex | IntegerToLogical | ComplexToComplex | RealToReal.

Inductive binopType := Add | Sub | Mul | Div | Pow.
Inductive cmpopType := Eq | Gt | GtE | Lt | LtE | NotEq.
Inductive boolopType := And | Or | NEqv | Eqv.

Inductive abiType :=
| Source | LFortranModule | GFortranModule | BindC | Interactive | Intrinsic.
Inductive accessType := Public | Private.
Inductive presenceType := Required | Optional.
Inductive storage_typeType := Default | Save | Parameter_ | Allocatable.
Inductive intentType :=
| intent_local | intent_in | intent_out | intent_inout
| intent_return_var | intent_unspecified.
Inductive deftypeType := Implementation | Interface.

(** Modelled from the spec: the node types of [asr.h] and the class
    [SymbolTable] are not part of the sources.  A node has the fields the
    source hands to its constructor [make_..._t], in that order, without
    the location, the statements of a body and the back pointer to the
    scope that owns a symbol.  Symbols, scopes and expressions refer to
    each other.  A scope is the [std::map] from names to symbols, kept
    as a list of bindings in increasing key order (the order in which
    the map is iterated), its parent and its counter. *)
Inductive symbol_t :=
| Program_t (m_symtab : SymbolTable) (m_name : string)
    (m_dependencies : list string)
| Module_t (m_symtab : SymbolTable) (m_name : string)
    (m_dependencies : list string) (m_loaded_from_mod : bool)
| Subroutine_t (m_symtab : SymbolTable) (m_name : string)
    (m_args : list expr_t) (m_abi : abiType) (m_access : accessType)
    (m_deftype : deftypeType)
| Function_t (m_symtab : SymbolTable) (m_name : string)
    (m_args : list expr_t) (m_return_var : expr_t) (m_abi : abiType)
    (m_access : accessType) (m_deftype : deftypeType)
| GenericProcedure_t (m_name : string) (m_procs : list symbol_t)
    (m_access : accessType)
| DerivedType_t (m_symtab : SymbolTable) (m_name : string)
    (m_abi : abiType) (m_access : accessType)
| Variable_t (m_name : string) (m_intent : intentType)
    (m_symbolic_value : option expr_t) (m_value : option expr_t)
    (m_storage : storage_typeType) (m_type : ttype_t) (m_abi : abiType)
    (m_access : accessType) (m_presence : presenceType)
| ClassProcedure_t (m_name : string) (m_proc_name : string)
    (m_proc : symbol_t) (m_abi : abiType)
| ExternalSymbol_t (m_name : string) (m_external : symbol_t)
    (m_module_name : string) (m_original_name : string)
    (m_access : accessType)
with SymbolTable :=
| mk_SymbolTable (scope : list (string * symbol_t))
    (parent : option SymbolTable) (counter : nat)
with expr_t :=
| BoolOp_t (m_left : expr_t) (m_op : boolopType) (m_right : expr_t)
    (m_type : ttype_t) (m_value : option expr_t)
| BinOp_t (m_left : expr_t) (m_op : binopType) (m_right : expr_t)
    (m_type : ttype_t) (m_value : option expr_t)
| Compare_t (m_left : expr_t) (m_op : cmpopType) (m_right : expr_t)
    (m_type : ttype_t) (m_value : option expr_t)
| ImplicitCast_t (m_arg : expr_t) (m_kind : cast_kindType)
    (m_type : ttype_t) (m_value : option expr_t)
| FunctionCall_t (m_name : symbol_t) (m_args : list expr_t)
    (m_type : ttype_t) (m_value : option expr_t)
| ConstantInteger_t (m_n : Z) (m_type : ttype_t)
| ConstantReal_t (m_r : string) (m_type : ttype_t)
| ConstantLogical_t (m_b : bool) (m_type : ttype_t)
| ConstantString_t (m_s : string) (m_type : ttype_t)
| ConstantArray_t (m_args : list expr_t) (m_type : ttype_t)
| Var_t (m_v : symbol_t)
| ArrayRef_t (m_v : symbol_t) (m_args : list expr_t) (m_type : ttype_t)
| DerivedRef_t (m_v : expr_t) (m_m : symbol_t) (m_type : ttype_t)
    (m_value : option expr_t).

Inductive stmt_t :=
| Assignment_t (m_target : expr_t) (m_value : expr_t)
| Associate_t (m_target : expr_t) (m_value : expr_t)
| SubroutineCall_t (m_name : option symbol_t)
    (m_original_name : option symbol_t) (m_args : list expr_t).

(** What the visitors leave in [tmp] (or [asr]). *)
Inductive asr_t :=
| expr (e : expr_t)
| stmt (s : stmt_t)
| symbol (s : symbol_t).

(** [e->type], the tag of an expression node. *)
Inductive exprType :=
| BoolOp | BinOp | Compare | ImplicitCast | FunctionCall
| ConstantInteger | ConstantReal | ConstantLogical | ConstantString
| ConstantArray | Var | ArrayRef | DerivedRef.

Definition expr_tag (e : expr_t) : exprType :=
  match e with
  | BoolOp_t _ _ _ _ _ => BoolOp
  | BinOp_t _ _ _ _ _ => BinOp
  | Compare_t _ _ _ _ _ => Compare
  | ImplicitCast_t _ _ _ _ => ImplicitCast
  | FunctionCall_t _ _ _ _ => FunctionCall
  | ConstantInteger_t _ _ => ConstantInteger
  | ConstantReal_t _ _ => ConstantReal
  | ConstantLogical_t _ _ => ConstantLogical
  | ConstantString_t _ _ => ConstantString
  | ConstantArray_t _ _ => ConstantArray
  | Var_t _ => Var
  | ArrayRef_t _ _ _ => ArrayRef
  | DerivedRef_t _ _ _ _ => DerivedRef
  end.

Definition exprType_eq_dec (a b : exprType) : {a = b} + {a <> b}.
Proof. decide equality. Defined.

Definition exprType_eqb (a b : exprType) : bool :=
  if exprType_eq_dec a b then true else false.

Definition scope (s : SymbolTable) : list (string * symbol_t) :=
  match s with mk_SymbolTable sc _ _ => sc end.
Definition parent (s : SymbolTable) : option SymbolTable :=
  match s with mk_SymbolTable _ p _ => p end.
Definition counter (s : SymbolTable) : nat :=
  match s with mk_SymbolTable _ _ c => c end.

Definition is_ExternalSymbol (s : symbol_t) : bool :=
  match s with ExternalSymbol_t _ _ _ _ _ => true | _ => false end.
Definition is_Subroutine (s : symbol_t) : bool :=
  match s with Subroutine_t _ _ _ _ _ _ => true | _ => false end.

End ASR.

(* ================================================================== *)
(** * [std::map<std::string, T>] as a list in key order *)
(* ================================================================== *)

Module StdMap.
Section Map.
Variable T : Type.

Definition t := list (string * T).

(** [m.find(k)], with [None] for [m.end()]. *)
Fixpoint find (k : string) (m : t) : option T :=
  match m with
  | [] => None
  | (k', v) :: m' => if String.eqb k k' then Some v else find k m'
  end.

Definition mem (k : string) (m : t) : bool :=
  match find k m with Some _ => true | None => false end.

(** [m[k] = v]: the binding of [k] is replaced, or [k] is entered at its
    place in the order of the keys. *)
Fixpoint set (k : string) (v : T) (m : t) : t :=
  match m with
  | [] => [(k, v)]
  | (k', v') :: m' =>
      match String.compare k k' with
      | Lt => (k, v) :: (k', v') :: m'
      | Datatypes.Eq => (k, v) :: m'
      | Gt => (k', v') :: set k v m'
      end
  end.

End Map.
End StdMap.

(* ================================================================== *)
(** * Helpers of [asr_utils.h]
    The header is not part of the sources; the helpers the analysis calls
    are modelled from the spec, or taken as parameters where the spec
    does not fix them. *)
(* ================================================================== *)

Module ASRUtils.
Import ASR.

(** Modelled from the spec: [is_pointer] is missing from the sources;
    the spec gives every primitive family and [Derived] a pointer-to
    counterpart and calls a type's pointerness plain or pointer. *)
Definition is_pointer (x : ttype_t) : bool :=
  match type x with
  | IntegerPointer | RealPointer | ComplexPointer
  | CharacterPointer | LogicalPointer | DerivedPointer => true
  | _ => false
  end.

(** Modelled from the spec: [is_same_type_pointer] is missing from the
    sources; the spec's cast insertion rule reads it as "they are a
    plain/pointer pair of the same family". *)
Definition is_same_type_pointer (source dest : ttype_t) : bool :=
  xorb (is_pointer source) (is_pointer dest)
  && Nat.eqb (ttypeType_index (type source) mod 6)
             (ttypeType_index (type dest) mod 6).

(** Modelled from the spec: [is_array] is missing from the sources; a
    type carries an optional list of dimension bounds and is an array
    when the list is not empty. *)
Definition is_array (x : ttype_t) : bool :=
  negb (Nat.eqb (n_dims x) 0).

(** Modelled from the spec: [symbol_get_past_external] is missing from
    the sources; an external symbol forwards to its target. *)
Definition symbol_get_past_external (f : symbol_t) : symbol_t :=
  match f with
  | ExternalSymbol_t _ ext _ _ _ => ext
  | _ => f
  end.

(** Modelled from the spec: [symbol_name] is missing from the sources;
    every symbol variant carries its name. *)
Definition symbol_name (f : symbol_t) : string :=
  match f with
  | Program_t _ n _ => n
  | Module_t _ n _ _ => n
  | Subroutine_t _ n _ _ _ _ => n
  | Function_t _ n _ _ _ _ _ => n
  | GenericProcedure_t n _ _ => n
  | DerivedType_t _ n _ _ => n
  | Variable_t n _ _ _ _ _ _ _ _ => n
  | ClassProcedure_t n _ _ _ => n
  | ExternalSymbol_t n _ _ _ _ => n
  end.

(** Modelled from the spec: [EXPR2VAR] is missing from the sources; it
    is read as the variable a [Var] expression refers to, looked up past
    an external symbol, and as a down-cast that fails on anything else.
    The functions below use the type of that variable only. *)
Definition EXPR2VAR_type (f : expr_t) : option ttype_t :=
  match f with
  | Var_t v =>
      match symbol_get_past_external v with
      | Variable_t _ _ _ _ _ ty _ _ _ => Some ty
      | _ => None
      end
  | _ => None
  end.

(** Modelled from the spec: [expr_type] is missing from the sources;
    every expression node carries a type, and a variable reference has
    the type of its variable. *)
Definition expr_type (f : expr_t) : option ttype_t :=
  match f with
  | BoolOp_t _ _ _ ty _ => Some ty
  | BinOp_t _ _ _ ty _ => Some ty
  | Compare_t _ _ _ ty _ => Some ty
  | ImplicitCast_t _ _ ty _ => Some ty
  | FunctionCall_t _ _ ty _ => Some ty
  | ConstantInteger_t _ ty => Some ty
  | ConstantReal_t _ ty => Some ty
  | ConstantLogical_t _ ty => Some ty
  | ConstantString_t _ ty => Some ty
  | ConstantArray_t _ ty => Some ty
  | Var_t _ => EXPR2VAR_type f
  | ArrayRef_t _ _ ty => Some ty
  | DerivedRef_t _ _ ty _ => Some ty
  end.

(** Modelled from the spec: [expr_value] is missing from the sources; an
    expression node carries an optional folded constant value, a
    constant is its own value, and a variable reference has the value
    recorded on its variable. *)
Definition expr_value (f : expr_t) : option expr_t :=
  match f with
  | BoolOp_t _ _ _ _ v => v
  | BinOp_t _ _ _ _ v => v
  | Compare_t _ _ _ _ v => v
  | ImplicitCast_t _ _ _ v => v
  | FunctionCall_t _ _ _ v => v
  | ConstantInteger_t _ _ | ConstantReal_t _ _ | ConstantLogical_t _ _
  | ConstantString_t _ _ => Some f
  | ConstantArray_t _ _ => None
  | Var_t v =>
      match symbol_get_past_external v with
      | Variable_t _ _ _ value _ _ _ _ _ => value
      | _ => None
      end
  | ArrayRef_t _ _ _ => None
  | DerivedRef_t _ _ _ v => v
  end.

(** Modelled from the spec: [present] is missing from the sources; a
    name is added to a dependency list "if not already present". *)
Definition present (v : list string) (name : string) : bool :=
  existsb (String.eqb name) v.

(** [extract_kind_from_ttype_t] is missing from the sources and the spec
    does not say what it returns for every tag: it is a parameter. *)
Class KindOf := { extract_kind_from_ttype_t : ttype_t -> Z }.

(** [(int64_t) std::pow(l, r)] on two [int64_t] goes through [double];
    floating point is not modelled and the conversion is a parameter. *)
Class Libm := { std_pow : Z -> Z -> Z }.

(** [load_module], the module loader, is an external collaborator: given
    the scope to load into, the module name and the intrinsic flag it
    returns the module symbol or throws. *)
Class ModuleLoader := {
  load_module : option SymbolTable -> string -> Location -> bool ->
                outcome symbol_t
}.

(** Modelled from the spec: the class [SymbolTable] is declared outside
    the sources; [resolve_symbol(name)] searches the chain of scopes up
    to the root and returns the innermost binding. *)
Fixpoint resolve_symbol (s : SymbolTable) (name : string) : option symbol_t :=
  match s with
  | mk_SymbolTable sc p _ =>
      match StdMap.find name sc with
      | Some v => Some v
      | None =>
          match p with
          | Some s' => resolve_symbol s' name
          | None => None
          end
      end
  end.

End ASRUtils.

(* ================================================================== *)
(** * [class ImplicitCastRules] *)
(* ================================================================== *)

Module ImplicitCastRules.
Import ASR ASRUtils.
Local Open Scope string_scope.

Definition num_types : nat := 12.

(** An entry of [rule_map] is the [int] [default_case = -1],
    [error_case = -2] or the value of a [cast_kindType] enumerator; the
    enumerators are not negative, so the three are told apart. *)
Inductive rule :=
| default_case
| error_case
| cast_case (k : cast_kindType).

Definition integer_to_real := cast_case IntegerToReal.
Definition integer_to_integer := cast_case IntegerToInteger.
Definition real_to_integer := cast_case RealToInteger.
Definition real_to_complex := cast_case RealToComplex.
Definition integer_to_complex := cast_case IntegerToComplex.
Definition integer_to_logical := cast_case IntegerToLogical.
Definition complex_to_complex := cast_case ComplexToComplex.
Definition real_to_real := cast_case RealToReal.

Definition type_names : list (string * string) := [
  ("Integer", "Integer Pointer");
  ("Real", "Integer or Real or Real Pointer");
  ("Complex", "Integer, Real or Complex or Complex Pointer");
  ("Character", "Character Pointer");
  ("Logical", "Integer or Logical Pointer");
  ("Derived", "Derived Pointer");
  ("Integer Pointer", "Integer");
  ("Real Pointer", "Integer");
  ("Complex Pointer", "Integer");
  ("Character Pointer", "Integer");
  ("Logical Pointer", "Integer");
  ("Derived Pointer", "Integer")
].

(** Row: the source type; column: the destination type. *)
Definition rule_map : list (list rule) := [
  [integer_to_integer; integer_to_real; integer_to_complex; error_case; integer_to_logical; error_case;
   integer_to_integer; integer_to_real; integer_to_complex; error_case; integer_to_logical; error_case];
  [real_to_integer; real_to_real; real_to_complex; default_case; default_case; default_case;
   real_to_integer; real_to_real; real_to_complex; default_case; default_case; default_case];
  [default_case; default_case; complex_to_complex; default_case; default_case; default_case;
   default_case; default_case; complex_to_complex; default_case; default_case; default_case];
  [default_case; default_case; default_case; default_case; default_case; default_case;
   default_case; default_case; default_case; default_case; default_case; default_case];
  [default_case; default_case; default_case; default_case; default_case; default_case;
   default_case; default_case; default_case; default_case; default_case; default_case];
  [default_case; default_case; default_case; default_case; default_case; default_case;
   default_case; default_case; default_case; default_case; default_case; default_case]
].

Definition type_priority : list Z := [
  4;    (* Integer or IntegerPointer *)
  5;    (* Real or RealPointer *)
  6;    (* Complex or ComplexPointer *)
  -1;   (* Character or CharacterPointer *)
  -1;   (* Logical or LogicalPointer *)
  -1    (* Derived or DerivedPointer *)
]%Z.

(** [rule_map[i][j]], [type_names[i][c]] and [type_priority[i]]. *)
Definition rule_map_at (i j : nat) : rule :=
  nth j (nth i rule_map []) default_case.
Definition type_names_at (i : nat) (c : bool) : string :=
  let p := nth i type_names (EmptyString, EmptyString) in if c then snd p else fst p.
Definition type_priority_at (i : nat) : Z :=
  nth i type_priority 0%Z.

Section Rules.
Context `{KindOf}.

(** [set_converted_value]: the expression [*convert_can] as the call
    leaves it. *)
Definition set_converted_value (a_loc : Location) (convert_can : expr_t)
    (source_type dest_type : ttype_t) : outcome expr_t :=
  let same :=
    ttypeType_eqb (type source_type) (type dest_type)
    || is_same_type_pointer source_type dest_type in
  let swap :=
    same && (is_pointer source_type && negb (is_pointer dest_type)) in
  let source_type' := if swap then dest_type else source_type in
  let dest_type' := if swap then source_type else dest_type in
  if same && Z.eqb (extract_kind_from_ttype_t source_type')
                   (extract_kind_from_ttype_t dest_type')
  then Ok convert_can
  else
    let cast_kind :=
      rule_map_at (ttypeType_index (type source_type') mod (num_types / 2))
                  (ttypeType_index (type dest_type')) in
    match cast_kind with
    | error_case =>
        let allowed_types_str :=
          type_names_at (ttypeType_index (type dest_type')) true in
        let dest_type_str :=
          type_names_at (ttypeType_index (type dest_type')) false in
        let error_msg := "Only " ++ allowed_types_str ++
                         " can be assigned to " ++ dest_type_str in
        Throw (SemanticError error_msg a_loc)
    | default_case => Ok convert_can
    | cast_case k => Ok (ImplicitCast_t convert_can k dest_type' None)
    end.

End Rules.

(** Which of the two operands [conversion_cand] points at. *)
Inductive operand := left_operand | right_operand.

(** [find_conversion_candidate]: the operand [conversion_cand] is set
    to, [*source_type] and [*dest_type]. *)
Definition find_conversion_candidate (left_type right_type : ttype_t)
    : operand * ttype_t * ttype_t :=
  let left_type_p :=
    type_priority_at (ttypeType_index (type left_type) mod (num_types / 2)) in
  let right_type_p :=
    type_priority_at (ttypeType_index (type right_type) mod (num_types / 2)) in
  if Z.geb left_type_p right_type_p
  then (right_operand, right_type, left_type)
  else (left_operand, left_type, right_type).

End ImplicitCastRules.

(* ================================================================== *)
(** * The part of the AST the visitors below read *)
(* ================================================================== *)

Module AST.

Inductive operatorType := Add | Sub | Mul | Div | Pow.
Inductive cmpopType := Eq | Gt | GtE | Lt | LtE | NotEq.
Inductive boolopType := And | Or | NEqv | Eqv.

(** Expressions: literals, names without a member part, operators and
    parentheses.  [m_n] of [Num_t] is the value of the literal. *)
Inductive expr_t :=
| BoolOp_t (loc : Location) (m_left : expr_t) (m_op : boolopType)
    (m_right : expr_t)
| BinOp_t (loc : Location) (m_left : expr_t) (m_op : operatorType)
    (m_right : expr_t)
| Compare_t (loc : Location) (m_left : expr_t) (m_op : cmpopType)
    (m_right : expr_t)
| Num_t (loc : Location) (m_n : Z)
| Name_t (loc : Location) (m_id : string)
| Parenthesis_t (loc : Location) (m_operand : expr_t).

(** [use m] and [use m, only: sym, rename => sym]. *)
Record UseSymbol_t := mk_UseSymbol {
  m_sym : string;
  m_rename : option string
}.

Record Use_t := mk_Use {
  Use_loc : Location;
  m_module : string;
  m_symbols : list UseSymbol_t
}.

Record Assignment_t := mk_Assignment {
  Assignment_loc : Location;
  Assignment_target : expr_t;
  Assignment_value : expr_t
}.

Record Associate_t := mk_Associate {
  Associate_loc : Location;
  Associate_target : expr_t;
  Associate_value : expr_t
}.

(** [call name(args)]; [m_member] holds the names of the member part of
    the call, as in [call obj%name(args)]. *)
Record SubroutineCall_t := mk_SubroutineCall {
  SubroutineCall_loc : Location;
  m_name : string;
  m_member : list string;
  m_args : list expr_t
}.

(** A subroutine definition: its name and the names of its dummy
    arguments; its declarations and contained units are visited by the
    visitor handed to [visit_Subroutine]. *)
Record Subroutine_t := mk_Subroutine {
  Subroutine_loc : Location;
  Subroutine_name : string;
  Subroutine_args : list string
}.

(** A module: its name and its [use] statements; its declarations and
    contained units are visited by the visitor handed to
    [visit_Module]. *)
Record Module_t := mk_Module {
  Module_loc : Location;
  Module_name : string;
  m_use : list Use_t
}.

(** [name(args)], a function call or an array reference. *)
Record FuncCallOrArray_t := mk_FuncCallOrArray {
  FuncCallOrArray_loc : Location;
  m_func : string;
  FuncCallOrArray_args : list expr_t
}.

End AST.

(* ================================================================== *)
(** * [class CommonVisitorMethods] *)
(* ================================================================== *)

Module CommonVisitorMethods.
Import ASR ASRUtils ImplicitCastRules.
Local Open Scope string_scope.

(** Arithmetic on [int64_t]: sums, differences and products wrap around;
    the quotient truncates towards zero. *)
Definition wrap64 (z : Z) : Z := (z + 2 ^ 63) mod 2 ^ 64 - 2 ^ 63.

Definition int64_min : Z := - 2 ^ 63.
Definition int64_max : Z := 2 ^ 63 - 1.

Section Visitors.
Context `{KindOf} `{Libm}.

(** The cast of the operand [find_conversion_candidate] chose; the pair
    is [left] and [right] after the call to [set_converted_value]. *)
Definition cast_candidate (loc : Location) (left right : expr_t)
    (left_type right_type : ttype_t) : outcome (expr_t * expr_t * ttype_t) :=
  let '(conversion_cand, source_type, dest_type) :=
    find_conversion_candidate left_type right_type in
  match conversion_cand with
  | left_operand =>
      l <- set_converted_value loc left source_type dest_type ;;
      Ok (l, right, dest_type)
  | right_operand =>
      r <- set_converted_value loc right source_type dest_type ;;
      Ok (left, r, dest_type)
  end.

Definition visit_BinOp (loc : Location) (x_op : AST.operatorType)
    (left right : expr_t) : outcome expr_t :=
  let op :=
    match x_op with
    | AST.Add => Add
    | AST.Sub => Sub
    | AST.Mul => Mul
    | AST.Div => Div
    | AST.Pow => Pow
    end in
  (* Cast LHS or RHS if necessary *)
  left_type <- deref (expr_type left) ;;
  right_type <- deref (expr_type right) ;;
  '(left, right, dest_type) <-
    cast_candidate loc left right left_type right_type ;;
  (* Assign evaluation to [value] if possible, otherwise leave nullptr *)
  value <-
    match expr_value left, expr_value right with
    | Some lv, Some rv =>
        if ttypeType_eqb (type dest_type) Integer then
          match lv, rv with
          | ConstantInteger_t left_value _, ConstantInteger_t right_value _ =>
              result <-
                match op with
                | Add => Ok (wrap64 (left_value + right_value))
                | Sub => Ok (wrap64 (left_value - right_value))
                | Mul => Ok (wrap64 (left_value * right_value))
                | Div =>
                    if Z.eqb right_value 0
                       || (Z.eqb left_value int64_min && Z.eqb right_value (-1))
                    then Undefined
                    else Ok (Z.quot left_value right_value)
                | Pow => Ok (std_pow left_value right_value)
                end ;;
              Ok (Some (ConstantInteger_t result dest_type))
          | _, _ => Ok None
          end
        else Ok None
    | _, _ => Ok None
    end ;;
  Ok (BinOp_t left op right dest_type value).

Definition visit_Compare (loc : Location) (x_op : AST.cmpopType)
    (left right : expr_t) : outcome expr_t :=
  (* Cast LHS or RHS if necessary *)
  left_type <- deref (expr_type left) ;;
  right_type <- deref (expr_type right) ;;
  '(left, right, _) <-
    (if (negb (ttypeType_eqb (type left_type) Real) &&
         negb (ttypeType_eqb (type left_type) Integer)) &&
        (negb (ttypeType_eqb (type right_type) Real) &&
         negb (ttypeType_eqb (type right_type) Integer)) &&
        ((negb (ttypeType_eqb (type left_type) Complex) ||
          negb (ttypeType_eqb (type right_type) Complex)) &&
         negb (match x_op with AST.Eq => true | _ => false end) &&
         negb (match x_op with AST.NotEq => true | _ => false end))
     then
       Throw (SemanticError
         ("Compare: only Integer or Real can be on the LHS and RHS. " ++
          "If operator is .eq. or .neq. then Complex type is also acceptable")
         loc)
     else cast_candidate loc left right left_type right_type) ;;
  let type := mk_ttype Logical 4 EmptyString 0 in
  let asr_op :=
    match x_op with
    | AST.Eq => Eq
    | AST.Gt => Gt
    | AST.GtE => GtE
    | AST.Lt => Lt
    | AST.LtE => LtE
    | AST.NotEq => NotEq
    end in
  Ok (Compare_t left asr_op right type None).

Definition visit_BoolOp (loc : Location) (x_op : AST.boolopType)
    (left right : expr_t) : outcome expr_t :=
  let op :=
    match x_op with
    | AST.And => And
    | AST.Or => Or
    | AST.NEqv => NEqv
    | AST.Eqv => Eqv
    end in
  (* Cast LHS or RHS if necessary *)
  left_type <- deref (expr_type left) ;;
  right_type <- deref (expr_type right) ;;
  '(left, right, dest_type) <-
    cast_candidate loc left right left_type right_type ;;
  Ok (BoolOp_t left op right dest_type None).

End Visitors.
End CommonVisitorMethods.

(* ================================================================== *)
(** * Helpers shared by the two passes *)
(* ================================================================== *)

Module Utils.
Local Open Scope string_scope.

(** Modelled from the spec: [to_lower] of [string_utils.h] is missing
    from the sources; names are case-folded, letter by letter. *)
Definition to_lower_ascii (c : ascii) : ascii :=
  let n := nat_of_ascii c in
  if (Nat.leb 65 n && Nat.leb n 90)%bool then ascii_of_nat (n + 32) else c.

(** Modelled from the spec: [to_lower], see above. *)
Fixpoint to_lower (s : string) : string :=
  match s with
  | EmptyString => EmptyString
  | String c s' => String (to_lower_ascii c) (to_lower s')
  end.

Definition intrinsic_procedures : StdMap.t string := [
  ("abs", "lfortran_intrinsic_array");
  ("allocated", "lfortran_intrinsic_array");
  ("kind", "lfortran_intrinsic_kind");
  ("lbound", "lfortran_intrinsic_array");
  ("max", "lfortran_intrinsic_array");
  ("maxval", "lfortran_intrinsic_array");
  ("min", "lfortran_intrinsic_array");
  ("minval", "lfortran_intrinsic_array");
  ("real", "lfortran_intrinsic_array");
  ("selected_int_kind", "lfortran_intrinsic_kind");
  ("selected_real_kind", "lfortran_intrinsic_kind");
  ("size", "lfortran_intrinsic_array");
  ("sum", "lfortran_intrinsic_array");
  ("ubound", "lfortran_intrinsic_array")
].

(** A loop whose body may throw. *)
Fixpoint foldM {A S : Type} (f : S -> A -> outcome S) (l : list A) (s : S)
    : outcome S :=
  match l with
  | [] => Ok s
  | a :: l' => s' <- f s a ;; foldM f l' s'
  end.

Fixpoint mapM {A B : Type} (f : A -> outcome B) (l : list A)
    : outcome (list B) :=
  match l with
  | [] => Ok []
  | a :: l' => b <- f a ;; bs <- mapM f l' ;; Ok (b :: bs)
  end.

(** [if (!present(v, name)) v.push_back(al, name)], the guarded addition
    to a dependency list that both passes write out. *)
Definition push_back_if_absent (v : list string) (name : string) : list string :=
  if negb (ASRUtils.present v name) then v ++ [name] else v.

End Utils.

(* ================================================================== *)
(** * [class SymbolTableVisitor] (pass 1) *)
(* ================================================================== *)

Module SymbolTableVisitor.
Import ASR ASRUtils Utils.
Local Open Scope string_scope.

(** The members of the visitor the functions below read or write.
    [next_counter] stands for the sequence the constructor of
    [SymbolTable] draws the counter of a new scope from. *)
Record state := mk_state {
  asr : option asr_t;
  current_scope : SymbolTable;
  dflt_access : accessType;
  assgnd_access : StdMap.t accessType;
  current_module_dependencies : list string;
  is_interface : bool;
  current_procedure_args : list string;
  next_counter : nat
}.

Definition with_scope (st : state) (s : SymbolTable) : state :=
  mk_state (asr st) s (dflt_access st) (assgnd_access st)
    (current_module_dependencies st) (is_interface st)
    (current_procedure_args st) (next_counter st).

Definition with_dependencies (st : state) (d : list string) : state :=
  mk_state (asr st) (current_scope st) (dflt_access st) (assgnd_access st)
    d (is_interface st) (current_procedure_args st) (next_counter st).

(** [s->scope[k] = v] *)
Definition scope_set (s : SymbolTable) (k : string) (v : symbol_t)
    : SymbolTable :=
  mk_SymbolTable (StdMap.set k v (scope s)) (parent s) (counter s).

(** [current_scope->scope[k] = v] *)
Definition current_scope_set (st : state) (k : string) (v : symbol_t) : state :=
  with_scope st (scope_set (current_scope st) k v).

(** [al.make_new<SymbolTable>(parent_scope)] *)
Definition new_SymbolTable (st : state) : state :=
  mk_state (asr st)
    (mk_SymbolTable [] (Some (current_scope st)) (next_counter st))
    (dflt_access st) (assgnd_access st) (current_module_dependencies st)
    (is_interface st) (current_procedure_args st) (S (next_counter st)).

(** The beginning of [visit_Subroutine]: the new scope, and the names
    of the dummy arguments recorded in [current_procedure_args]. *)
Definition enter_Subroutine (x : AST.Subroutine_t) (st : state) : state :=
  let st1 := new_SymbolTable st in
  mk_state (asr st1) (current_scope st1) (dflt_access st1)
    (assgnd_access st1) (current_module_dependencies st1)
    (is_interface st1)
    (current_procedure_args st1 ++ AST.Subroutine_args x)
    (next_counter st1).

(** The loop of [visit_Subroutine] that makes a [Var] of every dummy
    argument, which must be declared in the scope of the subroutine. *)
Definition convert_arguments (loc : Location) (args : list string)
    (s : SymbolTable) : outcome (list expr_t) :=
  mapM (fun arg_s =>
          match StdMap.find arg_s (scope s) with
          | None =>
              Throw (SemanticError
                ("Dummy argument '" ++ arg_s ++ "' not defined") loc)
          | Some var => Ok (Var_t var)
          end) args.

(** [visit_Subroutine].  [visit_body] stands for the two loops over
    [x.m_decl] and [x.m_contains], which run in the new scope. *)
Definition visit_Subroutine (x : AST.Subroutine_t)
    (visit_body : state -> outcome state) (st : state) : outcome state :=
  let s_access := dflt_access st in
  st <- visit_body (enter_Subroutine x st) ;;
  args <- convert_arguments (AST.Subroutine_loc x) (AST.Subroutine_args x)
            (current_scope st) ;;
  let sym_name := AST.Subroutine_name x in
  let s_access :=
    match StdMap.find sym_name (assgnd_access st) with
    | Some a => a
    | None => s_access
    end in
  let deftype := if is_interface st then Interface else Implementation in
  let sub :=
    Subroutine_t (current_scope st) (AST.Subroutine_name x) args
      Source s_access deftype in
  parent_scope <- deref (parent (current_scope st)) ;;
  _ <- match StdMap.find sym_name (scope parent_scope) with
       | Some f1 =>
           match f1 with
           | Subroutine_t _ _ _ f2_abi _ _ =>
               match f2_abi with
               | Interactive => Ok tt (* Previous declaration will be shadowed *)
               | _ => Throw (SemanticError "Subroutine already defined"
                               (AST.Subroutine_loc x))
               end
           | _ => Undefined
           end
       | None => Ok tt
       end ;;
  Ok (mk_state (Some (symbol sub)) (scope_set parent_scope sym_name sub)
        (dflt_access st) (assgnd_access st) (current_module_dependencies st)
        (is_interface st) [] (next_counter st)).

(** [visit_Declaration], the declaration of one name [sym] by a
    statement with a type ([x.m_vartype != nullptr]): the test on the
    name, then [make_variable], which stands for the part of the loop
    body that reads the attributes, the dimensions, the type and the
    initializer and builds the [Variable], then the entry in the scope. *)
Definition visit_Declaration_sym (loc : Location) (sym : string)
    (make_variable : state -> outcome symbol_t) (st : state) : outcome state :=
  if StdMap.mem sym (scope (current_scope st)) then
    match parent (current_scope st) with
    | Some _ =>
        (* re-declaring a global scope variable is allowed
           Otherwise raise an error *)
        Throw (SemanticError "Symbol already declared" loc)
    | None =>
        v <- make_variable st ;;
        Ok (current_scope_set st sym v)
    end
  else
    v <- make_variable st ;;
    Ok (current_scope_set st sym v).

Section Loader.
Context `{ModuleLoader}.

(** The part of [visit_FuncCallOrArray] that finds the symbol [v] of the
    function, loading the module of an intrinsic procedure on demand. *)
Definition visit_FuncCallOrArray_symbol (x : AST.FuncCallOrArray_t)
    (st : state) : outcome (symbol_t * state) :=
  let var_name := AST.m_func x in
  match resolve_symbol (current_scope st) var_name with
  | Some v => Ok (v, st)
  | None =>
      let remote_sym := to_lower var_name in
      match StdMap.find remote_sym intrinsic_procedures with
      | Some module_name =>
          m <- load_module (parent (current_scope st)) module_name
                 (AST.FuncCallOrArray_loc x) true ;;
          match m with
          | Module_t m_symtab m_name _ _ =>
              match resolve_symbol m_symtab remote_sym with
              | None =>
                  Throw (SemanticError
                    ("The symbol '" ++ remote_sym
                     ++ "' not found in the module '" ++ module_name ++ "'")
                    (AST.FuncCallOrArray_loc x))
              | Some t =>
                  match t with
                  | Function_t _ mfn_name _ _ _ _ _ =>
                      let fn :=
                        ExternalSymbol_t mfn_name t m_name mfn_name Private in
                      let st := current_scope_set st mfn_name fn in
                      (* Add the module [m] to current module dependencies *)
                      Ok (fn, with_dependencies st
                                (push_back_if_absent
                                   (current_module_dependencies st) m_name))
                  | _ => Undefined
                  end
              end
          | _ => Undefined
          end
      | None =>
          Throw (SemanticError
            ("Function '" ++ var_name ++ "' not found"
             ++ " or not implemented yet (if it is intrinsic)")
            (AST.FuncCallOrArray_loc x))
      end
  end.

(** [visit_FuncCallOrArray]; [visit_expr_list] lowers the arguments. *)
Definition visit_FuncCallOrArray (x : AST.FuncCallOrArray_t)
    (visit_expr_list : list AST.expr_t -> state -> outcome (list expr_t * state))
    (st : state) : outcome state :=
  '(v, st) <- visit_FuncCallOrArray_symbol x st ;;
  '(args, st) <- visit_expr_list (AST.FuncCallOrArray_args x) st ;;
  match symbol_get_past_external v with
  | Function_t _ _ _ m_return_var _ _ _ =>
      type <- deref (EXPR2VAR_type m_return_var) ;;
      Ok (mk_state (Some (expr (FunctionCall_t v args type None)))
            (current_scope st) (dflt_access st) (assgnd_access st)
            (current_module_dependencies st) (is_interface st)
            (current_procedure_args st) (next_counter st))
  | _ => Undefined
  end.

(** [use m]: one symbol of the module enters the current scope. *)
Definition visit_Use_all (m_name : string) (st : state)
    (item : string * symbol_t) : outcome state :=
  let ext name :=
    Ok (current_scope_set st name
          (ExternalSymbol_t name (snd item) m_name name (dflt_access st))) in
  match snd item with
  | Subroutine_t _ name _ _ _ _ => ext name
  | Function_t _ name _ _ _ _ _ => ext name
  | GenericProcedure_t name _ _ => ext name
  | Variable_t name _ _ _ _ _ _ _ _ => ext name
  | _ =>
      Throw (LFortranException
        ("'" ++ fst item ++ "' is not supported yet for declaring with use."))
  end.

(** [use m, only: ...]: one listed symbol enters the current scope. *)
Definition visit_Use_only (loc : Location) (msym : string)
    (m_symtab : SymbolTable) (m_name : string) (st : state)
    (u : AST.UseSymbol_t) : outcome state :=
  let remote_sym := AST.m_sym u in
  let local_sym :=
    match AST.m_rename u with
    | Some r => r
    | None => remote_sym
    end in
  match resolve_symbol m_symtab remote_sym with
  | None =>
      Throw (SemanticError
        ("The symbol '" ++ remote_sym ++ "' not found in the module '"
         ++ msym ++ "'") loc)
  | Some t =>
      let defined := StdMap.mem local_sym (scope (current_scope st)) in
      let guarded (msg : string) (sym : symbol_t) :=
        if defined then Throw (SemanticError msg loc)
        else Ok (current_scope_set st local_sym sym) in
      match t with
      | Subroutine_t _ msub_name _ _ _ _ =>
          guarded "Subroutine already defined"
            (ExternalSymbol_t local_sym t m_name msub_name (dflt_access st))
      | GenericProcedure_t gp_name _ _ =>
          guarded "Symbol already defined"
            (ExternalSymbol_t local_sym t m_name gp_name (dflt_access st))
      | ExternalSymbol_t es_name es_external es_module_name
          es_original_name es_access =>
          (* Repack ExternalSymbol to point directly to the original symbol *)
          guarded "Symbol already defined"
            (ExternalSymbol_t es_name es_external es_module_name
               es_original_name es_access)
      | Function_t _ mfn_name _ _ _ _ _ =>
          guarded "Function already defined"
            (ExternalSymbol_t local_sym t m_name mfn_name (dflt_access st))
      | Variable_t mv_name _ _ _ _ _ _ _ _ =>
          guarded "Variable already defined"
            (ExternalSymbol_t local_sym t m_name mv_name (dflt_access st))
      | DerivedType_t _ mv_name _ _ =>
          guarded "Derived type already defined"
            (ExternalSymbol_t local_sym t m_name mv_name (dflt_access st))
      | _ =>
          Throw (LFortranException
            "Only Subroutines, Functions, Variables and Derived supported in 'use'")
      end
  end.

(** The module a [use] statement names: found from the parent scope, or
    loaded. *)
Definition visit_Use_module (x : AST.Use_t) (st : state) : outcome symbol_t :=
  let msym := AST.m_module x in
  parent_scope <- deref (parent (current_scope st)) ;;
  match resolve_symbol parent_scope msym with
  | Some t => Ok t
  | None => load_module (Some parent_scope) msym (AST.Use_loc x) false
  end.

Definition visit_Use (x : AST.Use_t) (st : state) : outcome state :=
  let msym := AST.m_module x in
  let st :=
    with_dependencies st
      (push_back_if_absent (current_module_dependencies st) msym) in
  t <- visit_Use_module x st ;;
  match t with
  | Module_t m_symtab m_name _ _ =>
      match AST.m_symbols x with
      | [] =>
          (* Import all symbols from the module, e.g.: use a *)
          foldM (visit_Use_all m_name) (scope m_symtab) st
      | symbols =>
          (* Only import individual symbols from the module, e.g.:
             use a, only: x, y, z *)
          foldM (visit_Use_only (AST.Use_loc x) msym m_symtab m_name)
            symbols st
      end
  | _ =>
      Throw (SemanticError ("The symbol '" ++ msym ++ "' must be a module")
               (AST.Use_loc x))
  end.

(** [visit_Module].  [Vec::reserve] is not part of the sources; it is
    read as starting the vector of dependencies anew, the vector having
    no other initialisation.
    [visit_rest] stands for the loops over [x.m_decl] and
    [x.m_contains] and for [add_generic_procedures] and
    [add_class_procedures], which run in the scope of the module. *)
Definition visit_Module (x : AST.Module_t)
    (visit_rest : state -> outcome state) (st : state) : outcome state :=
  let st := with_dependencies (new_SymbolTable st) [] in
  st <- foldM (fun st u => visit_Use u st) (AST.m_use x) st ;;
  st <- visit_rest st ;;
  let m :=
    Module_t (current_scope st) (AST.Module_name x)
      (current_module_dependencies st) false in
  let sym_name := AST.Module_name x in
  parent_scope <- deref (parent (current_scope st)) ;;
  if StdMap.mem sym_name (scope parent_scope) then
    Throw (SemanticError "Module already defined" (AST.Module_loc x))
  else
    Ok (mk_state (Some (symbol m)) (scope_set parent_scope sym_name m)
          (dflt_access st) (assgnd_access st)
          (current_module_dependencies st) (is_interface st)
          (current_procedure_args st) (next_counter st)).

End Loader.
End SymbolTableVisitor.

(* ================================================================== *)
(** * [class BodyVisitor] (pass 2) *)
(* ================================================================== *)

Module BodyVisitor.
Import ASR ASRUtils Utils ImplicitCastRules.
Local Open Scope string_scope.

(** The members of the visitor the functions below read or write. *)
Record state := mk_state {
  tmp : option asr_t;
  current_scope : SymbolTable;
  current_module : option symbol_t
}.

Definition set_tmp (st : state) (a : option asr_t) : state :=
  mk_state a (current_scope st) (current_module st).

Definition set_current_scope (st : state) (s : SymbolTable) : state :=
  mk_state (tmp st) s (current_module st).

(** [LFortran::ASRUtils::EXPR(tmp)], a down-cast. *)
Definition EXPR (a : option asr_t) : outcome expr_t :=
  match a with
  | Some (expr e) => Ok e
  | _ => Undefined
  end.

(** Modelled from the spec: [BigInt::is_int_ptr] is missing from the
    sources; integer literals above 2^62-1 are the ones rejected. *)
Definition is_int_ptr (n : Z) : bool := Z.ltb (2 ^ 62 - 1) n.

Definition resolve_variable (loc : Location) (id : string) (st : state)
    : outcome asr_t :=
  match resolve_symbol (current_scope st) id with
  | None => Throw (SemanticError ("Variable '" ++ id ++ "' not declared") loc)
  | Some v => Ok (expr (Var_t v))
  end.

Section Expressions.
Context `{KindOf} `{Libm}.

(** [visit_expr] on the expressions of the AST above; each case is the
    visitor of that node ([visit_Num], [visit_Name] for a name without
    member part, [visit_Parenthesis], [visit_BinOp], [visit_Compare],
    [visit_BoolOp]). *)
Fixpoint visit_expr (x : AST.expr_t) (st : state) : outcome state :=
  match x with
  | AST.Num_t loc m_n =>
      let type := mk_ttype Integer 4 EmptyString 0 in
      if is_int_ptr m_n then
        Throw (SemanticError
          "Integer constants larger than 2^62-1 are not implemented yet" loc)
      else Ok (set_tmp st (Some (expr (ConstantInteger_t m_n type))))
  | AST.Name_t loc m_id =>
      a <- resolve_variable loc m_id st ;;
      Ok (set_tmp st (Some a))
  | AST.Parenthesis_t _ m_operand => visit_expr m_operand st
  | AST.BinOp_t loc m_left m_op m_right =>
      st <- visit_expr m_left st ;;
      left <- EXPR (tmp st) ;;
      st <- visit_expr m_right st ;;
      right <- EXPR (tmp st) ;;
      a <- CommonVisitorMethods.visit_BinOp loc m_op left right ;;
      Ok (set_tmp st (Some (expr a)))
  | AST.Compare_t loc m_left m_op m_right =>
      st <- visit_expr m_left st ;;
      left <- EXPR (tmp st) ;;
      st <- visit_expr m_right st ;;
      right <- EXPR (tmp st) ;;
      a <- CommonVisitorMethods.visit_Compare loc m_op left right ;;
      Ok (set_tmp st (Some (expr a)))
  | AST.BoolOp_t loc m_left m_op m_right =>
      st <- visit_expr m_left st ;;
      left <- EXPR (tmp st) ;;
      st <- visit_expr m_right st ;;
      right <- EXPR (tmp st) ;;
      a <- CommonVisitorMethods.visit_BoolOp loc m_op left right ;;
      Ok (set_tmp st (Some (expr a)))
  end.

End Expressions.

Definition types_equal (a b : ttype_t) : bool :=
  ttypeType_eqb (type a) (type b).

(** The loop of [argument_types_match] over the actual and the formal
    arguments, which have the same number of elements. *)
Fixpoint argument_types_match_loop (args sub_args : list expr_t)
    : outcome bool :=
  match args, sub_args with
  | a :: args', f :: sub_args' =>
      arg2 <- deref (EXPR2VAR_type f) ;;
      arg1 <- deref (expr_type a) ;;
      if negb (types_equal arg1 arg2) then Ok false
      else argument_types_match_loop args' sub_args'
  | _, _ => Ok true
  end.

(** [argument_types_match(args, sub)], with [sub_args] for [sub.m_args]. *)
Definition argument_types_match (args sub_args : list expr_t) : outcome bool :=
  if Nat.eqb (List.length args) (List.length sub_args)
  then argument_types_match_loop args sub_args
  else Ok false.

(** The loop of [select_generic_procedure] from index [i] on. *)
Fixpoint select_generic_procedure_from (i : nat) (args : list expr_t)
    (procs : list symbol_t) (loc : Location) : outcome nat :=
  match procs with
  | [] => Throw (SemanticError "Arguments do not match" loc)
  | p :: procs' =>
      match p with
      | Subroutine_t _ _ sub_args _ _ _ =>
          b <- argument_types_match args sub_args ;;
          if b then Ok i
          else select_generic_procedure_from (S i) args procs' loc
      | _ =>
          Throw (SemanticError
            "Only Subroutine supported in generic procedure" loc)
      end
  end.

(** [select_generic_procedure(args, p, loc)], with [procs] for
    [p.m_procs]. *)
Definition select_generic_procedure (args : list expr_t)
    (procs : list symbol_t) (loc : Location) : outcome nat :=
  select_generic_procedure_from 0 args procs loc.

Section Statements.
Context `{KindOf} `{ModuleLoader}.

(** The visitor of expressions, for the whole of the expression
    language, and [resolve_deriv_type_proc], which finds the procedure of
    a call through a member and moves the current scope. *)
Variable visit_expr : AST.expr_t -> state -> outcome state.
Variable resolve_deriv_type_proc :
  Location -> string -> string -> state -> outcome (option symbol_t * state).

Definition visit_Associate (x : AST.Associate_t) (st : state)
    : outcome state :=
  st <- visit_expr (AST.Associate_target x) st ;;
  target <- EXPR (tmp st) ;;
  st <- visit_expr (AST.Associate_value x) st ;;
  value <- EXPR (tmp st) ;;
  target_type <- deref (expr_type target) ;;
  value_type <- deref (expr_type value) ;;
  let is_target_pointer := is_pointer target_type in
  let is_value_pointer := is_pointer value_type in
  if negb (is_target_pointer && negb is_value_pointer) then
    Throw (SemanticError
      "Only a pointer variable can be associated with a non-pointer variable."
      (AST.Associate_loc x))
  else if is_same_type_pointer target_type value_type then
    Ok (set_tmp st (Some (stmt (Associate_t target value))))
  else Ok st.

Definition visit_Assignment (x : AST.Assignment_t) (st : state)
    : outcome state :=
  st <- visit_expr (AST.Assignment_target x) st ;;
  target <- EXPR (tmp st) ;;
  target_type <- deref (expr_type target) ;;
  if negb (exprType_eqb (expr_tag target) Var) &&
     negb (exprType_eqb (expr_tag target) ArrayRef) &&
     negb (exprType_eqb (expr_tag target) DerivedRef)
  then
    Throw (SemanticError
      "The LHS of assignment can only be a variable or an array reference"
      (AST.Assignment_loc x))
  else
    st <- visit_expr (AST.Assignment_value x) st ;;
    value <- EXPR (tmp st) ;;
    value_type <- deref (expr_type value) ;;
    if exprType_eqb (expr_tag target) Var && negb (is_array target_type) &&
       exprType_eqb (expr_tag value) ConstantArray
    then
      Throw (SemanticError
        "ArrayInitalizer expressions can only be assigned array references"
        (AST.Assignment_loc x))
    else
      value <-
        (if exprType_eqb (expr_tag target) Var ||
            exprType_eqb (expr_tag target) ArrayRef
         then set_converted_value (AST.Assignment_loc x) value
                value_type target_type
         else Ok value) ;;
      Ok (set_tmp st (Some (stmt (Assignment_t target value)))).

Fixpoint visit_expr_list (ast_list : list AST.expr_t) (st : state)
    : outcome (list expr_t * state) :=
  match ast_list with
  | [] => Ok ([], st)
  | a :: ast_list' =>
      st <- visit_expr a st ;;
      e <- EXPR (tmp st) ;;
      '(asr_list, st) <- visit_expr_list ast_list' st ;;
      Ok (e :: asr_list, st)
  end.

Definition visit_SubroutineCall (x : AST.SubroutineCall_t) (st : state)
    : outcome state :=
  let loc := AST.SubroutineCall_loc x in
  let sub_name := AST.m_name x in
  '(original_sym, st) <-
    match AST.m_member x with
    | [member] => resolve_deriv_type_proc loc sub_name member st
    | _ => Ok (resolve_symbol (current_scope st) sub_name, st)
    end ;;
  match original_sym with
  | None =>
      Throw (SemanticError ("Subroutine '" ++ sub_name ++ "' not declared") loc)
  | Some original_sym =>
      '(args, st) <- visit_expr_list (AST.m_args x) st ;;
      match original_sym with
      | Subroutine_t _ _ _ _ _ _ =>
          Ok (set_tmp st
                (Some (stmt (SubroutineCall_t (Some original_sym) None args))))
      | GenericProcedure_t _ p_procs _ =>
          idx <- select_generic_procedure args p_procs loc ;;
          final_sym <- deref (nth_error p_procs idx) ;;
          Ok (set_tmp st
                (Some (stmt (SubroutineCall_t (Some final_sym)
                               (Some original_sym) args))))
      | ClassProcedure_t _ p_proc_name _ _ =>
          let final_sym := resolve_symbol (current_scope st) p_proc_name in
          Ok (set_tmp st
                (Some (stmt (SubroutineCall_t final_sym
                               (Some original_sym) args))))
      | ExternalSymbol_t p_name p_external p_module_name _ _ =>
          match p_external with
          | GenericProcedure_t _ g_procs _ =>
              idx <- select_generic_procedure args g_procs loc ;;
              final_sym <- deref (nth_error g_procs idx) ;;
              if negb (is_Subroutine final_sym) then
                Throw (SemanticError
                  "ExternalSymbol must point to a Subroutine" loc)
              else
                (* We mangle the new ExternalSymbol's local name as:
                   generic_procedure_local_name @
                     specific_procedure_remote_name *)
                let local_sym := p_name ++ "@" ++ symbol_name final_sym in
                match StdMap.find local_sym (scope (current_scope st)) with
                | None =>
                    let sub :=
                      ExternalSymbol_t local_sym final_sym p_module_name
                        (symbol_name final_sym) Private in
                    let st :=
                      set_current_scope st
                        (SymbolTableVisitor.scope_set (current_scope st)
                           local_sym sub) in
                    Ok (set_tmp st
                          (Some (stmt (SubroutineCall_t (Some sub)
                                         (Some original_sym) args))))
                | Some final_sym =>
                    Ok (set_tmp st
                          (Some (stmt (SubroutineCall_t (Some final_sym)
                                         (Some original_sym) args))))
                end
          | _ =>
              if negb (is_Subroutine p_external) then
                Throw (SemanticError
                  "ExternalSymbol must point to a Subroutine" loc)
              else
                Ok (set_tmp st
                      (Some (stmt (SubroutineCall_t (Some original_sym)
                                     None args))))
          end
      | _ => Throw (SemanticError "Symbol type not supported" loc)
      end
  end.

(** The part of [visit_FuncCallOrArray] that finds the symbol [v] when
    the name is not declared and is the name of an intrinsic procedure:
    the module of the procedure is loaded, an external symbol enters the
    current scope and the module enters the dependencies of the current
    module.  [otherwise] stands for the two remaining branches, which
    declare [present] or an elementary function in the global scope. *)
Definition visit_FuncCallOrArray_symbol (x : AST.FuncCallOrArray_t)
    (otherwise : state -> outcome (symbol_t * state)) (st : state)
    : outcome (symbol_t * state) :=
  let var_name := AST.m_func x in
  match resolve_symbol (current_scope st) var_name with
  | Some v => Ok (v, st)
  | None =>
      let remote_sym := to_lower var_name in
      match StdMap.find remote_sym intrinsic_procedures with
      | Some module_name =>
          parent_scope <- deref (parent (current_scope st)) ;;
          let load_scope :=
            match parent parent_scope with
            | Some s => Some s
            | None => Some parent_scope
            end in
          m <- load_module load_scope module_name
                 (AST.FuncCallOrArray_loc x) true ;;
          match m with
          | Module_t m_symtab m_name _ _ =>
              match resolve_symbol m_symtab remote_sym with
              | None =>
                  Throw (SemanticError
                    ("The symbol '" ++ remote_sym
                     ++ "' not found in the module '" ++ module_name ++ "'")
                    (AST.FuncCallOrArray_loc x))
              | Some t =>
                  match t with
                  | Function_t _ mfn_name _ _ _ _ _ =>
                      let fn :=
                        ExternalSymbol_t mfn_name t m_name mfn_name Private in
                      let st :=
                        set_current_scope st
                          (SymbolTableVisitor.scope_set (current_scope st)
                             mfn_name fn) in
                      match current_module st with
                      | Some (Module_t cm_symtab cm_name cm_dependencies cm_l) =>
                          (* Add the module [m] to current module dependencies *)
                          Ok (fn,
                              mk_state (tmp st) (current_scope st)
                                (Some (Module_t cm_symtab cm_name
                                         (push_back_if_absent cm_dependencies
                                            m_name) cm_l)))
                      | Some _ => Undefined
                      | None => Ok (fn, st)
                      end
                  | _ => Undefined
                  end
              end
          | _ => Undefined
          end
      | None => otherwise st
      end
  end.

End Statements.
End BodyVisitor.

(* ================================================================== *)
(** * Vocabulary of the properties *)
(* ================================================================== *)

Import ASR ASRUtils Utils ImplicitCastRules CommonVisitorMethods.
Local Open Scope string_scope.
Unset Implicit Arguments.

(** The plain tag a tag belongs to: its type family. *)
Definition family (t : ttypeType) : ttypeType :=
  match t with
  | Integer | IntegerPointer => Integer
  | Real | RealPointer => Real
  | Complex | ComplexPointer => Complex
  | Character | CharacterPointer => Character
  | Logical | LogicalPointer => Logical
  | Derived | DerivedPointer => Derived
  end.

(** The priority [find_conversion_candidate] reads for a type. *)
Definition priority (t : ttype_t) : Z :=
  type_priority_at (ttypeType_index (type t) mod (num_types / 2)).

(** The first test of [set_converted_value]: the same tag, or a plain
    type and the pointer to it. *)
Definition same_family_pair (s d : ttype_t) : bool :=
  ttypeType_eqb (type s) (type d) || is_same_type_pointer s d.

(** [set_converted_value] returns before it reads the rule table. *)
Definition returns_early `{KindOf} (s d : ttype_t) : bool :=
  same_family_pair s d
  && Z.eqb (extract_kind_from_ttype_t s) (extract_kind_from_ttype_t d).

(** The two types change places: a pointer source and a plain
    destination of one family. *)
Definition swapped (s d : ttype_t) : bool :=
  same_family_pair s d && (is_pointer s && negb (is_pointer d)).

(** [x] is in the range of [int64_t]. *)
Definition in_int64 (x : Z) : Prop := int64_min <= x <= int64_max.

(** The exact result of an integer operation other than [**]; the
    quotient is the one of Fortran and C++, truncated towards zero. *)
Definition exact_result (op : AST.operatorType) (l r : Z) : option Z :=
  match op with
  | AST.Add => Some (l + r)
  | AST.Sub => Some (l - r)
  | AST.Mul => Some (l * r)
  | AST.Div => Some (Z.quot l r)
  | AST.Pow => None
  end.

(** The operator of the ASR for an operator of the AST. *)
Definition asr_binop (op : AST.operatorType) : binopType :=
  match op with
  | AST.Add => Add
  | AST.Sub => Sub
  | AST.Mul => Mul
  | AST.Div => Div
  | AST.Pow => Pow
  end.

Definition asr_cmpop (op : AST.cmpopType) : cmpopType :=
  match op with
  | AST.Eq => Eq
  | AST.Gt => Gt
  | AST.GtE => GtE
  | AST.Lt => Lt
  | AST.LtE => LtE
  | AST.NotEq => NotEq
  end.

(** The comparisons [visit_Compare] rejects: neither operand is of type
    Integer or Real, they are not both of type Complex, and the operator
    is neither [.eq.] nor [.neq.]. *)
Definition compare_rejected (left_type right_type : ttype_t)
    (op : AST.cmpopType) : Prop :=
  (type left_type <> Real /\ type left_type <> Integer) /\
  (type right_type <> Real /\ type right_type <> Integer) /\
  ~ (type left_type = Complex /\ type right_type = Complex) /\
  op <> AST.Eq /\ op <> AST.NotEq.



(** No external symbol of the scope points at an external symbol. *)
Definition unchained (s : symbol_t) : Prop :=
  match s with
  | ExternalSymbol_t _ ext _ _ _ => is_ExternalSymbol ext = false
  | _ => True
  end.

Definition scope_unchained (sc : list (string * symbol_t)) : Prop :=
  Forall (fun b => unchained (snd b)) sc.

(** The same for a scope and the scopes above it. *)
Fixpoint chain_unchained (s : SymbolTable) : Prop :=
  match s with
  | mk_SymbolTable sc p _ =>
      scope_unchained sc /\
      match p with
      | Some s' => chain_unchained s'
      | None => True
      end
  end.

(* ================================================================== *)
(** * Values for the examples *)
(* ================================================================== *)

(** The parameters, for the examples: the kind is the one the type node
    carries, and the power is the exact one. *)
#[local] Instance kind_of_node : KindOf :=
  {| extract_kind_from_ttype_t := ASR.m_kind |}.

#[local] Instance libm_exact : Libm :=
  {| std_pow := Z.pow |}.

Definition loc0 : Location := mk_Location 1 1 1 1.

Definition integer4 : ttype_t := mk_ttype Integer 4 EmptyString 0.
Definition integer8 : ttype_t := mk_ttype Integer 8 EmptyString 0.
Definition real4 : ttype_t := mk_ttype Real 4 EmptyString 0.
Definition character4 : ttype_t := mk_ttype Character 4 EmptyString 0.
Definition real4_pointer : ttype_t := mk_ttype RealPointer 4 EmptyString 0.

Definition variable (name : string) (ty : ttype_t) : symbol_t :=
  Variable_t name intent_local None None Default ty Source Public Required.

(** [program p; integer :: i; i = 2 + 3; end program]: the scope of the
    program in pass 2, and the assignment. *)
Definition global_scope_p : SymbolTable :=
  mk_SymbolTable [] None 0.
Definition scope_p : SymbolTable :=
  mk_SymbolTable [("i", variable "i" integer4)] (Some global_scope_p) 1.
Definition state_p : BodyVisitor.state :=
  BodyVisitor.mk_state None scope_p None.
Definition assignment_p : AST.Assignment_t :=
  AST.mk_Assignment loc0 (AST.Name_t loc0 "i")
    (AST.BinOp_t loc0 (AST.Num_t loc0 2) AST.Add (AST.Num_t loc0 3)).

(** [type t; real :: x; end type; type(t) :: s; real :: a;
    character :: c; real, pointer :: p; integer :: i]: the scope of a
    unit with these declarations. *)
Definition derived_t : ttype_t := mk_ttype Derived 4 "t" 0.
Definition member_x : symbol_t := variable "x" real4.
Definition scope_q : SymbolTable :=
  mk_SymbolTable
    [("a", variable "a" real4); ("c", variable "c" character4);
     ("i", variable "i" integer4); ("p", variable "p" real4_pointer);
     ("s", variable "s" derived_t)]
    (Some global_scope_p) 1.
Definition state_q : BodyVisitor.state :=
  BodyVisitor.mk_state None scope_q None.

(** A visitor of expressions for the examples: the name written
    [s%x] is lowered to the reference to the member [x] of [s], as
    [visit_Name] lowers a name with one member; every other expression
    goes through [visit_expr]. *)
Definition visit_expr_q (x : AST.expr_t) (st : BodyVisitor.state)
    : outcome BodyVisitor.state :=
  match x with
  | AST.Name_t _ "s%x" =>
      Ok (BodyVisitor.set_tmp st
            (Some (expr (DerivedRef_t (Var_t (variable "s" derived_t))
                           member_x real4 None))))
  | _ => BodyVisitor.visit_expr x st
  end.

(** [s%x = 1], [a = 1] and [p => i]. *)
Definition assignment_member : AST.Assignment_t :=
  AST.mk_Assignment loc0 (AST.Name_t loc0 "s%x") (AST.Num_t loc0 1).
Definition assignment_real : AST.Assignment_t :=
  AST.mk_Assignment loc0 (AST.Name_t loc0 "a") (AST.Num_t loc0 1).
Definition associate_p_i : AST.Associate_t :=
  AST.mk_Associate loc0 (AST.Name_t loc0 "p") (AST.Name_t loc0 "i").
Definition associate_p_a : AST.Associate_t :=
  AST.mk_Associate loc0 (AST.Name_t loc0 "p") (AST.Name_t loc0 "a").

(** Two subroutines, [sr(x)] with a real [x] and [si(x)] with an
    [integer(8)] [x], and a function [f()]. *)
Definition sub_real : symbol_t :=
  Subroutine_t (mk_SymbolTable [("x", variable "x" real4)] None 2) "sr"
    [Var_t (variable "x" real4)] Source Public Implementation.
Definition sub_integer8 : symbol_t :=
  Subroutine_t (mk_SymbolTable [("x", variable "x" integer8)] None 3) "si"
    [Var_t (variable "x" integer8)] Source Public Implementation.

(** [module m0] defines the subroutine [s0]; [module m1] has
    [use m0, only: q => s0], so that its scope holds an external symbol;
    a program has [use m1, only: r => q]. *)
Definition sub_s0 : symbol_t :=
  Subroutine_t (mk_SymbolTable [] None 5) "s0" [] Source Public
    Implementation.
Definition module_m1 : symbol_t :=
  Module_t
    (mk_SymbolTable [("q", ExternalSymbol_t "q" sub_s0 "m0" "s0" Public)]
       None 6)
    "m1" ["m0"] false.
Definition global_scope_m : SymbolTable :=
  mk_SymbolTable [("m1", module_m1)] None 0.
Definition state_use : SymbolTableVisitor.state :=
  SymbolTableVisitor.mk_state None
    (mk_SymbolTable [] (Some global_scope_m) 7) Public [] [] false [] 8.
Definition use_m1_only_r : AST.Use_t :=
  AST.mk_Use loc0 "m1" [AST.mk_UseSymbol "q" (Some "r")].

(** A module loader for the examples.  It knows the module
    [lfortran_intrinsic_array] with the function [size]. *)
Definition function_size : symbol_t :=
  Function_t (mk_SymbolTable [("size", variable "size" integer4)] None 9)
    "size" [] (Var_t (variable "size" integer4)) Source Public Implementation.
Definition module_intrinsic_array : symbol_t :=
  Module_t (mk_SymbolTable [("size", function_size)] None 10)
    "lfortran_intrinsic_array" [] true.

#[local] Instance loader_intrinsic_array : ModuleLoader :=
  {| load_module := fun _ name loc _ =>
       if String.eqb name "lfortran_intrinsic_array"
       then Ok module_intrinsic_array
       else Throw (SemanticError "Module not found" loc) |}.

(** The global scope with the subroutine [s0] defined in it, and a
    second definition [subroutine s0()] with an empty body. *)
Definition state_root : SymbolTableVisitor.state :=
  SymbolTableVisitor.mk_state None
    (mk_SymbolTable [("s0", sub_s0)] None 0) Public [] [] false [] 1.
Definition subroutine_s0 : AST.Subroutine_t :=
  AST.mk_Subroutine loc0 "s0" [].

(** A subroutine [s0] left by an interactive session, and the scope of
    a unit below the global scope that holds it. *)
Definition sub_s0_interactive : symbol_t :=
  Subroutine_t (mk_SymbolTable [] None 5) "s0" [] Interactive Public
    Implementation.
Definition state_inner : SymbolTableVisitor.state :=
  SymbolTableVisitor.mk_state None
    (mk_SymbolTable [("s0", sub_s0_interactive)] (Some global_scope_p) 1)
    Public [] [] false [] 2.

(** [size(...)], and [module m2] with [use m1] written twice. *)
Definition call_size : AST.FuncCallOrArray_t :=
  AST.mk_FuncCallOrArray loc0 "size" [].
Definition module_m2 : AST.Module_t :=
  AST.mk_Module loc0 "m2"
    [AST.mk_Use loc0 "m1" [AST.mk_UseSymbol "q" None];
     AST.mk_Use loc0 "m1" [AST.mk_UseSymbol "q" (Some "r")]].
Definition state_global_m : SymbolTableVisitor.state :=
  SymbolTableVisitor.mk_state None global_scope_m Public [] [] false [] 8.

(* ================================================================== *)
(** * Vocabulary of the further properties *)
(* ================================================================== *)

(** The type an operator node gets: the type of the operand of higher
    priority, the left one on a tie. *)
Definition operator_type (left_type right_type : ttype_t) : ttype_t :=
  if Z.geb (priority left_type) (priority right_type)
  then left_type else right_type.

(** The plain numeric tags. *)
Definition numeric (t : ttypeType) : Prop :=
  t = Integer \/ t = Real \/ t = Complex.

(** The symbol a call through [call name(args)] starts from. *)
Definition call_symbol
    (resolve_deriv_type_proc :
       Location -> string -> string -> BodyVisitor.state ->
       outcome (option symbol_t * BodyVisitor.state))
    (x : AST.SubroutineCall_t) (st : BodyVisitor.state)
    : outcome (option symbol_t * BodyVisitor.state) :=
  match AST.m_member x with
  | [member] =>
      resolve_deriv_type_proc (AST.SubroutineCall_loc x) (AST.m_name x)
        member st
  | _ => Ok (resolve_symbol (BodyVisitor.current_scope st) (AST.m_name x), st)
  end.


(* ================================================================== *)
(** * Further values for the examples *)
(* ================================================================== *)

(** A unit that has [use m, only: g], [g] being a generic procedure of
    the module [m] with the specific subroutines [sr] and [si], and the
    calls [call g(1)] and [call g(2)]. *)
Definition generic_g : symbol_t :=
  GenericProcedure_t "g" [sub_real; sub_integer8] Public.
Definition external_g : symbol_t :=
  ExternalSymbol_t "g" generic_g "m" "g" Public.
Definition scope_call : SymbolTable :=
  mk_SymbolTable [("g", external_g)] (Some global_scope_p) 1.
Definition state_call : BodyVisitor.state :=
  BodyVisitor.mk_state None scope_call None.
Definition call_g_1 : AST.SubroutineCall_t :=
  AST.mk_SubroutineCall loc0 "g" [] [AST.Num_t loc0 1].
Definition call_g_2 : AST.SubroutineCall_t :=
  AST.mk_SubroutineCall loc0 "g" [] [AST.Num_t loc0 2].
Definition no_member_call (loc : Location) (id derived_type_id : string)
    (st : BodyVisitor.state) : outcome (option symbol_t * BodyVisitor.state) :=
  Throw (SemanticError ("Variable '" ++ derived_type_id ++ "' not declared")
           loc).
Definition external_g_si : symbol_t :=
  ExternalSymbol_t "g@si" sub_integer8 "m" "si" Private.
Definition state_called : BodyVisitor.state :=
  BodyVisitor.mk_state
    (Some (stmt (SubroutineCall_t (Some external_g_si) (Some external_g)
                   [ConstantInteger_t 1 integer4])))
    (mk_SymbolTable [("g", external_g); ("g@si", external_g_si)]
       (Some global_scope_p) 1)
    None.


(* ================================================================== *)
(** * [class BodyVisitor]: bodies, deallocation and array constructors *)
(* ================================================================== *)

Module BodyUnits.
Import ASR ASRUtils Utils BodyVisitor.
Local Open Scope string_scope.

(** The statements of a body: those of [ASR.stmt_t], and the two nodes
    that list symbols to deallocate. *)
Inductive body_stmt_t :=
| Statement (s : stmt_t)
| ImplicitDeallocate_t (m_vars : list symbol_t)
| ExplicitDeallocate_t (m_vars : list symbol_t).

(** [create_implicit_deallocate]: the variables of the current scope
    that are allocatable and local, in the order of the keys, or the null
    pointer when there is none.  [ASR::intentType::Local] is the
    enumerator [intent_local] stands for. *)
Definition create_implicit_deallocate (st : state) : option body_stmt_t :=
  let del_syms :=
    flat_map (fun item : string * symbol_t =>
                match snd item with
                | Variable_t _ intent _ _ storage _ _ _ _ =>
                    match storage, intent with
                    | Allocatable, intent_local => [snd item]
                    | _, _ => []
                    end
                | _ => []
                end) (scope (current_scope st)) in
  match del_syms with
  | [] => None
  | _ => Some (ImplicitDeallocate_t del_syms)
  end.

(** [create_implicit_deallocate_subrout_call]: the loop over the
    arguments of the call from index [i] on; [sub_args] is
    [subrout->m_args], read at the index of the actual argument.
    [ASR::intentType::Out] is the enumerator [intent_out] stands for. *)
Fixpoint create_implicit_deallocate_subrout_call_from (i : nat)
    (args sub_args : list expr_t) : outcome (list symbol_t) :=
  match args with
  | [] => Ok []
  | a :: args' =>
      mine <-
        match a with
        | Var_t arg_var =>
            match symbol_get_past_external arg_var with
            | Variable_t _ _ _ _ var_storage _ _ _ _ =>
                orig_arg <- deref (nth_error sub_args i) ;;
                match orig_arg with
                | Var_t orig_arg_var =>
                    match symbol_get_past_external orig_arg_var with
                    | Variable_t _ orig_intent _ _ _ _ _ _ _ =>
                        match var_storage, orig_intent with
                        | Allocatable, intent_out => Ok [arg_var]
                        | _, _ => Ok []
                        end
                    | _ => Undefined
                    end
                | _ => Undefined
                end
            | _ => Ok []
            end
        | _ => Ok []
        end ;;
      rest <- create_implicit_deallocate_subrout_call_from (S i) args'
                sub_args ;;
      Ok (mine ++ rest)%list
  end.

Definition create_implicit_deallocate_subrout_call (x : stmt_t)
    : outcome (option body_stmt_t) :=
  match x with
  | SubroutineCall_t m_name _ m_args =>
      subrout_sym <- deref (option_map symbol_get_past_external m_name) ;;
      match subrout_sym with
      | Subroutine_t _ _ sub_args _ _ _ =>
          del_syms <- create_implicit_deallocate_subrout_call_from 0 m_args
                        sub_args ;;
          match del_syms with
          | [] => Ok None
          | _ => Ok (Some (ImplicitDeallocate_t del_syms))
          end
      | _ => Undefined
      end
  | _ => Undefined
  end.

Section Bodies.

(** The statements of the AST and their visitor, which leaves a
    statement of [ASR.stmt_t], or the null pointer, in [tmp]. *)
Variable AST_stmt_t : Type.
Variable visit_stmt : AST_stmt_t -> state -> outcome state.

(** The loop over [x.m_body] that [visit_Program], [visit_Subroutine]
    and [visit_Function] share. *)
Fixpoint visit_body_stmts (m_body : list AST_stmt_t)
    (body : list body_stmt_t) (st : state)
    : outcome (list body_stmt_t * state) :=
  match m_body with
  | [] => Ok (body, st)
  | s :: m_body' =>
      st <- visit_stmt s st ;;
      match tmp st with
      | Some a =>
          match a with
          | stmt tmp_stmt =>
              body <-
                match tmp_stmt with
                | SubroutineCall_t _ _ _ =>
                    impl_decl <- create_implicit_deallocate_subrout_call
                                   tmp_stmt ;;
                    match impl_decl with
                    | Some d => Ok (body ++ [d])%list
                    | None => Ok body
                    end
                | _ => Ok body
                end ;;
              visit_body_stmts m_body' (body ++ [Statement tmp_stmt])%list st
          | _ => Undefined
          end
      | None => visit_body_stmts m_body' body st
      end
  end.

(** The body of a unit: the loop, then the implicit deallocation of the
    local variables. *)
Definition visit_body (m_body : list AST_stmt_t) (st : state)
    : outcome (list body_stmt_t * state) :=
  '(body, st) <- visit_body_stmts m_body [] st ;;
  match create_implicit_deallocate st with
  | Some impl_del => Ok ((body ++ [impl_del])%list, st)
  | None => Ok (body, st)
  end.

End Bodies.

Section Expressions.

(** The visitor of expressions, and the location of a node of the ASR,
    which the nodes do not carry here. *)
Variable visit_expr : AST.expr_t -> state -> outcome state.
Variable expr_loc : expr_t -> Location.

(** [visit_Deallocate]: the loop over the arguments ([m_args[i].m_end]
    for every [i]). *)
Fixpoint visit_Deallocate_args (m_args : list AST.expr_t)
    (arg_vec : list symbol_t) (st : state)
    : outcome (list symbol_t * state) :=
  match m_args with
  | [] => Ok (arg_vec, st)
  | a :: m_args' =>
      st <- visit_expr a st ;;
      tmp_expr <- EXPR (tmp st) ;;
      let error :=
        SemanticError "Only an allocatable variable symbol can be deallocated."
          (expr_loc tmp_expr) in
      match tmp_expr with
      | Var_t tmp_sym =>
          match symbol_get_past_external tmp_sym with
          | Variable_t _ _ _ _ _ _ _ _ _ =>
              match tmp_sym with
              | Variable_t _ _ _ _ storage _ _ _ _ =>
                  match storage with
                  | Allocatable =>
                      visit_Deallocate_args m_args' (arg_vec ++ [tmp_sym])%list
                        st
                  | _ => Throw error
                  end
              | _ => Undefined
              end
          | _ => Throw error
          end
      | _ => Throw error
      end
  end.

(** [visit_Deallocate]; the node is what the function leaves in
    [tmp]. *)
Definition visit_Deallocate (m_args : list AST.expr_t) (st : state)
    : outcome (body_stmt_t * state) :=
  '(arg_vec, st) <- visit_Deallocate_args m_args [] st ;;
  Ok (ExplicitDeallocate_t arg_vec, st).

(** [visit_ArrayInitializer]: the loop, with [type] and [body] as they
    stand. *)
Fixpoint visit_ArrayInitializer_args (loc : Location)
    (m_args : list AST.expr_t) (type : option ttype_t) (body : list expr_t)
    (st : state) : outcome (list expr_t * option ttype_t * state) :=
  match m_args with
  | [] => Ok (body, type, st)
  | a :: m_args' =>
      st <- visit_expr a st ;;
      e <- EXPR (tmp st) ;;
      type <-
        match type with
        | None => Ok (expr_type e)
        | Some t =>
            t' <- deref (expr_type e) ;;
            if negb (ttypeType_eqb (ASR.type t') (ASR.type t)) then
              Throw (SemanticError "Type mismatch in array initializer" loc)
            else Ok (Some t)
        end ;;
      visit_ArrayInitializer_args loc m_args' type (body ++ [e])%list st
  end.

(** [visit_ArrayInitializer]: the elements and the type handed to
    [make_ConstantArray_t]; the type is the null pointer for an empty
    list. *)
Definition visit_ArrayInitializer (loc : Location)
    (m_args : list AST.expr_t) (st : state)
    : outcome (list expr_t * option ttype_t * state) :=
  visit_ArrayInitializer_args loc m_args None [] st.

End Expressions.
End BodyUnits.

(* ================================================================== *)
(** * [class BodyVisitor]: [open] and [close] *)
(* ================================================================== *)

Module BodyIO.
Import ASR ASRUtils Utils BodyVisitor.
Local Open Scope string_scope.

(** The statements of the AST: the label, the positional arguments and
    the keyword arguments ([m_arg] and [m_value] of every
    [keyword_t]). *)
Record AST_Open_t := mk_AST_Open {
  Open_loc : Location;
  Open_label : Z;
  Open_args : list AST.expr_t;
  Open_kwargs : list (string * AST.expr_t)
}.

Record AST_Close_t := mk_AST_Close {
  Close_loc : Location;
  Close_label : Z;
  Close_args : list AST.expr_t;
  Close_kwargs : list (string * AST.expr_t)
}.

(** The nodes of the ASR, with the fields handed to [make_Open_t] and
    [make_Close_t]. *)
Record Open_t := mk_Open {
  Open_m_label : Z;
  m_newunit : option expr_t;
  m_filename : option expr_t;
  Open_m_status : option expr_t
}.

Record Close_t := mk_Close {
  Close_m_label : Z;
  m_unit : option expr_t;
  m_iostat : option expr_t;
  m_iomsg : option expr_t;
  m_err : option expr_t;
  Close_m_status : option expr_t
}.

(** [t->type != A && t->type != B] *)
Definition neither (t : ttype_t) (a b : ttypeType) : bool :=
  negb (ttypeType_eqb (type t) a) && negb (ttypeType_eqb (type t) b).

Definition is_Var (e : expr_t) : bool :=
  match e with Var_t _ => true | _ => false end.

Definition is_Num (e : AST.expr_t) : bool :=
  match e with AST.Num_t _ _ => true | _ => false end.

Section IO.
Variable visit_expr : AST.expr_t -> state -> outcome state.

(** [visit_Open]: one keyword argument. *)
Definition visit_Open_kwarg (loc : Location)
    (acc : option expr_t * option expr_t * option expr_t * state)
    (kwarg : string * AST.expr_t)
    : outcome (option expr_t * option expr_t * option expr_t * state) :=
  let '(a_newunit, a_filename, a_status, st) := acc in
  let m_arg_str := fst kwarg in
  if String.eqb m_arg_str "newunit" || String.eqb m_arg_str "unit" then
    match a_newunit with
    | Some _ =>
        Throw (SemanticError
          "Duplicate value of `unit` found, `unit` has already been specified via argument or keyword arguments"
          loc)
    | None =>
        st <- visit_expr (snd kwarg) st ;;
        a_newunit <- EXPR (tmp st) ;;
        let error :=
          SemanticError
            "`newunit`/`unit` must be a variable of type, Integer or IntegerPointer"
            loc in
        if String.eqb m_arg_str "newunit" && negb (is_Var a_newunit) then
          Throw error
        else
          a_newunit_type <- deref (expr_type a_newunit) ;;
          if neither a_newunit_type Integer IntegerPointer then Throw error
          else Ok (Some a_newunit, a_filename, a_status, st)
    end
  else if String.eqb m_arg_str "file" then
    match a_filename with
    | Some _ =>
        Throw (SemanticError
          "Duplicate value of `file` found, unit has already been specified via arguments or keyword arguments"
          loc)
    | None =>
        st <- visit_expr (snd kwarg) st ;;
        a_filename <- EXPR (tmp st) ;;
        a_filename_type <- deref (expr_type a_filename) ;;
        if neither a_filename_type Character CharacterPointer then
          Throw (SemanticError
            "`file` must be of type, Character or CharacterPointer" loc)
        else Ok (a_newunit, Some a_filename, a_status, st)
    end
  else if String.eqb m_arg_str "status" then
    match a_status with
    | Some _ =>
        Throw (SemanticError
          "Duplicate value of `status` found, unit has already been specified via arguments or keyword arguments"
          loc)
    | None =>
        st <- visit_expr (snd kwarg) st ;;
        a_status <- EXPR (tmp st) ;;
        a_status_type <- deref (expr_type a_status) ;;
        if neither a_status_type Character CharacterPointer then
          Throw (SemanticError
            "`status` must be of type, Character or CharacterPointer" loc)
        else Ok (a_newunit, a_filename, Some a_status, st)
    end
  else Ok acc.

(** [visit_Open]; the node is what the function leaves in [tmp]. *)
Definition visit_Open (x : AST_Open_t) (st : state)
    : outcome (Open_t * state) :=
  let loc := Open_loc x in
  match Open_args x with
  | _ :: _ :: _ =>
      Throw (SemanticError
        "Number of arguments cannot be more than 1 in Open statement." loc)
  | m_args =>
      '(a_newunit, st) <-
        match m_args with
        | a :: _ =>
            st <- visit_expr a st ;;
            e <- EXPR (tmp st) ;;
            Ok (Some e, st)
        | [] => Ok (None, st)
        end ;;
      '(a_newunit, a_filename, a_status, st) <-
        foldM (visit_Open_kwarg loc) (Open_kwargs x)
          (a_newunit, None, None, st) ;;
      match a_newunit with
      | None =>
          Throw (SemanticError
            "`newunit` or `unit` must be specified either in argument or keyword arguments."
            loc)
      | Some _ =>
          Ok (mk_Open (Open_label x) a_newunit a_filename a_status, st)
      end
  end.

(** The five results of the keyword arguments of [close]. *)
Record Close_acc := mk_Close_acc {
  a_unit : option expr_t;
  a_iostat : option expr_t;
  a_iomsg : option expr_t;
  a_err : option expr_t;
  a_status : option expr_t
}.

(** [visit_Close]: one keyword argument. *)
Definition visit_Close_kwarg (loc : Location) (acc : Close_acc * state)
    (kwarg : string * AST.expr_t) : outcome (Close_acc * state) :=
  let '(c, st) := acc in
  let m_arg_str := fst kwarg in
  if String.eqb m_arg_str "unit" then
    match a_unit c with
    | Some _ =>
        Throw (SemanticError
          "Duplicate value of `unit` found, `unit` has already been specified via argument or keyword arguments"
          loc)
    | None =>
        st <- visit_expr (snd kwarg) st ;;
        e <- EXPR (tmp st) ;;
        a_newunit_type <- deref (expr_type e) ;;
        if neither a_newunit_type Integer IntegerPointer then
          Throw (SemanticError
            "`unit` must be of type, Integer or IntegerPointer" loc)
        else
          Ok (mk_Close_acc (Some e) (a_iostat c) (a_iomsg c) (a_err c)
                (a_status c), st)
    end
  else if String.eqb m_arg_str "iostat" then
    match a_iostat c with
    | Some _ =>
        Throw (SemanticError
          "Duplicate value of `iostat` found, unit has already been specified via arguments or keyword arguments"
          loc)
    | None =>
        st <- visit_expr (snd kwarg) st ;;
        e <- EXPR (tmp st) ;;
        let error :=
          SemanticError
            "`iostat` must be a variable of type, Integer or IntegerPointer"
            loc in
        if negb (is_Var e) then Throw error
        else
          a_iostat_type <- deref (expr_type e) ;;
          if neither a_iostat_type Integer IntegerPointer then Throw error
          else
            Ok (mk_Close_acc (a_unit c) (Some e) (a_iomsg c) (a_err c)
                  (a_status c), st)
    end
  else if String.eqb m_arg_str "iomsg" then
    match a_iomsg c with
    | Some _ =>
        Throw (SemanticError
          "Duplicate value of `iomsg` found, unit has already been specified via arguments or keyword arguments"
          loc)
    | None =>
        st <- visit_expr (snd kwarg) st ;;
        e <- EXPR (tmp st) ;;
        let error :=
          SemanticError
            "`iomsg` must be of type, Character or CharacterPointer" loc in
        if negb (is_Var e) then Throw error
        else
          a_iomsg_type <- deref (expr_type e) ;;
          if neither a_iomsg_type Character CharacterPointer then Throw error
          else
            Ok (mk_Close_acc (a_unit c) (a_iostat c) (Some e) (a_err c)
                  (a_status c), st)
    end
  else if String.eqb m_arg_str "status" then
    match a_status c with
    | Some _ =>
        Throw (SemanticError
          "Duplicate value of `status` found, unit has already been specified via arguments or keyword arguments"
          loc)
    | None =>
        st <- visit_expr (snd kwarg) st ;;
        e <- EXPR (tmp st) ;;
        a_status_type <- deref (expr_type e) ;;
        if neither a_status_type Character CharacterPointer then
          Throw (SemanticError
            "`status` must be of type, Character or CharacterPointer" loc)
        else
          Ok (mk_Close_acc (a_unit c) (a_iostat c) (a_iomsg c) (a_err c)
                (Some e), st)
    end
  else if String.eqb m_arg_str "err" then
    match a_err c with
    | Some _ =>
        Throw (SemanticError
          "Duplicate value of `err` found, `err` has already been specified via arguments or keyword arguments"
          loc)
    | None =>
        if negb (is_Num (snd kwarg)) then
          Throw (SemanticError "`err` must be a literal integer" loc)
        else
          st <- visit_expr (snd kwarg) st ;;
          e <- EXPR (tmp st) ;;
          Ok (mk_Close_acc (a_unit c) (a_iostat c) (a_iomsg c) (Some e)
                (a_status c), st)
    end
  else Ok acc.

(** [visit_Close]; the node is what the function leaves in [tmp]. *)
Definition visit_Close (x : AST_Close_t) (st : state)
    : outcome (Close_t * state) :=
  let loc := Close_loc x in
  match Close_args x with
  | _ :: _ :: _ =>
      Throw (SemanticError
        "Number of arguments cannot be more than 1 in Close statement." loc)
  | m_args =>
      '(unit_arg, st) <-
        match m_args with
        | a :: _ =>
            st <- visit_expr a st ;;
            e <- EXPR (tmp st) ;;
            Ok (Some e, st)
        | [] => Ok (None, st)
        end ;;
      '(c, st) <-
        foldM (visit_Close_kwarg loc) (Close_kwargs x)
          (mk_Close_acc unit_arg None None None None, st) ;;
      match a_unit c with
      | None =>
          Throw (SemanticError
            "`newunit` or `unit` must be specified either in argument or keyword arguments."
            loc)
      | Some _ =>
          Ok (mk_Close (Close_label x) (a_unit c) (a_iostat c)
                (a_iomsg c) (a_err c) (a_status c), st)
      end
  end.

End IO.
End BodyIO.

(* ================================================================== *)
(** * [class BodyVisitor]: [select case] *)
(* ================================================================== *)

Module BodySelect.
Import ASR ASRUtils Utils BodyVisitor.
Local Open Scope string_scope.

(** A condition of a [case]: an expression, or a range whose bounds
    may be absent. *)
Inductive AST_case_cond_t :=
| CaseCondExpr_t (m_cond : AST.expr_t)
| CaseCondRange_t (m_start m_end : option AST.expr_t).

(** The nodes of the ASR. *)
Inductive case_stmt_t :=
| CaseStmt_t (m_test : list expr_t) (m_body : list stmt_t)
| CaseStmt_Range_t (m_start m_end : option expr_t) (m_body : list stmt_t).

Record Select_t := mk_Select {
  Select_test : expr_t;
  Select_body : list case_stmt_t;
  Select_default : list stmt_t
}.

Section Select.

(** The statements of the AST and their visitor, which leaves a
    statement of [ASR.stmt_t], or the null pointer, in [tmp]; and the
    visitor of expressions. *)
Variable AST_stmt_t : Type.
Variable visit_stmt : AST_stmt_t -> state -> outcome state.
Variable visit_expr : AST.expr_t -> state -> outcome state.

(** A [case] of the AST: [CaseStmt_t], or [CaseStmt_Default_t]. *)
Inductive AST_case_stmt_t :=
| AST_CaseStmt_t (loc : Location) (m_test : list AST_case_cond_t)
    (m_body : list AST_stmt_t)
| AST_CaseStmt_Default_t (loc : Location) (m_body : list AST_stmt_t).

(** The loop over the statements of a block: what each statement
    leaves in [tmp], unless it is the null pointer. *)
Fixpoint visit_stmts (m_body : list AST_stmt_t) (body : list stmt_t)
    (st : state) : outcome (list stmt_t * state) :=
  match m_body with
  | [] => Ok (body, st)
  | s :: m_body' =>
      st <- visit_stmt s st ;;
      match tmp st with
      | Some a =>
          match a with
          | stmt tmp_stmt => visit_stmts m_body' (body ++ [tmp_stmt])%list st
          | _ => Undefined
          end
      | None => visit_stmts m_body' body st
      end
  end.

(** [expr_type(e)->type != ASR::ttypeType::Integer] *)
Definition not_Integer (e : expr_t) : outcome bool :=
  t <- deref (expr_type e) ;;
  Ok (negb (ttypeType_eqb (type t) Integer)).

(** [visit_case_stmt]: the loop over a list of expressions. *)
Fixpoint visit_case_tests (loc : Location) (m_test : list AST_case_cond_t)
    (a_test_vec : list expr_t) (st : state)
    : outcome (list expr_t * state) :=
  match m_test with
  | [] => Ok (a_test_vec, st)
  | c :: m_test' =>
      match c with
      | CaseCondExpr_t m_cond =>
          st <- visit_expr m_cond st ;;
          m_test_i <- EXPR (tmp st) ;;
          b <- not_Integer m_test_i ;;
          if b then
            Throw (SemanticError
              "Expression in Case selector can only be an Integer" loc)
          else visit_case_tests loc m_test' (a_test_vec ++ [m_test_i])%list st
      | CaseCondRange_t _ _ =>
          Throw (SemanticError
            "Not implemented yet: range expression not in first position"
            loc)
      end
  end.

(** A bound of a range. *)
Definition visit_case_bound (loc : Location) (b : option AST.expr_t)
    (st : state) : outcome (option expr_t * state) :=
  match b with
  | Some e =>
      st <- visit_expr e st ;;
      m <- EXPR (tmp st) ;;
      c <- not_Integer m ;;
      if c then
        Throw (SemanticError
          "Expression in Case selector can only be an Integer" loc)
      else Ok (Some m, st)
  | None => Ok (None, st)
  end.

(** [visit_case_stmt]; the node is what the function leaves in
    [tmp]. *)
Definition visit_case_stmt (x : AST_case_stmt_t) (st : state)
    : outcome (case_stmt_t * state) :=
  match x with
  | AST_CaseStmt_t loc m_test m_body =>
      match m_test with
      | [] =>
          Throw (SemanticError
            "Case statement must have at least one condition" loc)
      | CaseCondExpr_t _ :: _ =>
          (* For now we only support a list of expressions *)
          '(a_test_vec, st) <- visit_case_tests loc m_test [] st ;;
          '(case_body_vec, st) <- visit_stmts m_body [] st ;;
          Ok (CaseStmt_t a_test_vec case_body_vec, st)
      | CaseCondRange_t m_start m_end :: m_test' =>
          (* For now we only support exactly one range *)
          match m_test' with
          | _ :: _ =>
              Throw (SemanticError
                "Not implemented: more than one range condition" loc)
          | [] =>
              '(m_start, st) <- visit_case_bound loc m_start st ;;
              '(m_end, st) <- visit_case_bound loc m_end st ;;
              '(case_body_vec, st) <- visit_stmts m_body [] st ;;
              Ok (CaseStmt_Range_t m_start m_end case_body_vec, st)
          end
      end
  | AST_CaseStmt_Default_t loc _ =>
      Throw (SemanticError
        "Case statement can only support a valid expression
                                    that reduces to a constant or range defined by : separator"
        loc)
  end.

(** [visit_Select]: one [case] of the body. *)
Definition visit_Select_case (loc : Location)
    (acc : list case_stmt_t * list stmt_t * state) (body : AST_case_stmt_t)
    : outcome (list case_stmt_t * list stmt_t * state) :=
  let '(a_body_vec, def_body, st) := acc in
  match body with
  | AST_CaseStmt_Default_t _ d_body =>
      match def_body with
      | _ :: _ =>
          Throw (SemanticError "Default case present more than once" loc)
      | [] =>
          '(def_body, st) <- visit_stmts d_body def_body st ;;
          Ok (a_body_vec, def_body, st)
      end
  | _ =>
      '(c, st) <- visit_case_stmt body st ;;
      Ok ((a_body_vec ++ [c])%list, def_body, st)
  end.

(** [visit_Select]; the node is what the function leaves in [tmp]. *)
Definition visit_Select (loc : Location) (m_test : AST.expr_t)
    (m_body : list AST_case_stmt_t) (st : state)
    : outcome (Select_t * state) :=
  st <- visit_expr m_test st ;;
  a_test <- EXPR (tmp st) ;;
  b <- not_Integer a_test ;;
  if b then
    Throw (SemanticError
      "Expression in Case selector can only be an Integer" loc)
  else
    '(a_body_vec, def_body, st) <-
      foldM (visit_Select_case loc) m_body ([], [], st) ;;
    Ok (mk_Select a_test a_body_vec def_body, st).

End Select.
End BodySelect.

(* ================================================================== *)
(** * [class BodyVisitor]: [read] and [write] *)
(* ================================================================== *)

Module BodyReadWrite.
Import ASR ASRUtils Utils BodyVisitor.
Local Open Scope string_scope.

(** [AST::stmtType], the two enumerators [create_read_write_ASR_node]
    tests. *)
Inductive stmtType := Write | Read.

(** A [read] or [write] statement of the AST: the label, the positional
    arguments ([m_value] of every [argstar_t], the null pointer for
    [*]), the keyword arguments ([m_arg] and [m_value] of every
    [kw_argstar_t]) and the values. *)
Record AST_read_write_t := mk_AST_read_write {
  loc : Location;
  m_label : Z;
  m_args : list (option AST.expr_t);
  m_kwargs : list (string * option AST.expr_t);
  m_values : list AST.expr_t
}.

(** The node of the ASR, with the fields handed to [make_Write_t] or
    [make_Read_t]. *)
Record read_write_t := mk_read_write {
  node_type : stmtType;
  node_label : Z;
  m_unit : option expr_t;
  m_fmt : option expr_t;
  m_iomsg : option expr_t;
  m_iostat : option expr_t;
  m_id : option expr_t;
  node_values : list expr_t
}.

(** The five results of the arguments. *)
Record acc_t := mk_acc {
  a_unit : option expr_t;
  a_fmt : option expr_t;
  a_iomsg : option expr_t;
  a_iostat : option expr_t;
  a_id : option expr_t
}.

Section ReadWrite.
Variable visit_expr : AST.expr_t -> state -> outcome state.

(** A positional argument: it is lowered unless it is [*]. *)
Definition visit_argstar (a : option AST.expr_t) (st : state)
    : outcome (option expr_t * state) :=
  match a with
  | Some m_value =>
      st <- visit_expr m_value st ;;
      e <- EXPR (tmp st) ;;
      Ok (Some e, st)
  | None => Ok (None, st)
  end.

(** One keyword argument; its value is dereferenced without a test. *)
Definition visit_kwarg (loc : Location) (acc : acc_t * state)
    (kwarg : string * option AST.expr_t) : outcome (acc_t * state) :=
  let '(c, st) := acc in
  let m_arg_str := fst kwarg in
  if String.eqb m_arg_str "unit" then
    match a_unit c with
    | Some _ =>
        Throw (SemanticError
          "Duplicate value of `unit` found, `unit` has already been specified via argument or keyword arguments"
          loc)
    | None =>
        m_value <- deref (snd kwarg) ;;
        st <- visit_expr m_value st ;;
        e <- EXPR (tmp st) ;;
        a_unit_type <- deref (expr_type e) ;;
        if BodyIO.neither a_unit_type Integer IntegerPointer then
          Throw (SemanticError
            "`unit` must be of type, Integer or IntegerPointer" loc)
        else
          Ok (mk_acc (Some e) (a_fmt c) (a_iomsg c) (a_iostat c) (a_id c),
              st)
    end
  else if String.eqb m_arg_str "iostat" then
    match a_iostat c with
    | Some _ =>
        Throw (SemanticError
          "Duplicate value of `iostat` found, unit has already been specified via arguments or keyword arguments"
          loc)
    | None =>
        m_value <- deref (snd kwarg) ;;
        st <- visit_expr m_value st ;;
        e <- EXPR (tmp st) ;;
        let error :=
          SemanticError "`iostat` must be of type, Integer or IntegerPointer"
            loc in
        if negb (BodyIO.is_Var e) then Throw error
        else
          a_iostat_type <- deref (expr_type e) ;;
          if BodyIO.neither a_iostat_type Integer IntegerPointer then
            Throw error
          else
            Ok (mk_acc (a_unit c) (a_fmt c) (a_iomsg c) (Some e) (a_id c),
                st)
    end
  else if String.eqb m_arg_str "iomsg" then
    match a_iomsg c with
    | Some _ =>
        Throw (SemanticError
          "Duplicate value of `iomsg` found, unit has already been specified via arguments or keyword arguments"
          loc)
    | None =>
        m_value <- deref (snd kwarg) ;;
        st <- visit_expr m_value st ;;
        e <- EXPR (tmp st) ;;
        let error :=
          SemanticError
            "`iomsg` must be of type, Character or CharacterPointer" loc in
        if negb (BodyIO.is_Var e) then Throw error
        else
          a_iomsg_type <- deref (expr_type e) ;;
          if BodyIO.neither a_iomsg_type Character CharacterPointer then
            Throw error
          else
            Ok (mk_acc (a_unit c) (a_fmt c) (Some e) (a_iostat c) (a_id c),
                st)
    end
  else if String.eqb m_arg_str "id" then
    match a_id c with
    | Some _ =>
        Throw (SemanticError
          "Duplicate value of `id` found, unit has already been specified via arguments or keyword arguments"
          loc)
    | None =>
        m_value <- deref (snd kwarg) ;;
        st <- visit_expr m_value st ;;
        e <- EXPR (tmp st) ;;
        a_status_type <- deref (expr_type e) ;;
        if BodyIO.neither a_status_type Character CharacterPointer then
          Throw (SemanticError
            "`status` must be of type, Character or CharacterPointer" loc)
        else
          Ok (mk_acc (a_unit c) (a_fmt c) (a_iomsg c) (a_iostat c) (Some e),
              st)
    end
  else Ok acc.

(** The loop over the values. *)
Fixpoint visit_values (values : list AST.expr_t) (a_values_vec : list expr_t)
    (st : state) : outcome (list expr_t * state) :=
  match values with
  | [] => Ok (a_values_vec, st)
  | v :: values' =>
      st <- visit_expr v st ;;
      e <- EXPR (tmp st) ;;
      visit_values values' (a_values_vec ++ [e])%list st
  end.

(** [create_read_write_ASR_node]; the node is what the function leaves
    in [tmp]. *)
Definition create_read_write_ASR_node (x : AST_read_write_t)
    (_type : stmtType) (st : state) : outcome (read_write_t * state) :=
  let n_args := List.length (m_args x) in
  if Nat.ltb 2 n_args then
    Throw (SemanticError
      "Number of arguments cannot be more than 2 in Read/Write statement."
      (loc x))
  else
    '(unit_arg, st) <-
      match m_args x with
      | u :: _ => visit_argstar u st
      | [] => Ok (None, st)
      end ;;
    '(fmt_arg, st) <-
      match m_args x with
      | _ :: f :: _ => visit_argstar f st
      | _ => Ok (None, st)
      end ;;
    '(c, st) <-
      foldM (visit_kwarg (loc x)) (m_kwargs x)
        (mk_acc unit_arg fmt_arg None None None, st) ;;
    if match a_unit c with None => true | Some _ => false end
       && Nat.ltb n_args 1 then
      Throw (SemanticError
        "`unit` must be specified either in arguments or keyword arguments."
        (loc x))
    else if match a_fmt c with None => true | Some _ => false end
            && Nat.ltb n_args 2 then
      Throw (SemanticError
        "`fmt` must be specified either in arguments or keyword arguments."
        (loc x))
    else
      '(a_values_vec, st) <- visit_values (m_values x) [] st ;;
      Ok (mk_read_write _type (m_label x) (a_unit c) (a_fmt c) (a_iomsg c)
            (a_iostat c) (a_id c) a_values_vec, st).

End ReadWrite.
End BodyReadWrite.

(* ================================================================== *)
(** * [class BodyVisitor]: function calls and array references *)
(* ================================================================== *)

Module BodyCalls.
Import ASR ASRUtils Utils BodyVisitor.
Local Open Scope string_scope.

(** An argument of [name(...)] in the AST: the three parts of
    [start:end:step], each of which may be absent. *)
Record fnarg_t := mk_fnarg {
  m_start : option AST.expr_t;
  m_end : option AST.expr_t;
  m_step : option AST.expr_t
}.

(** An index of an array reference in the ASR. *)
Record array_index_t := mk_array_index {
  m_left : option expr_t;
  m_right : option expr_t;
  index_step : option expr_t
}.

(** What [visit_FuncCallOrArray] leaves in [tmp]: a function call, or
    an array reference with the fields handed to [make_ArrayRef_t]. *)
Inductive node_t :=
| FunctionCall (e : expr_t)
| ArrayRef (m_v : symbol_t) (m_args : list array_index_t) (m_type : ttype_t).

Section Calls.
Variable visit_expr : AST.expr_t -> state -> outcome state.

(** [visit_expr_list] on the arguments of the AST: the [m_end] of each
    is lowered. *)
Fixpoint visit_expr_list (ast_list : list fnarg_t) (st : state)
    : outcome (list expr_t * state) :=
  match ast_list with
  | [] => Ok ([], st)
  | a :: ast_list' =>
      m_end <- deref (m_end a) ;;
      st <- visit_expr m_end st ;;
      e <- EXPR (tmp st) ;;
      '(asr_list, st) <- visit_expr_list ast_list' st ;;
      Ok (e :: asr_list, st)
  end.

(** The indices of a reference to an array behind an external
    symbol. *)
Fixpoint visit_external_indices (loc : Location) (m_args : list fnarg_t)
    (args : list array_index_t) (st : state)
    : outcome (list array_index_t * state) :=
  match m_args with
  | [] => Ok (args, st)
  | a :: m_args' =>
      match m_start a, m_end a with
      | None, Some e =>
          st <- visit_expr e st ;;
          r <- EXPR (tmp st) ;;
          visit_external_indices loc m_args'
            (args ++ [mk_array_index None (Some r) None])%list st
      | None, None =>
          visit_external_indices loc m_args'
            (args ++ [mk_array_index None None None])%list st
      | Some _, _ =>
          Throw (SemanticError "Argument type not implemented yet" loc)
      end
  end.

(** One part of an index of a reference to a variable of the scope. *)
Definition visit_index_part (p : option AST.expr_t) (st : state)
    : outcome (option expr_t * state) :=
  match p with
  | Some e =>
      st <- visit_expr e st ;;
      r <- EXPR (tmp st) ;;
      Ok (Some r, st)
  | None => Ok (None, st)
  end.

(** The indices of a reference to a variable of the scope. *)
Fixpoint visit_indices (m_args : list fnarg_t) (args : list array_index_t)
    (st : state) : outcome (list array_index_t * state) :=
  match m_args with
  | [] => Ok (args, st)
  | a :: m_args' =>
      '(m_start, st) <- visit_index_part (m_start a) st ;;
      '(m_end, st) <- visit_index_part (m_end a) st ;;
      '(m_step, st) <- visit_index_part (m_step a) st ;;
      visit_indices m_args'
        (args ++ [mk_array_index m_start m_end m_step])%list st
  end.

(** [visit_FuncCallOrArray], from the symbol [v] that the name
    resolves to: the [switch] on the kind of [v]. *)
Definition visit_FuncCallOrArray_node (loc : Location) (var_name : string)
    (m_args : list fnarg_t) (v : symbol_t) (st : state)
    : outcome (node_t * state) :=
  match v with
  | Function_t _ _ _ m_return_var _ _ _ =>
      '(args, st) <- visit_expr_list m_args st ;;
      type <- deref (EXPR2VAR_type m_return_var) ;;
      Ok (FunctionCall (FunctionCall_t v args type None), st)
  | ExternalSymbol_t _ f2 _ _ _ =>
      match f2 with
      | Function_t _ _ _ m_return_var _ _ _ =>
          '(args, st) <- visit_expr_list m_args st ;;
          type <- deref (EXPR2VAR_type m_return_var) ;;
          Ok (FunctionCall (FunctionCall_t v args type None), st)
      | Variable_t _ _ _ _ _ type _ _ _ =>
          '(args, st) <- visit_external_indices loc m_args [] st ;;
          Ok (ArrayRef v args type, st)
      | _ => Throw (SemanticError "Unimplemented" loc)
      end
  | Variable_t _ _ _ _ _ type _ _ _ =>
      '(args, st) <- visit_indices m_args [] st ;;
      Ok (ArrayRef v args type, st)
  | _ =>
      Throw (SemanticError
        ("Symbol '" ++ var_name ++ "' is not a function or an array") loc)
  end.

End Calls.
End BodyCalls.

(* ================================================================== *)
(** * [class SymbolTableVisitor]: program units and declarations *)
(* ================================================================== *)

Module SymbolTableUnits.
Import ASR ASRUtils Utils SymbolTableVisitor.
Local Open Scope string_scope.

(** ** The part of the AST these visitors read *)

(** The type specifiers the source names. *)
Inductive decl_typeType :=
| TypeClass | TypeCharacter | TypeComplex | TypeInteger | TypeLogical
| TypeReal | TypeType.

(** [AttrType_t]: a type specifier with the value of its kind and the
    name of its derived type, when it has them. *)
Record AttrType_t := mk_AttrType {
  AttrType_type : decl_typeType;
  AttrType_kind : option AST.expr_t;
  AttrType_name : option string
}.

Inductive simple_attributeType :=
| AttrAllocatable | AttrOptional | AttrParameter | AttrPointer
| AttrPrivate | AttrPublic | AttrSave | AttrTarget
| AttrOtherSimple.

Inductive attr_intentType := In | Out | InOut.

(** A bound of a dimension: start and end, each of which may be absent. *)
Record dimension_t := mk_dimension {
  m_start : option AST.expr_t;
  m_end : option AST.expr_t
}.

Inductive decl_attribute_t :=
| AttrType (a : AttrType_t)
| SimpleAttribute (m_attr : simple_attributeType)
| AttrIntent (m_intent : option attr_intentType)
| AttrDimension (m_dim : list dimension_t)
| AttrNamelist (m_name : string)
| AttrOther.

Record var_sym_t := mk_var_sym {
  var_sym_name : string;
  var_sym_dim : list dimension_t;
  m_initializer : option AST.expr_t
}.

Record Declaration_t := mk_Declaration {
  Declaration_loc : Location;
  m_vartype : option AttrType_t;
  Declaration_attributes : list decl_attribute_t;
  m_syms : list var_sym_t
}.

(** A function definition: its name, the names of its dummy arguments,
    the expression after [result], and the attributes before
    [function]. *)
Record Function_t := mk_Function {
  Function_loc : Location;
  Function_name : string;
  Function_args : list string;
  m_return_var : option AST.expr_t;
  Function_attributes : list decl_attribute_t
}.

Record Program_t := mk_Program {
  Program_loc : Location;
  Program_name : string;
  Program_use : list AST.Use_t
}.

Record DerivedType_t := mk_DerivedType {
  DerivedType_loc : Location;
  DerivedType_name : string
}.

(** The header of an interface block: [interface name], [interface], or
    another form. *)
Inductive interface_header_t :=
| InterfaceHeaderName (m_name : string)
| InterfaceHeader
| InterfaceHeaderOther.

(** An item of an interface block: [module procedure names], or
    another item. *)
Inductive interface_item_t :=
| InterfaceModuleProcedure (loc : Location) (m_names : list string)
| InterfaceOtherItem (loc : Location).

Record Interface_t := mk_Interface {
  Interface_loc : Location;
  m_header : interface_header_t;
  m_items : list interface_item_t
}.

(** [e->base.loc] *)
Definition expr_loc (e : AST.expr_t) : Location :=
  match e with
  | AST.BoolOp_t loc _ _ _ => loc
  | AST.BinOp_t loc _ _ _ => loc
  | AST.Compare_t loc _ _ _ => loc
  | AST.Num_t loc _ => loc
  | AST.Name_t loc _ => loc
  | AST.Parenthesis_t loc _ => loc
  end.

(** ** The visitor *)

(** The members of the visitor beside those of
    [SymbolTableVisitor.state]. *)
Record unit_state := mk_unit_state {
  base : state;
  generic_procedures : StdMap.t (list string);
  dt_name : string;
  assgnd_presence : StdMap.t presenceType;
  in_module : bool
}.

Definition with_base (u : unit_state) (b : state) : unit_state :=
  mk_unit_state b (generic_procedures u) (dt_name u) (assgnd_presence u)
    (in_module u).

(** [SymbolTableVisitor::resolve_symbol(loc, id)] *)
Definition resolve_symbol (loc : Location) (id : string) (st : state)
    : outcome symbol_t :=
  match ASRUtils.resolve_symbol (current_scope st) id with
  | None => Throw (SemanticError ("Symbol '" ++ id ++ "' not declared") loc)
  | Some sub => Ok sub
  end.

(** [find_return_type]: the loop, with [r] and [found] as they stand. *)
Fixpoint find_return_type_from (r : option AttrType_t) (found : bool)
    (attributes : list decl_attribute_t) (loc : Location)
    : outcome (option AttrType_t) :=
  match attributes with
  | [] => Ok r
  | a :: attributes' =>
      match a with
      | AttrType t =>
          if found then Throw (SemanticError "Return type declared twice" loc)
          else find_return_type_from (Some t) true attributes' loc
      | _ => find_return_type_from r found attributes' loc
      end
  end.

Definition find_return_type (attributes : list decl_attribute_t)
    (loc : Location) : outcome (option AttrType_t) :=
  find_return_type_from None false attributes loc.

Section Units.
Context `{KindOf} `{ModuleLoader}.

(** The visitor of expressions of pass 1, which leaves its result in
    [asr], and [ASRUtils::extract_kind(kind_expr, loc)], which is not
    part of the sources: both are parameters. *)
Variable visit_expr : AST.expr_t -> state -> outcome state.
Variable extract_kind : expr_t -> Location -> outcome Z.

(** The beginning of [visit_Function]: the new scope, and the names of
    the dummy arguments recorded in [current_procedure_args]. *)
Definition enter_Function (x : Function_t) (st : state) : state :=
  let st1 := new_SymbolTable st in
  mk_state (asr st1) (current_scope st1) (dflt_access st1)
    (assgnd_access st1) (current_module_dependencies st1)
    (is_interface st1)
    (current_procedure_args st1 ++ Function_args x)%list
    (next_counter st1).

(** The kind of a type specifier: 4, or what [extract_kind] reads from
    the lowered kind expression. *)
Definition kind_of_AttrType (t : AttrType_t) (loc : Location) (st : state)
    : outcome (Z * state) :=
  match AttrType_kind t with
  | Some k =>
      st <- visit_expr k st ;;
      kind_expr <- BodyVisitor.EXPR (asr st) ;;
      a_kind <- extract_kind kind_expr loc ;;
      Ok (a_kind, st)
  | None => Ok (4%Z, st)
  end.

(** [visit_Function].  [visit_body] stands for the two loops over
    [x.m_decl] and [x.m_contains], which run in the new scope.
    [AttrType_kind] is [m_kind->m_value].  The [Var] nodes of the
    arguments point at the symbols of the scope, and the intent of a
    return variable that is already declared is set on the symbol itself:
    in that branch the entry of the scope is replaced and the arguments
    are read from the scope once more. *)
Definition visit_Function (x : Function_t)
    (visit_body : state -> outcome state) (st : state) : outcome state :=
  let loc := Function_loc x in
  let s_access := dflt_access st in
  st <- visit_body (enter_Function x st) ;;
  (* Convert and check arguments *)
  args <- convert_arguments loc (Function_args x) (current_scope st) ;;
  (* Handle the return variable and type *)
  return_var_name <-
    match m_return_var x with
    | Some (AST.Name_t _ m_id) => Ok m_id
    | Some e =>
        Throw (SemanticError "Return variable must be an identifier"
                 (expr_loc e))
    | None => Ok (Function_name x)
    end ;;
  return_type <- find_return_type (Function_attributes x) loc ;;
  '(return_var, args, st) <-
    match StdMap.find return_var_name (scope (current_scope st)) with
    | None =>
        (* The variable is not defined among local variables, extract the
           type from "integer function f()" and add the variable. *)
        match return_type with
        | None => Throw (SemanticError "Return type not specified" loc)
        | Some return_type =>
            '(a_kind, st) <- kind_of_AttrType return_type loc st ;;
            type <-
              match AttrType_type return_type with
              | TypeInteger => Ok (mk_ttype Integer a_kind EmptyString 0)
              | TypeReal => Ok (mk_ttype Real a_kind EmptyString 0)
              | TypeComplex => Ok (mk_ttype Complex a_kind EmptyString 0)
              | TypeLogical => Ok (mk_ttype Logical 4 EmptyString 0)
              | _ => Throw (SemanticError "Return type not supported" loc)
              end ;;
            (* Add it as a local variable: *)
            let return_var :=
              Variable_t return_var_name intent_return_var None None
                Default type Source Public Required in
            Ok (return_var, args,
                current_scope_set st return_var_name return_var)
        end
    | Some v =>
        match return_type with
        | Some _ =>
            Throw (SemanticError "Cannot specify the return type twice" loc)
        | None =>
            (* Extract the variable from the local scope *)
            match v with
            | Variable_t n _ sv value storage type abi access presence =>
                let return_var :=
                  Variable_t n intent_return_var sv value storage type abi
                    access presence in
                let st := current_scope_set st return_var_name return_var in
                args <- convert_arguments loc (Function_args x)
                          (current_scope st) ;;
                Ok (return_var, args, st)
            | _ => Undefined
            end
        end
    end ;;
  (* Create and register the function *)
  let sym_name := Function_name x in
  let s_access :=
    match StdMap.find sym_name (assgnd_access st) with
    | Some a => a
    | None => s_access
    end in
  let deftype := if is_interface st then Interface else Implementation in
  let fn :=
    ASR.Function_t (current_scope st) (Function_name x) args
      (Var_t return_var) Source s_access deftype in
  parent_scope <- deref (parent (current_scope st)) ;;
  _ <- match StdMap.find sym_name (scope parent_scope) with
       | Some f1 =>
           match f1 with
           | ASR.Function_t _ _ _ _ f2_abi _ _ =>
               match f2_abi with
               | Interactive => Ok tt (* Previous declaration will be shadowed *)
               | _ => Throw (SemanticError "Function already defined" loc)
               end
           | _ => Undefined
           end
       | None => Ok tt
       end ;;
  Ok (mk_state (Some (symbol fn)) (scope_set parent_scope sym_name fn)
        (dflt_access st) (assgnd_access st) (current_module_dependencies st)
        (is_interface st) [] (next_counter st)).

(** [visit_Program].  [visit_rest] stands for the loops over [x.m_decl]
    and [x.m_contains]. *)
Definition visit_Program (x : Program_t)
    (visit_rest : state -> outcome state) (st : state) : outcome state :=
  let st := with_dependencies (new_SymbolTable st) [] in
  st <- foldM (fun st u => visit_Use u st) (Program_use x) st ;;
  st <- visit_rest st ;;
  let p :=
    ASR.Program_t (current_scope st) (Program_name x)
      (current_module_dependencies st) in
  let sym_name := Program_name x in
  parent_scope <- deref (parent (current_scope st)) ;;
  if StdMap.mem sym_name (scope parent_scope) then
    Throw (SemanticError "Program already defined" (Program_loc x))
  else
    Ok (mk_state (Some (symbol p)) (scope_set parent_scope sym_name p)
          (dflt_access st) (assgnd_access st)
          (current_module_dependencies st) (is_interface st)
          (current_procedure_args st) (next_counter st)).

(** [visit_DerivedType].  [visit_items] stands for the loops over
    [x.m_items] and [x.m_contains], which run in the scope of the
    type. *)
Definition visit_DerivedType (x : DerivedType_t)
    (visit_items : unit_state -> outcome unit_state) (u : unit_state)
    : outcome unit_state :=
  let u :=
    mk_unit_state (new_SymbolTable (base u)) (generic_procedures u)
      (DerivedType_name x) (assgnd_presence u) (in_module u) in
  u <- visit_items u ;;
  let st := base u in
  let sym_name := DerivedType_name x in
  if StdMap.mem sym_name (scope (current_scope st)) then
    Throw (SemanticError "DerivedType already defined" (DerivedType_loc x))
  else
    let dt :=
      ASR.DerivedType_t (current_scope st) (DerivedType_name x) Source
        (dflt_access st) in
    parent_scope <- deref (parent (current_scope st)) ;;
    Ok (with_base u
          (mk_state (Some (symbol dt)) (scope_set parent_scope sym_name dt)
             (dflt_access st) (assgnd_access st)
             (current_module_dependencies st) (is_interface st)
             (current_procedure_args st) (next_counter st))).

(** [visit_Interface].  [visit_interface_item] is the visitor of the
    items of an interface block without a name. *)
Definition visit_Interface (x : Interface_t)
    (visit_interface_item : interface_item_t -> unit_state ->
                            outcome unit_state)
    (u : unit_state) : outcome unit_state :=
  match m_header x with
  | InterfaceHeaderName generic_name =>
      proc_names <-
        foldM (fun proc_names item =>
                 match item with
                 | InterfaceModuleProcedure _ names =>
                     Ok (proc_names ++ names)%list
                 | InterfaceOtherItem loc =>
                     Throw (SemanticError
                       "Interface procedure type not imlemented yet" loc)
                 end) (m_items x) [] ;;
      Ok (mk_unit_state (base u)
            (StdMap.set generic_name proc_names (generic_procedures u))
            (dt_name u) (assgnd_presence u) (in_module u))
  | InterfaceHeader =>
      foldM (fun u item => visit_interface_item item u) (m_items x) u
  | InterfaceHeaderOther =>
      Throw (SemanticError "Interface type not imlemented yet"
               (Interface_loc x))
  end.

(** [visit_Declaration]: one name of a statement without a type, such
    as [private :: x, y, z]. *)
Definition visit_Declaration_attr (loc : Location)
    (sa : simple_attributeType) (u : unit_state) (s : var_sym_t)
    : outcome unit_state :=
  let sym := var_sym_name s in
  let st := base u in
  let assign (a : accessType) :=
    with_base u
      (mk_state (asr st) (current_scope st) (dflt_access st)
         (StdMap.set sym a (assgnd_access st))
         (current_module_dependencies st) (is_interface st)
         (current_procedure_args st) (next_counter st)) in
  match sa with
  | AttrPrivate => Ok (assign Private)
  | AttrPublic => Ok (assign Public)
  | AttrOptional =>
      Ok (mk_unit_state (base u) (generic_procedures u) (dt_name u)
            (StdMap.set sym Optional (assgnd_presence u)) (in_module u))
  | _ => Throw (SemanticError "Attribute declaration not supported" loc)
  end.

(** [visit_Declaration].  [visit_typed] stands for the loop over the
    names of a statement with a type ([x.m_vartype != nullptr]). *)
Definition visit_Declaration (x : Declaration_t)
    (visit_typed : unit_state -> outcome unit_state) (u : unit_state)
    : outcome unit_state :=
  let loc := Declaration_loc x in
  let is_namelist :=
    match m_vartype x, Declaration_attributes x with
    | None, [AttrNamelist _] => true
    | _, _ => false
    end in
  if is_namelist then
    Throw (SemanticError "Namelists not implemented yet" loc)
  else if existsb (fun a => match a with AttrType _ => true | _ => false end)
            (Declaration_attributes x) then
    Throw (SemanticError "Type must be declared first" loc)
  else
    match m_vartype x with
    | None =>
        (* Examples:
           private
           public
           private :: x, y, z *)
        match Declaration_attributes x with
        | [] => Throw (SemanticError "No attribute specified" loc)
        | _ :: _ :: _ =>
            Throw (SemanticError
              "Only one attribute can be specified if type is missing" loc)
        | [SimpleAttribute sa] =>
            match m_syms x with
            | [] =>
                (* Example:
                   private *)
                match sa with
                | AttrPrivate =>
                    let st := base u in
                    Ok (with_base u
                          (mk_state (asr st) (current_scope st) Private
                             (assgnd_access st)
                             (current_module_dependencies st)
                             (is_interface st) (current_procedure_args st)
                             (next_counter st)))
                | AttrPublic =>
                    (* Do nothing (public access is the default) *)
                    Ok u
                | AttrSave =>
                    if in_module u then
                      (* Do nothing (all variables implicitly have the
                         save attribute in a module/main program) *)
                      Ok u
                    else
                      Throw (SemanticError "Save Attribute not supported yet"
                               loc)
                | _ =>
                    Throw (SemanticError
                      "Attribute declaration not supported yet" loc)
                end
            | syms =>
                (* Example:
                   private :: x, y, z *)
                foldM (visit_Declaration_attr loc sa) syms u
            end
        | [_] =>
            Throw (SemanticError "Attribute declaration not supported" loc)
        end
    | Some _ => visit_typed u
    end.

(** [add_generic_procedures]: one generic procedure. *)
Definition add_generic_procedure (st : state) (proc : string * list string)
    : outcome state :=
  let loc := mk_Location 1 1 1 1 in
  symbols <- mapM (fun pname => resolve_symbol loc pname st) (snd proc) ;;
  let v := GenericProcedure_t (fst proc) symbols Public in
  Ok (current_scope_set st (fst proc) v).

Definition add_generic_procedures (u : unit_state) : outcome unit_state :=
  st <- foldM add_generic_procedure (generic_procedures u) (base u) ;;
  Ok (with_base u st).

End Units.
End SymbolTableUnits.


(* ================================================================== *)
(** * Vocabulary of the properties of program units *)
(* ================================================================== *)

(** The type specifiers among the attributes of a function, in their
    order. *)
Definition type_attributes
    (attributes : list SymbolTableUnits.decl_attribute_t)
    : list SymbolTableUnits.AttrType_t :=
  flat_map (fun a =>
              match a with
              | SymbolTableUnits.AttrType t => [t]
              | _ => []
              end) attributes.

(** The name of the result of a function: the identifier after
    [result], or the name of the function. *)
Definition result_name (x : SymbolTableUnits.Function_t) : string :=
  match SymbolTableUnits.m_return_var x with
  | Some (AST.Name_t _ m_id) => m_id
  | _ => SymbolTableUnits.Function_name x
  end.

(** The intent of a symbol that is a variable. *)
Definition symbol_intent (s : symbol_t) : option intentType :=
  match s with
  | Variable_t _ i _ _ _ _ _ _ _ => Some i
  | _ => None
  end.

(** The type of a symbol that is a variable. *)
Definition symbol_type (s : symbol_t) : option ttype_t :=
  match s with
  | Variable_t _ _ _ _ _ t _ _ _ => Some t
  | _ => None
  end.

(** The tag of the type a function returns when the type is written
    before [function]. *)
Definition return_tag (t : SymbolTableUnits.decl_typeType)
    : option ttypeType :=
  match t with
  | SymbolTableUnits.TypeInteger => Some Integer
  | SymbolTableUnits.TypeReal => Some Real
  | SymbolTableUnits.TypeComplex => Some Complex
  | SymbolTableUnits.TypeLogical => Some Logical
  | _ => None
  end.

(** The names the [module procedure] items of an interface block list,
    in their order. *)
Definition module_procedure_names
    (items : list SymbolTableUnits.interface_item_t) : list string :=
  flat_map (fun item =>
              match item with
              | SymbolTableUnits.InterfaceModuleProcedure _ names => names
              | _ => []
              end) items.

Definition is_module_procedure (item : SymbolTableUnits.interface_item_t)
    : bool :=
  match item with
  | SymbolTableUnits.InterfaceModuleProcedure _ _ => true
  | _ => false
  end.

(** What a statement [attribute :: names] records for a name: the
    access or the presence that later declarations of the name take. *)
Definition assigned (sa : SymbolTableUnits.simple_attributeType)
    (u : SymbolTableUnits.unit_state) (k : string) : Prop :=
  match sa with
  | SymbolTableUnits.AttrPrivate =>
      StdMap.find k
        (SymbolTableVisitor.assgnd_access (SymbolTableUnits.base u))
      = Some Private
  | SymbolTableUnits.AttrPublic =>
      StdMap.find k
        (SymbolTableVisitor.assgnd_access (SymbolTableUnits.base u))
      = Some Public
  | SymbolTableUnits.AttrOptional =>
      StdMap.find k (SymbolTableUnits.assgnd_presence u) = Some Optional
  | _ => False
  end.

(** The symbols [use m] takes from a module: subroutines, functions,
    generic procedures and variables. *)
Definition imported_by_use (s : symbol_t) : bool :=
  match s with
  | Subroutine_t _ _ _ _ _ _ => true
  | Function_t _ _ _ _ _ _ _ => true
  | GenericProcedure_t _ _ _ => true
  | Variable_t _ _ _ _ _ _ _ _ _ => true
  | _ => false
  end.

(** The name an entry of [use m, only: ...] has in the current scope. *)
Definition local_sym (u : AST.UseSymbol_t) : string :=
  match AST.m_rename u with
  | Some r => r
  | None => AST.m_sym u
  end.

(** The attribute that records an access for a list of names. *)
Definition access_attribute (a : accessType)
    : SymbolTableUnits.simple_attributeType :=
  match a with
  | Private => SymbolTableUnits.AttrPrivate
  | Public => SymbolTableUnits.AttrPublic
  end.


(* ================================================================== *)
(** * Values for the examples of program units *)
(* ================================================================== *)

(** A visitor of expressions of pass 1 that lowers integer literals,
    and the kind such a literal stands for. *)
Definition visit_expr_num (e : AST.expr_t) (st : SymbolTableVisitor.state)
    : outcome SymbolTableVisitor.state :=
  match e with
  | AST.Num_t _ n =>
      Ok (SymbolTableVisitor.mk_state
            (Some (expr (ConstantInteger_t n integer4)))
            (SymbolTableVisitor.current_scope st)
            (SymbolTableVisitor.dflt_access st)
            (SymbolTableVisitor.assgnd_access st)
            (SymbolTableVisitor.current_module_dependencies st)
            (SymbolTableVisitor.is_interface st)
            (SymbolTableVisitor.current_procedure_args st)
            (SymbolTableVisitor.next_counter st))
  | _ => Throw (SemanticError "Not implemented" loc0)
  end.
Definition extract_kind_num (e : expr_t) (loc : Location) : outcome Z :=
  match e with
  | ConstantInteger_t n _ => Ok n
  | _ => Throw (SemanticError "Kind must be an integer literal" loc)
  end.

(** [logical(8) function g(a) result(r)] with [real :: a] in its body,
    visited in the global scope that holds [s0], and what pass 1 makes
    of it. *)
Definition function_g : SymbolTableUnits.Function_t :=
  SymbolTableUnits.mk_Function loc0 "g" ["a"] (Some (AST.Name_t loc0 "r"))
    [SymbolTableUnits.AttrType
       (SymbolTableUnits.mk_AttrType SymbolTableUnits.TypeLogical
          (Some (AST.Num_t loc0 8)) None)].
Definition dummy_a : symbol_t :=
  Variable_t "a" intent_unspecified None None Default real4 Source Public
    Required.
Definition declare_a (st : SymbolTableVisitor.state)
    : outcome SymbolTableVisitor.state :=
  Ok (SymbolTableVisitor.current_scope_set st "a" dummy_a).
Definition result_r : symbol_t :=
  Variable_t "r" intent_return_var None None Default
    (mk_ttype Logical 4 EmptyString 0) Source Public Required.
Definition function_g_symbol : symbol_t :=
  Function_t
    (mk_SymbolTable [("a", dummy_a); ("r", result_r)]
       (Some (mk_SymbolTable [("s0", sub_s0)] None 0)) 1)
    "g" [Var_t dummy_a] (Var_t result_r) Source Public Implementation.
Definition state_g : SymbolTableVisitor.state :=
  SymbolTableVisitor.mk_state (Some (symbol function_g_symbol))
    (mk_SymbolTable [("g", function_g_symbol); ("s0", sub_s0)] None 0)
    Public [] [] false [] 2.

(** [integer function h()] with [integer :: h] in its body. *)
Definition function_h : SymbolTableUnits.Function_t :=
  SymbolTableUnits.mk_Function loc0 "h" [] None
    [SymbolTableUnits.AttrType
       (SymbolTableUnits.mk_AttrType SymbolTableUnits.TypeInteger None None)].
Definition declare_h (st : SymbolTableVisitor.state)
    : outcome SymbolTableVisitor.state :=
  Ok (SymbolTableVisitor.current_scope_set st "h" (variable "h" integer4)).


(** [real(4), pointer :: p] and [real(8) :: d(10)], and [p => d]. *)
Definition real8_array : ttype_t := mk_ttype Real 8 EmptyString 1.
Definition state_d : BodyVisitor.state :=
  BodyVisitor.mk_state None
    (mk_SymbolTable
       [("d", variable "d" real8_array); ("p", variable "p" real4_pointer)]
       (Some global_scope_p) 1)
    None.
Definition associate_p_d : AST.Associate_t :=
  AST.mk_Associate loc0 (AST.Name_t loc0 "p") (AST.Name_t loc0 "d").


(** [program p] with [use m1, only: r => q], visited in the global
    scope that holds [m1], and what pass 1 makes of it. *)
Definition program_p : SymbolTableUnits.Program_t :=
  SymbolTableUnits.mk_Program loc0 "p" [use_m1_only_r].
Definition program_p_symbol : symbol_t :=
  Program_t
    (mk_SymbolTable [("r", ExternalSymbol_t "q" sub_s0 "m0" "s0" Public)]
       (Some global_scope_m) 8)
    "p" ["m1"].
Definition state_program : SymbolTableVisitor.state :=
  SymbolTableVisitor.mk_state (Some (symbol program_p_symbol))
    (mk_SymbolTable [("m1", module_m1); ("p", program_p_symbol)] None 0)
    Public [] ["m1"] false [] 9.


(** The members of the visitor of pass 1 at the start of the global
    scope that holds [s0]; [type s0] with the member [real :: x]; and a
    second block [interface g] with [module procedure sr, si]. *)
Definition unit_root : SymbolTableUnits.unit_state :=
  SymbolTableUnits.mk_unit_state state_root [("g", ["old"])] EmptyString []
    false.
Definition type_s0 : SymbolTableUnits.DerivedType_t :=
  SymbolTableUnits.mk_DerivedType loc0 "s0".
Definition declare_x (u : SymbolTableUnits.unit_state)
    : outcome SymbolTableUnits.unit_state :=
  Ok (SymbolTableUnits.with_base u
        (SymbolTableVisitor.current_scope_set (SymbolTableUnits.base u)
           "x" member_x)).
Definition interface_g : SymbolTableUnits.Interface_t :=
  SymbolTableUnits.mk_Interface loc0
    (SymbolTableUnits.InterfaceHeaderName "g")
    [SymbolTableUnits.InterfaceModuleProcedure loc0 ["sr"; "si"]].


(** The scope of a module that defines [sr] and [si], with the list
    [interface g] recorded for them, before and after
    [add_generic_procedures]. *)
Definition unit_g : SymbolTableUnits.unit_state :=
  SymbolTableUnits.mk_unit_state
    (SymbolTableVisitor.mk_state None
       (mk_SymbolTable [("si", sub_integer8); ("sr", sub_real)]
          (Some global_scope_p) 1)
       Public [] [] false [] 4)
    [("g", ["sr"; "si"])] EmptyString [] true.
Definition unit_g_added : SymbolTableUnits.unit_state :=
  SymbolTableUnits.mk_unit_state
    (SymbolTableVisitor.mk_state None
       (mk_SymbolTable
          [("g", generic_g); ("si", sub_integer8); ("sr", sub_real)]
          (Some global_scope_p) 1)
       Public [] [] false [] 4)
    [("g", ["sr"; "si"])] EmptyString [] true.


(** [private :: sr, si] in that module. *)
Definition private_sr_si : SymbolTableUnits.Declaration_t :=
  SymbolTableUnits.mk_Declaration loc0 None
    [SymbolTableUnits.SimpleAttribute SymbolTableUnits.AttrPrivate]
    [SymbolTableUnits.mk_var_sym "sr" [] None;
     SymbolTableUnits.mk_var_sym "si" [] None].
Definition unit_g_private : SymbolTableUnits.unit_state :=
  SymbolTableUnits.mk_unit_state
    (SymbolTableVisitor.mk_state None
       (mk_SymbolTable [("si", sub_integer8); ("sr", sub_real)]
          (Some global_scope_p) 1)
       Public [("si", Private); ("sr", Private)] [] false [] 4)
    [("g", ["sr"; "si"])] EmptyString [] true.


(** [private :: sr, si] at the head of a module that defines nothing
    yet, followed by [subroutine sr()]. *)
Definition scope_m_empty : SymbolTable :=
  mk_SymbolTable [] (Some global_scope_p) 1.
Definition unit_m : SymbolTableUnits.unit_state :=
  SymbolTableUnits.mk_unit_state
    (SymbolTableVisitor.mk_state None scope_m_empty Public [] [] false [] 4)
    [] EmptyString [] true.
Definition unit_m_private : SymbolTableUnits.unit_state :=
  SymbolTableUnits.mk_unit_state
    (SymbolTableVisitor.mk_state None scope_m_empty Public
       [("si", Private); ("sr", Private)] [] false [] 4)
    [] EmptyString [] true.
Definition subroutine_sr : AST.Subroutine_t :=
  AST.mk_Subroutine loc0 "sr" [].
Definition sub_sr_private : symbol_t :=
  Subroutine_t (mk_SymbolTable [] (Some scope_m_empty) 4) "sr" [] Source
    Private Implementation.
Definition state_sr_private : SymbolTableVisitor.state :=
  SymbolTableVisitor.mk_state (Some (symbol sub_sr_private))
    (mk_SymbolTable [("sr", sub_sr_private)] (Some global_scope_p) 1)
    Public [("si", Private); ("sr", Private)] [] false [] 5.


(** [module m3] defines [sr] and [si]; a unit below the global scope
    has [use m3].  The state of the unit with [use m1, only: r => q]
    after that statement. *)
Definition module_m3 : symbol_t :=
  Module_t (mk_SymbolTable [("si", sub_integer8); ("sr", sub_real)] None 11)
    "m3" [] false.
Definition state_use_m3 : SymbolTableVisitor.state :=
  SymbolTableVisitor.mk_state None
    (mk_SymbolTable [("sr", variable "sr" real4)]
       (Some (mk_SymbolTable [("m3", module_m3)] None 0)) 12)
    Public [] [] false [] 13.
Definition use_m3 : AST.Use_t := AST.mk_Use loc0 "m3" [].
Definition state_used : SymbolTableVisitor.state :=
  SymbolTableVisitor.mk_state None
    (mk_SymbolTable [("r", ExternalSymbol_t "q" sub_s0 "m0" "s0" Public)]
       (Some global_scope_m) 7)
    Public [] ["m1"] false [] 8.


(* ================================================================== *)
(** * Vocabulary of the properties of expressions in pass 2 *)
(* ================================================================== *)

(** A symbol that is a variable, directly or behind an external
    symbol. *)
Definition is_variable (s : symbol_t) : bool :=
  match symbol_get_past_external s with
  | Variable_t _ _ _ _ _ _ _ _ _ => true
  | _ => false
  end.

(** Every name of the expression that the scope resolves is the name
    of a variable. *)
Fixpoint names_are_variables (s : SymbolTable) (x : AST.expr_t) : bool :=
  match x with
  | AST.Num_t _ _ => true
  | AST.Name_t _ m_id =>
      match resolve_symbol s m_id with
      | Some v => is_variable v
      | None => true
      end
  | AST.Parenthesis_t _ m_operand => names_are_variables s m_operand
  | AST.BinOp_t _ m_left _ m_right
  | AST.Compare_t _ m_left _ m_right
  | AST.BoolOp_t _ m_left _ m_right =>
      names_are_variables s m_left && names_are_variables s m_right
  end.

(** What [visit_expr] leaves behind when it returns: an expression
    that has a type, in [tmp], and the scope and the module as they
    were. *)
Definition lowered (st st' : BodyVisitor.state) : Prop :=
  exists e t,
    BodyVisitor.tmp st' = Some (expr e) /\
    expr_type e = Some t /\
    BodyVisitor.current_scope st' = BodyVisitor.current_scope st /\
    BodyVisitor.current_module st' = BodyVisitor.current_module st.


(** [i / 2 + 3] in the program [p]. *)
Definition half_i_plus_3 : AST.expr_t :=
  AST.BinOp_t loc0
    (AST.BinOp_t loc0 (AST.Name_t loc0 "i") AST.Div (AST.Num_t loc0 2))
    AST.Add (AST.Num_t loc0 3).


(* ================================================================== *)
(** * Vocabulary of the properties of bodies *)
(* ================================================================== *)

(** A symbol that is an allocatable variable, directly or behind an
    external symbol. *)
Definition is_allocatable (s : symbol_t) : bool :=
  match symbol_get_past_external s with
  | Variable_t _ _ _ _ Allocatable _ _ _ _ => true
  | _ => false
  end.

(** An implicit deallocation lists at least one symbol, and allocatable
    variables only. *)
Definition well_formed_deallocate (b : BodyUnits.body_stmt_t) : Prop :=
  match b with
  | BodyUnits.ImplicitDeallocate_t m_vars =>
      m_vars <> [] /\ Forall (fun v => is_allocatable v = true) m_vars
  | _ => True
  end.

(** A symbol that is itself a local allocatable variable. *)
Definition allocatable_local (s : symbol_t) : bool :=
  match s with
  | Variable_t _ intent_local _ _ Allocatable _ _ _ _ => true
  | _ => false
  end.

(** The local allocatable variables a scope holds, in the order of
    their names. *)
Definition allocatable_locals (s : SymbolTable) : list symbol_t :=
  filter allocatable_local (map snd (scope s)).

(** The node that ends a body: the implicit deallocation of the given
    variables, or nothing when there is none. *)
Definition final_deallocate (vars : list symbol_t)
    : list BodyUnits.body_stmt_t :=
  match vars with
  | [] => []
  | _ => [BodyUnits.ImplicitDeallocate_t vars]
  end.

(** The statements of a body that are not deallocations. *)
Definition lowered_statements (body : list BodyUnits.body_stmt_t)
    : list stmt_t :=
  flat_map (fun b =>
              match b with
              | BodyUnits.Statement s => [s]
              | _ => []
              end) body.

(** A formal argument that is a reference to a variable. *)
Definition is_variable_reference (f : expr_t) : bool :=
  match f with
  | Var_t v => is_variable v
  | _ => false
  end.

(** A symbol that is itself an allocatable variable. *)
Definition allocatable_variable (s : symbol_t) : bool :=
  match s with
  | Variable_t _ _ _ _ Allocatable _ _ _ _ => true
  | _ => false
  end.

(** The type of an expression, when it has one, has the tag of [t]. *)
Definition has_tag_of (t : ttype_t) (e : expr_t) : Prop :=
  forall t', expr_type e = Some t' -> type t' = type t.


(** A unit with the allocatable local array [b] and the generic [g]:
    its scope before and after the statement [call g(1)], and its
    body. *)
Definition allocatable_b : symbol_t :=
  Variable_t "b" intent_local None None Allocatable real8_array Source Public
    Required.
Definition state_alloc : BodyVisitor.state :=
  BodyVisitor.mk_state None
    (mk_SymbolTable [("b", allocatable_b); ("g", external_g)]
       (Some global_scope_p) 1)
    None.
Definition state_alloc_called : BodyVisitor.state :=
  BodyVisitor.mk_state
    (Some (stmt (SubroutineCall_t (Some external_g_si) (Some external_g)
                   [ConstantInteger_t 1 integer4])))
    (mk_SymbolTable
       [("b", allocatable_b); ("g", external_g); ("g@si", external_g_si)]
       (Some global_scope_p) 1)
    None.
Definition body_alloc : list BodyUnits.body_stmt_t :=
  [BodyUnits.Statement
     (SubroutineCall_t (Some external_g_si) (Some external_g)
        [ConstantInteger_t 1 integer4]);
   BodyUnits.ImplicitDeallocate_t [allocatable_b]].


(** [integer(4) :: i] and [integer(8) :: n], and the constructor
    [[i, n]]; the location read for a node of the ASR in the
    examples. *)
Definition state_in : BodyVisitor.state :=
  BodyVisitor.mk_state None
    (mk_SymbolTable
       [("i", variable "i" integer4); ("n", variable "n" integer8)]
       (Some global_scope_p) 1)
    None.
Definition array_i_n : list AST.expr_t :=
  [AST.Name_t loc0 "i"; AST.Name_t loc0 "n"].
Definition expr_loc0 (e : expr_t) : Location := loc0.


(* ================================================================== *)
(** * Vocabulary of the properties of [open] and [close] *)
(* ================================================================== *)

(** The keywords [visit_Open] and [visit_Close] look at. *)
Definition known_open_keyword (k : string) : bool :=
  existsb (String.eqb k) ["newunit"; "unit"; "file"; "status"].

Definition known_close_keyword (k : string) : bool :=
  existsb (String.eqb k) ["unit"; "iostat"; "iomsg"; "status"; "err"].

(** The statement without the keyword arguments the visitor does not
    look at. *)
Definition known_part_of_open (x : BodyIO.AST_Open_t) : BodyIO.AST_Open_t :=
  BodyIO.mk_AST_Open (BodyIO.Open_loc x) (BodyIO.Open_label x)
    (BodyIO.Open_args x)
    (filter (fun kwarg => known_open_keyword (fst kwarg))
       (BodyIO.Open_kwargs x)).

Definition known_part_of_close (x : BodyIO.AST_Close_t)
    : BodyIO.AST_Close_t :=
  BodyIO.mk_AST_Close (BodyIO.Close_loc x) (BodyIO.Close_label x)
    (BodyIO.Close_args x)
    (filter (fun kwarg => known_close_keyword (fst kwarg))
       (BodyIO.Close_kwargs x)).


(** [open(i, action=undeclared)] and [close(err=i)] in the program
    [p]. *)
Definition open_i : BodyIO.AST_Open_t :=
  BodyIO.mk_AST_Open loc0 0 [AST.Name_t loc0 "i"]
    [("action", AST.Name_t loc0 "undeclared")].
Definition close_err_i : BodyIO.AST_Close_t :=
  BodyIO.mk_AST_Close loc0 0 [] [("err", AST.Name_t loc0 "i")].


(* ================================================================== *)
(** * Vocabulary of the properties of [select case] *)
(* ================================================================== *)

(** An expression whose type has the tag [Integer]. *)
Definition integer_typed (e : expr_t) : Prop :=
  exists t, expr_type e = Some t /\ type t = Integer.

(** A [case] node whose values, or whose bounds, are such
    expressions. *)
Definition case_of_integers (c : BodySelect.case_stmt_t) : Prop :=
  match c with
  | BodySelect.CaseStmt_t m_test _ => Forall integer_typed m_test
  | BodySelect.CaseStmt_Range_t m_start m_end _ =>
      (forall m, m_start = Some m -> integer_typed m) /\
      (forall m, m_end = Some m -> integer_typed m)
  end.

Definition is_case (S : Type) (c : BodySelect.AST_case_stmt_t S) : bool :=
  match c with
  | BodySelect.AST_CaseStmt_t _ _ _ _ => true
  | BodySelect.AST_CaseStmt_Default_t _ _ _ => false
  end.


(* ================================================================== *)
(** * Vocabulary of the properties of [read] and [write] *)
(* ================================================================== *)

(** The keywords [create_read_write_ASR_node] looks at. *)
Definition known_read_write_keyword (k : string) : bool :=
  existsb (String.eqb k) ["unit"; "iostat"; "iomsg"; "id"].

(** The statement without the keyword arguments the function does not
    look at. *)
Definition known_part_of_read_write (x : BodyReadWrite.AST_read_write_t)
    : BodyReadWrite.AST_read_write_t :=
  BodyReadWrite.mk_AST_read_write (BodyReadWrite.loc x)
    (BodyReadWrite.m_label x) (BodyReadWrite.m_args x)
    (filter (fun kwarg => known_read_write_keyword (fst kwarg))
       (BodyReadWrite.m_kwargs x))
    (BodyReadWrite.m_values x).


(** [write(6, fmt=i) i] in the program [p]. *)
Definition write_6_fmt : BodyReadWrite.AST_read_write_t :=
  BodyReadWrite.mk_AST_read_write loc0 0 [Some (AST.Num_t loc0 6)]
    [("fmt", Some (AST.Name_t loc0 "i"))] [AST.Name_t loc0 "i"].


(** [d(1:2)], a section of the array [d]. *)
Definition section_1_2 : list BodyCalls.fnarg_t :=
  [BodyCalls.mk_fnarg (Some (AST.Num_t loc0 1)) (Some (AST.Num_t loc0 2))
     None].

(* ================================================================== *)
(** * [class BodyVisitor]: references to members of a derived type *)
(* ================================================================== *)

Module BodyMembers.
Import ASR ASRUtils Utils BodyVisitor.
Local Open Scope string_scope.

(** What the value model does not fix, for [getDerivedRef_t].
    [same_node a b] is [a == b] on two pointers to symbols: the model
    holds a node by value and does not tell two nodes of the same value
    apart.  [read_as_DerivedType s] is the pair of
    [der_type->m_symtab->counter] and [der_type->m_name] that the raw
    cast of [s] to [DerivedType_t] reads when [s] is of another variant:
    the header [asr.h], which lays the nodes out, is not part of the
    sources. *)
Class NodeLayout := {
  same_node : symbol_t -> symbol_t -> bool;
  read_as_DerivedType : symbol_t -> nat * string
}.

Section Members.
Context `{NodeLayout}.

(** [der_type->m_symtab->counter] and [der_type->m_name], where
    [der_type] is [der->m_derived_type] behind a raw cast to
    [DerivedType_t]. *)
Definition der_type_fields (m_derived_type : symbol_t) : nat * string :=
  match m_derived_type with
  | DerivedType_t m_symtab m_name _ _ => (counter m_symtab, m_name)
  | _ => read_as_DerivedType m_derived_type
  end.

(** [getDerivedRef_t].  A type node of the model names the derived type
    it refers to; the symbol [der->m_derived_type] points at is handed
    over beside the member, as [m_derived_type].  A member that is not a
    variable is read through a raw cast to [Variable_t]: the outcome is
    undefined.  The result is the node the function returns, and the
    visitor with the scope as the function leaves it. *)
Definition getDerivedRef_t (loc : Location) (v_var : expr_t)
    (member : symbol_t) (m_derived_type : symbol_t) (st : state)
    : outcome (expr_t * state) :=
  match member with
  | Variable_t _ _ _ _ _ member_type _ _ _ =>
      match type member_type with
      | Derived =>
          let '(der_counter, der_name) := der_type_fields m_derived_type in
          if negb (Nat.eqb der_counter (counter (current_scope st))) then
            let '(m_external, module_name) :=
              match m_derived_type with
              | ExternalSymbol_t _ m_ext_external m_ext_module_name _ _ =>
                  (m_ext_external, m_ext_module_name)
              | _ => (m_derived_type, "nullptr")
              end in
            let mangled_name := "1_" ++ module_name ++ "_" ++ der_name in
            '(der_ext, st) <-
              match StdMap.find mangled_name (scope (current_scope st)) with
              | None =>
                  let der_tmp :=
                    StdMap.find der_name (scope (current_scope st)) in
                  let make_new_ext_sym :=
                    match der_tmp with
                    | Some (ExternalSymbol_t _ der_ext_tmp_external _ _ _) =>
                        negb (same_node der_ext_tmp_external m_external)
                    | _ => true
                    end in
                  if make_new_ext_sym then
                    let der_ext :=
                      ExternalSymbol_t mangled_name m_external module_name
                        der_name Public in
                    Ok (der_ext,
                        set_current_scope st
                          (SymbolTableVisitor.scope_set (current_scope st)
                             mangled_name der_ext))
                  else
                    der_ext <- deref der_tmp ;;
                    Ok (der_ext, st)
              | Some der_ext => Ok (der_ext, st)
              end ;;
            let der_new :=
              mk_ttype Derived (ASR.m_kind member_type) (symbol_name der_ext)
                (n_dims member_type) in
            Ok (DerivedRef_t v_var member der_new None, st)
          else Ok (DerivedRef_t v_var member member_type None, st)
      | _ => Ok (DerivedRef_t v_var member member_type None, st)
      end
  | _ => Undefined
  end.

End Members.
End BodyMembers.

(* ================================================================== *)
(** * Vocabulary of the property of external symbols in the SIR
    The SIR is a value here: a scope holds its parent and the tables of
    its units by value, where the source holds pointers.  The scopes the
    analysis produces are given by the places of the source that make a
    scope or write to one:
    - the table handed to [ast_to_asr],
      [al.make_new<SymbolTable>(nullptr)] in [visit_TranslationUnit] and
      [al.make_new<SymbolTable>(parent_scope)] in the visitors of the
      units and in the declaration of [present] and of the elementary
      functions;
    - [current_scope = parent_scope] and [current_scope = old_scope], and
      [current_scope = v->m_symtab] in pass 2: the scope above a scope,
      and the table of a unit bound in it;
    - [scope[name] = ...] with a node made by [make_Variable_t],
      [make_GenericProcedure_t] or [make_ClassProcedure_t];
    - [scope[name] = ...] with a unit made by [make_Module_t],
      [make_Program_t], [make_Subroutine_t], [make_Function_t] or
      [make_DerivedType_t], whose table is a scope the analysis
      produced;
    - [scope[name] = ...] with the node made by [make_ExternalSymbol_t],
      which every place that makes one enters in the current scope: the
      functions [visit_Use], [visit_FuncCallOrArray] (both passes),
      [visit_SubroutineCall] and [getDerivedRef_t], as embedded above;
    - the table of a module the loader returns (the module itself is a
      unit whose table is produced, wherever the loader enters it).
    A pointer reads what it points at as it is when it is read: a scope
    with the scope above it produced anew, and a unit with its table
    produced anew, are scopes the analysis produces. *)
(* ================================================================== *)

(** The table of a symbol that owns one. *)
Definition symtab_of (s : symbol_t) : option SymbolTable :=
  match s with
  | Program_t t _ _ | Module_t t _ _ _ | Subroutine_t t _ _ _ _ _
  | Function_t t _ _ _ _ _ _ | DerivedType_t t _ _ _ => Some t
  | _ => None
  end.

(** The scopes of the SIR, seen from the scope [s]: [s] itself, the
    scopes above, and the tables of the units bound in any of them. *)
Inductive scope_of_sir (s : SymbolTable) : SymbolTable -> Prop :=
| sir_here : scope_of_sir s s
| sir_parent (t p : SymbolTable) :
    scope_of_sir s t -> parent t = Some p -> scope_of_sir s p
| sir_unit (t : SymbolTable) (k : string) (v : symbol_t) (u : SymbolTable) :
    scope_of_sir s t -> In (k, v) (scope t) -> symtab_of v = Some u ->
    scope_of_sir s u.

(** No external symbol bound in a scope of the SIR points at an external
    symbol. *)
Definition sir_unchained (s : SymbolTable) : Prop :=
  forall t, scope_of_sir s t -> scope_unchained (scope t).

(** A node made by [make_Variable_t], [make_GenericProcedure_t] or
    [make_ClassProcedure_t]. *)
Definition made_node (v : symbol_t) : Prop :=
  match v with
  | Variable_t _ _ _ _ _ _ _ _ _ => True
  | GenericProcedure_t _ _ _ => True
  | ClassProcedure_t _ _ _ _ => True
  | _ => False
  end.

(** The argument [symbol_table] of [ast_to_asr]: the global scope an
    earlier run has left, or the null pointer. *)
Class AnalysisInput := { symbol_table : option SymbolTable }.

(** The scope [s'] is the scope [s] with further external symbols, none
    of which points at an external symbol. *)
Definition extended_by_externals (s s' : SymbolTable) : Prop :=
  parent s' = parent s /\
  forall k v, In (k, v) (scope s') ->
    In (k, v) (scope s) \/ (is_ExternalSymbol v = true /\ unchained v).


Section Produced.
Context `{ModuleLoader} `{BodyMembers.NodeLayout} `{AnalysisInput}.

Inductive produced : SymbolTable -> Prop :=
(* [SymbolTableVisitor v(al, symbol_table)]: the table handed to
   [ast_to_asr] *)
| produced_given (t : SymbolTable) :
    symbol_table = Some t -> produced t
(* [al.make_new<SymbolTable>(nullptr)] in [visit_TranslationUnit] *)
| produced_root (c : nat) : produced (mk_SymbolTable [] None c)
(* [al.make_new<SymbolTable>(parent_scope)] in the visitors of the units
   of pass 1, [al.make_new<SymbolTable>(unit->m_global_scope)] in pass 2 *)
| produced_new (p : SymbolTable) (c : nat) :
    produced p -> produced (mk_SymbolTable [] (Some p) c)
(* [current_scope = parent_scope], [current_scope = old_scope],
   [current_scope->parent] *)
| produced_parent (s p : SymbolTable) :
    produced s -> parent s = Some p -> produced p
(* [current_scope = v->m_symtab] in the visitors of the units of pass 2,
   [clss->m_symtab] in [add_class_procedures] *)
| produced_table (s : SymbolTable) (k : string) (v : symbol_t)
    (t : SymbolTable) :
    produced s -> In (k, v) (scope s) -> symtab_of v = Some t -> produced t
(* a scope read through its pointer to the scope above, which has been
   written to since the scope was made *)
| produced_reparent (s p : SymbolTable) :
    produced s -> produced p ->
    produced (mk_SymbolTable (scope s) (Some p) (counter s))
(* [scope[name] = ...] with a variable ([visit_Function],
   [visit_Declaration], the declaration of [present] and of the
   elementary functions), a generic procedure
   ([add_generic_procedures]) or a class procedure
   ([add_class_procedures]) *)
| produced_node (s : SymbolTable) (name : string) (v : symbol_t) :
    produced s -> made_node v ->
    produced (SymbolTableVisitor.scope_set s name v)
(* [parent_scope->scope[sym_name] = ...] with the unit made from the
   current scope, in the visitors of the units of pass 1;
   [unit->m_global_scope->scope[sym_name] = ...] with the function made
   from [fn_scope], in pass 2; a unit read through its pointer to its
   table, which pass 2 has written to *)
| produced_unit (s t : SymbolTable) (name : string) (v : symbol_t) :
    produced s -> produced t -> symtab_of v = Some t ->
    produced (SymbolTableVisitor.scope_set s name v)
(* the table of the module [load_module] returns *)
| produced_loaded (p : option SymbolTable) (name : string) (loc : Location)
    (intrinsic : bool) (t : SymbolTable) (m_name : string)
    (deps : list string) (l : bool) :
    load_module p name loc intrinsic = Ok (Module_t t m_name deps l) ->
    produced t
(* [make_ExternalSymbol_t] in [SymbolTableVisitor::visit_Use] *)
| produced_visit_Use (x : AST.Use_t) (st st' : SymbolTableVisitor.state) :
    produced (SymbolTableVisitor.current_scope st) ->
    SymbolTableVisitor.visit_Use x st = Ok st' ->
    produced (SymbolTableVisitor.current_scope st')
(* [make_ExternalSymbol_t] in
   [SymbolTableVisitor::visit_FuncCallOrArray] *)
| produced_intrinsic_pass1 (x : AST.FuncCallOrArray_t)
    (st st' : SymbolTableVisitor.state) (v : symbol_t) :
    produced (SymbolTableVisitor.current_scope st) ->
    SymbolTableVisitor.visit_FuncCallOrArray_symbol x st = Ok (v, st') ->
    produced (SymbolTableVisitor.current_scope st')
(* [make_ExternalSymbol_t] in [BodyVisitor::visit_FuncCallOrArray], the
   branch of the intrinsic procedures *)
| produced_intrinsic_pass2 (x : AST.FuncCallOrArray_t)
    (otherwise :
       BodyVisitor.state -> outcome (symbol_t * BodyVisitor.state))
    (st st' : BodyVisitor.state) (v : symbol_t) (module_name : string) :
    produced (BodyVisitor.current_scope st) ->
    resolve_symbol (BodyVisitor.current_scope st) (AST.m_func x) = None ->
    StdMap.find (to_lower (AST.m_func x)) intrinsic_procedures
    = Some module_name ->
    BodyVisitor.visit_FuncCallOrArray_symbol x otherwise st = Ok (v, st') ->
    produced (BodyVisitor.current_scope st')
(* [make_ExternalSymbol_t] in [BodyVisitor::visit_SubroutineCall]; the
   scope it writes to is the one the visitors of the member part and of
   the arguments leave *)
| produced_visit_SubroutineCall
    (visit_expr : AST.expr_t -> BodyVisitor.state -> outcome BodyVisitor.state)
    (resolve_deriv_type_proc :
       Location -> string -> string -> BodyVisitor.state ->
       outcome (option symbol_t * BodyVisitor.state))
    (x : AST.SubroutineCall_t) (st st1 st2 st' : BodyVisitor.state)
    (original_sym : option symbol_t) (args : list expr_t) :
    call_symbol resolve_deriv_type_proc x st = Ok (original_sym, st1) ->
    BodyVisitor.visit_expr_list visit_expr (AST.m_args x) st1
    = Ok (args, st2) ->
    produced (BodyVisitor.current_scope st2) ->
    BodyVisitor.visit_SubroutineCall visit_expr resolve_deriv_type_proc x st
    = Ok st' ->
    produced (BodyVisitor.current_scope st')
(* [make_ExternalSymbol_t] in [BodyVisitor::getDerivedRef_t];
   [der->m_derived_type] is the symbol [visit_Declaration] resolved the
   name of the type to, or the symbol [getDerivedRef_t] has put in its
   place: a symbol bound in a scope *)
| produced_getDerivedRef_t (loc : Location) (v_var : expr_t)
    (member m_derived_type : symbol_t) (s : SymbolTable) (k : string)
    (st st' : BodyVisitor.state) (a : expr_t) :
    produced (BodyVisitor.current_scope st) ->
    produced s -> In (k, m_derived_type) (scope s) ->
    BodyMembers.getDerivedRef_t loc v_var member m_derived_type st
    = Ok (a, st') ->
    produced (BodyVisitor.current_scope st').

(** A visitor of pass 1 that takes a scope of the SIR to a scope of the
    SIR. *)
Definition keeps_produced
    (f : SymbolTableVisitor.state -> outcome SymbolTableVisitor.state)
    : Prop :=
  forall s s',
    produced (SymbolTableVisitor.current_scope s) -> f s = Ok s' ->
    produced (SymbolTableVisitor.current_scope s').

Definition keeps_produced_unit
    (f : SymbolTableUnits.unit_state -> outcome SymbolTableUnits.unit_state)
    : Prop :=
  forall u u',
    produced (SymbolTableVisitor.current_scope (SymbolTableUnits.base u)) ->
    f u = Ok u' ->
    produced (SymbolTableVisitor.current_scope (SymbolTableUnits.base u')).

Definition keeps_produced_body
    (f : BodyVisitor.state -> outcome BodyVisitor.state) : Prop :=
  forall s s',
    produced (BodyVisitor.current_scope s) -> f s = Ok s' ->
    produced (BodyVisitor.current_scope s').

(** The module a [use] statement names: the symbol its name resolves to
    from the scope above the current one, or the module the loader
    returns when the name resolves to nothing. *)
Definition module_of_use (x : AST.Use_t) (st : SymbolTableVisitor.state)
    (m : symbol_t) : Prop :=
  exists parent_scope,
    parent (SymbolTableVisitor.current_scope st) = Some parent_scope /\
    (resolve_symbol parent_scope (AST.m_module x) = Some m \/
     resolve_symbol parent_scope (AST.m_module x) = None /\
     load_module (Some parent_scope) (AST.m_module x) (AST.Use_loc x) false
     = Ok m).

End Produced.

(** A loader that knows the module [m1], whose scope holds the external
    symbol [q]; a unit below an empty global scope, before and after
    [use m1, only: r => q]. *)
Definition loader_m1 : ModuleLoader :=
  {| load_module := fun _ name loc _ =>
       if String.eqb name "m1"
       then Ok module_m1
       else Throw (SemanticError "Module not found" loc) |}.
Definition state_unit : SymbolTableVisitor.state :=
  SymbolTableVisitor.mk_state None
    (mk_SymbolTable [] (Some (mk_SymbolTable [] None 0)) 1)
    Public [] [] false [] 2.
Definition state_unit_used : SymbolTableVisitor.state :=
  SymbolTableVisitor.mk_state None
    (mk_SymbolTable [("r", ExternalSymbol_t "q" sub_s0 "m0" "s0" Public)]
       (Some (mk_SymbolTable [] None 0)) 1)
    Public [] ["m1"] false [] 2.

#[local] Instance layout_by_name : BodyMembers.NodeLayout :=
  {| BodyMembers.same_node := fun _ _ => false;
     BodyMembers.read_as_DerivedType := fun s => (0%nat, symbol_name s) |}.

#[local] Instance no_symbol_table : AnalysisInput :=
  {| symbol_table := None |}.

(* ================================================================== *)
(** * Properties of scopes *)
(* ================================================================== *)

Section Scopes.
Variable T : Type.

Lemma StdMap_set_In (k : string) (v : T) (m : StdMap.t T) (b : string * T) :
  In b (StdMap.set k v m) -> b = (k, v) \/ In b m.
Proof.
  induction m as [| [k' v'] m IH]; cbn.
  - intros [E | []]. left. symmetry. exact E.
  - destruct (String.compare k k'); cbn.
    + intros [E | I]; [left; symmetry; exact E | right; right; exact I].
    + intros [E | I]; [left; symmetry; exact E | right; exact I].
    + intros [E | I]; [right; left; exact E |].
      destruct (IH I) as [E | I']; [left; exact E | right; right; exact I'].
Qed.

Lemma StdMap_find_set_same (k : string) (v : T) (m : StdMap.t T) :
  StdMap.find k (StdMap.set k v m) = Some v.
Proof.
  induction m as [| [k' v'] m IH]; cbn.
  - rewrite String.eqb_refl. reflexivity.
  - destruct (String.compare k k') eqn:C; cbn.
    + rewrite String.eqb_refl. reflexivity.
    + rewrite String.eqb_refl. reflexivity.
    + destruct (String.eqb_spec k k') as [E | N].
      * subst k'.
        pose proof (String.compare_antisym k k) as R.
        rewrite C in R. discriminate R.
      * exact IH.
Qed.

Lemma StdMap_find_In (k : string) (v : T) (m : StdMap.t T) :
  StdMap.find k m = Some v -> In (k, v) m.
Proof.
  induction m as [| [k' v'] m IH]; cbn; [discriminate |].
  destruct (String.eqb_spec k k') as [E | N].
  - intros [= ->]. left. subst k'. reflexivity.
  - intros F. right. apply IH. exact F.
Qed.

Lemma foldM_invariant (A S : Type) (P : S -> Prop)
    (f : S -> A -> outcome S) (l : list A) :
  (forall s a s', P s -> In a l -> f s a = Ok s' -> P s') ->
  forall s s', P s -> foldM f l s = Ok s' -> P s'.
Proof.
  induction l as [| a l IH]; intros Step s s' Ps E; cbn in E.
  - injection E as <-. exact Ps.
  - destruct (f s a) as [s1 | |] eqn:F; cbn [bind] in E; try discriminate E.
    apply (IH (fun s a s' Q I => Step s a s' Q (or_intror I)) s1 s').
    + apply (Step s a s1 Ps (or_introl eq_refl) F).
    + exact E.
Qed.

End Scopes.

Lemma scope_unchained_set (k : string) (v : symbol_t)
    (sc : list (string * symbol_t)) :
  scope_unchained sc -> unchained v -> scope_unchained (StdMap.set k v sc).
Proof.
  unfold scope_unchained. rewrite !Forall_forall.
  intros F U b I.
  destruct (StdMap_set_In _ k v sc b I) as [-> | I']; [exact U | apply F, I'].
Qed.

Lemma scope_unchained_find (k : string) (v : symbol_t)
    (sc : list (string * symbol_t)) :
  scope_unchained sc -> StdMap.find k sc = Some v -> unchained v.
Proof.
  unfold scope_unchained. rewrite Forall_forall.
  intros F E. apply (F (k, v)). apply StdMap_find_In. exact E.
Qed.

Lemma resolve_symbol_unchained (s : SymbolTable) (name : string)
    (v : symbol_t) :
  chain_unchained s -> resolve_symbol s name = Some v -> unchained v.
Proof.
  revert s.
  fix IH 1.
  intros [sc p c] [U Up]. cbn [resolve_symbol].
  destruct (StdMap.find name sc) as [w |] eqn:F.
  - intros [= ->]. apply (scope_unchained_find name v sc U F).
  - destruct p as [s' |]; [| discriminate].
    apply IH. exact Up.
Qed.

(* ================================================================== *)
(** * Properties of the implicit cast rules *)
(* ================================================================== *)

Section CastRules.
Context `{KindOf}.

Lemma ttypeType_eqb_eq (a b : ttypeType) :
  ttypeType_eqb a b = true <-> a = b.
Proof.
  split.
  - destruct a, b; simpl; intros E; try reflexivity; discriminate E.
  - intros ->. unfold ttypeType_eqb. apply Nat.eqb_refl.
Qed.

Lemma family_index (t : ttypeType) :
  ttypeType_index (family t) = (ttypeType_index t mod (num_types / 2))%nat.
Proof. destruct t; reflexivity. Qed.

Lemma same_family_pair_family (s d : ttype_t) :
  same_family_pair s d = true <-> family (type s) = family (type d).
Proof.
  unfold same_family_pair, is_same_type_pointer, is_pointer.
  destruct (type s), (type d); simpl; split; intros E;
    try reflexivity; discriminate E.
Qed.

Lemma priority_family (t : ttype_t) :
  priority t =
  match family (type t) with
  | Integer => 4
  | Real => 5
  | Complex => 6
  | _ => -1
  end.
Proof. unfold priority. destruct (type t); reflexivity. Qed.

(** When the early return is not taken, the result is read off the rule
    table at the family of the source and the tag of the destination. *)
Lemma set_converted_value_table loc e (s d : ttype_t) :
  returns_early s d = false ->
  set_converted_value loc e s d =
  let d' := if swapped s d then s else d in
  match rule_map_at (ttypeType_index (family (type s)))
                    (ttypeType_index (family (type d))) with
  | error_case =>
      Throw (SemanticError
        ("Only " ++ type_names_at (ttypeType_index (type d')) true ++
         " can be assigned to " ++
         type_names_at (ttypeType_index (type d')) false)%string loc)
  | default_case => Ok e
  | cast_case k => Ok (ImplicitCast_t e k d' None)
  end.
Proof.
  unfold returns_early, set_converted_value, swapped.
  fold (same_family_pair s d).
  intros E.
  destruct (same_family_pair s d) eqn:S; simpl in *.
  - apply same_family_pair_family in S.
    destruct (is_pointer s && negb (is_pointer d)) eqn:P.
    + rewrite Z.eqb_sym, E.
      unfold is_pointer in P.
      destruct (type s), (type d); try discriminate S; try discriminate P;
        reflexivity.
    + rewrite E.
      destruct (type s), (type d); try discriminate S; reflexivity.
  - destruct (type s), (type d); reflexivity.
Qed.

End CastRules.

(** C1 (as amended).  [find_conversion_candidate] reads the priority of
    the family of each operand (Integer 4, Real 5, Complex 6, the other
    families -1) and makes the type of the operand of strictly higher
    priority the destination, the other operand being the one to cast;
    when the two priorities are equal the left operand gives the
    destination and the right operand is the one to cast. *)
Theorem find_conversion_candidate_by_priority (left_type right_type : ttype_t) :
  (priority left_type =
     match family (type left_type) with
     | Integer => 4 | Real => 5 | Complex => 6 | _ => -1
     end) /\
  (priority right_type < priority left_type ->
     find_conversion_candidate left_type right_type
     = (right_operand, right_type, left_type)) /\
  (priority left_type < priority right_type ->
     find_conversion_candidate left_type right_type
     = (left_operand, left_type, right_type)) /\
  (priority left_type = priority right_type ->
     find_conversion_candidate left_type right_type
     = (right_operand, right_type, left_type)).
Proof.
  split; [apply priority_family |].
  unfold find_conversion_candidate.
  fold (priority left_type) (priority right_type).
  repeat split; intros P.
  - destruct (Z.geb_spec (priority left_type) (priority right_type));
      [reflexivity | lia].
  - destruct (Z.geb_spec (priority left_type) (priority right_type));
      [lia | reflexivity].
  - destruct (Z.geb_spec (priority left_type) (priority right_type));
      [reflexivity | lia].
Qed.

Lemma find_conversion_candidate_by_priority_witness :
  find_conversion_candidate integer4 real4 = (left_operand, integer4, real4)
  /\ find_conversion_candidate integer4 integer8
     = (right_operand, integer8, integer4).
Proof.
  split.
  - apply (proj1 (proj2 (proj2
      (find_conversion_candidate_by_priority integer4 real4)))).
    reflexivity.
  - apply (proj2 (proj2 (proj2
      (find_conversion_candidate_by_priority integer4 integer8)))).
    reflexivity.
Defined.

(** C1 as stated fails on a tie: with a left operand [integer(4)] and a
    right operand [integer(8)] the priorities are equal, and it is not
    the right operand that gives the destination with the left one
    cast. *)
Lemma find_conversion_candidate_tie_casts_right :
  priority integer4 = priority integer8 /\
  find_conversion_candidate integer4 integer8
  <> (left_operand, integer4, integer8).
Proof. split; [reflexivity | discriminate]. Qed.

(** C2.  When [set_converted_value] reads the rule table, it throws
    exactly when the source is of the Integer family and the destination
    of the Character or Derived family; Integer to Integer, Real, Complex
    and Logical and Real to Integer, Real and Complex wrap the expression
    in an [ImplicitCast] of that cast kind; every other pair of
    different families leaves the expression as it is.  (The cast node
    carries the destination type, which in a pointer-to-plain pair of
    one family is the pointer type.) *)
Theorem set_converted_value_rule_table `{KindOf} loc e (s d : ttype_t) :
  returns_early s d = false ->
  let r := set_converted_value loc e s d in
  let fs := family (type s) in
  let fd := family (type d) in
  let d' := if swapped s d then s else d in
  (is_Throw r = true <->
     fs = Integer /\ (fd = Character \/ fd = Derived)) /\
  (fs = Integer -> fd = Integer ->
     r = Ok (ImplicitCast_t e IntegerToInteger d' None)) /\
  (fs = Integer -> fd = Real ->
     r = Ok (ImplicitCast_t e IntegerToReal d' None)) /\
  (fs = Integer -> fd = Complex ->
     r = Ok (ImplicitCast_t e IntegerToComplex d' None)) /\
  (fs = Integer -> fd = Logical ->
     r = Ok (ImplicitCast_t e IntegerToLogical d' None)) /\
  (fs = Real -> fd = Integer ->
     r = Ok (ImplicitCast_t e RealToInteger d' None)) /\
  (fs = Real -> fd = Real ->
     r = Ok (ImplicitCast_t e RealToReal d' None)) /\
  (fs = Real -> fd = Complex ->
     r = Ok (ImplicitCast_t e RealToComplex d' None)) /\
  (fs <> fd -> fs <> Integer ->
     (fs = Real -> fd <> Integer /\ fd <> Complex) ->
     r = Ok e).
Proof.
  intros E r fs fd d'.
  subst r. rewrite (set_converted_value_table loc e s d E).
  fold d'. subst fs fd. clearbody d'. clear E.
  destruct (family (type s)) eqn:Fs;
    try (destruct (type s); discriminate Fs);
    destruct (family (type d)) eqn:Fd;
    try (destruct (type d); discriminate Fd);
    cbn;
    (split; [split; [intros T; try discriminate T; auto
                    | intros [A [B | B]]; try discriminate A;
                      try discriminate B; reflexivity] |]);
    repeat split; intros; try reflexivity; try congruence;
    try (exfalso; intuition congruence).
Qed.

Lemma set_converted_value_rule_table_witness :
  set_converted_value loc0 (ConstantInteger_t 1 integer4) integer4 real4
  = Ok (ImplicitCast_t (ConstantInteger_t 1 integer4) IntegerToReal real4 None)
  /\ is_Throw (set_converted_value loc0 (ConstantInteger_t 1 integer4)
                 integer4 character4) = true.
Proof.
  pose proof (@set_converted_value_rule_table kind_of_node loc0
                (ConstantInteger_t 1 integer4) integer4 real4 eq_refl) as R.
  pose proof (@set_converted_value_rule_table kind_of_node loc0
                (ConstantInteger_t 1 integer4) integer4 character4 eq_refl) as C.
  split.
  - apply (proj1 (proj2 (proj2 R))); reflexivity.
  - apply (proj1 C). split; [reflexivity | left; reflexivity].
Defined.

(* ================================================================== *)
(** * Properties of the shared visitors *)
(* ================================================================== *)

Lemma wrap64_in_range (z : Z) : in_int64 z -> wrap64 z = z.
Proof.
  unfold in_int64, int64_min, int64_max, wrap64. intros R.
  rewrite Z.mod_small; lia.
Qed.

Section SharedVisitors.
Context `{KindOf} `{Libm}.

(** An operand of the Integer family is cast only to a numeric
    destination, so the cast of the candidate never throws. *)
Lemma cast_candidate_Ok loc left right (lt rt : ttype_t) :
  exists l' r' dest,
    cast_candidate loc left right lt rt = Ok (l', r', dest) /\
    dest = snd (find_conversion_candidate lt rt).
Proof.
  unfold cast_candidate, find_conversion_candidate.
  fold (priority lt) (priority rt).
  rewrite !priority_family.
  destruct (Z.geb_spec
              match family (type lt) with
              | Integer => 4 | Real => 5 | Complex => 6 | _ => -1 end
              match family (type rt) with
              | Integer => 4 | Real => 5 | Complex => 6 | _ => -1 end)
    as [G | G].
  - destruct (returns_early rt lt) eqn:E.
    + unfold returns_early in E. unfold set_converted_value.
      fold (same_family_pair rt lt).
      apply andb_prop in E. destruct E as [S K].
      rewrite S. cbn [andb].
      assert (K' : Z.eqb
                (extract_kind_from_ttype_t
                   (if is_pointer rt && negb (is_pointer lt) then lt else rt))
                (extract_kind_from_ttype_t
                   (if is_pointer rt && negb (is_pointer lt) then rt else lt))
              = true).
      { destruct (is_pointer rt && negb (is_pointer lt));
          [rewrite Z.eqb_sym |]; exact K. }
      rewrite K'. cbn. eauto.
    + rewrite (set_converted_value_table loc right rt lt E).
      destruct (family (type lt)) eqn:Fl;
        try (destruct (type lt); discriminate Fl);
        destruct (family (type rt)) eqn:Fr;
        try (destruct (type rt); discriminate Fr);
        try lia; cbn; eauto.
  - destruct (returns_early lt rt) eqn:E.
    + unfold returns_early in E. unfold set_converted_value.
      fold (same_family_pair lt rt).
      apply andb_prop in E. destruct E as [S K].
      rewrite S. cbn [andb].
      assert (K' : Z.eqb
                (extract_kind_from_ttype_t
                   (if is_pointer lt && negb (is_pointer rt) then rt else lt))
                (extract_kind_from_ttype_t
                   (if is_pointer lt && negb (is_pointer rt) then lt else rt))
              = true).
      { destruct (is_pointer lt && negb (is_pointer rt));
          [rewrite Z.eqb_sym |]; exact K. }
      rewrite K'. cbn. eauto.
    + rewrite (set_converted_value_table loc left lt rt E).
      destruct (family (type lt)) eqn:Fl;
        try (destruct (type lt); discriminate Fl);
        destruct (family (type rt)) eqn:Fr;
        try (destruct (type rt); discriminate Fr);
        try lia; cbn; eauto.
Qed.

End SharedVisitors.

(** C3 (as amended).  When the two operands of a binary operation, as
    they stand after the cast, both have a constant integer as value and
    the destination type is Integer, the [BinOp] node has a folded value:
    for [+], [-], [*] and [/] the exact integer result (the quotient
    truncated towards zero) whenever that result is in the range of
    [int64_t] and the divisor of [/] is not zero, and for [**] what
    [std::pow] returns.  The assignment [i = 2 + 3] of the program
    [program p; integer :: i; i = 2 + 3; end program] gets as right-hand
    side the node [2 + 3] with folded value 5, without a cast. *)
Theorem visit_BinOp_folds_integers `{KindOf} `{Libm} :
  (forall loc op left right (lt rt : ttype_t) left' right' dest l tl r tr,
     expr_type left = Some lt ->
     expr_type right = Some rt ->
     cast_candidate loc left right lt rt = Ok (left', right', dest) ->
     expr_value left' = Some (ConstantInteger_t l tl) ->
     expr_value right' = Some (ConstantInteger_t r tr) ->
     type dest = Integer ->
     (forall z, exact_result op l r = Some z -> in_int64 z ->
        (op = AST.Div -> r <> 0) ->
        visit_BinOp loc op left right
        = Ok (BinOp_t left' (asr_binop op) right' dest
                (Some (ConstantInteger_t z dest)))) /\
     (op = AST.Pow ->
        visit_BinOp loc op left right
        = Ok (BinOp_t left' Pow right' dest
                (Some (ConstantInteger_t (std_pow l r) dest))))) /\
  (BodyVisitor.visit_Assignment BodyVisitor.visit_expr assignment_p state_p
   = Ok (BodyVisitor.set_tmp state_p
           (Some (stmt (Assignment_t (Var_t (variable "i" integer4))
              (BinOp_t (ConstantInteger_t 2 integer4) Add
                 (ConstantInteger_t 3 integer4) integer4
                 (Some (ConstantInteger_t 5 integer4)))))))).
Proof.
  split.
  - intros loc op left right lt rt left' right' dest l tl r tr
           Tl Tr C Vl Vr D.
    assert (Dt : ttypeType_eqb (type dest) Integer = true)
      by (apply ttypeType_eqb_eq; exact D).
    split.
    + intros z X R Z0.
      unfold visit_BinOp. rewrite Tl, Tr. cbn [deref bind].
      rewrite C. cbn [bind]. rewrite Vl, Vr, Dt.
      destruct op; cbn in X; inversion X; subst z; cbn [bind asr_binop].
      * rewrite (wrap64_in_range _ R). reflexivity.
      * rewrite (wrap64_in_range _ R). reflexivity.
      * rewrite (wrap64_in_range _ R). reflexivity.
      * assert (Rz : Z.eqb r 0 = false) by (apply Z.eqb_neq; auto).
        rewrite Rz. cbn [orb].
        destruct (Z.eqb l int64_min && Z.eqb r (-1)) eqn:M.
        -- apply andb_prop in M. destruct M as [Ml Mr].
           apply Z.eqb_eq in Ml, Mr. subst l r.
           unfold in_int64, int64_min, int64_max in R. cbn in R. lia.
        -- reflexivity.
    + intros ->.
      unfold visit_BinOp. rewrite Tl, Tr. cbn [deref bind].
      rewrite C. cbn [bind]. rewrite Vl, Vr, Dt. reflexivity.
  - unfold BodyVisitor.visit_Assignment. cbn.
    unfold cast_candidate, set_converted_value. cbn.
    rewrite Z.eqb_refl. cbn.
    unfold set_converted_value. cbn. rewrite Z.eqb_refl. reflexivity.
Qed.

Lemma visit_BinOp_folds_integers_witness :
  visit_BinOp loc0 AST.Div (ConstantInteger_t 7 integer4)
    (ConstantInteger_t (-2) integer4)
  = Ok (BinOp_t (ConstantInteger_t 7 integer4) Div
          (ConstantInteger_t (-2) integer4) integer4
          (Some (ConstantInteger_t (-3) integer4))).
Proof.
  refine (proj1 (proj1 (@visit_BinOp_folds_integers kind_of_node libm_exact)
            loc0 AST.Div (ConstantInteger_t 7 integer4)
            (ConstantInteger_t (-2) integer4) integer4 integer4
            (ConstantInteger_t 7 integer4) (ConstantInteger_t (-2) integer4)
            integer4 7 integer4 (-2) integer4
            eq_refl eq_refl eq_refl eq_refl eq_refl eq_refl)
          (-3) eq_refl _ _).
  - unfold in_int64, int64_min, int64_max. lia.
  - intros _. lia.
Defined.

(** C3 as stated fails where the exact result is outside [int64_t]: the
    product of the literals 4611686018427387903 (2^62-1, the largest
    literal accepted) and 4 is folded to -4. *)
Lemma visit_BinOp_product_wraps :
  visit_BinOp loc0 AST.Mul (ConstantInteger_t (2 ^ 62 - 1) integer4)
    (ConstantInteger_t 4 integer4)
  = Ok (BinOp_t (ConstantInteger_t (2 ^ 62 - 1) integer4) Mul
          (ConstantInteger_t 4 integer4) integer4
          (Some (ConstantInteger_t (-4) integer4)))
  /\ (2 ^ 62 - 1) * 4 <> -4
  /\ ~ in_int64 ((2 ^ 62 - 1) * 4)
  /\ BodyVisitor.is_int_ptr (2 ^ 62 - 1) = false.
Proof.
  repeat split.
  - discriminate.
  - unfold in_int64, int64_min, int64_max. lia.
Qed.

(** C10.  A [Compare] node always has the type [Logical] of kind 4 and
    no folded value; the comparison is rejected with a semantic error
    exactly when neither operand is of type Integer or Real, unless both
    operands are of type Complex or the operator is [.eq.] or [.neq.]. *)
Theorem visit_Compare_logical `{KindOf} loc op left right (lt rt : ttype_t) :
  expr_type left = Some lt ->
  expr_type right = Some rt ->
  (compare_rejected lt rt op ->
     visit_Compare loc op left right
     = Throw (SemanticError
         ("Compare: only Integer or Real can be on the LHS and RHS. " ++
          "If operator is .eq. or .neq. then Complex type is also acceptable")
         loc)) /\
  (~ compare_rejected lt rt op ->
     exists l' r',
       visit_Compare loc op left right
       = Ok (Compare_t l' (asr_cmpop op) r'
               (mk_ttype Logical 4 EmptyString 0) None)) /\
  (forall node, visit_Compare loc op left right = Ok node ->
     exists l' o r',
       node = Compare_t l' o r' (mk_ttype Logical 4 EmptyString 0) None).
Proof.
  intros Tl Tr.
  assert (Dec : compare_rejected lt rt op \/ ~ compare_rejected lt rt op).
  { unfold compare_rejected.
    destruct (type lt), (type rt), op;
      try (left; repeat split; try discriminate;
           intros [A B]; try discriminate A; discriminate B);
      right; intuition congruence. }
  assert (Rej : compare_rejected lt rt op ->
     visit_Compare loc op left right
     = Throw (SemanticError
         ("Compare: only Integer or Real can be on the LHS and RHS. " ++
          "If operator is .eq. or .neq. then Complex type is also acceptable")
         loc)).
  { intros R. unfold visit_Compare. rewrite Tl, Tr. cbn [deref bind].
    unfold compare_rejected in R.
    destruct (type lt), (type rt), op; cbn;
      try reflexivity; exfalso; intuition congruence. }
  assert (Acc : ~ compare_rejected lt rt op ->
     exists l' r',
       visit_Compare loc op left right
       = Ok (Compare_t l' (asr_cmpop op) r'
               (mk_ttype Logical 4 EmptyString 0) None)).
  { intros R. unfold visit_Compare. rewrite Tl, Tr. cbn [deref bind].
    destruct (cast_candidate_Ok loc left right lt rt)
      as (l' & r' & dest & C & _).
    unfold compare_rejected in R.
    destruct (type lt), (type rt), op; cbn;
      try (rewrite C; cbn; eauto);
      exfalso; apply R; repeat split; try discriminate;
      intros [A B]; try discriminate A; discriminate B. }
  repeat split; [exact Rej | exact Acc |].
  intros node E.
  destruct Dec as [R | R].
  - rewrite (Rej R) in E. discriminate E.
  - destruct (Acc R) as (l' & r' & E'). rewrite E' in E.
    inversion E. eauto.
Qed.

Lemma visit_Compare_logical_witness :
  is_Throw (visit_Compare loc0 AST.Lt (ConstantString_t "a" character4)
              (ConstantString_t "b" character4)) = true.
Proof.
  rewrite (proj1 (@visit_Compare_logical kind_of_node loc0 AST.Lt
             (ConstantString_t "a" character4)
             (ConstantString_t "b" character4) character4 character4
             eq_refl eq_refl)).
  - reflexivity.
  - unfold compare_rejected. cbn. repeat split; try discriminate.
    intros [A _]. discriminate A.
Defined.

(* ================================================================== *)
(** * Properties of the statements of pass 2 *)
(* ================================================================== *)

(** C4 (as amended).  An assignment whose lowered left-hand side is not
    a variable reference, an array reference or a reference to a member
    of a derived type is rejected.  Otherwise, with the right-hand side
    lowered: a constant array assigned to a variable reference whose type
    is not an array is rejected; if not, for a variable or array
    reference on the left the right-hand side goes through
    [set_converted_value] from its type to the type of the left-hand
    side (which casts it, leaves it or throws, by the rule table), and
    for a member reference on the left it is stored as it is. *)
Theorem visit_Assignment_target_and_cast `{KindOf}
    (visit_expr : AST.expr_t -> BodyVisitor.state -> outcome BodyVisitor.state)
    (x : AST.Assignment_t) st st1 target (target_type : ttype_t) :
  visit_expr (AST.Assignment_target x) st = Ok st1 ->
  BodyVisitor.tmp st1 = Some (expr target) ->
  expr_type target = Some target_type ->
  (expr_tag target <> Var -> expr_tag target <> ArrayRef ->
   expr_tag target <> DerivedRef ->
     BodyVisitor.visit_Assignment visit_expr x st
     = Throw (SemanticError
         "The LHS of assignment can only be a variable or an array reference"
         (AST.Assignment_loc x))) /\
  (forall st2 value (value_type : ttype_t),
     visit_expr (AST.Assignment_value x) st1 = Ok st2 ->
     BodyVisitor.tmp st2 = Some (expr value) ->
     expr_type value = Some value_type ->
     (expr_tag target = Var -> is_array target_type = false ->
      expr_tag value = ConstantArray ->
        BodyVisitor.visit_Assignment visit_expr x st
        = Throw (SemanticError
            "ArrayInitalizer expressions can only be assigned array references"
            (AST.Assignment_loc x))) /\
     (expr_tag target = Var \/ expr_tag target = ArrayRef ->
      ~ (expr_tag target = Var /\ is_array target_type = false /\
         expr_tag value = ConstantArray) ->
        BodyVisitor.visit_Assignment visit_expr x st
        = (v <- set_converted_value (AST.Assignment_loc x) value
                  value_type target_type ;;
           Ok (BodyVisitor.set_tmp st2
                 (Some (stmt (Assignment_t target v)))))) /\
     (expr_tag target = DerivedRef ->
        BodyVisitor.visit_Assignment visit_expr x st
        = Ok (BodyVisitor.set_tmp st2
                (Some (stmt (Assignment_t target value)))))).
Proof.
  intros V1 T1 Ty1. split.
  - intros A B C.
    unfold BodyVisitor.visit_Assignment.
    rewrite V1. cbn [bind]. rewrite T1. cbn [BodyVisitor.EXPR bind].
    rewrite Ty1. cbn [deref bind].
    destruct (expr_tag target); try congruence; reflexivity.
  - intros st2 value value_type V2 T2 Ty2.
    repeat split.
    + intros A B C.
      unfold BodyVisitor.visit_Assignment.
      rewrite V1. cbn [bind]. rewrite T1. cbn [BodyVisitor.EXPR bind].
      rewrite Ty1. cbn [deref bind]. rewrite A. cbn.
      rewrite V2. cbn [bind]. rewrite T2. cbn [BodyVisitor.EXPR bind].
      rewrite Ty2. cbn [deref bind]. rewrite B, C. reflexivity.
    + intros A N.
      unfold BodyVisitor.visit_Assignment.
      rewrite V1. cbn [bind]. rewrite T1. cbn [BodyVisitor.EXPR bind].
      rewrite Ty1. cbn [deref bind].
      destruct A as [A | A]; rewrite A; cbn.
      * rewrite V2. cbn [bind]. rewrite T2. cbn [BodyVisitor.EXPR bind].
        rewrite Ty2. cbn [deref bind].
        destruct (is_array target_type) eqn:Ar; cbn; [reflexivity |].
        destruct (expr_tag value) eqn:Tv; cbn; try reflexivity.
        exfalso. apply N. auto.
      * rewrite V2. cbn [bind]. rewrite T2. cbn [BodyVisitor.EXPR bind].
        rewrite Ty2. cbn [deref bind]. reflexivity.
    + intros A.
      unfold BodyVisitor.visit_Assignment.
      rewrite V1. cbn [bind]. rewrite T1. cbn [BodyVisitor.EXPR bind].
      rewrite Ty1. cbn [deref bind]. rewrite A. cbn.
      rewrite V2. cbn [bind]. rewrite T2. cbn [BodyVisitor.EXPR bind].
      rewrite Ty2. cbn [deref bind]. reflexivity.
Qed.

Lemma visit_Assignment_target_and_cast_witness :
  BodyVisitor.visit_Assignment visit_expr_q assignment_real state_q
  = Ok (BodyVisitor.set_tmp state_q
          (Some (stmt (Assignment_t (Var_t (variable "a" real4))
             (ImplicitCast_t (ConstantInteger_t 1 integer4) IntegerToReal
                real4 None))))).
Proof.
  pose proof (@visit_Assignment_target_and_cast kind_of_node visit_expr_q
                assignment_real state_q
                (BodyVisitor.set_tmp state_q
                   (Some (expr (Var_t (variable "a" real4)))))
                (Var_t (variable "a" real4)) real4
                eq_refl eq_refl eq_refl) as [_ P].
  specialize (P (BodyVisitor.set_tmp state_q
                   (Some (expr (ConstantInteger_t 1 integer4))))
                (ConstantInteger_t 1 integer4) integer4
                eq_refl eq_refl eq_refl).
  destruct P as [_ [P _]].
  rewrite P.
  - reflexivity.
  - left. reflexivity.
  - intros [_ [_ C]]. discriminate C.
Defined.

(** C4 as stated fails for a member reference on the left: [s%x = 1],
    with [x] a real member, is lowered to an assignment whose right-hand
    side is the integer constant, not cast, while [a = 1] with a real
    [a] gets the cast. *)
Lemma visit_Assignment_member_not_cast :
  BodyVisitor.visit_Assignment visit_expr_q assignment_member state_q
  = Ok (BodyVisitor.set_tmp state_q
          (Some (stmt (Assignment_t
             (DerivedRef_t (Var_t (variable "s" derived_t)) member_x real4 None)
             (ConstantInteger_t 1 integer4)))))
  /\ expr_type (DerivedRef_t (Var_t (variable "s" derived_t)) member_x real4 None)
     <> expr_type (ConstantInteger_t 1 integer4).
Proof. split; [reflexivity | discriminate]. Qed.

(** [a = i] with a real [a] and an integer [i] gets the cast of the
    right-hand side; [c = i] with a character [c] is rejected; the sum
    [i + a] has the integer operand cast and is of type real. *)
Example visit_Assignment_integer_to_real :
  BodyVisitor.visit_Assignment BodyVisitor.visit_expr
    (AST.mk_Assignment loc0 (AST.Name_t loc0 "a") (AST.Name_t loc0 "i"))
    state_q
  = Ok (BodyVisitor.set_tmp state_q
          (Some (stmt (Assignment_t (Var_t (variable "a" real4))
             (ImplicitCast_t (Var_t (variable "i" integer4)) IntegerToReal
                real4 None))))).
Proof. reflexivity. Qed.

Example visit_Assignment_integer_to_character :
  BodyVisitor.visit_Assignment BodyVisitor.visit_expr
    (AST.mk_Assignment loc0 (AST.Name_t loc0 "c") (AST.Name_t loc0 "i"))
    state_q
  = Throw (SemanticError
             "Only Character Pointer can be assigned to Character" loc0).
Proof. reflexivity. Qed.

Example visit_BinOp_integer_plus_real :
  BodyVisitor.visit_expr
    (AST.BinOp_t loc0 (AST.Name_t loc0 "i") AST.Add (AST.Name_t loc0 "a"))
    state_q
  = Ok (BodyVisitor.set_tmp state_q
          (Some (expr (BinOp_t
             (ImplicitCast_t (Var_t (variable "i" integer4)) IntegerToReal
                real4 None)
             Add (Var_t (variable "a" real4)) real4 None)))).
Proof. reflexivity. Qed.

(** C9 (the code at the failing input).  For [real, pointer :: p;
    integer :: i; p => i] the target is a pointer and the value is not,
    and their base types differ: [visit_Associate] throws nothing and
    builds no [Associate] node; [tmp] is left holding the lowered value,
    an expression.  With a real [a], [p => a] gives the node. *)
Theorem visit_Associate_mismatch_not_rejected :
  BodyVisitor.visit_Associate BodyVisitor.visit_expr associate_p_i state_q
  = Ok (BodyVisitor.set_tmp state_q
          (Some (expr (Var_t (variable "i" integer4)))))
  /\ BodyVisitor.visit_Associate BodyVisitor.visit_expr associate_p_a state_q
     = Ok (BodyVisitor.set_tmp state_q
             (Some (stmt (Associate_t (Var_t (variable "p" real4_pointer))
                            (Var_t (variable "a" real4)))))).
Proof. split; reflexivity. Qed.

(** What [visit_Associate] does in general, once both sides are
    lowered. *)
Lemma visit_Associate_cases
    (visit_expr : AST.expr_t -> BodyVisitor.state -> outcome BodyVisitor.state)
    (x : AST.Associate_t) st st1 st2 target value
    (target_type value_type : ttype_t) :
  visit_expr (AST.Associate_target x) st = Ok st1 ->
  BodyVisitor.tmp st1 = Some (expr target) ->
  visit_expr (AST.Associate_value x) st1 = Ok st2 ->
  BodyVisitor.tmp st2 = Some (expr value) ->
  expr_type target = Some target_type ->
  expr_type value = Some value_type ->
  BodyVisitor.visit_Associate visit_expr x st =
  if negb (is_pointer target_type && negb (is_pointer value_type)) then
    Throw (SemanticError
      "Only a pointer variable can be associated with a non-pointer variable."
      (AST.Associate_loc x))
  else if Nat.eqb (ttypeType_index (family (type target_type)))
                  (ttypeType_index (family (type value_type)))
  then Ok (BodyVisitor.set_tmp st2 (Some (stmt (Associate_t target value))))
  else Ok st2.
Proof.
  intros V1 T1 V2 T2 Ty1 Ty2.
  unfold BodyVisitor.visit_Associate.
  rewrite V1. cbn [bind]. rewrite T1. cbn [BodyVisitor.EXPR bind].
  rewrite V2. cbn [bind]. rewrite T2. cbn [BodyVisitor.EXPR bind].
  rewrite Ty1, Ty2. cbn [deref bind].
  unfold is_same_type_pointer, is_pointer.
  destruct (type target_type), (type value_type); reflexivity.
Qed.

(* ================================================================== *)
(** * Properties of the selection of a specific procedure *)
(* ================================================================== *)









(** Selection reads the tags only: an actual argument [integer(4)]
    selects the subroutine whose formal argument is [integer(8)]. *)
Example select_generic_procedure_ignores_kind :
  BodyVisitor.select_generic_procedure [ConstantInteger_t 1 integer4]
    [sub_real; sub_integer8] loc0 = Ok 1%nat.
Proof. reflexivity. Qed.

(* ================================================================== *)
(** * Properties of [use] *)
(* ================================================================== *)

Section ExternalSymbols.
Context `{ModuleLoader}.

Lemma visit_Use_module_dependencies (x : AST.Use_t)
    (st : SymbolTableVisitor.state) (d : list string) :
  SymbolTableVisitor.visit_Use_module x
    (SymbolTableVisitor.with_dependencies st d)
  = SymbolTableVisitor.visit_Use_module x st.
Proof. reflexivity. Qed.

End ExternalSymbols.

(* ================================================================== *)
(** * Properties of redeclaration *)
(* ================================================================== *)

(** C7 (as amended).  The declaration of a variable whose name is
    already in the current scope overwrites the entry when the scope is
    the root scope and fails with "Symbol already declared" in every
    other scope.  The definition of a subroutine whose name is already
    in the enclosing scope, root or not, shadows the entry when that is
    a subroutine with the interactive ABI, and fails with "Subroutine
    already defined" when it is a subroutine with another ABI. *)
Theorem redeclaration_by_kind :
  (forall loc sym make_variable (st : SymbolTableVisitor.state),
     StdMap.mem sym (scope (SymbolTableVisitor.current_scope st)) = true ->
     (parent (SymbolTableVisitor.current_scope st) = None ->
        forall v, make_variable st = Ok v ->
        exists st',
          SymbolTableVisitor.visit_Declaration_sym loc sym make_variable st
          = Ok st' /\
          StdMap.find sym (scope (SymbolTableVisitor.current_scope st'))
          = Some v) /\
     (parent (SymbolTableVisitor.current_scope st) <> None ->
        SymbolTableVisitor.visit_Declaration_sym loc sym make_variable st
        = Throw (SemanticError "Symbol already declared" loc))) /\
  (forall (x : AST.Subroutine_t) visit_body
          (st st1 : SymbolTableVisitor.state) args parent_scope
          symtab name sub_args abi access deftype,
     visit_body (SymbolTableVisitor.enter_Subroutine x st) = Ok st1 ->
     SymbolTableVisitor.convert_arguments (AST.Subroutine_loc x)
       (AST.Subroutine_args x) (SymbolTableVisitor.current_scope st1)
     = Ok args ->
     parent (SymbolTableVisitor.current_scope st1) = Some parent_scope ->
     StdMap.find (AST.Subroutine_name x) (scope parent_scope)
     = Some (Subroutine_t symtab name sub_args abi access deftype) ->
     (abi = Interactive ->
        exists st' access' deftype',
          SymbolTableVisitor.visit_Subroutine x visit_body st = Ok st' /\
          parent (SymbolTableVisitor.current_scope st') = parent parent_scope /\
          StdMap.find (AST.Subroutine_name x)
            (scope (SymbolTableVisitor.current_scope st'))
          = Some (Subroutine_t (SymbolTableVisitor.current_scope st1)
                    (AST.Subroutine_name x) args Source access' deftype')) /\
     (abi <> Interactive ->
        SymbolTableVisitor.visit_Subroutine x visit_body st
        = Throw (SemanticError "Subroutine already defined"
                   (AST.Subroutine_loc x)))).
Proof.
  split.
  - intros loc sym make_variable st M. split.
    + intros P v V.
      unfold SymbolTableVisitor.visit_Declaration_sym.
      rewrite M, P, V. cbn [bind].
      eexists. split; [reflexivity |].
      cbn. apply StdMap_find_set_same.
    + intros P.
      unfold SymbolTableVisitor.visit_Declaration_sym.
      rewrite M.
      destruct (parent (SymbolTableVisitor.current_scope st));
        [reflexivity | congruence].
  - intros x visit_body st st1 args parent_scope symtab name sub_args abi
           access deftype B A P F.
    split.
    + intros ->.
      unfold SymbolTableVisitor.visit_Subroutine.
      rewrite B. cbn [bind]. rewrite A. cbn [bind].
      rewrite P. cbn [deref bind]. rewrite F. cbn [bind].
      do 3 eexists. split; [reflexivity |]. split; [reflexivity |].
      cbn. apply StdMap_find_set_same.
    + intros N.
      unfold SymbolTableVisitor.visit_Subroutine.
      rewrite B. cbn [bind]. rewrite A. cbn [bind].
      rewrite P. cbn [deref bind]. rewrite F.
      destruct abi; try reflexivity. congruence.
Qed.

Lemma redeclaration_by_kind_witness :
  (exists st' access' deftype',
     SymbolTableVisitor.visit_Subroutine subroutine_s0 (fun s => Ok s)
       state_inner = Ok st' /\
     parent (SymbolTableVisitor.current_scope st') = parent
       (SymbolTableVisitor.current_scope state_inner) /\
     StdMap.find "s0" (scope (SymbolTableVisitor.current_scope st'))
     = Some (Subroutine_t
               (SymbolTableVisitor.current_scope
                  (SymbolTableVisitor.enter_Subroutine subroutine_s0
                     state_inner))
               "s0" [] Source access' deftype')) /\
  SymbolTableVisitor.visit_Declaration_sym loc0 "s0"
    (fun _ => Ok (variable "s0" integer4)) state_inner
  = Throw (SemanticError "Symbol already declared" loc0).
Proof.
  split.
  - apply (proj1 (proj2 redeclaration_by_kind subroutine_s0 (fun s => Ok s)
                   state_inner
                   (SymbolTableVisitor.enter_Subroutine subroutine_s0
                      state_inner)
                   [] (SymbolTableVisitor.current_scope state_inner)
                   (mk_SymbolTable [] None 5) "s0" [] Interactive Public
                   Implementation eq_refl eq_refl eq_refl eq_refl)).
    reflexivity.
  - apply (proj2 (proj1 redeclaration_by_kind loc0 "s0"
                   (fun _ => Ok (variable "s0" integer4)) state_inner
                   eq_refl)).
    discriminate.
Defined.

(** C7 as stated fails for a subroutine in the root scope: a second
    definition of the subroutine [s0], which the root scope holds with
    the ABI of source code, does not overwrite it but fails; and in a
    scope below the root, the declaration of a variable named as a
    subroutine of the interactive ABI fails instead of shadowing it. *)
Lemma visit_Subroutine_root_scope_fails :
  parent (SymbolTableVisitor.current_scope state_root) = None /\
  SymbolTableVisitor.visit_Subroutine subroutine_s0 (fun s => Ok s) state_root
  = Throw (SemanticError "Subroutine already defined" loc0) /\
  StdMap.find "s0" (scope (SymbolTableVisitor.current_scope state_inner))
  = Some sub_s0_interactive /\
  SymbolTableVisitor.visit_Declaration_sym loc0 "s0"
    (fun _ => Ok (variable "s0" integer4)) state_inner
  = Throw (SemanticError "Symbol already declared" loc0).
Proof. repeat split. Qed.

(* ================================================================== *)
(** * Properties of the dependency lists *)
(* ================================================================== *)

Lemma present_In (v : list string) (name : string) :
  present v name = true <-> In name v.
Proof.
  unfold present. rewrite existsb_exists. split.
  - intros (n & I & E). apply String.eqb_eq in E. subst n. exact I.
  - intros I. exists name. split; [exact I | apply String.eqb_refl].
Qed.

Lemma NoDup_snoc (A : Type) (v : list A) (a : A) :
  NoDup v -> ~ In a v -> NoDup (v ++ [a])%list.
Proof.
  induction 1 as [| b v Nb N IH]; intros Na; cbn.
  - constructor; [intros [] | constructor].
  - constructor.
    + rewrite in_app_iff. intros [I | [E | []]]; [exact (Nb I) |].
      apply Na. left. symmetry. exact E.
    + apply IH. intros I. apply Na. right. exact I.
Qed.

(** The guarded addition adds the name when it is absent and only
    then, and keeps the list free of duplicates. *)
Lemma push_back_if_absent_NoDup (v : list string) (name : string) :
  NoDup v ->
  NoDup (push_back_if_absent v name) /\
  In name (push_back_if_absent v name) /\
  (In name v -> push_back_if_absent v name = v) /\
  (~ In name v -> push_back_if_absent v name = (v ++ [name])%list).
Proof.
  intros N. unfold push_back_if_absent.
  destruct (present v name) eqn:P; cbn [negb].
  - apply present_In in P. repeat split; auto.
    intros C. contradiction.
  - assert (Q : ~ In name v).
    { intros I. apply present_In in I. congruence. }
    repeat split; auto.
    + apply NoDup_snoc; assumption.
    + apply in_app_iff. right. left. reflexivity.
    + intros I. contradiction.
Qed.

(** The first use of [size] in a unit loads the module of the
    intrinsic procedure, enters an external symbol for it and records
    the module as a dependency. *)
Example visit_FuncCallOrArray_size :
  SymbolTableVisitor.visit_FuncCallOrArray_symbol call_size state_use
  = Ok (ExternalSymbol_t "size" function_size "lfortran_intrinsic_array"
          "size" Private,
        SymbolTableVisitor.mk_state None
          (mk_SymbolTable
             [("size", ExternalSymbol_t "size" function_size
                         "lfortran_intrinsic_array" "size" Private)]
             (Some global_scope_m) 7)
          Public [] ["lfortran_intrinsic_array"] false [] 8).
Proof. reflexivity. Qed.

Section Dependencies.
Context `{ModuleLoader}.

Lemma visit_Use_all_dependencies (m_name : string)
    (st st' : SymbolTableVisitor.state) (item : string * symbol_t) :
  SymbolTableVisitor.visit_Use_all m_name st item = Ok st' ->
  SymbolTableVisitor.current_module_dependencies st'
  = SymbolTableVisitor.current_module_dependencies st.
Proof.
  unfold SymbolTableVisitor.visit_Use_all.
  destruct (snd item); intros E; try discriminate E;
    injection E as <-; reflexivity.
Qed.

Lemma visit_Use_only_dependencies loc (msym : string)
    (m_symtab : SymbolTable) (m_name : string)
    (st st' : SymbolTableVisitor.state) (u : AST.UseSymbol_t) :
  SymbolTableVisitor.visit_Use_only loc msym m_symtab m_name st u = Ok st' ->
  SymbolTableVisitor.current_module_dependencies st'
  = SymbolTableVisitor.current_module_dependencies st.
Proof.
  unfold SymbolTableVisitor.visit_Use_only.
  destruct (resolve_symbol m_symtab (AST.m_sym u)) as [t |];
    [| discriminate].
  destruct (StdMap.mem _ _); destruct t; intros E; try discriminate E;
    injection E as <-; reflexivity.
Qed.

(** A [use] statement adds the name of its module to the dependencies
    if it is absent, and changes nothing else in the list. *)
Lemma visit_Use_dependencies (x : AST.Use_t)
    (st st' : SymbolTableVisitor.state) :
  SymbolTableVisitor.visit_Use x st = Ok st' ->
  SymbolTableVisitor.current_module_dependencies st'
  = push_back_if_absent (SymbolTableVisitor.current_module_dependencies st)
      (AST.m_module x).
Proof.
  intros E. unfold SymbolTableVisitor.visit_Use in E.
  destruct (SymbolTableVisitor.visit_Use_module x _) as [t | |];
    cbn [bind] in E; try discriminate E.
  destruct t; try discriminate E.
  set (d := push_back_if_absent
              (SymbolTableVisitor.current_module_dependencies st)
              (AST.m_module x)) in *.
  destruct (AST.m_symbols x) as [| u us].
  - refine (foldM_invariant _ _
              (fun s => SymbolTableVisitor.current_module_dependencies s = d)
              _ _ _ _ _ _ E).
    + intros s a s' Ps _ F.
      rewrite (visit_Use_all_dependencies _ _ _ _ F). exact Ps.
    + reflexivity.
  - refine (foldM_invariant _ _
              (fun s => SymbolTableVisitor.current_module_dependencies s = d)
              _ _ _ _ _ _ E).
    + intros s a s' Ps _ F.
      rewrite (visit_Use_only_dependencies _ _ _ _ _ _ _ F). exact Ps.
    + reflexivity.
Qed.

(** C8.  The dependency list of a module has no duplicates: the list
    starts empty, every [use] statement and every load of the module of
    an intrinsic procedure, in pass 1 and in pass 2, adds the name of the
    module only if the list does not hold it, and the list of the module
    symbol is the list so built. *)
Theorem dependencies_no_duplicates :
  (forall (x : AST.Use_t) (st st' : SymbolTableVisitor.state),
     NoDup (SymbolTableVisitor.current_module_dependencies st) ->
     SymbolTableVisitor.visit_Use x st = Ok st' ->
     NoDup (SymbolTableVisitor.current_module_dependencies st') /\
     In (AST.m_module x)
        (SymbolTableVisitor.current_module_dependencies st')) /\
  (forall (x : AST.FuncCallOrArray_t) (st st' : SymbolTableVisitor.state) v,
     NoDup (SymbolTableVisitor.current_module_dependencies st) ->
     SymbolTableVisitor.visit_FuncCallOrArray_symbol x st = Ok (v, st') ->
     NoDup (SymbolTableVisitor.current_module_dependencies st')) /\
  (forall (x : AST.Module_t) visit_rest (st st' : SymbolTableVisitor.state),
     (forall s s',
        NoDup (SymbolTableVisitor.current_module_dependencies s) ->
        visit_rest s = Ok s' ->
        NoDup (SymbolTableVisitor.current_module_dependencies s')) ->
     SymbolTableVisitor.visit_Module x visit_rest st = Ok st' ->
     exists symtab deps,
       StdMap.find (AST.Module_name x)
         (scope (SymbolTableVisitor.current_scope st'))
       = Some (Module_t symtab (AST.Module_name x) deps false) /\
       NoDup deps) /\
  (forall (x : AST.FuncCallOrArray_t) otherwise (st st' : BodyVisitor.state)
          v module_name symtab name deps l,
     resolve_symbol (BodyVisitor.current_scope st) (AST.m_func x) = None ->
     StdMap.find (to_lower (AST.m_func x)) intrinsic_procedures
     = Some module_name ->
     BodyVisitor.current_module st = Some (Module_t symtab name deps l) ->
     NoDup deps ->
     BodyVisitor.visit_FuncCallOrArray_symbol x otherwise st = Ok (v, st') ->
     exists deps',
       BodyVisitor.current_module st' = Some (Module_t symtab name deps' l) /\
       NoDup deps').
Proof.
  split; [| split; [| split]].
  - intros x st st' N E.
    rewrite (visit_Use_dependencies _ _ _ E).
    split; apply push_back_if_absent_NoDup; exact N.
  - intros x st st' v N E.
    unfold SymbolTableVisitor.visit_FuncCallOrArray_symbol in E.
    destruct (resolve_symbol _ _).
    + injection E as _ <-. exact N.
    + destruct (StdMap.find _ intrinsic_procedures); [| discriminate E].
      destruct (load_module _ _ _ _) as [m | |]; cbn [bind] in E;
        try discriminate E.
      destruct m; try discriminate E.
      destruct (resolve_symbol _ _) as [t |]; [| discriminate E].
      destruct t; try discriminate E.
      injection E as _ <-. cbn.
      apply push_back_if_absent_NoDup. exact N.
  - intros x visit_rest st st' R E.
    unfold SymbolTableVisitor.visit_Module in E.
    destruct (foldM _ (AST.m_use x) _) as [s1 | |] eqn:U;
      cbn [bind] in E; try discriminate E.
    destruct (visit_rest s1) as [s2 | |] eqn:V;
      cbn [bind] in E; try discriminate E.
    destruct (parent (SymbolTableVisitor.current_scope s2)) as [ps |];
      cbn [deref bind] in E; try discriminate E.
    destruct (StdMap.mem _ _); [discriminate E |].
    injection E as <-. cbn.
    do 2 eexists. split; [apply StdMap_find_set_same |].
    assert (N1 : NoDup (SymbolTableVisitor.current_module_dependencies s1)).
    { refine (foldM_invariant _ _
                (fun s => NoDup
                   (SymbolTableVisitor.current_module_dependencies s))
                _ _ _ _ _ _ U).
      - intros s a s' Ps _ F.
        rewrite (visit_Use_dependencies _ _ _ F).
        apply push_back_if_absent_NoDup. exact Ps.
      - cbn. constructor. }
    exact (R _ _ N1 V).
  - intros x otherwise st st' v module_name symtab name deps l R F C N E.
    unfold BodyVisitor.visit_FuncCallOrArray_symbol in E.
    rewrite R, F in E.
    destruct (parent (BodyVisitor.current_scope st)); cbn [deref bind] in E;
      try discriminate E.
    destruct (load_module _ _ _ _) as [m | |]; cbn [bind] in E;
      try discriminate E.
    destruct m; try discriminate E.
    match type of E with
    | context [resolve_symbol ?a ?b] =>
        destruct (resolve_symbol a b) as [t |]; [| discriminate E]
    end.
    destruct t; try discriminate E.
    cbn [BodyVisitor.current_module BodyVisitor.set_current_scope] in E.
    rewrite C in E. injection E as _ <-. cbn.
    eexists. split; [reflexivity |].
    apply push_back_if_absent_NoDup. exact N.
Qed.

End Dependencies.

Lemma dependencies_no_duplicates_witness :
  exists symtab deps st',
    SymbolTableVisitor.visit_Module module_m2 (fun s => Ok s) state_global_m
    = Ok st' /\
    StdMap.find "m2" (scope (SymbolTableVisitor.current_scope st'))
    = Some (Module_t symtab "m2" deps false) /\
    deps = ["m1"%string] /\ NoDup deps.
Proof.
  pose proof (proj1 (proj2 (proj2
                (@dependencies_no_duplicates loader_intrinsic_array)))
                module_m2 (fun s => Ok s) state_global_m) as P.
  edestruct P as (symtab & deps & F & N).
  - intros s s' Nd E. injection E as <-. exact Nd.
  - reflexivity.
  - exists symtab, deps. eexists. split; [reflexivity |].
    split; [exact F |]. split; [| exact N].
    cbn in F. injection F as _ <-. reflexivity.
Defined.

(* ================================================================== *)
(** * Further properties of the shared visitors *)
(* ================================================================== *)

Lemma cast_candidate_numeric `{KindOf} loc left right (lt rt : ttype_t) :
  expr_type left = Some lt ->
  expr_type right = Some rt ->
  numeric (type lt) ->
  numeric (type rt) ->
  exists l' r' tl tr,
    cast_candidate loc left right lt rt = Ok (l', r', operator_type lt rt) /\
    expr_type l' = Some tl /\ expr_type r' = Some tr /\
    type tl = type (operator_type lt rt) /\
    type tr = type (operator_type lt rt) /\
    extract_kind_from_ttype_t tl
    = extract_kind_from_ttype_t (operator_type lt rt) /\
    extract_kind_from_ttype_t tr
    = extract_kind_from_ttype_t (operator_type lt rt).
Proof.
  intros Tl Tr Nl Nr.
  destruct lt as [tyl kl dl nl], rt as [tyr kr dr nr].
  cbn [type] in Nl, Nr.
  unfold cast_candidate, find_conversion_candidate, operator_type, priority.
  destruct Nl as [-> | [-> | ->]], Nr as [-> | [-> | ->]];
    cbn -[set_converted_value];
    unfold set_converted_value; cbn;
    try (match goal with
         | |- context [Z.eqb ?a ?b] =>
             destruct (Z.eqb_spec a b) as [K | K]
         end);
    cbn; do 4 eexists;
    (split; [reflexivity |]);
    rewrite ?Tl, ?Tr; cbn [expr_type];
    repeat split; try reflexivity; auto.
Qed.

(** X3.  Operands of the numeric types Integer, Real and Complex agree
    after the cast: both operands of the [BinOp] or [Compare] node then
    have the tag and the kind of the type [find_conversion_candidate]
    chose, which is the type of the [BinOp] node. *)
Theorem numeric_operands_agree `{KindOf} `{Libm}
    loc left right (lt rt : ttype_t) :
  expr_type left = Some lt ->
  expr_type right = Some rt ->
  numeric (type lt) ->
  numeric (type rt) ->
  let agree (l' r' : expr_t) :=
    exists tl tr : ttype_t,
      expr_type l' = Some tl /\ expr_type r' = Some tr /\
      type tl = type (operator_type lt rt) /\
      type tr = type (operator_type lt rt) /\
      extract_kind_from_ttype_t tl
      = extract_kind_from_ttype_t (operator_type lt rt) /\
      extract_kind_from_ttype_t tr
      = extract_kind_from_ttype_t (operator_type lt rt) in
  (forall op node, visit_BinOp loc op left right = Ok node ->
     exists l' r' v,
       node = BinOp_t l' (asr_binop op) r' (operator_type lt rt) v /\
       agree l' r') /\
  (forall op, exists l' r',
     visit_Compare loc op left right
     = Ok (Compare_t l' (asr_cmpop op) r'
             (mk_ttype Logical 4 EmptyString 0) None) /\
     agree l' r').
Proof.
  intros Tl Tr Nl Nr agree.
  destruct (cast_candidate_numeric loc left right lt rt Tl Tr Nl Nr)
    as (l' & r' & tl & tr & C & A).
  split.
  - intros op node E.
    unfold visit_BinOp in E. rewrite Tl, Tr in E. cbn [deref bind] in E.
    rewrite C in E. cbn [bind] in E.
    match type of E with
    | bind ?c _ = _ => destruct c as [v | |]; cbn [bind] in E;
                       try discriminate E
    end.
    injection E as <-. exists l', r', v.
    split; [destruct op; reflexivity |].
    exists tl, tr. exact A.
  - intros op. exists l', r'.
    unfold visit_Compare. rewrite Tl, Tr. cbn [deref bind].
    assert (G : (negb (ttypeType_eqb (type lt) Real)
                 && negb (ttypeType_eqb (type lt) Integer)
                 && (negb (ttypeType_eqb (type rt) Real)
                     && negb (ttypeType_eqb (type rt) Integer))
                 && ((negb (ttypeType_eqb (type lt) Complex)
                      || negb (ttypeType_eqb (type rt) Complex))
                     && negb match op with AST.Eq => true | _ => false end
                     && negb match op with AST.NotEq => true | _ => false end))
                = false).
    { destruct Nl as [-> | [-> | ->]], Nr as [-> | [-> | ->]], op;
        reflexivity. }
    rewrite G, C. cbn [bind].
    split; [destruct op; reflexivity |].
    exists tl, tr. exact A.
Qed.

Lemma numeric_operands_agree_witness :
  exists l' r' (tl tr : ttype_t),
    visit_Compare loc0 AST.Lt (ConstantInteger_t 1 integer8)
      (ConstantInteger_t 2 integer4)
    = Ok (Compare_t l' Lt r' (mk_ttype Logical 4 EmptyString 0) None) /\
    expr_type l' = Some tl /\ expr_type r' = Some tr /\
    ASR.m_kind tl = 8 /\ ASR.m_kind tr = 8.
Proof.
  destruct (proj2 (@numeric_operands_agree kind_of_node libm_exact loc0
              (ConstantInteger_t 1 integer8) (ConstantInteger_t 2 integer4)
              integer8 integer4 eq_refl eq_refl
              (or_introl eq_refl) (or_introl eq_refl)) AST.Lt)
    as (l' & r' & E & tl & tr & Tl & Tr & _ & _ & Kl & Kr).
  exists l', r', tl, tr. repeat split; assumption.
Defined.

(* ================================================================== *)
(** * Further properties of the statements of pass 2 *)
(* ================================================================== *)

(** X4.  Pointer association compares the families of the two types
    and nothing else: a pointer target and a value that is not a pointer,
    of the same family, give the [Associate] node of the two lowered
    expressions as they are, whatever their kinds and dimensions, and the
    value is never cast. *)
Theorem visit_Associate_ignores_kind
    (visit_expr : AST.expr_t -> BodyVisitor.state -> outcome BodyVisitor.state)
    (x : AST.Associate_t) (st st1 st2 : BodyVisitor.state)
    (target value : expr_t) (target_type value_type : ttype_t) :
  visit_expr (AST.Associate_target x) st = Ok st1 ->
  BodyVisitor.tmp st1 = Some (expr target) ->
  visit_expr (AST.Associate_value x) st1 = Ok st2 ->
  BodyVisitor.tmp st2 = Some (expr value) ->
  expr_type target = Some target_type ->
  expr_type value = Some value_type ->
  is_pointer target_type = true ->
  is_pointer value_type = false ->
  family (type target_type) = family (type value_type) ->
  BodyVisitor.visit_Associate visit_expr x st
  = Ok (BodyVisitor.set_tmp st2 (Some (stmt (Associate_t target value)))).
Proof.
  intros V1 T1 V2 T2 Ty1 Ty2 Pt Pv Fam.
  rewrite (visit_Associate_cases visit_expr x st st1 st2 target value
             target_type value_type V1 T1 V2 T2 Ty1 Ty2).
  rewrite Pt, Pv, Fam, Nat.eqb_refl. reflexivity.
Qed.

Lemma visit_Associate_ignores_kind_witness :
  BodyVisitor.visit_Associate BodyVisitor.visit_expr associate_p_d state_d
  = Ok (BodyVisitor.set_tmp state_d
          (Some (stmt (Associate_t (Var_t (variable "p" real4_pointer))
                         (Var_t (variable "d" real8_array)))))).
Proof.
  apply (visit_Associate_ignores_kind BodyVisitor.visit_expr associate_p_d
           state_d
           (BodyVisitor.set_tmp state_d
              (Some (expr (Var_t (variable "p" real4_pointer)))))
           (BodyVisitor.set_tmp state_d
              (Some (expr (Var_t (variable "d" real8_array)))))
           (Var_t (variable "p" real4_pointer))
           (Var_t (variable "d" real8_array))
           real4_pointer real8_array);
    reflexivity.
Defined.

(** The location is that of the error only. *)
Lemma select_generic_procedure_from_loc (args : list expr_t)
    (procs : list symbol_t) loc loc' (i idx : nat) :
  BodyVisitor.select_generic_procedure_from i args procs loc = Ok idx ->
  BodyVisitor.select_generic_procedure_from i args procs loc' = Ok idx.
Proof.
  revert i.
  induction procs as [| q procs IH]; intros i Sel;
    cbn [BodyVisitor.select_generic_procedure_from] in *;
    [discriminate Sel |].
  destruct q; try discriminate Sel.
  destruct (BodyVisitor.argument_types_match args m_args) as [[|] | |];
    cbn [bind] in *; try discriminate Sel; [exact Sel |].
  apply IH. exact Sel.
Qed.

Section CallStatements.
Variable visit_expr :
  AST.expr_t -> BodyVisitor.state -> outcome BodyVisitor.state.
Variable resolve_deriv_type_proc :
  Location -> string -> string -> BodyVisitor.state ->
  outcome (option symbol_t * BodyVisitor.state).

Lemma visit_expr_list_length (ast_list : list AST.expr_t)
    (st st' : BodyVisitor.state) (asr_list : list expr_t) :
  BodyVisitor.visit_expr_list visit_expr ast_list st = Ok (asr_list, st') ->
  List.length asr_list = List.length ast_list.
Proof.
  revert st asr_list.
  induction ast_list as [| a l IH]; intros st asr_list E;
    cbn [BodyVisitor.visit_expr_list] in E.
  - injection E as <- _. reflexivity.
  - destruct (visit_expr a st) as [s1 | |]; cbn [bind] in E;
      try discriminate E.
    destruct (BodyVisitor.EXPR _) as [e | |]; cbn [bind] in E;
      try discriminate E.
    destruct (BodyVisitor.visit_expr_list visit_expr l s1)
      as [[rest s2] | |] eqn:R; cbn [bind] in E; try discriminate E.
    injection E as <- <-. cbn. f_equal. exact (IH _ _ R).
Qed.

(** X5.  A call statement that is lowered is a [SubroutineCall] with as
    many arguments as the call was written with: the number of
    arguments is not compared with the number of formal arguments of a
    subroutine that is not reached through a generic procedure.  A name
    that resolves to nothing is rejected, before any argument is
    lowered. *)
Theorem visit_SubroutineCall_arguments (x : AST.SubroutineCall_t)
    (st : BodyVisitor.state) :
  (forall st',
     BodyVisitor.visit_SubroutineCall visit_expr resolve_deriv_type_proc x st
     = Ok st' ->
     exists name original_name args,
       BodyVisitor.tmp st'
       = Some (stmt (SubroutineCall_t name original_name args)) /\
       List.length args = List.length (AST.m_args x)) /\
  (forall st1,
     call_symbol resolve_deriv_type_proc x st = Ok (None, st1) ->
     BodyVisitor.visit_SubroutineCall visit_expr resolve_deriv_type_proc x st
     = Throw (SemanticError
                ("Subroutine '" ++ AST.m_name x ++ "' not declared")
                (AST.SubroutineCall_loc x))) /\
  (forall st1 st2 args symtab name sub_args abi access deftype,
     call_symbol resolve_deriv_type_proc x st
     = Ok (Some (Subroutine_t symtab name sub_args abi access deftype), st1) ->
     BodyVisitor.visit_expr_list visit_expr (AST.m_args x) st1
     = Ok (args, st2) ->
     BodyVisitor.visit_SubroutineCall visit_expr resolve_deriv_type_proc x st
     = Ok (BodyVisitor.set_tmp st2
             (Some (stmt (SubroutineCall_t
                (Some (Subroutine_t symtab name sub_args abi access deftype))
                None args))))).
Proof.
  split; [| split].
  - intros st' E.
    unfold BodyVisitor.visit_SubroutineCall in E.
    fold (call_symbol resolve_deriv_type_proc x st) in E.
    destruct (call_symbol resolve_deriv_type_proc x st)
      as [[original_sym s1] | |]; cbn [bind] in E; try discriminate E.
    destruct original_sym as [original_sym |]; [| discriminate E].
    destruct (BodyVisitor.visit_expr_list visit_expr (AST.m_args x) s1)
      as [[args s2] | |] eqn:A; cbn [bind] in E; try discriminate E.
    pose proof (visit_expr_list_length _ _ _ _ A) as L.
    destruct original_sym; try discriminate E.
    + injection E as <-. cbn. eauto.
    + destruct (BodyVisitor.select_generic_procedure _ _ _);
        cbn [bind] in E; try discriminate E.
      destruct (nth_error _ _); cbn [deref bind] in E; try discriminate E.
      injection E as <-. cbn. eauto.
    + injection E as <-. cbn. eauto.
    + destruct original_sym.
      5: {
        destruct (BodyVisitor.select_generic_procedure _ _ _);
          cbn [bind] in E; try discriminate E.
        destruct (nth_error _ _) as [final_sym |];
          cbn [deref bind] in E; try discriminate E.
        destruct (is_Subroutine final_sym); cbn [negb] in E;
          try discriminate E.
        destruct (StdMap.find _ _); injection E as <-; cbn; eauto.
      }
      all: cbn [negb is_Subroutine] in E; try discriminate E;
        injection E as <-; cbn; eauto.
  - intros st1 R.
    unfold BodyVisitor.visit_SubroutineCall.
    fold (call_symbol resolve_deriv_type_proc x st).
    rewrite R. reflexivity.
  - intros st1 st2 args symtab name sub_args abi access deftype R A.
    unfold BodyVisitor.visit_SubroutineCall.
    fold (call_symbol resolve_deriv_type_proc x st).
    rewrite R. cbn [bind]. rewrite A. reflexivity.
Qed.

(** X6.  The external symbol a call through an external generic
    procedure enters in the current scope is entered once.  A later
    call through the same external symbol, with arguments of its own,
    that selects the same specific procedure, in a scope that still
    holds the entry under the mangled name, finds that entry: it gives a
    call of the symbol the first call left in the scope, with its own
    arguments, and leaves the scope as it is. *)
Theorem visit_SubroutineCall_cached (x y : AST.SubroutineCall_t)
    (st st1 st2 st' t t1 t2 : BodyVisitor.state)
    (args args' : list expr_t)
    (p_name g_name : string) (procs : list symbol_t) (g_access : accessType)
    (p_module p_original : string) (p_access : accessType)
    (idx : nat) (final_sym : symbol_t) :
  let p := ExternalSymbol_t p_name (GenericProcedure_t g_name procs g_access)
             p_module p_original p_access in
  let local_sym := p_name ++ "@" ++ symbol_name final_sym in
  call_symbol resolve_deriv_type_proc x st = Ok (Some p, st1) ->
  BodyVisitor.visit_expr_list visit_expr (AST.m_args x) st1 = Ok (args, st2) ->
  BodyVisitor.select_generic_procedure args procs (AST.SubroutineCall_loc x)
  = Ok idx ->
  nth_error procs idx = Some final_sym ->
  BodyVisitor.visit_SubroutineCall visit_expr resolve_deriv_type_proc x st
  = Ok st' ->
  call_symbol resolve_deriv_type_proc y t = Ok (Some p, t1) ->
  BodyVisitor.visit_expr_list visit_expr (AST.m_args y) t1 = Ok (args', t2) ->
  BodyVisitor.select_generic_procedure args' procs (AST.SubroutineCall_loc y)
  = Ok idx ->
  StdMap.find local_sym (scope (BodyVisitor.current_scope t2))
  = StdMap.find local_sym (scope (BodyVisitor.current_scope st')) ->
  exists sub,
    StdMap.find local_sym (scope (BodyVisitor.current_scope st')) = Some sub /\
    BodyVisitor.tmp st'
    = Some (stmt (SubroutineCall_t (Some sub) (Some p) args)) /\
    BodyVisitor.visit_SubroutineCall visit_expr resolve_deriv_type_proc y t
    = Ok (BodyVisitor.set_tmp t2
            (Some (stmt (SubroutineCall_t (Some sub) (Some p) args')))).
Proof.
  intros p local_sym R A Sel N E R' A' Sel' S.
  unfold BodyVisitor.visit_SubroutineCall in E |- *.
  fold (call_symbol resolve_deriv_type_proc x st) in E.
  fold (call_symbol resolve_deriv_type_proc y t).
  rewrite R in E. rewrite R'. cbn [bind] in E |- *.
  rewrite A in E. rewrite A'. cbn [bind] in E |- *.
  subst p. cbn iota beta in E |- *.
  rewrite Sel in E. rewrite Sel'. cbn [bind] in E |- *.
  rewrite N in E. rewrite N. cbn [deref bind] in E |- *.
  destruct (is_Subroutine final_sym); cbn [negb] in E |- *;
    try discriminate E.
  fold local_sym in E |- *. rewrite S.
  destruct (StdMap.find local_sym (scope (BodyVisitor.current_scope st2)))
    as [cached |] eqn:F.
  - injection E as <-.
    cbn [BodyVisitor.current_scope BodyVisitor.set_tmp BodyVisitor.tmp].
    rewrite F. exists cached. repeat split.
  - injection E as <-.
    cbn [BodyVisitor.current_scope BodyVisitor.set_tmp BodyVisitor.tmp
         BodyVisitor.set_current_scope SymbolTableVisitor.scope_set scope].
    rewrite StdMap_find_set_same. eexists. repeat split.
Qed.

End CallStatements.

Lemma visit_SubroutineCall_arguments_witness :
  exists name original_name args,
    BodyVisitor.tmp state_called
    = Some (stmt (SubroutineCall_t name original_name args)) /\
    List.length args = 1%nat.
Proof.
  apply (proj1 (visit_SubroutineCall_arguments BodyVisitor.visit_expr
                  no_member_call call_g_1 state_call) state_called).
  reflexivity.
Defined.

Lemma visit_SubroutineCall_cached_witness :
  BodyVisitor.visit_SubroutineCall BodyVisitor.visit_expr no_member_call
    call_g_2 state_called
  = Ok (BodyVisitor.set_tmp
          (BodyVisitor.set_tmp state_called
             (Some (expr (ConstantInteger_t 2 integer4))))
          (Some (stmt (SubroutineCall_t (Some external_g_si)
                         (Some external_g) [ConstantInteger_t 2 integer4])))).
Proof.
  destruct (visit_SubroutineCall_cached BodyVisitor.visit_expr no_member_call
              call_g_1 call_g_2
              state_call state_call
              (BodyVisitor.set_tmp state_call
                 (Some (expr (ConstantInteger_t 1 integer4))))
              state_called
              state_called state_called
              (BodyVisitor.set_tmp state_called
                 (Some (expr (ConstantInteger_t 2 integer4))))
              [ConstantInteger_t 1 integer4] [ConstantInteger_t 2 integer4]
              "g" "g" [sub_real; sub_integer8] Public "m" "g" Public
              1%nat sub_integer8
              eq_refl eq_refl eq_refl eq_refl eq_refl eq_refl eq_refl eq_refl
              eq_refl)
    as (sub & F & _ & E).
  cbn in F. injection F as <-. exact E.
Defined.

(* ================================================================== *)
(** * Functions *)
(* ================================================================== *)

Lemma find_return_type_from_found (r : option SymbolTableUnits.AttrType_t)
    (attributes : list SymbolTableUnits.decl_attribute_t) (loc : Location) :
  SymbolTableUnits.find_return_type_from r true attributes loc =
  match type_attributes attributes with
  | [] => Ok r
  | _ => Throw (SemanticError "Return type declared twice" loc)
  end.
Proof.
  induction attributes as [| a l IH]; [reflexivity |].
  destruct a; cbn; fold (type_attributes l); try exact IH. reflexivity.
Qed.

Lemma find_return_type_cases
    (attributes : list SymbolTableUnits.decl_attribute_t) (loc : Location) :
  SymbolTableUnits.find_return_type attributes loc =
  match type_attributes attributes with
  | [] => Ok None
  | [t] => Ok (Some t)
  | _ => Throw (SemanticError "Return type declared twice" loc)
  end.
Proof.
  unfold SymbolTableUnits.find_return_type.
  induction attributes as [| a l IH]; [reflexivity |].
  destruct a; cbn; fold (type_attributes l); try exact IH.
  rewrite find_return_type_from_found.
  destruct (type_attributes l); reflexivity.
Qed.

(** X7.  [find_return_type] counts the type specifiers among the
    attributes: none gives the null pointer, exactly one gives that
    specifier wherever it stands in the list, and two or more are the
    error "Return type declared twice". *)
Theorem find_return_type_count
    (attributes : list SymbolTableUnits.decl_attribute_t) (loc : Location) :
  SymbolTableUnits.find_return_type attributes loc =
  match type_attributes attributes with
  | [] => Ok None
  | [t] => Ok (Some t)
  | _ => Throw (SemanticError "Return type declared twice" loc)
  end.
Proof. exact (find_return_type_cases attributes loc). Qed.

Lemma StdMap_find_set_other (T : Type) (k k' : string) (v : T)
    (m : StdMap.t T) :
  k <> k' -> StdMap.find k (StdMap.set k' v m) = StdMap.find k m.
Proof.
  intros N.
  induction m as [| [k1 v1] m IH]; cbn.
  - destruct (String.eqb_spec k k'); [contradiction | reflexivity].
  - destruct (String.compare k' k1) eqn:C; cbn.
    + apply String.compare_eq_iff in C. subst k1.
      destruct (String.eqb_spec k k'); [contradiction | reflexivity].
    + destruct (String.eqb_spec k k'); [contradiction | reflexivity].
    + rewrite IH. reflexivity.
Qed.

Lemma mapM_length (A B : Type) (f : A -> outcome B) (l : list A)
    (r : list B) :
  mapM f l = Ok r -> List.length r = List.length l.
Proof.
  revert r.
  induction l as [| a l IH]; intros r E; cbn in E.
  - injection E as <-. reflexivity.
  - destruct (f a) as [b | |]; cbn [bind] in E; try discriminate E.
    destruct (mapM f l) as [bs | |]; cbn [bind] in E; try discriminate E.
    injection E as <-. cbn. f_equal. apply IH. reflexivity.
Qed.

Section Functions.
Variable visit_expr :
  AST.expr_t -> SymbolTableVisitor.state -> outcome SymbolTableVisitor.state.
Variable extract_kind : expr_t -> Location -> outcome Z.

(** X8.  A function that pass 1 accepts is entered under its name in
    the enclosing scope, and its own scope binds the name of its result
    (the identifier after [result], or the name of the function) to a
    variable of intent [intent_return_var]; the return variable of the
    function node is that very symbol.  The node has one argument for
    every dummy argument, and the list of the names of the dummy
    arguments is empty afterwards. *)
Theorem visit_Function_return_variable (x : SymbolTableUnits.Function_t)
    (visit_body : SymbolTableVisitor.state -> outcome SymbolTableVisitor.state)
    (st st' : SymbolTableVisitor.state) :
  SymbolTableUnits.visit_Function visit_expr extract_kind x visit_body st
    = Ok st' ->
  exists symtab args return_var access deftype,
    let fn :=
      ASR.Function_t symtab (SymbolTableUnits.Function_name x) args
        (Var_t return_var) Source access deftype in
    SymbolTableVisitor.asr st' = Some (symbol fn) /\
    StdMap.find (SymbolTableUnits.Function_name x)
      (scope (SymbolTableVisitor.current_scope st')) = Some fn /\
    StdMap.find (result_name x) (scope symtab) = Some return_var /\
    symbol_intent return_var = Some intent_return_var /\
    List.length args = List.length (SymbolTableUnits.Function_args x) /\
    SymbolTableVisitor.current_procedure_args st' = [].
Proof.
  intros E. unfold SymbolTableUnits.visit_Function in E.
  destruct (visit_body _) as [s1 | |]; cbn [bind] in E; try discriminate E.
  destruct (SymbolTableVisitor.convert_arguments _ _ _) as [args0 | |] eqn:A0;
    cbn [bind] in E; try discriminate E.
  assert ((exists name, result_name x = name /\
            match SymbolTableUnits.m_return_var x with
            | Some (AST.Name_t _ m_id) => Ok m_id
            | Some e =>
                Throw (SemanticError "Return variable must be an identifier"
                         (SymbolTableUnits.expr_loc e))
            | None => Ok (SymbolTableUnits.Function_name x)
            end = Ok name) \/
            is_Throw (match SymbolTableUnits.m_return_var x with
            | Some (AST.Name_t _ m_id) => Ok m_id
            | Some e =>
                Throw (SemanticError "Return variable must be an identifier"
                         (SymbolTableUnits.expr_loc e))
            | None => @Ok string (SymbolTableUnits.Function_name x)
            end) = true) as R.
  { unfold result_name.
    destruct (SymbolTableUnits.m_return_var x) as [[] |];
      try (right; reflexivity); left; eexists; split; reflexivity. }
  destruct R as [[name [Rn R]] | R].
  2:{ destruct (match SymbolTableUnits.m_return_var x with
                | Some _ => _ | None => _ end); try discriminate R;
        discriminate E. }
  rewrite R in E. cbn [bind] in E. rewrite Rn. clear R Rn.
  destruct (SymbolTableUnits.find_return_type _ _) as [return_type | |];
    cbn [bind] in E; try discriminate E.
  match type of E with
  | bind ?c _ = _ => destruct c as [[[return_var args] s2] | |] eqn:B
  end; cbn [bind] in E; try discriminate E.
  destruct (deref _) as [parent_scope | |]; cbn [bind] in E;
    try discriminate E.
  match type of E with
  | bind ?c _ = _ => destruct c as [[] | |]
  end; cbn [bind] in E; try discriminate E.
  injection E as <-.
  exists (SymbolTableVisitor.current_scope s2), args, return_var.
  eexists. eexists. cbn.
  split; [reflexivity |].
  split; [apply StdMap_find_set_same |].
  assert (StdMap.find name
            (scope (SymbolTableVisitor.current_scope s2)) = Some return_var
          /\ symbol_intent return_var = Some intent_return_var
          /\ List.length args
             = List.length (SymbolTableUnits.Function_args x)) as Q.
  { destruct (StdMap.find name _) as [v |] eqn:F.
    - destruct return_type; try discriminate B.
      destruct v; try discriminate B.
      match type of B with
      | bind ?c _ = _ => destruct c as [args1 | |] eqn:A1
      end; cbn [bind] in B; try discriminate B.
      injection B as <- <- <-. cbn.
      split; [apply StdMap_find_set_same |].
      split; [reflexivity |].
      eapply mapM_length. exact A1.
    - destruct return_type as [t |]; try discriminate B.
      destruct (SymbolTableUnits.kind_of_AttrType _ _ _ _ _)
        as [[a_kind s3] | |]; cbn [bind] in B; try discriminate B.
      match type of B with
      | bind ?c _ = _ => destruct c as [ty | |]
      end; cbn [bind] in B; try discriminate B.
      injection B as <- <- <-. cbn.
      split; [apply StdMap_find_set_same |].
      split; [reflexivity |].
      eapply mapM_length. exact A0. }
  destruct Q as [Q1 [Q2 Q3]].
  repeat split; assumption.
Qed.

(** X9.  The type of the result of a function is given exactly once:
    once the body is visited and the dummy arguments are found, a
    function with two or more type specifiers before [function] is
    rejected with "Return type declared twice", one with no type
    specifier whose result is not declared in the body with "Return type
    not specified", and one with a type specifier whose result is also
    declared in the body with "Cannot specify the return type twice". *)
Theorem visit_Function_return_type_errors (x : SymbolTableUnits.Function_t)
    (visit_body : SymbolTableVisitor.state -> outcome SymbolTableVisitor.state)
    (st st1 : SymbolTableVisitor.state) (args : list expr_t) :
  visit_body (SymbolTableUnits.enter_Function x st) = Ok st1 ->
  SymbolTableVisitor.convert_arguments (SymbolTableUnits.Function_loc x)
    (SymbolTableUnits.Function_args x)
    (SymbolTableVisitor.current_scope st1) = Ok args ->
  (forall e, SymbolTableUnits.m_return_var x = Some e ->
             exists l m_id, e = AST.Name_t l m_id) ->
  let declared :=
    StdMap.mem (result_name x)
      (scope (SymbolTableVisitor.current_scope st1)) in
  let r :=
    SymbolTableUnits.visit_Function visit_expr extract_kind x visit_body st in
  let loc := SymbolTableUnits.Function_loc x in
  (2 <= List.length (type_attributes (SymbolTableUnits.Function_attributes x))
   -> r = Throw (SemanticError "Return type declared twice" loc))%nat /\
  (type_attributes (SymbolTableUnits.Function_attributes x) = [] ->
   declared = false ->
   r = Throw (SemanticError "Return type not specified" loc)) /\
  (forall t,
   type_attributes (SymbolTableUnits.Function_attributes x) = [t] ->
   declared = true ->
   r = Throw (SemanticError "Cannot specify the return type twice" loc)).
Proof.
  intros B A N declared r loc.
  assert (r =
    (return_type <- SymbolTableUnits.find_return_type
                      (SymbolTableUnits.Function_attributes x) loc ;;
     match StdMap.find (result_name x)
             (scope (SymbolTableVisitor.current_scope st1)), return_type
     with
     | None, None =>
         Throw (SemanticError "Return type not specified" loc)
     | Some _, Some _ =>
         Throw (SemanticError "Cannot specify the return type twice" loc)
     | _, _ => r
     end)) as R.
  { subst r. unfold SymbolTableUnits.visit_Function.
    rewrite B. cbn [bind]. rewrite A. cbn [bind].
    assert (match SymbolTableUnits.m_return_var x with
            | Some (AST.Name_t _ m_id) => Ok m_id
            | Some e =>
                Throw (SemanticError "Return variable must be an identifier"
                         (SymbolTableUnits.expr_loc e))
            | None => Ok (SymbolTableUnits.Function_name x)
            end = Ok (result_name x)) as Rn.
    { unfold result_name.
      destruct (SymbolTableUnits.m_return_var x) as [e |]; [| reflexivity].
      destruct (N e eq_refl) as [l [m_id ->]]. reflexivity. }
    rewrite Rn. cbn [bind]. fold loc.
    destruct (SymbolTableUnits.find_return_type _ loc) as [[t |] | |];
      cbn [bind]; try reflexivity;
      destruct (StdMap.find (result_name x) _); reflexivity. }
  rewrite find_return_type_cases in R.
  subst declared. unfold StdMap.mem.
  split; [| split].
  - intros L. rewrite R.
    destruct (type_attributes _) as [| t [| t' l]]; cbn in L; try lia.
    reflexivity.
  - intros T D. rewrite R, T. cbn [bind].
    destruct (StdMap.find _ _); [discriminate D | reflexivity].
  - intros t T D. rewrite R, T. cbn [bind].
    destruct (StdMap.find _ _); [reflexivity | discriminate D].
Qed.

(** X10.  When the result of a function is not declared in its body,
    the function is accepted only with exactly one type specifier before
    [function], and the return variable is made from it: a variable
    named as the result, of intent [intent_return_var], without
    dimensions, integer, real, complex or logical as the specifier says.
    Its kind is 4 when the specifier has no kind, and also whenever the
    specifier is [logical], whatever kind is written. *)
Theorem visit_Function_prefix_type (x : SymbolTableUnits.Function_t)
    (visit_body : SymbolTableVisitor.state -> outcome SymbolTableVisitor.state)
    (st st1 st' : SymbolTableVisitor.state) :
  visit_body (SymbolTableUnits.enter_Function x st) = Ok st1 ->
  StdMap.find (result_name x)
    (scope (SymbolTableVisitor.current_scope st1)) = None ->
  SymbolTableUnits.visit_Function visit_expr extract_kind x visit_body st
    = Ok st' ->
  exists t ty symtab args access deftype,
    type_attributes (SymbolTableUnits.Function_attributes x) = [t] /\
    return_tag (SymbolTableUnits.AttrType_type t) = Some (ASR.type ty) /\
    n_dims ty = 0%nat /\
    (SymbolTableUnits.AttrType_kind t = None \/
     SymbolTableUnits.AttrType_type t = SymbolTableUnits.TypeLogical ->
     ASR.m_kind ty = 4) /\
    SymbolTableVisitor.asr st' =
      Some (symbol
        (ASR.Function_t symtab (SymbolTableUnits.Function_name x) args
           (Var_t (Variable_t (result_name x) intent_return_var None None
                     Default ty Source Public Required))
           Source access deftype)).
Proof.
  intros B F E. unfold SymbolTableUnits.visit_Function in E.
  rewrite B in E. cbn [bind] in E.
  destruct (SymbolTableVisitor.convert_arguments _ _ _) as [args0 | |];
    cbn [bind] in E; try discriminate E.
  assert (match SymbolTableUnits.m_return_var x with
          | Some (AST.Name_t _ m_id) => Ok m_id
          | Some e =>
              Throw (SemanticError "Return variable must be an identifier"
                       (SymbolTableUnits.expr_loc e))
          | None => Ok (SymbolTableUnits.Function_name x)
          end = Ok (result_name x)) as Rn.
  { unfold result_name.
    destruct (SymbolTableUnits.m_return_var x) as [[] |];
      try discriminate E; reflexivity. }
  rewrite Rn in E. cbn [bind] in E. clear Rn.
  rewrite find_return_type_cases in E.
  rewrite F in E.
  destruct (type_attributes _) as [| t [| t' l]]; try discriminate E.
  cbn [bind] in E.
  destruct (SymbolTableUnits.kind_of_AttrType _ _ _ _ _)
    as [[a_kind s2] | |] eqn:K; cbn [bind] in E; try discriminate E.
  assert (SymbolTableUnits.AttrType_kind t = None -> a_kind = 4) as K4.
  { intros Kn. unfold SymbolTableUnits.kind_of_AttrType in K.
    rewrite Kn in K. injection K as <- _. reflexivity. }
  clear K.
  destruct (SymbolTableUnits.AttrType_type t) eqn:T; cbn [bind] in E;
    try discriminate E;
    (destruct (deref _) as [parent_scope | |]; cbn [bind] in E;
       try discriminate E;
     match type of E with
     | bind ?c _ = _ => destruct c as [[] | |]
     end; cbn [bind] in E; try discriminate E;
     injection E as <-;
     exists t; eexists; eexists; eexists; eexists; eexists;
     refine (conj eq_refl (conj _ (conj _ (conj _ eq_refl))));
       [rewrite T; reflexivity | reflexivity |];
     cbn; intros [Kn | Tl];
       [try reflexivity; exact (K4 Kn) | try reflexivity; congruence]).
Qed.

End Functions.

Lemma visit_Function_return_variable_witness :
  exists symtab args return_var access deftype,
    let fn :=
      ASR.Function_t symtab "g" args (Var_t return_var) Source access
        deftype in
    SymbolTableVisitor.asr state_g = Some (symbol fn) /\
    StdMap.find "g" (scope (SymbolTableVisitor.current_scope state_g))
      = Some fn /\
    StdMap.find "r" (scope symtab) = Some return_var /\
    symbol_intent return_var = Some intent_return_var /\
    List.length args = 1%nat /\
    SymbolTableVisitor.current_procedure_args state_g = [].
Proof.
  apply (visit_Function_return_variable visit_expr_num extract_kind_num
           function_g declare_a state_root state_g).
  reflexivity.
Defined.

Lemma visit_Function_return_type_errors_witness :
  SymbolTableUnits.visit_Function visit_expr_num extract_kind_num function_h
    declare_h state_root
  = Throw (SemanticError "Cannot specify the return type twice" loc0).
Proof.
  apply (proj2 (proj2
           (visit_Function_return_type_errors visit_expr_num extract_kind_num
              function_h declare_h state_root
              (SymbolTableVisitor.current_scope_set
                 (SymbolTableUnits.enter_Function function_h state_root)
                 "h" (variable "h" integer4))
              [] eq_refl eq_refl
              (fun e (N : None = Some e) =>
                 match N in _ = o
                   return match o with
                          | Some _ => exists l m_id, e = AST.Name_t l m_id
                          | None => True
                          end
                 with eq_refl => I end)))
           (SymbolTableUnits.mk_AttrType SymbolTableUnits.TypeInteger None
              None));
    reflexivity.
Defined.

Lemma visit_Function_prefix_type_witness :
  exists t ty symtab args access deftype,
    type_attributes (SymbolTableUnits.Function_attributes function_g) = [t] /\
    return_tag (SymbolTableUnits.AttrType_type t) = Some (ASR.type ty) /\
    n_dims ty = 0%nat /\
    (SymbolTableUnits.AttrType_kind t = None \/
     SymbolTableUnits.AttrType_type t = SymbolTableUnits.TypeLogical ->
     ASR.m_kind ty = 4) /\
    SymbolTableVisitor.asr state_g =
      Some (symbol
        (ASR.Function_t symtab "g" args
           (Var_t (Variable_t "r" intent_return_var None None
                     Default ty Source Public Required))
           Source access deftype)).
Proof.
  apply (visit_Function_prefix_type visit_expr_num extract_kind_num
           function_g declare_a state_root
           (SymbolTableVisitor.current_scope_set
              (SymbolTableUnits.enter_Function function_g state_root)
              "a" dummy_a)
           state_g);
    reflexivity.
Defined.

(* ================================================================== *)
(** * Programs, derived types and interfaces *)
(* ================================================================== *)

Lemma push_back_if_absent_incl (v : list string) (name : string) :
  incl v (push_back_if_absent v name).
Proof.
  unfold push_back_if_absent.
  destruct (negb (present v name)).
  - apply incl_appl, incl_refl.
  - apply incl_refl.
Qed.

Section Programs.
Context `{ModuleLoader}.

Lemma visit_Use_list_dependencies (uses : list AST.Use_t)
    (st st' : SymbolTableVisitor.state) :
  NoDup (SymbolTableVisitor.current_module_dependencies st) ->
  foldM (fun st u => SymbolTableVisitor.visit_Use u st) uses st = Ok st' ->
  NoDup (SymbolTableVisitor.current_module_dependencies st') /\
  incl (SymbolTableVisitor.current_module_dependencies st)
    (SymbolTableVisitor.current_module_dependencies st') /\
  (forall u, In u uses ->
     In (AST.m_module u)
        (SymbolTableVisitor.current_module_dependencies st')).
Proof.
  revert st.
  induction uses as [| u uses IH]; intros st N E; cbn [foldM] in E.
  - injection E as <-.
    split; [exact N |]. split; [apply incl_refl |]. intros u [].
  - destruct (SymbolTableVisitor.visit_Use u st) as [s1 | |] eqn:U;
      cbn [bind] in E; try discriminate E.
    pose proof (visit_Use_dependencies _ _ _ U) as D.
    destruct (push_back_if_absent_NoDup
                (SymbolTableVisitor.current_module_dependencies st)
                (AST.m_module u) N) as [N1 [I1 _]].
    rewrite <- D in N1, I1.
    destruct (IH s1 N1 E) as [N' [Inc In']].
    split; [exact N' |]. split.
    + intros a Ia. apply Inc. rewrite D.
      apply push_back_if_absent_incl. exact Ia.
    + intros u' [<- | Iu]; [apply Inc; exact I1 | apply In'; exact Iu].
Qed.

(** X11.  A program that pass 1 accepts is entered in the enclosing
    scope under a name that scope did not hold: there is no exception
    for the global scope or for a symbol of an interactive session, as
    there is for variables and subroutines.  The node lists every module
    the program uses, each once, provided the declarations and contained
    units only add to the list as [use] does. *)
Theorem visit_Program_defined (x : SymbolTableUnits.Program_t)
    (visit_rest : SymbolTableVisitor.state -> outcome SymbolTableVisitor.state)
    (st st' : SymbolTableVisitor.state) :
  (forall s s',
     NoDup (SymbolTableVisitor.current_module_dependencies s) ->
     visit_rest s = Ok s' ->
     NoDup (SymbolTableVisitor.current_module_dependencies s') /\
     incl (SymbolTableVisitor.current_module_dependencies s)
       (SymbolTableVisitor.current_module_dependencies s')) ->
  SymbolTableUnits.visit_Program x visit_rest st = Ok st' ->
  exists symtab deps parent_scope,
    let p := Program_t symtab (SymbolTableUnits.Program_name x) deps in
    SymbolTableVisitor.asr st' = Some (symbol p) /\
    parent symtab = Some parent_scope /\
    StdMap.mem (SymbolTableUnits.Program_name x) (scope parent_scope)
      = false /\
    SymbolTableVisitor.current_scope st'
      = SymbolTableVisitor.scope_set parent_scope
          (SymbolTableUnits.Program_name x) p /\
    NoDup deps /\
    (forall u, In u (SymbolTableUnits.Program_use x) ->
               In (AST.m_module u) deps).
Proof.
  intros R E. unfold SymbolTableUnits.visit_Program in E.
  destruct (foldM _ (SymbolTableUnits.Program_use x) _) as [s1 | |] eqn:U;
    cbn [bind] in E; try discriminate E.
  destruct (visit_rest s1) as [s2 | |] eqn:V;
    cbn [bind] in E; try discriminate E.
  destruct (parent (SymbolTableVisitor.current_scope s2)) as [ps |] eqn:P;
    cbn [deref bind] in E; try discriminate E.
  destruct (StdMap.mem _ _) eqn:M; [discriminate E |].
  injection E as <-.
  exists (SymbolTableVisitor.current_scope s2),
    (SymbolTableVisitor.current_module_dependencies s2), ps.
  cbn.
  destruct (visit_Use_list_dependencies (SymbolTableUnits.Program_use x)
              (SymbolTableVisitor.with_dependencies
                 (SymbolTableVisitor.new_SymbolTable st) [])
              s1 (NoDup_nil string) U)
    as [N1 [_ In1]].
  destruct (R _ _ N1 V) as [N2 Inc].
  repeat split; try assumption.
  intros u Iu. apply Inc, In1. exact Iu.
Qed.

End Programs.

Lemma visit_Program_defined_witness :
  exists symtab deps parent_scope,
    let p := Program_t symtab "p" deps in
    SymbolTableVisitor.asr state_program = Some (symbol p) /\
    parent symtab = Some parent_scope /\
    StdMap.mem "p" (scope parent_scope) = false /\
    SymbolTableVisitor.current_scope state_program
      = SymbolTableVisitor.scope_set parent_scope "p" p /\
    NoDup deps /\
    (forall u, In u [use_m1_only_r] -> In (AST.m_module u) deps).
Proof.
  apply (@visit_Program_defined loader_intrinsic_array program_p
           (fun s => Ok s) state_global_m state_program).
  - intros s s' Nd E. injection E as <-. split; [exact Nd | apply incl_refl].
  - reflexivity.
Defined.

(** X12.  A derived type is tested against its own scope, not against
    the scope it is entered in: once its items are visited, the type is
    rejected with "DerivedType already defined" exactly when one of its
    own members has the name of the type, and otherwise it is entered in
    the enclosing scope under its name, whatever that scope held under
    the name. *)
Theorem visit_DerivedType_own_scope (x : SymbolTableUnits.DerivedType_t)
    (visit_items : SymbolTableUnits.unit_state ->
                   outcome SymbolTableUnits.unit_state)
    (u u1 : SymbolTableUnits.unit_state) (parent_scope : SymbolTable) :
  visit_items
    (SymbolTableUnits.mk_unit_state
       (SymbolTableVisitor.new_SymbolTable (SymbolTableUnits.base u))
       (SymbolTableUnits.generic_procedures u)
       (SymbolTableUnits.DerivedType_name x)
       (SymbolTableUnits.assgnd_presence u) (SymbolTableUnits.in_module u))
  = Ok u1 ->
  parent (SymbolTableVisitor.current_scope (SymbolTableUnits.base u1))
  = Some parent_scope ->
  let name := SymbolTableUnits.DerivedType_name x in
  let symtab := SymbolTableVisitor.current_scope (SymbolTableUnits.base u1) in
  if StdMap.mem name (scope symtab) then
    SymbolTableUnits.visit_DerivedType x visit_items u
    = Throw (SemanticError "DerivedType already defined"
               (SymbolTableUnits.DerivedType_loc x))
  else
    exists u',
      SymbolTableUnits.visit_DerivedType x visit_items u = Ok u' /\
      SymbolTableVisitor.current_scope (SymbolTableUnits.base u')
      = SymbolTableVisitor.scope_set parent_scope name
          (DerivedType_t symtab name Source
             (SymbolTableVisitor.dflt_access (SymbolTableUnits.base u1))) /\
      StdMap.find name
        (scope (SymbolTableVisitor.current_scope (SymbolTableUnits.base u')))
      = Some (DerivedType_t symtab name Source
                (SymbolTableVisitor.dflt_access (SymbolTableUnits.base u1))).
Proof.
  intros V P name symtab. subst name symtab.
  unfold SymbolTableUnits.visit_DerivedType.
  rewrite V. cbn [bind].
  destruct (StdMap.mem _ _); [reflexivity |].
  rewrite P. cbn [deref bind].
  eexists. split; [reflexivity |]. cbn.
  split; [reflexivity | apply StdMap_find_set_same].
Qed.

Lemma visit_Interface_names (items : list SymbolTableUnits.interface_item_t)
    (proc_names : list string) :
  forallb is_module_procedure items = true ->
  foldM (fun proc_names item =>
           match item with
           | SymbolTableUnits.InterfaceModuleProcedure _ names =>
               Ok (proc_names ++ names)%list
           | SymbolTableUnits.InterfaceOtherItem loc =>
               Throw (SemanticError
                 "Interface procedure type not imlemented yet" loc)
           end) items proc_names
  = Ok (proc_names ++ module_procedure_names items)%list.
Proof.
  revert proc_names.
  induction items as [| item items IH]; intros proc_names A; cbn.
  - rewrite app_nil_r. reflexivity.
  - destruct item; cbn in A; [| discriminate A].
    cbn [bind]. rewrite (IH _ A), app_assoc. reflexivity.
Qed.

Lemma visit_Interface_other (items : list SymbolTableUnits.interface_item_t)
    (proc_names : list string) loc
    (rest : list SymbolTableUnits.interface_item_t) :
  forallb is_module_procedure items = true ->
  foldM (fun proc_names item =>
           match item with
           | SymbolTableUnits.InterfaceModuleProcedure _ names =>
               Ok (proc_names ++ names)%list
           | SymbolTableUnits.InterfaceOtherItem loc =>
               Throw (SemanticError
                 "Interface procedure type not imlemented yet" loc)
           end)
    (items ++ SymbolTableUnits.InterfaceOtherItem loc :: rest)%list proc_names
  = Throw (SemanticError "Interface procedure type not imlemented yet" loc).
Proof.
  revert proc_names.
  induction items as [| item items IH]; intros proc_names A; cbn.
  - reflexivity.
  - destruct item; cbn in A; [| discriminate A].
    cbn [bind]. apply IH. exact A.
Qed.

(** X13.  An interface block with a name records, under that name, the
    names its [module procedure] items list, in their order, and changes
    nothing else: the list replaces the one an earlier block of the same
    name recorded, and the lists of the other names stay.  The first item
    of another form is rejected at its own location. *)
Theorem visit_Interface_named (x : SymbolTableUnits.Interface_t)
    (visit_interface_item :
       SymbolTableUnits.interface_item_t -> SymbolTableUnits.unit_state ->
       outcome SymbolTableUnits.unit_state)
    (u : SymbolTableUnits.unit_state) (generic_name : string) :
  SymbolTableUnits.m_header x
  = SymbolTableUnits.InterfaceHeaderName generic_name ->
  (forallb is_module_procedure (SymbolTableUnits.m_items x) = true ->
   exists u',
     SymbolTableUnits.visit_Interface x visit_interface_item u = Ok u' /\
     SymbolTableUnits.base u' = SymbolTableUnits.base u /\
     StdMap.find generic_name (SymbolTableUnits.generic_procedures u')
     = Some (module_procedure_names (SymbolTableUnits.m_items x)) /\
     (forall k, k <> generic_name ->
        StdMap.find k (SymbolTableUnits.generic_procedures u')
        = StdMap.find k (SymbolTableUnits.generic_procedures u))) /\
  (forall items loc rest,
     SymbolTableUnits.m_items x
     = (items ++ SymbolTableUnits.InterfaceOtherItem loc :: rest)%list ->
     forallb is_module_procedure items = true ->
     SymbolTableUnits.visit_Interface x visit_interface_item u
     = Throw (SemanticError "Interface procedure type not imlemented yet"
                loc)).
Proof.
  intros Hd. unfold SymbolTableUnits.visit_Interface. rewrite Hd.
  split.
  - intros A. rewrite (visit_Interface_names _ [] A). cbn [bind app].
    eexists. split; [reflexivity |]. cbn.
    split; [reflexivity |].
    split; [apply StdMap_find_set_same |].
    intros k N. apply StdMap_find_set_other. exact N.
  - intros items loc rest I A.
    rewrite I, (visit_Interface_other items [] loc rest A). reflexivity.
Qed.

Lemma visit_DerivedType_own_scope_witness :
  exists u',
    SymbolTableUnits.visit_DerivedType type_s0 declare_x unit_root = Ok u' /\
    SymbolTableVisitor.current_scope (SymbolTableUnits.base u')
    = SymbolTableVisitor.scope_set
        (SymbolTableVisitor.current_scope state_root) "s0"
        (DerivedType_t
           (mk_SymbolTable [("x", member_x)]
              (Some (SymbolTableVisitor.current_scope state_root)) 1)
           "s0" Source Public) /\
    StdMap.find "s0"
      (scope (SymbolTableVisitor.current_scope (SymbolTableUnits.base u')))
    = Some (DerivedType_t
              (mk_SymbolTable [("x", member_x)]
                 (Some (SymbolTableVisitor.current_scope state_root)) 1)
              "s0" Source Public).
Proof.
  exact (visit_DerivedType_own_scope type_s0 declare_x unit_root
           (SymbolTableUnits.with_base
              (SymbolTableUnits.mk_unit_state
                 (SymbolTableVisitor.new_SymbolTable state_root)
                 [("g", ["old"])] "s0" [] false)
              (SymbolTableVisitor.current_scope_set
                 (SymbolTableVisitor.new_SymbolTable state_root)
                 "x" member_x))
           (SymbolTableVisitor.current_scope state_root)
           eq_refl eq_refl).
Defined.

Lemma visit_Interface_named_witness :
  exists u',
    SymbolTableUnits.visit_Interface interface_g
      (fun _ u => Ok u) unit_root = Ok u' /\
    SymbolTableUnits.base u' = SymbolTableUnits.base unit_root /\
    StdMap.find "g" (SymbolTableUnits.generic_procedures u')
    = Some ["sr"; "si"] /\
    (forall k, k <> "g" ->
       StdMap.find k (SymbolTableUnits.generic_procedures u')
       = StdMap.find k (SymbolTableUnits.generic_procedures unit_root)).
Proof.
  apply (proj1 (visit_Interface_named interface_g (fun _ u => Ok u)
                  unit_root "g" eq_refl)).
  reflexivity.
Defined.

Lemma add_generic_procedure_list (l : StdMap.t (list string))
    (st st' : SymbolTableVisitor.state) :
  NoDup (map fst l) ->
  foldM SymbolTableUnits.add_generic_procedure l st = Ok st' ->
  (forall g names, In (g, names) l ->
     exists symbols,
       StdMap.find g (scope (SymbolTableVisitor.current_scope st'))
       = Some (GenericProcedure_t g symbols Public) /\
       List.length symbols = List.length names) /\
  (forall k, ~ In k (map fst l) ->
     StdMap.find k (scope (SymbolTableVisitor.current_scope st'))
     = StdMap.find k (scope (SymbolTableVisitor.current_scope st))) /\
  parent (SymbolTableVisitor.current_scope st')
  = parent (SymbolTableVisitor.current_scope st).
Proof.
  revert st.
  induction l as [| [g names] l IH]; intros st N E; cbn [foldM] in E.
  - injection E as <-. split; [intros g names [] |]. split; reflexivity.
  - unfold SymbolTableUnits.add_generic_procedure at 1 in E.
    cbn [fst snd] in E.
    destruct (mapM _ names) as [symbols | |] eqn:M; cbn [bind] in E;
      try discriminate E.
    inversion N as [| k ks Ng Nl]; subst k ks.
    destruct (IH _ Nl E) as [Bound [Other Par]].
    split; [| split].
    + intros g' names' [In1 | In1].
      * injection In1 as <- <-. exists symbols.
        rewrite (Other g Ng). cbn.
        split; [apply StdMap_find_set_same |].
        eapply mapM_length. exact M.
      * apply Bound. exact In1.
    + intros k Nk. rewrite Other.
      * cbn. apply StdMap_find_set_other.
        intros Ek. apply Nk. left. symmetry. exact Ek.
      * intros Ik. apply Nk. right. exact Ik.
    + rewrite Par. reflexivity.
Qed.

Lemma mapM_first_Throw (A B : Type) (f : A -> outcome B)
    (pre : list A) (a : A) (post : list A) (e : exception) :
  (forall b, In b pre -> exists r, f b = Ok r) ->
  f a = Throw e ->
  mapM f (pre ++ a :: post)%list = Throw e.
Proof.
  intros P Fa.
  induction pre as [| b pre IH]; cbn.
  - rewrite Fa. reflexivity.
  - destruct (P b (or_introl eq_refl)) as [r ->]. cbn [bind].
    rewrite IH; [reflexivity |].
    intros c Ic. apply P. right. exact Ic.
Qed.

(** X14.  [add_generic_procedures] enters every recorded generic name
    in the current scope as a public [GenericProcedure] with one symbol
    for each name of its list, over whatever the scope held under the
    generic name, and leaves the other names of the scope as they are.  A
    name of a list that the scope does not resolve is rejected with
    "Symbol '...' not declared" at the fixed location 1:1-1:1. *)
Theorem add_generic_procedures_defined (u : SymbolTableUnits.unit_state) :
  NoDup (map fst (SymbolTableUnits.generic_procedures u)) ->
  (forall u',
     SymbolTableUnits.add_generic_procedures u = Ok u' ->
     (forall g names,
        In (g, names) (SymbolTableUnits.generic_procedures u) ->
        exists symbols,
          StdMap.find g
            (scope (SymbolTableVisitor.current_scope
                      (SymbolTableUnits.base u')))
          = Some (GenericProcedure_t g symbols Public) /\
          List.length symbols = List.length names) /\
     (forall k,
        ~ In k (map fst (SymbolTableUnits.generic_procedures u)) ->
        StdMap.find k
          (scope (SymbolTableVisitor.current_scope
                    (SymbolTableUnits.base u')))
        = StdMap.find k
            (scope (SymbolTableVisitor.current_scope
                      (SymbolTableUnits.base u))))) /\
  (forall g pre n post rest,
     SymbolTableUnits.generic_procedures u
     = (g, (pre ++ n :: post)%list) :: rest ->
     (forall m, In m pre ->
        resolve_symbol
          (SymbolTableVisitor.current_scope (SymbolTableUnits.base u)) m
        <> None) ->
     resolve_symbol
       (SymbolTableVisitor.current_scope (SymbolTableUnits.base u)) n
     = None ->
     SymbolTableUnits.add_generic_procedures u
     = Throw (SemanticError ("Symbol '" ++ n ++ "' not declared")
                (mk_Location 1 1 1 1))).
Proof.
  intros N. split.
  - intros u' E. unfold SymbolTableUnits.add_generic_procedures in E.
    destruct (foldM _ _ _) as [st' | |] eqn:F; cbn [bind] in E;
      try discriminate E.
    injection E as <-. cbn.
    destruct (add_generic_procedure_list _ _ _ N F) as [Bound [Other _]].
    split; assumption.
  - intros g pre n post rest G P R.
    unfold SymbolTableUnits.add_generic_procedures. rewrite G.
    cbn [foldM]. unfold SymbolTableUnits.add_generic_procedure at 1.
    cbn [fst snd].
    rewrite (mapM_first_Throw _ _
               (fun pname =>
                  SymbolTableUnits.resolve_symbol (mk_Location 1 1 1 1)
                    pname (SymbolTableUnits.base u))
               pre n post
               (SemanticError ("Symbol '" ++ n ++ "' not declared")
                  (mk_Location 1 1 1 1))).
    + reflexivity.
    + intros m Im. unfold SymbolTableUnits.resolve_symbol.
      destruct (resolve_symbol _ m) as [sub |] eqn:Rm;
        [exists sub; reflexivity | destruct (P m Im Rm)].
    + unfold SymbolTableUnits.resolve_symbol. rewrite R. reflexivity.
Qed.

Lemma add_generic_procedures_defined_witness :
  exists symbols,
    StdMap.find "g"
      (scope (SymbolTableVisitor.current_scope
                (SymbolTableUnits.base unit_g_added)))
    = Some (GenericProcedure_t "g" symbols Public) /\
    List.length symbols = 2%nat.
Proof.
  apply (proj1 (proj1 (add_generic_procedures_defined unit_g
                         (NoDup_cons "g" (fun f : In "g" [] => f)
                            (NoDup_nil string)))
                  unit_g_added eq_refl)
           "g" ["sr"; "si"]).
  left. reflexivity.
Defined.

(* ================================================================== *)
(** * Declarations without a type *)
(* ================================================================== *)

Lemma visit_Declaration_attr_step loc
    (sa : SymbolTableUnits.simple_attributeType)
    (u u1 : SymbolTableUnits.unit_state) (s : SymbolTableUnits.var_sym_t) :
  SymbolTableUnits.visit_Declaration_attr loc sa u s = Ok u1 ->
  assigned sa u1 (SymbolTableUnits.var_sym_name s) /\
  (forall k, assigned sa u k -> assigned sa u1 k) /\
  SymbolTableVisitor.current_scope (SymbolTableUnits.base u1)
  = SymbolTableVisitor.current_scope (SymbolTableUnits.base u) /\
  SymbolTableVisitor.dflt_access (SymbolTableUnits.base u1)
  = SymbolTableVisitor.dflt_access (SymbolTableUnits.base u).
Proof.
  unfold SymbolTableUnits.visit_Declaration_attr.
  destruct sa; intros E; try discriminate E; injection E as <-;
    unfold assigned; cbn;
    (split; [apply StdMap_find_set_same |]);
    (split; [| split; reflexivity]);
    intros k A;
    (destruct (String.eqb_spec k (SymbolTableUnits.var_sym_name s))
       as [-> | N];
     [apply StdMap_find_set_same
     | rewrite (StdMap_find_set_other _ _ _ _ _ N); exact A]).
Qed.

Lemma visit_Declaration_attr_list loc
    (sa : SymbolTableUnits.simple_attributeType)
    (syms : list SymbolTableUnits.var_sym_t)
    (u u' : SymbolTableUnits.unit_state) :
  foldM (SymbolTableUnits.visit_Declaration_attr loc sa) syms u = Ok u' ->
  (forall s, In s syms -> assigned sa u' (SymbolTableUnits.var_sym_name s)) /\
  (forall k, assigned sa u k -> assigned sa u' k) /\
  SymbolTableVisitor.current_scope (SymbolTableUnits.base u')
  = SymbolTableVisitor.current_scope (SymbolTableUnits.base u) /\
  SymbolTableVisitor.dflt_access (SymbolTableUnits.base u')
  = SymbolTableVisitor.dflt_access (SymbolTableUnits.base u).
Proof.
  revert u.
  induction syms as [| s syms IH]; intros u E; cbn [foldM] in E.
  - injection E as <-. split; [intros s [] |].
    split; [intros k A; exact A |]. split; reflexivity.
  - destruct (SymbolTableUnits.visit_Declaration_attr loc sa u s)
      as [u1 | |] eqn:V; cbn [bind] in E; try discriminate E.
    destruct (visit_Declaration_attr_step _ _ _ _ _ V) as [A1 [K1 [S1 D1]]].
    destruct (IH _ E) as [A' [K' [S' D']]].
    split; [| split; [| split]].
    + intros s' [<- | I]; [apply K'; exact A1 | apply A'; exact I].
    + intros k A. apply K', K1. exact A.
    + rewrite S'. exact S1.
    + rewrite D'. exact D1.
Qed.

Lemma visit_Declaration_attribute_cases (x : SymbolTableUnits.Declaration_t)
    (visit_typed : SymbolTableUnits.unit_state ->
                   outcome SymbolTableUnits.unit_state)
    (u u' : SymbolTableUnits.unit_state) :
  SymbolTableUnits.m_vartype x = None ->
  SymbolTableUnits.visit_Declaration x visit_typed u = Ok u' ->
  exists sa,
    SymbolTableUnits.Declaration_attributes x
    = [SymbolTableUnits.SimpleAttribute sa] /\
    SymbolTableVisitor.current_scope (SymbolTableUnits.base u')
    = SymbolTableVisitor.current_scope (SymbolTableUnits.base u) /\
    match SymbolTableUnits.m_syms x with
    | [] =>
        (sa = SymbolTableUnits.AttrPrivate /\
         SymbolTableVisitor.dflt_access (SymbolTableUnits.base u') = Private /\
         SymbolTableVisitor.assgnd_access (SymbolTableUnits.base u')
         = SymbolTableVisitor.assgnd_access (SymbolTableUnits.base u)) \/
        ((sa = SymbolTableUnits.AttrPublic \/
          (sa = SymbolTableUnits.AttrSave /\
           SymbolTableUnits.in_module u = true)) /\
         u' = u)
    | syms =>
        SymbolTableVisitor.dflt_access (SymbolTableUnits.base u')
        = SymbolTableVisitor.dflt_access (SymbolTableUnits.base u) /\
        (forall s, In s syms ->
           assigned sa u' (SymbolTableUnits.var_sym_name s))
    end.
Proof.
  intros T E. unfold SymbolTableUnits.visit_Declaration in E.
  rewrite T in E.
  destruct (SymbolTableUnits.Declaration_attributes x) as [| a [| b l]];
    cbn [existsb orb] in E.
  - discriminate E.
  - destruct a as [t | sa | | | |]; try discriminate E.
    cbn in E. exists sa. split; [reflexivity |].
    destruct (SymbolTableUnits.m_syms x) as [| s syms].
    + destruct sa; try discriminate E.
      * injection E as <-. split; [reflexivity |].
        left. repeat split.
      * injection E as <-. split; [reflexivity |].
        right. split; [left |]; reflexivity.
      * destruct (SymbolTableUnits.in_module u) eqn:M; [| discriminate E].
        injection E as <-. split; [reflexivity |].
        right. split; [right; split |]; reflexivity.
    + destruct (visit_Declaration_attr_list
                  (SymbolTableUnits.Declaration_loc x) sa (s :: syms) u u' E)
        as [A [_ [Sc D]]].
      split; [exact Sc |]. split; [exact D | exact A].
  - destruct a; cbn in E;
      repeat match type of E with
             | context [if ?c then _ else _] => destruct c
             end;
      discriminate E.
Qed.

(** X15.  A declaration without a type never touches the scope.  It is
    accepted only with exactly one attribute, a simple one.  Without
    names, [private] makes the default access private, and [public] and,
    in a module, [save] change nothing: [public] does not restore a
    default access that [private] has changed.  With names, [private],
    [public] and [optional] record the access or the presence for every
    name listed and leave the default access as it is. *)
Theorem visit_Declaration_attribute (x : SymbolTableUnits.Declaration_t)
    (visit_typed : SymbolTableUnits.unit_state ->
                   outcome SymbolTableUnits.unit_state)
    (u u' : SymbolTableUnits.unit_state) :
  SymbolTableUnits.m_vartype x = None ->
  SymbolTableUnits.visit_Declaration x visit_typed u = Ok u' ->
  exists sa,
    SymbolTableUnits.Declaration_attributes x
    = [SymbolTableUnits.SimpleAttribute sa] /\
    SymbolTableVisitor.current_scope (SymbolTableUnits.base u')
    = SymbolTableVisitor.current_scope (SymbolTableUnits.base u) /\
    match SymbolTableUnits.m_syms x with
    | [] =>
        (sa = SymbolTableUnits.AttrPrivate /\
         SymbolTableVisitor.dflt_access (SymbolTableUnits.base u') = Private /\
         SymbolTableVisitor.assgnd_access (SymbolTableUnits.base u')
         = SymbolTableVisitor.assgnd_access (SymbolTableUnits.base u)) \/
        ((sa = SymbolTableUnits.AttrPublic \/
          (sa = SymbolTableUnits.AttrSave /\
           SymbolTableUnits.in_module u = true)) /\
         u' = u)
    | syms =>
        SymbolTableVisitor.dflt_access (SymbolTableUnits.base u')
        = SymbolTableVisitor.dflt_access (SymbolTableUnits.base u) /\
        (forall s, In s syms ->
           assigned sa u' (SymbolTableUnits.var_sym_name s))
    end.
Proof.
  exact (visit_Declaration_attribute_cases x visit_typed u u').
Qed.

Lemma visit_Declaration_attribute_witness :
  exists sa,
    SymbolTableUnits.Declaration_attributes private_sr_si
    = [SymbolTableUnits.SimpleAttribute sa] /\
    SymbolTableVisitor.current_scope (SymbolTableUnits.base unit_g_private)
    = SymbolTableVisitor.current_scope (SymbolTableUnits.base unit_g) /\
    SymbolTableVisitor.dflt_access (SymbolTableUnits.base unit_g_private)
    = SymbolTableVisitor.dflt_access (SymbolTableUnits.base unit_g) /\
    (forall s, In s (SymbolTableUnits.m_syms private_sr_si) ->
       assigned sa unit_g_private (SymbolTableUnits.var_sym_name s)).
Proof.
  exact (visit_Declaration_attribute private_sr_si (fun u => Ok u)
           unit_g unit_g_private eq_refl eq_refl).
Defined.

(** X16.  The access a statement [private :: names] or
    [public :: names] records reaches the subroutine of that name that is
    defined afterwards: the subroutine node takes the recorded access,
    whatever the default access is, provided its body leaves the record
    as it is. *)
Theorem assigned_access_reaches_subroutine
    (d : SymbolTableUnits.Declaration_t) (x : AST.Subroutine_t)
    (a : accessType)
    (visit_typed : SymbolTableUnits.unit_state ->
                   outcome SymbolTableUnits.unit_state)
    (visit_body : SymbolTableVisitor.state -> outcome SymbolTableVisitor.state)
    (u u' : SymbolTableUnits.unit_state)
    (st1 st' : SymbolTableVisitor.state) :
  SymbolTableUnits.m_vartype d = None ->
  SymbolTableUnits.Declaration_attributes d
  = [SymbolTableUnits.SimpleAttribute (access_attribute a)] ->
  In (AST.Subroutine_name x)
     (map SymbolTableUnits.var_sym_name (SymbolTableUnits.m_syms d)) ->
  SymbolTableUnits.visit_Declaration d visit_typed u = Ok u' ->
  visit_body (SymbolTableVisitor.enter_Subroutine x (SymbolTableUnits.base u'))
  = Ok st1 ->
  SymbolTableVisitor.assgnd_access st1
  = SymbolTableVisitor.assgnd_access (SymbolTableUnits.base u') ->
  SymbolTableVisitor.visit_Subroutine x visit_body (SymbolTableUnits.base u')
  = Ok st' ->
  exists symtab args deftype,
    SymbolTableVisitor.asr st'
    = Some (symbol (Subroutine_t symtab (AST.Subroutine_name x) args Source
                      a deftype)).
Proof.
  intros T A I D B Acc E.
  destruct (visit_Declaration_attribute_cases d visit_typed u u' T D)
    as [sa [A' [_ Syms]]].
  rewrite A in A'. injection A' as <-.
  apply in_map_iff in I. destruct I as [s [Ns Is]].
  assert (StdMap.find (AST.Subroutine_name x)
            (SymbolTableVisitor.assgnd_access (SymbolTableUnits.base u'))
          = Some a) as F.
  { destruct (SymbolTableUnits.m_syms d) as [| s0 syms]; [destruct Is |].
    destruct Syms as [_ Syms]. specialize (Syms s Is).
    rewrite Ns in Syms. destruct a; exact Syms. }
  unfold SymbolTableVisitor.visit_Subroutine in E.
  rewrite B in E. cbn [bind] in E.
  destruct (SymbolTableVisitor.convert_arguments _ _ _) as [args | |];
    cbn [bind] in E; try discriminate E.
  destruct (deref _) as [parent_scope | |]; cbn [bind] in E;
    try discriminate E.
  match type of E with
  | bind ?c _ = _ => destruct c as [[] | |]
  end; cbn [bind] in E; try discriminate E.
  injection E as <-. cbn.
  rewrite Acc, F. do 3 eexists. reflexivity.
Qed.

Lemma assigned_access_reaches_subroutine_witness :
  exists symtab args deftype,
    SymbolTableVisitor.asr state_sr_private
    = Some (symbol (Subroutine_t symtab "sr" args Source Private deftype)).
Proof.
  apply (assigned_access_reaches_subroutine private_sr_si subroutine_sr
           Private (fun u => Ok u) (fun s => Ok s) unit_m unit_m_private
           (SymbolTableVisitor.enter_Subroutine subroutine_sr
              (SymbolTableUnits.base unit_m_private))
           state_sr_private);
    try reflexivity.
  left. reflexivity.
Defined.

(* ================================================================== *)
(** * The two forms of [use] *)
(* ================================================================== *)

Lemma visit_Use_all_step (m_name : string) (st : SymbolTableVisitor.state)
    (item : string * symbol_t) :
  imported_by_use (snd item) = true ->
  SymbolTableVisitor.visit_Use_all m_name st item
  = Ok (SymbolTableVisitor.current_scope_set st (symbol_name (snd item))
          (ExternalSymbol_t (symbol_name (snd item)) (snd item) m_name
             (symbol_name (snd item)) (SymbolTableVisitor.dflt_access st))).
Proof.
  unfold SymbolTableVisitor.visit_Use_all.
  destruct (snd item); intros I; try discriminate I; reflexivity.
Qed.

Lemma visit_Use_all_list (m_name : string) (items : list (string * symbol_t))
    (st : SymbolTableVisitor.state) :
  forallb (fun item => imported_by_use (snd item)) items = true ->
  exists st',
    foldM (SymbolTableVisitor.visit_Use_all m_name) items st = Ok st' /\
    SymbolTableVisitor.dflt_access st' = SymbolTableVisitor.dflt_access st /\
    (forall item, In item items ->
       exists target,
         In target (map snd items) /\
         symbol_name target = symbol_name (snd item) /\
         StdMap.find (symbol_name (snd item))
           (scope (SymbolTableVisitor.current_scope st'))
         = Some (ExternalSymbol_t (symbol_name (snd item)) target m_name
                   (symbol_name (snd item))
                   (SymbolTableVisitor.dflt_access st))) /\
    (forall k,
       ~ In k (map (fun item => symbol_name (snd item)) items) ->
       StdMap.find k (scope (SymbolTableVisitor.current_scope st'))
       = StdMap.find k (scope (SymbolTableVisitor.current_scope st))).
Proof.
  revert st.
  induction items as [| item items IH]; intros st A; cbn [foldM].
  - exists st. split; [reflexivity |]. split; [reflexivity |].
    split; [intros item [] | reflexivity].
  - cbn [forallb] in A. apply andb_prop in A. destruct A as [A1 A2].
    rewrite (visit_Use_all_step m_name st item A1). cbn [bind].
    set (n := symbol_name (snd item)) in *.
    set (st1 := SymbolTableVisitor.current_scope_set st n _).
    destruct (IH st1 A2) as [st' [E [D [Bound Other]]]].
    exists st'. split; [exact E |]. split; [exact D |].
    split.
    + intros item' [<- | I'].
      * fold n.
        destruct (in_dec string_dec n
                    (map (fun item => symbol_name (snd item)) items))
          as [In' | Nn].
        -- apply in_map_iff in In'. destruct In' as [item2 [N2 I2]].
           destruct (Bound item2 I2) as [target [It [Nt F]]].
           rewrite N2 in Nt, F.
           exists target. split; [right; exact It |].
           split; [exact Nt | exact F].
        -- exists (snd item). split; [left; reflexivity |].
           split; [reflexivity |].
           rewrite (Other n Nn). subst st1. cbn.
           apply StdMap_find_set_same.
      * destruct (Bound item' I') as [target [It [Nt F]]].
        exists target. split; [right; exact It |].
        split; [exact Nt | exact F].
    + intros k Nk. rewrite Other.
      * subst st1. cbn. apply StdMap_find_set_other.
        intros Ek. apply Nk. left. symmetry. exact Ek.
      * intros Ik. apply Nk. right. exact Ik.
Qed.

Lemma visit_Use_all_Throw (m_name : string)
    (pre : list (string * symbol_t)) (k : string) (sym : symbol_t)
    (post : list (string * symbol_t)) (st : SymbolTableVisitor.state) :
  forallb (fun item => imported_by_use (snd item)) pre = true ->
  imported_by_use sym = false ->
  foldM (SymbolTableVisitor.visit_Use_all m_name)
    (pre ++ (k, sym) :: post)%list st
  = Throw (LFortranException
             ("'" ++ k ++ "' is not supported yet for declaring with use.")).
Proof.
  revert st.
  induction pre as [| item pre IH]; intros st A N; cbn [app foldM].
  - unfold SymbolTableVisitor.visit_Use_all. cbn [fst snd].
    destruct sym; try discriminate N; reflexivity.
  - cbn [forallb] in A. apply andb_prop in A. destruct A as [A1 A2].
    rewrite (visit_Use_all_step m_name st item A1). cbn [bind].
    apply IH; assumption.
Qed.

Lemma visit_Use_only_step loc (msym : string) (m_symtab : SymbolTable)
    (m_name : string) (st st' : SymbolTableVisitor.state)
    (u : AST.UseSymbol_t) :
  SymbolTableVisitor.visit_Use_only loc msym m_symtab m_name st u = Ok st' ->
  StdMap.mem (local_sym u) (scope (SymbolTableVisitor.current_scope st))
  = false /\
  exists e,
    is_ExternalSymbol e = true /\
    st' = SymbolTableVisitor.current_scope_set st (local_sym u) e.
Proof.
  unfold SymbolTableVisitor.visit_Use_only. fold (local_sym u).
  destruct (resolve_symbol m_symtab (AST.m_sym u)) as [t |];
    [| discriminate].
  destruct (StdMap.mem _ _); destruct t; intros E; try discriminate E;
    injection E as <-; (split; [reflexivity |]);
    eexists; (split; [| reflexivity]); reflexivity.
Qed.

Lemma visit_Use_only_list loc (msym : string) (m_symtab : SymbolTable)
    (m_name : string) (symbols : list AST.UseSymbol_t)
    (st st' : SymbolTableVisitor.state) :
  foldM (SymbolTableVisitor.visit_Use_only loc msym m_symtab m_name)
    symbols st = Ok st' ->
  NoDup (map local_sym symbols) /\
  (forall u, In u symbols ->
     StdMap.mem (local_sym u) (scope (SymbolTableVisitor.current_scope st))
     = false /\
     exists e,
       is_ExternalSymbol e = true /\
       StdMap.find (local_sym u)
         (scope (SymbolTableVisitor.current_scope st')) = Some e) /\
  (forall k, ~ In k (map local_sym symbols) ->
     StdMap.find k (scope (SymbolTableVisitor.current_scope st'))
     = StdMap.find k (scope (SymbolTableVisitor.current_scope st))).
Proof.
  revert st.
  induction symbols as [| u symbols IH]; intros st E; cbn [foldM] in E.
  - injection E as <-. split; [constructor |].
    split; [intros u [] | reflexivity].
  - destruct (SymbolTableVisitor.visit_Use_only _ _ _ _ st u)
      as [st1 | |] eqn:V; cbn [bind] in E; try discriminate E.
    destruct (visit_Use_only_step _ _ _ _ _ _ _ V) as [M [e [Ie ->]]].
    destruct (IH _ E) as [Nd [Bound Other]].
    assert (~ In (local_sym u) (map local_sym symbols)) as Nu.
    { intros I. apply in_map_iff in I. destruct I as [u' [Eu Iu]].
      destruct (Bound u' Iu) as [M' _].
      rewrite Eu in M'. unfold StdMap.mem in M'. cbn in M'.
      rewrite StdMap_find_set_same in M'. discriminate M'. }
    split; [cbn; constructor; assumption |].
    split.
    + intros u' [<- | Iu].
      * split; [exact M |]. exists e. split; [exact Ie |].
        rewrite (Other _ Nu). cbn. apply StdMap_find_set_same.
      * destruct (Bound u' Iu) as [M' Ex]. split; [| exact Ex].
        unfold StdMap.mem in *. cbn in M'.
        rewrite StdMap_find_set_other in M'; [exact M' |].
        intros Ek. apply Nu. rewrite <- Ek.
        apply in_map. exact Iu.
    + intros k Nk. rewrite Other.
      * cbn. apply StdMap_find_set_other.
        intros Ek. apply Nk. left. symmetry. exact Ek.
      * intros Ik. apply Nk. right. exact Ik.
Qed.

Section UseForms.
Context `{ModuleLoader}.

(** X17.  [use m] without a list takes every symbol of the scope of
    the module or none: when all of them are subroutines, functions,
    generic procedures and variables, each is entered in the current
    scope under its own name as an external symbol of the module, with
    the default access, over whatever the scope held under that name, and
    the other names of the scope stay; the first symbol of another kind
    (a derived type, or an external symbol the module has imported
    itself) makes the statement fail, with the name it has in the
    module. *)
Theorem visit_Use_all_symbols (x : AST.Use_t)
    (st : SymbolTableVisitor.state) (m_symtab : SymbolTable)
    (m_name : string) (deps : list string) (l : bool) :
  AST.m_symbols x = [] ->
  SymbolTableVisitor.visit_Use_module x st
  = Ok (Module_t m_symtab m_name deps l) ->
  (forallb (fun item => imported_by_use (snd item)) (scope m_symtab) = true ->
   exists st',
     SymbolTableVisitor.visit_Use x st = Ok st' /\
     (forall item, In item (scope m_symtab) ->
        exists target,
          In target (map snd (scope m_symtab)) /\
          symbol_name target = symbol_name (snd item) /\
          StdMap.find (symbol_name (snd item))
            (scope (SymbolTableVisitor.current_scope st'))
          = Some (ExternalSymbol_t (symbol_name (snd item)) target m_name
                    (symbol_name (snd item))
                    (SymbolTableVisitor.dflt_access st))) /\
     (forall k,
        ~ In k (map (fun item => symbol_name (snd item)) (scope m_symtab)) ->
        StdMap.find k (scope (SymbolTableVisitor.current_scope st'))
        = StdMap.find k (scope (SymbolTableVisitor.current_scope st)))) /\
  (forall pre k sym post,
     scope m_symtab = (pre ++ (k, sym) :: post)%list ->
     forallb (fun item => imported_by_use (snd item)) pre = true ->
     imported_by_use sym = false ->
     SymbolTableVisitor.visit_Use x st
     = Throw (LFortranException
                ("'" ++ k
                 ++ "' is not supported yet for declaring with use."))).
Proof.
  intros S M.
  unfold SymbolTableVisitor.visit_Use.
  rewrite visit_Use_module_dependencies, M. cbn [bind]. rewrite S.
  split.
  - intros A.
    destruct (visit_Use_all_list m_name (scope m_symtab)
                (SymbolTableVisitor.with_dependencies st
                   (push_back_if_absent
                      (SymbolTableVisitor.current_module_dependencies st)
                      (AST.m_module x))) A)
      as [st' [E [_ [Bound Other]]]].
    exists st'. split; [exact E |]. split; [exact Bound | exact Other].
  - intros pre k sym post Sc A N. rewrite Sc.
    apply visit_Use_all_Throw; assumption.
Qed.

(** X18.  [use m, only: ...] never replaces a symbol: when it is
    accepted, the local names of its list are pairwise different, none
    of them was held by the current scope, each is bound to an external
    symbol afterwards, and the other names of the scope stay. *)
Theorem visit_Use_only_fresh (x : AST.Use_t)
    (st st' : SymbolTableVisitor.state) :
  AST.m_symbols x <> [] ->
  SymbolTableVisitor.visit_Use x st = Ok st' ->
  NoDup (map local_sym (AST.m_symbols x)) /\
  (forall u, In u (AST.m_symbols x) ->
     StdMap.mem (local_sym u) (scope (SymbolTableVisitor.current_scope st))
     = false /\
     exists e,
       is_ExternalSymbol e = true /\
       StdMap.find (local_sym u)
         (scope (SymbolTableVisitor.current_scope st')) = Some e) /\
  (forall k, ~ In k (map local_sym (AST.m_symbols x)) ->
     StdMap.find k (scope (SymbolTableVisitor.current_scope st'))
     = StdMap.find k (scope (SymbolTableVisitor.current_scope st))).
Proof.
  intros S E. unfold SymbolTableVisitor.visit_Use in E.
  destruct (SymbolTableVisitor.visit_Use_module x _) as [t | |];
    cbn [bind] in E; try discriminate E.
  destruct t; try discriminate E.
  destruct (AST.m_symbols x) as [| u us] eqn:Sy; [destruct (S eq_refl) |].
  exact (visit_Use_only_list _ _ _ _ _ _ _ E).
Qed.

End UseForms.

Lemma visit_Use_all_symbols_witness :
  exists st',
    SymbolTableVisitor.visit_Use use_m3 state_use_m3 = Ok st' /\
    (forall item, In item [("si", sub_integer8); ("sr", sub_real)] ->
       exists target,
         In target [sub_integer8; sub_real] /\
         symbol_name target = symbol_name (snd item) /\
         StdMap.find (symbol_name (snd item))
           (scope (SymbolTableVisitor.current_scope st'))
         = Some (ExternalSymbol_t (symbol_name (snd item)) target "m3"
                   (symbol_name (snd item)) Public)) /\
    (forall k,
       ~ In k ["si"; "sr"] ->
       StdMap.find k (scope (SymbolTableVisitor.current_scope st'))
       = StdMap.find k (scope (SymbolTableVisitor.current_scope state_use_m3))).
Proof.
  apply (proj1 (@visit_Use_all_symbols loader_intrinsic_array use_m3
                  state_use_m3
                  (mk_SymbolTable [("si", sub_integer8); ("sr", sub_real)]
                     None 11)
                  "m3" [] false eq_refl eq_refl)).
  reflexivity.
Defined.

Lemma visit_Use_only_fresh_witness :
  NoDup (map local_sym (AST.m_symbols use_m1_only_r)) /\
  (forall u, In u (AST.m_symbols use_m1_only_r) ->
     StdMap.mem (local_sym u)
       (scope (SymbolTableVisitor.current_scope state_use)) = false /\
     exists e,
       is_ExternalSymbol e = true /\
       StdMap.find (local_sym u)
         (scope (SymbolTableVisitor.current_scope state_used)) = Some e) /\
  (forall k, ~ In k (map local_sym (AST.m_symbols use_m1_only_r)) ->
     StdMap.find k (scope (SymbolTableVisitor.current_scope state_used))
     = StdMap.find k (scope (SymbolTableVisitor.current_scope state_use))).
Proof.
  apply (@visit_Use_only_fresh loader_intrinsic_array use_m1_only_r
           state_use state_used).
  - discriminate.
  - reflexivity.
Defined.

(* ================================================================== *)
(** * Expressions in pass 2 *)
(* ================================================================== *)

Section ExpressionsLowered.
Context `{KindOf} `{Libm}.

Lemma visit_BinOp_typed loc op left right a :
  visit_BinOp loc op left right = Ok a ->
  exists t, expr_type a = Some t.
Proof.
  unfold visit_BinOp. intros E.
  destruct (expr_type left); cbn [deref bind] in E; try discriminate E.
  destruct (expr_type right); cbn [deref bind] in E; try discriminate E.
  destruct (cast_candidate _ _ _ _ _) as [[[l' r'] dest] | |];
    cbn [bind] in E; try discriminate E.
  match type of E with
  | bind ?c _ = _ => destruct c as [v | |]; cbn [bind] in E;
                     try discriminate E
  end.
  injection E as <-. eexists. reflexivity.
Qed.

Lemma visit_Compare_typed loc op left right a :
  visit_Compare loc op left right = Ok a ->
  exists t, expr_type a = Some t.
Proof.
  unfold visit_Compare. intros E.
  destruct (expr_type left); cbn [deref bind] in E; try discriminate E.
  destruct (expr_type right); cbn [deref bind] in E; try discriminate E.
  match type of E with
  | bind ?c _ = _ => destruct c as [[[l' r'] dest] | |]; cbn [bind] in E;
                     try discriminate E
  end.
  injection E as <-. eexists. reflexivity.
Qed.

Lemma visit_BoolOp_typed loc op left right a :
  visit_BoolOp loc op left right = Ok a ->
  exists t, expr_type a = Some t.
Proof.
  unfold visit_BoolOp. intros E.
  destruct (expr_type left); cbn [deref bind] in E; try discriminate E.
  destruct (expr_type right); cbn [deref bind] in E; try discriminate E.
  destruct (cast_candidate _ _ _ _ _) as [[[l' r'] dest] | |];
    cbn [bind] in E; try discriminate E.
  injection E as <-. eexists. reflexivity.
Qed.

Lemma visit_expr_returns (x : AST.expr_t) (st st' : BodyVisitor.state) :
  BodyVisitor.visit_expr x st = Ok st' ->
  exists e,
    BodyVisitor.tmp st' = Some (expr e) /\
    BodyVisitor.current_scope st' = BodyVisitor.current_scope st /\
    BodyVisitor.current_module st' = BodyVisitor.current_module st /\
    (names_are_variables (BodyVisitor.current_scope st) x = true ->
     exists t, expr_type e = Some t).
Proof.
  revert st st'.
  assert (forall (l r : AST.expr_t)
            (op : expr_t -> expr_t -> outcome expr_t),
            (forall st st',
               BodyVisitor.visit_expr l st = Ok st' ->
               exists e,
                 BodyVisitor.tmp st' = Some (expr e) /\
                 BodyVisitor.current_scope st' = BodyVisitor.current_scope st /\
                 BodyVisitor.current_module st'
                 = BodyVisitor.current_module st /\
                 (names_are_variables (BodyVisitor.current_scope st) l = true ->
                  exists t, expr_type e = Some t)) ->
            (forall st st',
               BodyVisitor.visit_expr r st = Ok st' ->
               exists e,
                 BodyVisitor.tmp st' = Some (expr e) /\
                 BodyVisitor.current_scope st' = BodyVisitor.current_scope st /\
                 BodyVisitor.current_module st'
                 = BodyVisitor.current_module st /\
                 (names_are_variables (BodyVisitor.current_scope st) r = true ->
                  exists t, expr_type e = Some t)) ->
            (forall e1 e2 a, op e1 e2 = Ok a -> exists t, expr_type a = Some t) ->
            forall st st',
              (s1 <- BodyVisitor.visit_expr l st ;;
               left <- BodyVisitor.EXPR (BodyVisitor.tmp s1) ;;
               s2 <- BodyVisitor.visit_expr r s1 ;;
               right <- BodyVisitor.EXPR (BodyVisitor.tmp s2) ;;
               a <- op left right ;;
               Ok (BodyVisitor.set_tmp s2 (Some (expr a)))) = Ok st' ->
              exists e,
                BodyVisitor.tmp st' = Some (expr e) /\
                BodyVisitor.current_scope st' = BodyVisitor.current_scope st /\
                BodyVisitor.current_module st' = BodyVisitor.current_module st /\
                exists t, expr_type e = Some t) as Operator.
  { intros l r op IHl IHr Typed st st' E.
    destruct (BodyVisitor.visit_expr l st) as [s1 | |] eqn:El;
      cbn [bind] in E; try discriminate E.
    destruct (IHl _ _ El) as (e1 & T1 & S1 & M1 & _).
    rewrite T1 in E. cbn [BodyVisitor.EXPR bind] in E.
    destruct (BodyVisitor.visit_expr r s1) as [s2 | |] eqn:Er;
      cbn [bind] in E; try discriminate E.
    destruct (IHr _ _ Er) as (e2 & T2 & S2 & M2 & _).
    rewrite T2 in E. cbn [BodyVisitor.EXPR bind] in E.
    destruct (op e1 e2) as [a | |] eqn:Ea; cbn [bind] in E;
      try discriminate E.
    injection E as <-. exists a. cbn.
    split; [reflexivity |]. split; [congruence |]. split; [congruence |].
    exact (Typed _ _ _ Ea). }
  induction x as [loc l IHl op r IHr | loc l IHl op r IHr
                 | loc l IHl op r IHr | loc n | loc id | loc e IHe];
    intros st st' E; cbn [BodyVisitor.visit_expr] in E.
  - destruct (Operator l r (visit_BoolOp loc op) IHl IHr
                (visit_BoolOp_typed loc op) st st' E)
      as (a & T & S & M & Ty).
    exists a. repeat split; try assumption. intros _. exact Ty.
  - destruct (Operator l r (visit_BinOp loc op) IHl IHr
                (visit_BinOp_typed loc op) st st' E)
      as (a & T & S & M & Ty).
    exists a. repeat split; try assumption. intros _. exact Ty.
  - destruct (Operator l r (visit_Compare loc op) IHl IHr
                (visit_Compare_typed loc op) st st' E)
      as (a & T & S & M & Ty).
    exists a. repeat split; try assumption. intros _. exact Ty.
  - destruct (BodyVisitor.is_int_ptr n); [discriminate E |].
    injection E as <-. eexists. cbn. repeat split. eexists. reflexivity.
  - unfold BodyVisitor.resolve_variable in E.
    destruct (resolve_symbol (BodyVisitor.current_scope st) id) as [v |] eqn:R;
      cbn [bind] in E; [| discriminate E].
    injection E as <-. exists (Var_t v). cbn. repeat split.
    rewrite R. unfold is_variable.
    destruct (symbol_get_past_external v); try discriminate.
    eexists. reflexivity.
  - exact (IHe _ _ E).
Qed.

(** X19.  An expression made of integer literals, names without member
    part, parentheses and binary, comparison and boolean operators, once
    lowered, is left in [tmp] as an expression, and lowering it changes
    neither the current scope nor the current module.  The expression
    has a type provided every name of it that the scope resolves is the
    name of a variable.  The proviso is needed: a name is lowered to a
    reference to whatever symbol it resolves to, and the reference to a
    symbol that is not a variable has no type ([expr_type] down-casts
    the symbol to a variable, and fails). *)
Theorem visit_expr_lowered :
  (forall (x : AST.expr_t) (st st' : BodyVisitor.state),
     BodyVisitor.visit_expr x st = Ok st' ->
     exists e,
       BodyVisitor.tmp st' = Some (expr e) /\
       BodyVisitor.current_scope st' = BodyVisitor.current_scope st /\
       BodyVisitor.current_module st' = BodyVisitor.current_module st) /\
  (forall (x : AST.expr_t) (st st' : BodyVisitor.state),
     names_are_variables (BodyVisitor.current_scope st) x = true ->
     BodyVisitor.visit_expr x st = Ok st' ->
     lowered st st') /\
  (forall loc id (st : BodyVisitor.state) v,
     resolve_symbol (BodyVisitor.current_scope st) id = Some v ->
     is_variable v = false ->
     BodyVisitor.visit_expr (AST.Name_t loc id) st
     = Ok (BodyVisitor.set_tmp st (Some (expr (Var_t v)))) /\
     expr_type (Var_t v) = None).
Proof.
  split; [| split].
  - intros x st st' E.
    destruct (visit_expr_returns x st st' E) as (e & T & S & M & _).
    exists e. repeat split; assumption.
  - intros x st st' N E.
    destruct (visit_expr_returns x st st' E) as (e & T & S & M & Ty).
    destruct (Ty N) as [t Te].
    exists e, t. repeat split; assumption.
  - intros loc id st v R V.
    cbn [BodyVisitor.visit_expr]. unfold BodyVisitor.resolve_variable.
    rewrite R. cbn [bind]. split; [reflexivity |].
    cbn. unfold is_variable in V.
    destruct (symbol_get_past_external v); try reflexivity. discriminate V.
Qed.

End ExpressionsLowered.

Lemma visit_expr_lowered_witness :
  lowered state_p
    (BodyVisitor.set_tmp state_p
       (Some (expr (BinOp_t
          (BinOp_t (Var_t (variable "i" integer4)) Div
             (ConstantInteger_t 2 integer4) integer4 None)
          Add (ConstantInteger_t 3 integer4) integer4 None)))).
Proof.
  apply (proj1 (proj2 (@visit_expr_lowered kind_of_node libm_exact))
           half_i_plus_3 state_p);
    reflexivity.
Defined.

(* ================================================================== *)
(** * Bodies and implicit deallocation *)
(* ================================================================== *)

Lemma create_implicit_deallocate_well_formed (st : BodyVisitor.state)
    (d : BodyUnits.body_stmt_t) :
  BodyUnits.create_implicit_deallocate st = Some d ->
  well_formed_deallocate d.
Proof.
  unfold BodyUnits.create_implicit_deallocate.
  set (del_syms := flat_map _ _).
  assert (Forall (fun v => is_allocatable v = true) del_syms) as A.
  { subst del_syms.
    induction (scope (BodyVisitor.current_scope st)) as [| [k v] l IH];
      cbn [flat_map]; [constructor |].
    apply Forall_app. split; [| exact IH].
    cbn [snd]. destruct v; try constructor.
    destruct m_storage, m_intent; repeat constructor. }
  destruct del_syms as [| v l]; [discriminate |].
  intros [= <-]. split; [discriminate | exact A].
Qed.

Lemma create_implicit_deallocate_subrout_call_from_allocatable
    (args sub_args : list expr_t) (i : nat) (del_syms : list symbol_t) :
  BodyUnits.create_implicit_deallocate_subrout_call_from i args sub_args
  = Ok del_syms ->
  Forall (fun v => is_allocatable v = true) del_syms.
Proof.
  revert i del_syms.
  induction args as [| a args IH]; intros i del_syms E;
    cbn [BodyUnits.create_implicit_deallocate_subrout_call_from] in E.
  - injection E as <-. constructor.
  - match type of E with
    | bind ?c _ = _ => destruct c as [mine | |] eqn:M
    end; cbn [bind] in E; try discriminate E.
    destruct (BodyUnits.create_implicit_deallocate_subrout_call_from
                (S i) args sub_args) as [rest | |] eqn:R;
      cbn [bind] in E; try discriminate E.
    injection E as <-. apply Forall_app. split; [| exact (IH _ _ R)].
    destruct a; try (injection M as <-; constructor).
    destruct (symbol_get_past_external m_v) eqn:P;
      try (injection M as <-; constructor).
    destruct (nth_error sub_args i) as [orig_arg |];
      cbn [deref bind] in M; try discriminate M.
    destruct orig_arg; try discriminate M.
    destruct (symbol_get_past_external m_v0); try discriminate M.
    destruct m_storage, m_intent0; injection M as <-; constructor;
      try constructor.
    unfold is_allocatable. rewrite P. reflexivity.
Qed.

Lemma create_implicit_deallocate_subrout_call_well_formed (x : stmt_t)
    (d : BodyUnits.body_stmt_t) :
  BodyUnits.create_implicit_deallocate_subrout_call x = Ok (Some d) ->
  well_formed_deallocate d.
Proof.
  unfold BodyUnits.create_implicit_deallocate_subrout_call.
  destruct x; try discriminate.
  destruct (option_map _ _) as [subrout_sym |]; cbn [deref bind];
    try discriminate.
  destruct subrout_sym; try discriminate.
  destruct (BodyUnits.create_implicit_deallocate_subrout_call_from _ _ _)
    as [del_syms | |] eqn:F; cbn [bind]; try discriminate.
  destruct del_syms as [| v l]; [discriminate |].
  intros [= <-]. split; [discriminate |].
  exact (create_implicit_deallocate_subrout_call_from_allocatable _ _ _ _ F).
Qed.

Lemma lowered_statements_app (a b : list BodyUnits.body_stmt_t) :
  lowered_statements (a ++ b)
  = (lowered_statements a ++ lowered_statements b)%list.
Proof. unfold lowered_statements. apply flat_map_app. Qed.

Lemma create_implicit_deallocate_locals (st : BodyVisitor.state) :
  BodyUnits.create_implicit_deallocate st
  = match allocatable_locals (BodyVisitor.current_scope st) with
    | [] => None
    | vars => Some (BodyUnits.ImplicitDeallocate_t vars)
    end.
Proof.
  unfold BodyUnits.create_implicit_deallocate, allocatable_locals.
  match goal with
  | |- match ?a with _ => _ end = match ?b with _ => _ end =>
      assert (a = b) as ->; [| destruct b; reflexivity]
  end.
  induction (scope (BodyVisitor.current_scope st)) as [| [k v] l IH];
    [reflexivity |].
  cbn [flat_map map filter snd]. rewrite IH.
  destruct v; try reflexivity.
  destruct m_storage, m_intent; reflexivity.
Qed.

Section BodyLoop.
Variable AST_stmt_t : Type.
Variable visit_stmt :
  AST_stmt_t -> BodyVisitor.state -> outcome BodyVisitor.state.

Lemma visit_body_stmts_invariant (m_body : list AST_stmt_t)
    (body body' : list BodyUnits.body_stmt_t)
    (st st' : BodyVisitor.state) :
  BodyUnits.visit_body_stmts AST_stmt_t visit_stmt m_body body st = Ok (body', st') ->
  Forall well_formed_deallocate body ->
  Forall well_formed_deallocate body' /\
  (List.length (lowered_statements body')
   <= List.length (lowered_statements body) + List.length m_body)%nat.
Proof.
  revert body st.
  induction m_body as [| s m_body IH]; intros body st E W;
    cbn [BodyUnits.visit_body_stmts] in E.
  - injection E as <- _. split; [exact W | cbn; lia].
  - destruct (visit_stmt s st) as [s1 | |]; cbn [bind] in E;
      try discriminate E.
    destruct (BodyVisitor.tmp s1) as [[e | tmp_stmt | sy] |];
      try discriminate E.
    + match type of E with
      | bind ?c _ = _ => destruct c as [body1 | |] eqn:B
      end; cbn [bind] in E; try discriminate E.
      assert (Forall well_formed_deallocate body1 /\
              lowered_statements body1 = lowered_statements body) as [W1 L1].
      { destruct tmp_stmt; try (injection B as <-; split; [exact W |];
                                reflexivity).
        destruct (BodyUnits.create_implicit_deallocate_subrout_call _)
          as [[d |] | |] eqn:C; cbn [bind] in B; try discriminate B;
          injection B as <-.
        - split.
          + apply Forall_app. split; [exact W |].
            constructor; [| constructor].
            exact (create_implicit_deallocate_subrout_call_well_formed _ _ C).
          + rewrite lowered_statements_app.
            pose proof (create_implicit_deallocate_subrout_call_well_formed
                          _ _ C) as Wd.
            unfold BodyUnits.create_implicit_deallocate_subrout_call in C.
            destruct (option_map _ _) as [ss |]; cbn [deref bind] in C;
              try discriminate C.
            destruct ss; try discriminate C.
            destruct (BodyUnits.create_implicit_deallocate_subrout_call_from
                        _ _ _) as [[| v l] | |]; cbn [bind] in C;
              try discriminate C.
            injection C as <-. cbn. apply app_nil_r.
        - split; [exact W | reflexivity]. }
      destruct (IH _ _ E) as [W' L'].
      { apply Forall_app. split; [exact W1 |].
        constructor; [exact I | constructor]. }
      split; [exact W' |].
      rewrite lowered_statements_app, L1, length_app in L'. cbn in L'.
      cbn [List.length]. lia.
    + destruct (IH _ _ E W) as [W' L'].
      split; [exact W' |]. cbn [List.length]. lia.
Qed.

(** X20.  In the body of a program, a subroutine or a function, every
    implicit deallocation lists at least one symbol and only symbols
    that are allocatable variables (directly or behind an external
    symbol); the body holds at most one lowered statement for each
    statement of the source; and the body is what the loop over the
    statements gives, followed, when the scope holds local allocatable
    variables once the statements are lowered, by the implicit
    deallocation that lists exactly these variables, in the order of
    their names, and by nothing when the scope holds none. *)
Theorem visit_body_deallocates (m_body : list AST_stmt_t)
    (st st' : BodyVisitor.state) (body : list BodyUnits.body_stmt_t) :
  BodyUnits.visit_body AST_stmt_t visit_stmt m_body st = Ok (body, st') ->
  Forall well_formed_deallocate body /\
  (List.length (lowered_statements body) <= List.length m_body)%nat /\
  exists body0,
    BodyUnits.visit_body_stmts AST_stmt_t visit_stmt m_body [] st
    = Ok (body0, st') /\
    body
    = (body0
       ++ final_deallocate
            (allocatable_locals (BodyVisitor.current_scope st')))%list.
Proof.
  intros E. unfold BodyUnits.visit_body in E.
  destruct (BodyUnits.visit_body_stmts AST_stmt_t visit_stmt m_body [] st)
    as [[body0 s1] | |] eqn:L; cbn [bind] in E; try discriminate E.
  destruct (visit_body_stmts_invariant _ _ _ _ _ L (Forall_nil _))
    as [W Len].
  cbn in Len.
  pose proof (create_implicit_deallocate_locals s1) as C.
  destruct (BodyUnits.create_implicit_deallocate s1) as [d |] eqn:D;
    injection E as <- <-.
  - split; [| split].
    + apply Forall_app. split; [exact W |].
      constructor; [| constructor].
      exact (create_implicit_deallocate_well_formed _ _ D).
    + rewrite lowered_statements_app.
      destruct (allocatable_locals (BodyVisitor.current_scope s1));
        [discriminate C |].
      injection C as ->. cbn. rewrite app_nil_r. exact Len.
    + exists body0. split; [reflexivity |].
      destruct (allocatable_locals (BodyVisitor.current_scope s1));
        [discriminate C |].
      injection C as ->. reflexivity.
  - split; [exact W |]. split; [exact Len |].
    exists body0. split; [reflexivity |].
    destruct (allocatable_locals (BodyVisitor.current_scope s1));
      [| discriminate C].
    cbn. rewrite app_nil_r. reflexivity.
Qed.

End BodyLoop.

Lemma create_implicit_deallocate_subrout_call_from_defined
    (args sub_args : list expr_t) (i : nat) :
  forallb is_variable_reference sub_args = true ->
  (i + List.length args <= List.length sub_args)%nat ->
  exists del_syms,
    BodyUnits.create_implicit_deallocate_subrout_call_from i args sub_args
    = Ok del_syms.
Proof.
  intros F. revert i.
  induction args as [| a args IH]; intros i L;
    cbn [BodyUnits.create_implicit_deallocate_subrout_call_from].
  - eexists. reflexivity.
  - cbn [List.length] in L.
    destruct (IH (S i)) as [rest R]; [lia |]. rewrite R.
    assert (exists f, nth_error sub_args i = Some f /\
                      is_variable_reference f = true) as [f [N V]].
    { destruct (nth_error sub_args i) as [f |] eqn:N.
      - exists f. split; [reflexivity |].
        rewrite forallb_forall in F. apply F.
        eapply nth_error_In. exact N.
      - apply nth_error_None in N. lia. }
    rewrite N. cbn [deref].
    destruct f as [| | | | | | | | | | ov | |]; try discriminate V.
    cbn in V. unfold is_variable in V.
    destruct a; cbn [bind]; try (eexists; reflexivity).
    destruct (symbol_get_past_external m_v); cbn [bind];
      try (eexists; reflexivity).
    destruct (symbol_get_past_external ov); try discriminate V.
    destruct m_storage, m_intent0; cbn [bind]; eexists; reflexivity.
Qed.

Lemma create_implicit_deallocate_subrout_call_from_Undefined
    (pre : list expr_t) (v : symbol_t) (post sub_args : list expr_t)
    (i : nat) :
  (List.length sub_args <= i + List.length pre)%nat ->
  is_variable v = true ->
  BodyUnits.create_implicit_deallocate_subrout_call_from i
    (pre ++ Var_t v :: post)%list sub_args
  = Undefined.
Proof.
  revert i.
  induction pre as [| p pre IH]; intros i L V;
    cbn [app BodyUnits.create_implicit_deallocate_subrout_call_from].
  - unfold is_variable in V.
    destruct (symbol_get_past_external v); try discriminate V.
    cbn [List.length] in L.
    assert (nth_error sub_args i = None) as ->
      by (apply nth_error_None; lia).
    reflexivity.
  - cbn [List.length] in L.
    rewrite (IH (S i)); [| lia | exact V].
    destruct p; cbn [bind]; try reflexivity.
    destruct (symbol_get_past_external m_v); cbn [bind]; try reflexivity.
    destruct (nth_error sub_args i) as [orig_arg |]; cbn [deref bind];
      try reflexivity.
    destruct orig_arg; try reflexivity.
    destruct (symbol_get_past_external m_v0); try reflexivity.
    destruct m_storage, m_intent0; reflexivity.
Qed.

(** X21.  The implicit deallocation before a call reads the formal
    argument at the position of every actual argument that is a reference
    to a variable.  For a subroutine whose formal arguments are
    references to variables, it has a result when the call has no more
    arguments than the subroutine, and its outcome is undefined (a read
    past the end of the formal arguments) when an argument beyond the
    last formal one is a reference to a variable. *)
Theorem create_implicit_deallocate_subrout_call_arity
    (m_name original_name : symbol_t) (args : list expr_t)
    (symtab : SymbolTable) (name : string) (sub_args : list expr_t)
    (abi : abiType) (access : accessType) (deftype : deftypeType) :
  symbol_get_past_external m_name
  = Subroutine_t symtab name sub_args abi access deftype ->
  forallb is_variable_reference sub_args = true ->
  let x := SubroutineCall_t (Some m_name) (Some original_name) args in
  ((List.length args <= List.length sub_args)%nat ->
   exists r,
     BodyUnits.create_implicit_deallocate_subrout_call x = Ok r /\
     forall d, r = Some d -> well_formed_deallocate d) /\
  (forall pre v post,
     args = (pre ++ Var_t v :: post)%list ->
     (List.length sub_args <= List.length pre)%nat ->
     is_variable v = true ->
     BodyUnits.create_implicit_deallocate_subrout_call x = Undefined).
Proof.
  intros P F x. subst x.
  unfold BodyUnits.create_implicit_deallocate_subrout_call.
  cbn [option_map deref bind]. rewrite P.
  split.
  - intros L.
    destruct (create_implicit_deallocate_subrout_call_from_defined
                args sub_args 0 F L) as [del_syms E].
    rewrite E. cbn [bind].
    pose proof (create_implicit_deallocate_subrout_call_from_allocatable
                  _ _ _ _ E) as A.
    destruct del_syms as [| v l]; eexists; (split; [reflexivity |]).
    + intros d D. discriminate D.
    + intros d [= <-]. split; [discriminate | exact A].
  - intros pre v post -> L V.
    rewrite (create_implicit_deallocate_subrout_call_from_Undefined
               pre v post sub_args 0 L V).
    reflexivity.
Qed.

Lemma visit_body_deallocates_witness :
  Forall well_formed_deallocate body_alloc /\
  (List.length (lowered_statements body_alloc) <= 1)%nat /\
  exists body0,
    BodyUnits.visit_body_stmts AST.SubroutineCall_t
      (BodyVisitor.visit_SubroutineCall BodyVisitor.visit_expr no_member_call)
      [call_g_1] [] state_alloc
    = Ok (body0, state_alloc_called) /\
    body_alloc
    = (body0
       ++ final_deallocate
            (allocatable_locals
               (BodyVisitor.current_scope state_alloc_called)))%list.
Proof.
  exact (visit_body_deallocates AST.SubroutineCall_t
           (BodyVisitor.visit_SubroutineCall BodyVisitor.visit_expr
              no_member_call)
           [call_g_1] state_alloc state_alloc_called body_alloc eq_refl).
Defined.

Lemma create_implicit_deallocate_subrout_call_arity_witness :
  BodyUnits.create_implicit_deallocate_subrout_call
    (SubroutineCall_t (Some sub_real) (Some sub_real)
       [Var_t (variable "a" real4); Var_t (variable "c" character4)])
  = Undefined.
Proof.
  apply (proj2 (create_implicit_deallocate_subrout_call_arity
                  sub_real sub_real
                  [Var_t (variable "a" real4);
                   Var_t (variable "c" character4)]
                  (mk_SymbolTable [("x", variable "x" real4)] None 2) "sr"
                  [Var_t (variable "x" real4)] Source Public Implementation
                  eq_refl eq_refl)
           [Var_t (variable "a" real4)] (variable "c" character4) []).
  - reflexivity.
  - apply le_n.
  - reflexivity.
Defined.

(* ================================================================== *)
(** * Deallocation and array constructors *)
(* ================================================================== *)

Section DeallocateAndArrays.
Variable visit_expr :
  AST.expr_t -> BodyVisitor.state -> outcome BodyVisitor.state.
Variable expr_loc : expr_t -> Location.

Lemma visit_Deallocate_args_invariant (m_args : list AST.expr_t)
    (arg_vec vars : list symbol_t) (st st' : BodyVisitor.state) :
  BodyUnits.visit_Deallocate_args visit_expr expr_loc m_args arg_vec st
  = Ok (vars, st') ->
  Forall (fun v => allocatable_variable v = true) arg_vec ->
  Forall (fun v => allocatable_variable v = true) vars /\
  List.length vars = (List.length arg_vec + List.length m_args)%nat.
Proof.
  revert arg_vec st.
  induction m_args as [| a m_args IH]; intros arg_vec st E A;
    cbn [BodyUnits.visit_Deallocate_args] in E.
  - injection E as <- _. split; [exact A | cbn; lia].
  - destruct (visit_expr a st) as [s1 | |]; cbn [bind] in E;
      try discriminate E.
    destruct (BodyVisitor.EXPR _) as [tmp_expr | |]; cbn [bind] in E;
      try discriminate E.
    destruct tmp_expr as [| | | | | | | | | | tmp_sym | |];
      try discriminate E.
    destruct (symbol_get_past_external tmp_sym); try discriminate E.
    destruct tmp_sym; try discriminate E.
    destruct m_storage0; try discriminate E.
    destruct (IH _ _ E) as [A' L'].
    + apply Forall_app. split; [exact A |].
      constructor; [reflexivity | constructor].
    + split; [exact A' |].
      rewrite length_app in L'. cbn [List.length] in *. lia.
Qed.

(** X22.  A [deallocate] statement that is lowered lists one symbol for
    each of its arguments, and each of them is itself a variable with
    allocatable storage.  An argument that lowers to a reference to an
    external symbol of a variable (a variable of a module in use) passes
    the test that looks behind the external symbol and is then read as a
    variable itself: the outcome is undefined. *)
Theorem visit_Deallocate_allocatable (m_args : list AST.expr_t)
    (st : BodyVisitor.state) :
  (forall node st',
     BodyUnits.visit_Deallocate visit_expr expr_loc m_args st
     = Ok (node, st') ->
     exists vars,
       node = BodyUnits.ExplicitDeallocate_t vars /\
       List.length vars = List.length m_args /\
       Forall (fun v => allocatable_variable v = true) vars) /\
  (forall a rest st1 name ext module_name original_name access,
     m_args = a :: rest ->
     visit_expr a st = Ok st1 ->
     BodyVisitor.tmp st1
     = Some (expr (Var_t (ExternalSymbol_t name ext module_name
                            original_name access))) ->
     is_variable ext = true ->
     symbol_get_past_external ext = ext ->
     BodyUnits.visit_Deallocate visit_expr expr_loc m_args st = Undefined).
Proof.
  split.
  - intros node st' E. unfold BodyUnits.visit_Deallocate in E.
    destruct (BodyUnits.visit_Deallocate_args _ _ _ _ _)
      as [[vars s1] | |] eqn:V; cbn [bind] in E; try discriminate E.
    injection E as <- <-.
    destruct (visit_Deallocate_args_invariant _ _ _ _ _ V (Forall_nil _))
      as [A L].
    exists vars. split; [reflexivity |]. split; [exact L | exact A].
  - intros a rest st1 name ext module_name original_name access -> V T Iv Pe.
    unfold BodyUnits.visit_Deallocate.
    cbn [BodyUnits.visit_Deallocate_args].
    rewrite V. cbn [bind]. rewrite T. cbn [BodyVisitor.EXPR bind].
    cbn [symbol_get_past_external].
    unfold is_variable in Iv. rewrite Pe in Iv.
    destruct ext; try discriminate Iv. reflexivity.
Qed.

Lemma visit_ArrayInitializer_args_invariant loc (m_args : list AST.expr_t)
    (type type' : option ttype_t) (body body' : list expr_t)
    (st st' : BodyVisitor.state) :
  BodyUnits.visit_ArrayInitializer_args visit_expr loc m_args type body st
  = Ok (body', type', st') ->
  (type = None -> Forall (fun e => expr_type e = None) body) ->
  (forall t, type = Some t -> Forall (has_tag_of t) body) ->
  match body with
  | [] => type = None
  | e0 :: _ => expr_type e0 = None \/ type = expr_type e0
  end ->
  List.length body' = (List.length body + List.length m_args)%nat /\
  (forall t, type' = Some t -> Forall (has_tag_of t) body') /\
  match body' with
  | [] => type' = None
  | e0 :: _ => expr_type e0 = None \/ type' = expr_type e0
  end.
Proof.
  revert type body st.
  induction m_args as [| a m_args IH]; intros type body st E U T F;
    cbn [BodyUnits.visit_ArrayInitializer_args] in E.
  - injection E as <- <- _. split; [cbn; lia |]. split; assumption.
  - destruct (visit_expr a st) as [s1 | |]; cbn [bind] in E;
      try discriminate E.
    destruct (BodyVisitor.EXPR _) as [e | |]; cbn [bind] in E;
      try discriminate E.
    match type of E with
    | bind ?c _ = _ => destruct c as [type1 | |] eqn:Ty
    end; cbn [bind] in E; try discriminate E.
    destruct (IH _ _ _ E) as [L [T' F']].
    + intros ->. destruct type as [t |].
      * destruct (expr_type e); cbn [deref bind] in Ty; try discriminate Ty.
        destruct (negb _); discriminate Ty.
      * injection Ty as Ty. apply Forall_app.
        split; [apply U; reflexivity |].
        constructor; [exact Ty | constructor].
    + intros t ->. destruct type as [t0 |].
      * destruct (expr_type e) as [t' |] eqn:Te; cbn [deref bind] in Ty;
          try discriminate Ty.
        destruct (ttypeType_eqb (ASR.type t') (ASR.type t0)) eqn:Q;
          cbn [negb] in Ty; try discriminate Ty.
        injection Ty as <-. apply Forall_app.
        split; [apply T; reflexivity |].
        constructor; [| constructor].
        intros t'' Te'. rewrite Te in Te'. injection Te' as <-.
        apply ttypeType_eqb_eq. exact Q.
      * injection Ty as Ty. apply Forall_app. split.
        -- eapply Forall_impl; [| apply U; reflexivity].
           intros e' N t' Te'. rewrite N in Te'. discriminate Te'.
        -- constructor; [| constructor].
           intros t' Te'. rewrite Ty in Te'. injection Te' as <-.
           reflexivity.
    + destruct body as [| e0 body]; cbn [app].
      * subst type. injection Ty as <-. right. reflexivity.
      * destruct F as [N | Eq]; [left; exact N |].
        destruct type as [t0 |].
        -- destruct (expr_type e); cbn [deref bind] in Ty;
             try discriminate Ty.
           destruct (negb _); try discriminate Ty.
           injection Ty as <-. right. exact Eq.
        -- left. symmetry. exact Eq.
    + split; [| split; assumption].
      rewrite length_app in L. cbn [List.length] in *. lia.
Qed.

(** X23.  An array constructor that is lowered has one element for each
    expression written; its type is the type of its first element, with
    the kind of that element, and every element has the tag of that type.
    The elements are compared by tag only and are never cast: two
    leading elements whose types differ in the tag are rejected with
    "Type mismatch in array initializer".  The type of an empty
    constructor is the null pointer. *)
Theorem visit_ArrayInitializer_elements loc (m_args : list AST.expr_t)
    (st : BodyVisitor.state) :
  (forall body type st',
     BodyUnits.visit_ArrayInitializer visit_expr loc m_args st
     = Ok (body, type, st') ->
     List.length body = List.length m_args /\
     (forall t, type = Some t -> Forall (has_tag_of t) body) /\
     match body with
     | [] => type = None
     | e0 :: _ => expr_type e0 = None \/ type = expr_type e0
     end) /\
  (forall a b rest st1 st2 e1 e2 (t1 t2 : ttype_t),
     m_args = a :: b :: rest ->
     visit_expr a st = Ok st1 ->
     BodyVisitor.tmp st1 = Some (expr e1) ->
     expr_type e1 = Some t1 ->
     visit_expr b st1 = Ok st2 ->
     BodyVisitor.tmp st2 = Some (expr e2) ->
     expr_type e2 = Some t2 ->
     type t1 <> type t2 ->
     BodyUnits.visit_ArrayInitializer visit_expr loc m_args st
     = Throw (SemanticError "Type mismatch in array initializer" loc)).
Proof.
  split.
  - intros body type st' E.
    unfold BodyUnits.visit_ArrayInitializer in E.
    destruct (visit_ArrayInitializer_args_invariant _ _ _ _ _ _ _ _ E)
      as [L [T F]].
    + intros _. constructor.
    + intros t D. discriminate D.
    + reflexivity.
    + split; [exact L |]. split; assumption.
  - intros a b rest st1 st2 e1 e2 t1 t2 -> V1 T1 Ty1 V2 T2 Ty2 N.
    unfold BodyUnits.visit_ArrayInitializer.
    cbn [BodyUnits.visit_ArrayInitializer_args].
    rewrite V1. cbn [bind]. rewrite T1. cbn [BodyVisitor.EXPR bind].
    rewrite Ty1, V2. cbn [bind]. rewrite T2. cbn [BodyVisitor.EXPR bind].
    rewrite Ty2. cbn [deref bind].
    destruct (ttypeType_eqb (type t2) (type t1)) eqn:Q; [| reflexivity].
    apply ttypeType_eqb_eq in Q. destruct (N (eq_sym Q)).
Qed.

End DeallocateAndArrays.

Lemma visit_Deallocate_allocatable_witness :
  exists vars,
    BodyUnits.ExplicitDeallocate_t [allocatable_b]
    = BodyUnits.ExplicitDeallocate_t vars /\
    List.length vars = 1%nat /\
    Forall (fun v => allocatable_variable v = true) vars.
Proof.
  exact (proj1 (visit_Deallocate_allocatable BodyVisitor.visit_expr expr_loc0
                  [AST.Name_t loc0 "b"] state_alloc)
           (BodyUnits.ExplicitDeallocate_t [allocatable_b])
           (BodyVisitor.set_tmp state_alloc
              (Some (expr (Var_t allocatable_b))))
           eq_refl).
Defined.

Lemma visit_ArrayInitializer_elements_witness :
  List.length [Var_t (variable "i" integer4); Var_t (variable "n" integer8)]
  = 2%nat /\
  (forall t, Some integer4 = Some t ->
     Forall (has_tag_of t)
       [Var_t (variable "i" integer4); Var_t (variable "n" integer8)]) /\
  (expr_type (Var_t (variable "i" integer4)) = None \/
   Some integer4 = expr_type (Var_t (variable "i" integer4))).
Proof.
  exact (proj1 (visit_ArrayInitializer_elements BodyVisitor.visit_expr loc0
                  array_i_n state_in)
           [Var_t (variable "i" integer4); Var_t (variable "n" integer8)]
           (Some integer4)
           (BodyVisitor.set_tmp state_in
              (Some (expr (Var_t (variable "n" integer8)))))
           eq_refl).
Defined.

(* ================================================================== *)
(** * Pointer association inside a body *)
(* ================================================================== *)

(** X24.  A pointer association between two different families inside
    the body of a program, a subroutine or a function has an undefined
    outcome: [visit_Associate] throws nothing and builds no statement, so
    that [tmp] still holds the lowered value, an expression, which the
    loop over the body then reads as a statement. *)
Theorem visit_body_associate_mismatch
    (visit_expr : AST.expr_t -> BodyVisitor.state -> outcome BodyVisitor.state)
    (x : AST.Associate_t) (rest : list AST.Associate_t)
    (st st1 st2 : BodyVisitor.state) (target value : expr_t)
    (target_type value_type : ttype_t) :
  visit_expr (AST.Associate_target x) st = Ok st1 ->
  BodyVisitor.tmp st1 = Some (expr target) ->
  visit_expr (AST.Associate_value x) st1 = Ok st2 ->
  BodyVisitor.tmp st2 = Some (expr value) ->
  expr_type target = Some target_type ->
  expr_type value = Some value_type ->
  is_pointer target_type = true ->
  is_pointer value_type = false ->
  family (type target_type) <> family (type value_type) ->
  BodyUnits.visit_body AST.Associate_t (BodyVisitor.visit_Associate visit_expr)
    (x :: rest) st
  = Undefined.
Proof.
  intros V1 T1 V2 T2 Ty1 Ty2 Pt Pv Fam.
  unfold BodyUnits.visit_body. cbn [BodyUnits.visit_body_stmts].
  rewrite (visit_Associate_cases visit_expr x st st1 st2 target value
             target_type value_type V1 T1 V2 T2 Ty1 Ty2).
  rewrite Pt, Pv. cbn [negb andb].
  destruct (Nat.eqb _ _) eqn:Q.
  - apply Nat.eqb_eq in Q. exfalso. apply Fam.
    destruct (family (type target_type)), (family (type value_type));
      try reflexivity; discriminate Q.
  - cbn [bind]. rewrite T2. reflexivity.
Qed.

Lemma visit_body_associate_mismatch_witness :
  BodyUnits.visit_body AST.Associate_t
    (BodyVisitor.visit_Associate BodyVisitor.visit_expr)
    [associate_p_i] state_q
  = Undefined.
Proof.
  apply (visit_body_associate_mismatch BodyVisitor.visit_expr associate_p_i
           [] state_q
           (BodyVisitor.set_tmp state_q
              (Some (expr (Var_t (variable "p" real4_pointer)))))
           (BodyVisitor.set_tmp state_q
              (Some (expr (Var_t (variable "i" integer4)))))
           (Var_t (variable "p" real4_pointer))
           (Var_t (variable "i" integer4))
           real4_pointer integer4);
    try reflexivity.
  discriminate.
Defined.

(* ================================================================== *)
(** * [open] and [close] *)
(* ================================================================== *)

Lemma foldM_filter (A S : Type) (f : S -> A -> outcome S) (p : A -> bool)
    (l : list A) (s : S) :
  (forall a s, p a = false -> f s a = Ok s) ->
  foldM f l s = foldM f (filter p l) s.
Proof.
  intros U. revert s.
  induction l as [| a l IH]; intros s; cbn [foldM filter]; [reflexivity |].
  destruct (p a) eqn:P; cbn [foldM].
  - destruct (f s a); cbn [bind]; [apply IH | reflexivity | reflexivity].
  - rewrite (U a s P). cbn [bind]. apply IH.
Qed.

Section OpenClose.
Variable visit_expr :
  AST.expr_t -> BodyVisitor.state -> outcome BodyVisitor.state.

Lemma visit_Open_kwarg_unknown loc acc (kwarg : string * AST.expr_t) :
  known_open_keyword (fst kwarg) = false ->
  BodyIO.visit_Open_kwarg visit_expr loc acc kwarg = Ok acc.
Proof.
  unfold known_open_keyword, BodyIO.visit_Open_kwarg. cbn [existsb].
  intros K.
  apply orb_false_elim in K. destruct K as [K1 K].
  apply orb_false_elim in K. destruct K as [K2 K].
  apply orb_false_elim in K. destruct K as [K3 K].
  apply orb_false_elim in K. destruct K as [K4 _].
  destruct acc as [[[a_newunit a_filename] a_status] st].
  rewrite K1, K2, K3, K4. reflexivity.
Qed.

(** X25.  [visit_Open] looks at the keywords [newunit], [unit], [file]
    and [status] only: every other keyword argument is dropped without
    being lowered, so the statement is lowered as if it were written
    without them.  A statement that is lowered has a unit and at most one
    positional argument.  The unit given as the positional argument is
    taken as it is lowered, whatever its type, while a unit given by
    keyword must be of type Integer or IntegerPointer. *)
Theorem visit_Open_keywords (x : BodyIO.AST_Open_t)
    (st : BodyVisitor.state) :
  BodyIO.visit_Open visit_expr x st
  = BodyIO.visit_Open visit_expr (known_part_of_open x) st /\
  (forall node st',
     BodyIO.visit_Open visit_expr x st = Ok (node, st') ->
     BodyIO.m_newunit node <> None /\
     (List.length (BodyIO.Open_args x) <= 1)%nat) /\
  (forall a st1 e,
     BodyIO.Open_args x = [a] ->
     BodyIO.Open_kwargs x = [] ->
     visit_expr a st = Ok st1 ->
     BodyVisitor.tmp st1 = Some (expr e) ->
     BodyIO.visit_Open visit_expr x st
     = Ok (BodyIO.mk_Open (BodyIO.Open_label x) (Some e) None None, st1)) /\
  (forall k a st1 e (t : ttype_t),
     BodyIO.Open_args x = [] ->
     BodyIO.Open_kwargs x = [(k, a)] ->
     k = "unit" \/ k = "newunit" ->
     visit_expr a st = Ok st1 ->
     BodyVisitor.tmp st1 = Some (expr e) ->
     expr_type e = Some t ->
     BodyIO.neither t Integer IntegerPointer = true ->
     BodyIO.visit_Open visit_expr x st
     = Throw (SemanticError
         "`newunit`/`unit` must be a variable of type, Integer or IntegerPointer"
         (BodyIO.Open_loc x))).
Proof.
  split; [| split; [| split]].
  - unfold BodyIO.visit_Open, known_part_of_open.
    cbn [BodyIO.Open_args BodyIO.Open_kwargs BodyIO.Open_loc
         BodyIO.Open_label].
    destruct (BodyIO.Open_args x) as [| a [| b l]]; try reflexivity.
    + cbn [bind].
      rewrite (foldM_filter _ _ (BodyIO.visit_Open_kwarg visit_expr _)
                 (fun kwarg => known_open_keyword (fst kwarg))).
      * reflexivity.
      * intros kwarg acc. apply visit_Open_kwarg_unknown.
    + destruct (visit_expr a st) as [s1 | |]; cbn [bind]; try reflexivity.
      destruct (BodyVisitor.EXPR _) as [e | |]; cbn [bind]; try reflexivity.
      rewrite (foldM_filter _ _ (BodyIO.visit_Open_kwarg visit_expr _)
                 (fun kwarg => known_open_keyword (fst kwarg))).
      * reflexivity.
      * intros kwarg acc. apply visit_Open_kwarg_unknown.
  - intros node st' E. unfold BodyIO.visit_Open in E.
    destruct (BodyIO.Open_args x) as [| a [| b l]]; try discriminate E.
    + cbn [bind] in E.
      destruct (foldM _ _ _) as [[[[n f] s] s1] | |]; cbn [bind] in E;
        try discriminate E.
      destruct n; try discriminate E. injection E as <- _. cbn.
      split; [discriminate | lia].
    + destruct (visit_expr a st) as [s1 | |]; cbn [bind] in E;
        try discriminate E.
      destruct (BodyVisitor.EXPR _) as [e | |]; cbn [bind] in E;
        try discriminate E.
      destruct (foldM _ _ _) as [[[[n f] s] s2] | |]; cbn [bind] in E;
        try discriminate E.
      destruct n; try discriminate E. injection E as <- _. cbn.
      split; [discriminate | lia].
  - intros a st1 e A K V T. unfold BodyIO.visit_Open.
    rewrite A, K, V. cbn [bind]. rewrite T. reflexivity.
  - intros k a st1 e t A K Kn V T Ty N. unfold BodyIO.visit_Open.
    rewrite A, K. cbn [bind foldM BodyIO.visit_Open_kwarg fst snd].
    destruct Kn as [-> | ->]; cbn [String.eqb Ascii.eqb Bool.eqb orb andb];
      rewrite V; cbn [bind]; rewrite T; cbn [BodyVisitor.EXPR bind].
    + rewrite Ty. cbn [deref bind]. rewrite N. reflexivity.
    + destruct (BodyIO.is_Var e); cbn [negb]; [| reflexivity].
      rewrite Ty. cbn [deref bind]. rewrite N. reflexivity.
Qed.

Lemma visit_Close_kwarg_unknown loc acc (kwarg : string * AST.expr_t) :
  known_close_keyword (fst kwarg) = false ->
  BodyIO.visit_Close_kwarg visit_expr loc acc kwarg = Ok acc.
Proof.
  unfold known_close_keyword, BodyIO.visit_Close_kwarg. cbn [existsb].
  intros K.
  apply orb_false_elim in K. destruct K as [K1 K].
  apply orb_false_elim in K. destruct K as [K2 K].
  apply orb_false_elim in K. destruct K as [K3 K].
  apply orb_false_elim in K. destruct K as [K4 K].
  apply orb_false_elim in K. destruct K as [K5 _].
  destruct acc as [c st].
  rewrite K1, K2, K3, K4, K5. reflexivity.
Qed.

(** X26.  [visit_Close] looks at the keywords [unit], [iostat],
    [iomsg], [status] and [err] only: every other keyword argument is
    dropped without being lowered.  The unit given as the positional
    argument is taken as it is lowered, whatever its type, while a unit
    given by keyword must be of type Integer or IntegerPointer; and the
    value of [err] must be written as an integer literal, which is
    tested before it is lowered and before the unit is looked for. *)
Theorem visit_Close_keywords (x : BodyIO.AST_Close_t)
    (st : BodyVisitor.state) :
  BodyIO.visit_Close visit_expr x st
  = BodyIO.visit_Close visit_expr (known_part_of_close x) st /\
  (forall a st1 e,
     BodyIO.Close_args x = [a] ->
     BodyIO.Close_kwargs x = [] ->
     visit_expr a st = Ok st1 ->
     BodyVisitor.tmp st1 = Some (expr e) ->
     BodyIO.visit_Close visit_expr x st
     = Ok (BodyIO.mk_Close (BodyIO.Close_label x) (Some e) None None None
             None, st1)) /\
  (forall a st1 e (t : ttype_t),
     BodyIO.Close_args x = [] ->
     BodyIO.Close_kwargs x = [("unit", a)] ->
     visit_expr a st = Ok st1 ->
     BodyVisitor.tmp st1 = Some (expr e) ->
     expr_type e = Some t ->
     BodyIO.neither t Integer IntegerPointer = true ->
     BodyIO.visit_Close visit_expr x st
     = Throw (SemanticError
         "`unit` must be of type, Integer or IntegerPointer"
         (BodyIO.Close_loc x))) /\
  (forall v rest,
     BodyIO.Close_args x = [] ->
     BodyIO.Close_kwargs x = ("err", v) :: rest ->
     BodyIO.is_Num v = false ->
     BodyIO.visit_Close visit_expr x st
     = Throw (SemanticError "`err` must be a literal integer"
                (BodyIO.Close_loc x))).
Proof.
  split; [| split; [| split]].
  - unfold BodyIO.visit_Close, known_part_of_close.
    cbn [BodyIO.Close_args BodyIO.Close_kwargs BodyIO.Close_loc
         BodyIO.Close_label].
    destruct (BodyIO.Close_args x) as [| a [| b l]]; try reflexivity.
    + cbn [bind].
      rewrite (foldM_filter _ _ (BodyIO.visit_Close_kwarg visit_expr _)
                 (fun kwarg => known_close_keyword (fst kwarg))).
      * reflexivity.
      * intros kwarg acc. apply visit_Close_kwarg_unknown.
    + destruct (visit_expr a st) as [s1 | |]; cbn [bind]; try reflexivity.
      destruct (BodyVisitor.EXPR _) as [e | |]; cbn [bind]; try reflexivity.
      rewrite (foldM_filter _ _ (BodyIO.visit_Close_kwarg visit_expr _)
                 (fun kwarg => known_close_keyword (fst kwarg))).
      * reflexivity.
      * intros kwarg acc. apply visit_Close_kwarg_unknown.
  - intros a st1 e A K V T. unfold BodyIO.visit_Close.
    rewrite A, K, V. cbn [bind]. rewrite T. reflexivity.
  - intros a st1 e t A K V T Ty N. unfold BodyIO.visit_Close.
    rewrite A, K. cbn [bind foldM BodyIO.visit_Close_kwarg fst snd].
    cbn [String.eqb Ascii.eqb Bool.eqb BodyIO.a_unit].
    rewrite V. cbn [bind]. rewrite T. cbn [BodyVisitor.EXPR bind].
    rewrite Ty. cbn [deref bind]. rewrite N. reflexivity.
  - intros v rest A K N. unfold BodyIO.visit_Close.
    rewrite A, K. cbn [bind foldM BodyIO.visit_Close_kwarg fst snd].
    cbn [String.eqb Ascii.eqb Bool.eqb BodyIO.a_err].
    rewrite N. reflexivity.
Qed.

End OpenClose.

Lemma visit_Open_keywords_witness :
  BodyIO.visit_Open BodyVisitor.visit_expr open_i state_p
  = Ok (BodyIO.mk_Open 0 (Some (Var_t (variable "i" integer4))) None None,
        BodyVisitor.set_tmp state_p
          (Some (expr (Var_t (variable "i" integer4))))).
Proof.
  destruct (visit_Open_keywords BodyVisitor.visit_expr open_i state_p)
    as [E _].
  rewrite E.
  apply (proj1 (proj2 (proj2
           (visit_Open_keywords BodyVisitor.visit_expr
              (known_part_of_open open_i) state_p)))
           (AST.Name_t loc0 "i")
           (BodyVisitor.set_tmp state_p
              (Some (expr (Var_t (variable "i" integer4)))))
           (Var_t (variable "i" integer4)));
    reflexivity.
Defined.

Lemma visit_Close_keywords_witness :
  BodyIO.visit_Close BodyVisitor.visit_expr close_err_i state_p
  = Throw (SemanticError "`err` must be a literal integer" loc0).
Proof.
  apply (proj2 (proj2 (proj2
           (visit_Close_keywords BodyVisitor.visit_expr close_err_i
              state_p)))
           (AST.Name_t loc0 "i") []);
    reflexivity.
Defined.

(* ================================================================== *)
(** * [select case] *)
(* ================================================================== *)

Lemma foldM_app (A S : Type) (f : S -> A -> outcome S) (l1 l2 : list A)
    (s : S) :
  foldM f (l1 ++ l2)%list s = (s' <- foldM f l1 s ;; foldM f l2 s').
Proof.
  revert s.
  induction l1 as [| a l1 IH]; intros s; cbn [app foldM bind];
    [reflexivity |].
  destruct (f s a); cbn [bind]; [apply IH | reflexivity | reflexivity].
Qed.

Lemma not_Integer_false (e : expr_t) :
  BodySelect.not_Integer e = Ok false -> integer_typed e.
Proof.
  unfold BodySelect.not_Integer.
  destruct (expr_type e) as [t |] eqn:T; cbn [deref bind]; [| discriminate].
  intros [= N]. apply negb_false_iff in N. apply ttypeType_eqb_eq in N.
  exists t. split; [exact T | exact N].
Qed.

Section SelectCase.
Variable AST_stmt_t : Type.
Variable visit_stmt :
  AST_stmt_t -> BodyVisitor.state -> outcome BodyVisitor.state.
Variable visit_expr :
  AST.expr_t -> BodyVisitor.state -> outcome BodyVisitor.state.

Lemma visit_case_tests_integers loc
    (m_test : list BodySelect.AST_case_cond_t)
    (a_test_vec vec : list expr_t) (st st' : BodyVisitor.state) :
  BodySelect.visit_case_tests visit_expr loc m_test a_test_vec st
  = Ok (vec, st') ->
  Forall integer_typed a_test_vec -> Forall integer_typed vec.
Proof.
  revert a_test_vec st.
  induction m_test as [| c m_test IH]; intros a_test_vec st E F;
    cbn [BodySelect.visit_case_tests] in E.
  - injection E as <- _. exact F.
  - destruct c; try discriminate E.
    destruct (visit_expr m_cond st) as [s1 | |]; cbn [bind] in E;
      try discriminate E.
    destruct (BodyVisitor.EXPR _) as [m | |]; cbn [bind] in E;
      try discriminate E.
    destruct (BodySelect.not_Integer m) as [[|] | |] eqn:N; cbn [bind] in E;
      try discriminate E.
    apply (IH _ _ E). apply Forall_app. split; [exact F |].
    constructor; [exact (not_Integer_false _ N) | constructor].
Qed.

Lemma visit_case_bound_integer loc (b : option AST.expr_t)
    (st st' : BodyVisitor.state) (r : option expr_t) :
  BodySelect.visit_case_bound visit_expr loc b st = Ok (r, st') ->
  forall m, r = Some m -> integer_typed m.
Proof.
  unfold BodySelect.visit_case_bound.
  destruct b as [e |]; [| intros [= <- _] m D; discriminate D].
  destruct (visit_expr e st) as [s1 | |]; cbn [bind]; try discriminate.
  destruct (BodyVisitor.EXPR _) as [m0 | |]; cbn [bind]; try discriminate.
  destruct (BodySelect.not_Integer m0) as [[|] | |] eqn:N; cbn [bind];
    try discriminate.
  intros [= <- _] m [= <-]. exact (not_Integer_false _ N).
Qed.

Lemma visit_case_stmt_integers
    (x : BodySelect.AST_case_stmt_t AST_stmt_t)
    (st st' : BodyVisitor.state) (c : BodySelect.case_stmt_t) :
  BodySelect.visit_case_stmt AST_stmt_t visit_stmt visit_expr x st
  = Ok (c, st') ->
  case_of_integers c.
Proof.
  unfold BodySelect.visit_case_stmt.
  destruct x as [loc m_test m_body | loc m_body]; [| discriminate].
  destruct m_test as [| [m_cond | m_start m_end] m_test]; [discriminate | |].
  - destruct (BodySelect.visit_case_tests _ _ _ _ _) as [[vec s1] | |] eqn:T;
      cbn [bind]; try discriminate.
    destruct (BodySelect.visit_stmts _ _ _ _ _) as [[body s2] | |];
      cbn [bind]; try discriminate.
    intros [= <- _]. cbn.
    exact (visit_case_tests_integers _ _ _ _ _ _ T (Forall_nil _)).
  - destruct m_test; [| discriminate].
    destruct (BodySelect.visit_case_bound visit_expr loc m_start st)
      as [[r1 s1] | |] eqn:B1; cbn [bind]; try discriminate.
    destruct (BodySelect.visit_case_bound visit_expr loc m_end s1)
      as [[r2 s2] | |] eqn:B2; cbn [bind]; try discriminate.
    destruct (BodySelect.visit_stmts _ _ _ _ _) as [[body s3] | |];
      cbn [bind]; try discriminate.
    intros [= <- _]. cbn. split.
    + exact (visit_case_bound_integer _ _ _ _ _ B1).
    + exact (visit_case_bound_integer _ _ _ _ _ B2).
Qed.

Lemma visit_Select_cases loc
    (m_body : list (BodySelect.AST_case_stmt_t AST_stmt_t))
    (a_body_vec a_body_vec' : list BodySelect.case_stmt_t)
    (def_body def_body' : list stmt_t) (st st' : BodyVisitor.state) :
  foldM (BodySelect.visit_Select_case AST_stmt_t visit_stmt visit_expr loc)
    m_body (a_body_vec, def_body, st)
  = Ok (a_body_vec', def_body', st') ->
  Forall case_of_integers a_body_vec ->
  Forall case_of_integers a_body_vec' /\
  List.length a_body_vec'
  = (List.length a_body_vec
     + List.length (filter (is_case AST_stmt_t) m_body))%nat.
Proof.
  revert a_body_vec def_body st.
  induction m_body as [| x m_body IH]; intros a_body_vec def_body st E F;
    cbn [foldM] in E.
  - injection E as <- _ _. split; [exact F | cbn; lia].
  - unfold BodySelect.visit_Select_case at 1 in E.
    destruct x as [l m_test b | l d_body]; cbn [filter is_case].
    + destruct (BodySelect.visit_case_stmt _ _ _ _ _) as [[c s1] | |] eqn:C;
        cbn [bind] in E; try discriminate E.
      destruct (IH _ _ _ E) as [F' L'].
      * apply Forall_app. split; [exact F |].
        constructor; [exact (visit_case_stmt_integers _ _ _ _ C) |].
        constructor.
      * split; [exact F' |].
        rewrite length_app in L'. cbn [List.length] in *. lia.
    + destruct def_body; [| discriminate E].
      destruct (BodySelect.visit_stmts _ _ _ _ _) as [[d s1] | |];
        cbn [bind] in E; try discriminate E.
      exact (IH _ _ _ E F).
Qed.

Lemma visit_Select_cases_default loc
    (pre : list (BodySelect.AST_case_stmt_t AST_stmt_t))
    (a_body_vec : list BodySelect.case_stmt_t) (def_body : list stmt_t)
    (st : BodyVisitor.state) :
  forallb (is_case AST_stmt_t) pre = true ->
  match foldM (BodySelect.visit_Select_case AST_stmt_t visit_stmt visit_expr
                 loc) pre (a_body_vec, def_body, st) with
  | Ok (_, def_body', _) => def_body' = def_body
  | _ => True
  end.
Proof.
  revert a_body_vec st.
  induction pre as [| x pre IH]; intros a_body_vec st A; cbn [foldM].
  - reflexivity.
  - cbn [forallb] in A. apply andb_prop in A. destruct A as [A1 A2].
    unfold BodySelect.visit_Select_case at 1.
    destruct x as [l m_test b | l d_body]; [| discriminate A1].
    destruct (BodySelect.visit_case_stmt _ _ _ _ _) as [[c s1] | |];
      cbn [bind]; try exact I.
    apply IH. exact A2.
Qed.

(** X27.  A [select case] that is lowered selects on an expression of
    type Integer, and every value and every bound of its cases is of
    type Integer (the tag is compared, not the kind); it has one case
    node for each [case] that is not the default.  The test for a second
    default case looks at the statements collected so far: a default case
    without statements, written before any other default case, is as if
    it were not written, so that a default case after it is accepted. *)
Theorem visit_Select_integers loc (m_test : AST.expr_t)
    (m_body : list (BodySelect.AST_case_stmt_t AST_stmt_t))
    (st : BodyVisitor.state) :
  (forall node st',
     BodySelect.visit_Select AST_stmt_t visit_stmt visit_expr loc m_test
       m_body st = Ok (node, st') ->
     integer_typed (BodySelect.Select_test node) /\
     Forall case_of_integers (BodySelect.Select_body node) /\
     List.length (BodySelect.Select_body node)
     = List.length (filter (is_case AST_stmt_t) m_body)) /\
  (forall pre l post,
     m_body
     = (pre ++ BodySelect.AST_CaseStmt_Default_t AST_stmt_t l [] :: post)%list ->
     forallb (is_case AST_stmt_t) pre = true ->
     BodySelect.visit_Select AST_stmt_t visit_stmt visit_expr loc m_test
       m_body st
     = BodySelect.visit_Select AST_stmt_t visit_stmt visit_expr loc m_test
         (pre ++ post)%list st).
Proof.
  split.
  - intros node st' E. unfold BodySelect.visit_Select in E.
    destruct (visit_expr m_test st) as [s1 | |]; cbn [bind] in E;
      try discriminate E.
    destruct (BodyVisitor.EXPR _) as [a_test | |]; cbn [bind] in E;
      try discriminate E.
    destruct (BodySelect.not_Integer a_test) as [[|] | |] eqn:N;
      cbn [bind] in E; try discriminate E.
    destruct (foldM _ m_body _) as [[[a_body_vec def_body] s2] | |] eqn:F;
      cbn [bind] in E; try discriminate E.
    injection E as <- _. cbn.
    split; [exact (not_Integer_false _ N) |].
    exact (visit_Select_cases _ _ _ _ _ _ _ _ F (Forall_nil _)).
  - intros pre l post -> A. unfold BodySelect.visit_Select.
    destruct (visit_expr m_test st) as [s1 | |]; cbn [bind];
      try reflexivity.
    destruct (BodyVisitor.EXPR _) as [a_test | |]; cbn [bind];
      try reflexivity.
    destruct (BodySelect.not_Integer a_test) as [[|] | |]; cbn [bind];
      try reflexivity.
    rewrite !foldM_app.
    pose proof (visit_Select_cases_default loc pre [] [] s1 A) as D.
    destruct (foldM _ pre _) as [[[a_body_vec def_body] s2] | |];
      cbn [bind]; try reflexivity.
    subst def_body. cbn [foldM].
    unfold BodySelect.visit_Select_case at 1.
    cbn [BodySelect.visit_stmts bind]. reflexivity.
Qed.

End SelectCase.

Lemma visit_Select_integers_witness :
  BodySelect.visit_Select AST.Assignment_t
    (BodyVisitor.visit_Assignment BodyVisitor.visit_expr)
    BodyVisitor.visit_expr loc0 (AST.Name_t loc0 "i")
    [BodySelect.AST_CaseStmt_Default_t AST.Assignment_t loc0 [];
     BodySelect.AST_CaseStmt_Default_t AST.Assignment_t loc0 [assignment_p]]
    state_p
  = BodySelect.visit_Select AST.Assignment_t
      (BodyVisitor.visit_Assignment BodyVisitor.visit_expr)
      BodyVisitor.visit_expr loc0 (AST.Name_t loc0 "i")
      [BodySelect.AST_CaseStmt_Default_t AST.Assignment_t loc0
         [assignment_p]]
      state_p.
Proof.
  apply (proj2 (visit_Select_integers AST.Assignment_t
                  (BodyVisitor.visit_Assignment BodyVisitor.visit_expr)
                  BodyVisitor.visit_expr loc0 (AST.Name_t loc0 "i")
                  [BodySelect.AST_CaseStmt_Default_t AST.Assignment_t loc0 [];
                   BodySelect.AST_CaseStmt_Default_t AST.Assignment_t loc0
                     [assignment_p]]
                  state_p)
           [] loc0
           [BodySelect.AST_CaseStmt_Default_t AST.Assignment_t loc0
              [assignment_p]]);
    reflexivity.
Defined.

(* ================================================================== *)
(** * [read] and [write] *)
(* ================================================================== *)

Section ReadAndWrite.
Variable visit_expr :
  AST.expr_t -> BodyVisitor.state -> outcome BodyVisitor.state.

Lemma visit_kwarg_unknown loc acc (kwarg : string * option AST.expr_t) :
  known_read_write_keyword (fst kwarg) = false ->
  BodyReadWrite.visit_kwarg visit_expr loc acc kwarg = Ok acc.
Proof.
  unfold known_read_write_keyword, BodyReadWrite.visit_kwarg.
  cbn [existsb]. intros K.
  apply orb_false_elim in K. destruct K as [K1 K].
  apply orb_false_elim in K. destruct K as [K2 K].
  apply orb_false_elim in K. destruct K as [K3 K].
  apply orb_false_elim in K. destruct K as [K4 _].
  destruct acc as [c st].
  rewrite K1, K2, K3, K4. reflexivity.
Qed.

Lemma visit_kwarg_fmt loc (c c' : BodyReadWrite.acc_t)
    (st st' : BodyVisitor.state) (kwarg : string * option AST.expr_t) :
  BodyReadWrite.visit_kwarg visit_expr loc (c, st) kwarg = Ok (c', st') ->
  BodyReadWrite.a_fmt c' = BodyReadWrite.a_fmt c.
Proof.
  unfold BodyReadWrite.visit_kwarg. intros E.
  repeat match type of E with
         | (if ?b then _ else _) = _ => destruct b
         | match ?o with _ => _ end = _ => destruct o
         | bind ?o _ = _ => destruct o; cbn [bind] in E
         end; try discriminate E; injection E as <- _; reflexivity.
Qed.

Lemma visit_kwargs_fmt loc (kwargs : list (string * option AST.expr_t))
    (c c' : BodyReadWrite.acc_t) (st st' : BodyVisitor.state) :
  foldM (BodyReadWrite.visit_kwarg visit_expr loc) kwargs (c, st)
  = Ok (c', st') ->
  BodyReadWrite.a_fmt c' = BodyReadWrite.a_fmt c.
Proof.
  revert c st.
  induction kwargs as [| kwarg kwargs IH]; intros c st E; cbn [foldM] in E.
  - injection E as <- _. reflexivity.
  - destruct (BodyReadWrite.visit_kwarg visit_expr loc (c, st) kwarg)
      as [[c1 s1] | |] eqn:K; cbn [bind] in E; try discriminate E.
    rewrite (IH _ _ E). exact (visit_kwarg_fmt _ _ _ _ _ _ K).
Qed.

Lemma visit_values_length (values : list AST.expr_t)
    (a_values_vec vec : list expr_t) (st st' : BodyVisitor.state) :
  BodyReadWrite.visit_values visit_expr values a_values_vec st
  = Ok (vec, st') ->
  List.length vec = (List.length a_values_vec + List.length values)%nat.
Proof.
  revert a_values_vec st.
  induction values as [| v values IH]; intros a_values_vec st E;
    cbn [BodyReadWrite.visit_values] in E.
  - injection E as <- _. cbn. lia.
  - destruct (visit_expr v st) as [s1 | |]; cbn [bind] in E;
      try discriminate E.
    destruct (BodyVisitor.EXPR _) as [e | |]; cbn [bind] in E;
      try discriminate E.
    rewrite (IH _ _ E), length_app. cbn [List.length]. lia.
Qed.

(** X28.  The format of a [read] or [write] statement can be given by
    position only: a statement with fewer than two positional arguments
    is never lowered, whatever its keyword arguments are, and a
    statement that is lowered has exactly two positional arguments and
    one value node for each value written.  The function looks at the
    keywords [unit], [iostat], [iomsg] and [id] only: every other keyword
    argument, [fmt] among them, is dropped without being lowered. *)
Theorem create_read_write_needs_format
    (x : BodyReadWrite.AST_read_write_t) (_type : BodyReadWrite.stmtType)
    (st : BodyVisitor.state) :
  ((List.length (BodyReadWrite.m_args x) < 2)%nat ->
   forall r,
     BodyReadWrite.create_read_write_ASR_node visit_expr x _type st
     <> Ok r) /\
  BodyReadWrite.create_read_write_ASR_node visit_expr x _type st
  = BodyReadWrite.create_read_write_ASR_node visit_expr
      (known_part_of_read_write x) _type st /\
  (forall node st',
     BodyReadWrite.create_read_write_ASR_node visit_expr x _type st
     = Ok (node, st') ->
     List.length (BodyReadWrite.m_args x) = 2%nat /\
     List.length (BodyReadWrite.node_values node)
     = List.length (BodyReadWrite.m_values x) /\
     BodyReadWrite.node_type node = _type).
Proof.
  assert (forall node st',
     BodyReadWrite.create_read_write_ASR_node visit_expr x _type st
     = Ok (node, st') ->
     List.length (BodyReadWrite.m_args x) = 2%nat /\
     List.length (BodyReadWrite.node_values node)
     = List.length (BodyReadWrite.m_values x) /\
     BodyReadWrite.node_type node = _type) as Main.
  { intros node st' E.
    unfold BodyReadWrite.create_read_write_ASR_node in E.
    destruct (Nat.ltb 2 _) eqn:L2; [discriminate E |].
    apply Nat.ltb_ge in L2.
    match type of E with
    | bind ?o _ = _ => destruct o as [[unit_arg s1] | |]
    end; cbn [bind] in E; try discriminate E.
    match type of E with
    | bind ?o _ = _ => destruct o as [[fmt_arg s2] | |] eqn:Fm
    end; cbn [bind] in E; try discriminate E.
    destruct (foldM _ _ _) as [[c s3] | |] eqn:K; cbn [bind] in E;
      try discriminate E.
    pose proof (visit_kwargs_fmt _ _ _ _ _ _ K) as Fc. cbn in Fc.
    destruct (_ && Nat.ltb _ 1); [discriminate E |].
    destruct (match BodyReadWrite.a_fmt c with
              | Some _ => false | None => true end
              && Nat.ltb _ 2) eqn:C2; [discriminate E |].
    destruct (BodyReadWrite.visit_values _ _ _ _) as [[vec s4] | |] eqn:V;
      cbn [bind] in E; try discriminate E.
    injection E as <- _. cbn.
    split; [| split; [exact (visit_values_length _ _ _ _ _ V) |
                      reflexivity]].
    destruct (BodyReadWrite.m_args x) as [| u [| f [| g l]]];
      cbn [List.length] in *; try lia.
    - injection Fm as <- _. rewrite Fc in C2. discriminate C2.
    - injection Fm as <- _. rewrite Fc in C2. discriminate C2. }
  split; [| split; [| exact Main]].
  - intros L [node st'] E. destruct (Main node st' E) as [L2 _]. lia.
  - unfold BodyReadWrite.create_read_write_ASR_node,
      known_part_of_read_write.
    cbn [BodyReadWrite.m_args BodyReadWrite.m_kwargs BodyReadWrite.loc
         BodyReadWrite.m_label BodyReadWrite.m_values].
    destruct (Nat.ltb 2 _); [reflexivity |].
    match goal with
    | |- bind ?o _ = _ => destruct o as [[unit_arg s1] | |]
    end; cbn [bind]; try reflexivity.
    match goal with
    | |- bind ?o _ = _ => destruct o as [[fmt_arg s2] | |]
    end; cbn [bind]; try reflexivity.
    rewrite (foldM_filter _ _ (BodyReadWrite.visit_kwarg visit_expr _)
               (fun kwarg => known_read_write_keyword (fst kwarg))).
    + reflexivity.
    + intros kwarg acc. apply visit_kwarg_unknown.
Qed.

End ReadAndWrite.

Lemma create_read_write_needs_format_witness :
  match BodyReadWrite.create_read_write_ASR_node BodyVisitor.visit_expr
          write_6_fmt BodyReadWrite.Write state_p with
  | Ok _ => False
  | _ => True
  end.
Proof.
  pose proof (proj1 (create_read_write_needs_format BodyVisitor.visit_expr
                       write_6_fmt BodyReadWrite.Write state_p)
                (le_n 2)) as N.
  destruct (BodyReadWrite.create_read_write_ASR_node BodyVisitor.visit_expr
              write_6_fmt BodyReadWrite.Write state_p) as [r | |].
  - exact (N r eq_refl).
  - exact I.
  - exact I.
Defined.

(* ================================================================== *)
(** * Function calls and array references *)
(* ================================================================== *)

Section CallsAndReferences.
Variable visit_expr :
  AST.expr_t -> BodyVisitor.state -> outcome BodyVisitor.state.

Lemma visit_indices_length (m_args : list BodyCalls.fnarg_t)
    (args args' : list BodyCalls.array_index_t)
    (st st' : BodyVisitor.state) :
  BodyCalls.visit_indices visit_expr m_args args st = Ok (args', st') ->
  List.length args' = (List.length args + List.length m_args)%nat.
Proof.
  revert args st.
  induction m_args as [| a m_args IH]; intros args st E;
    cbn [BodyCalls.visit_indices] in E.
  - injection E as <- _. cbn. lia.
  - destruct (BodyCalls.visit_index_part visit_expr _ st)
      as [[p1 s1] | |]; cbn [bind] in E; try discriminate E.
    destruct (BodyCalls.visit_index_part visit_expr _ s1)
      as [[p2 s2] | |]; cbn [bind] in E; try discriminate E.
    destruct (BodyCalls.visit_index_part visit_expr _ s2)
      as [[p3 s3] | |]; cbn [bind] in E; try discriminate E.
    rewrite (IH _ _ E), length_app. cbn [List.length]. lia.
Qed.

Lemma visit_external_indices_shape loc (m_args : list BodyCalls.fnarg_t)
    (args args' : list BodyCalls.array_index_t)
    (st st' : BodyVisitor.state) :
  BodyCalls.visit_external_indices visit_expr loc m_args args st
  = Ok (args', st') ->
  Forall (fun ai => BodyCalls.m_left ai = None /\
                    BodyCalls.index_step ai = None) args ->
  List.length args' = (List.length args + List.length m_args)%nat /\
  Forall (fun ai => BodyCalls.m_left ai = None /\
                    BodyCalls.index_step ai = None) args' /\
  Forall (fun a => BodyCalls.m_start a = None) m_args.
Proof.
  revert args st.
  induction m_args as [| a m_args IH]; intros args st E F;
    cbn [BodyCalls.visit_external_indices] in E.
  - injection E as <- _. split; [cbn; lia |]. split; [exact F | constructor].
  - destruct (BodyCalls.m_start a) eqn:S; [discriminate E |].
    destruct (BodyCalls.m_end a) as [e |].
    + destruct (visit_expr e st) as [s1 | |]; cbn [bind] in E;
        try discriminate E.
      destruct (BodyVisitor.EXPR _) as [r | |]; cbn [bind] in E;
        try discriminate E.
      destruct (IH _ _ E) as [L [F' S']].
      * apply Forall_app. split; [exact F |].
        constructor; [split; reflexivity | constructor].
      * split; [rewrite L, length_app; cbn [List.length]; lia |].
        split; [exact F' | constructor; assumption].
    + destruct (IH _ _ E) as [L [F' S']].
      * apply Forall_app. split; [exact F |].
        constructor; [split; reflexivity | constructor].
      * split; [rewrite L, length_app; cbn [List.length]; lia |].
        split; [exact F' | constructor; assumption].
Qed.

(** X29.  A name followed by arguments that resolves to a variable is
    lowered to an array reference that has the type of the whole
    variable, with its dimensions, and one index for each argument
    written, whatever the rank.  For a variable of the scope every
    argument may have a start, an end and a step; for a variable behind
    an external symbol an argument with a start is rejected and the step
    of an argument is dropped without being lowered.  A symbol that is
    not a function, a variable or an external symbol is rejected. *)
Theorem visit_FuncCallOrArray_node_cases loc (var_name : string)
    (m_args : list BodyCalls.fnarg_t) (v : symbol_t)
    (st : BodyVisitor.state) :
  (forall ty node st',
     symbol_type v = Some ty ->
     BodyCalls.visit_FuncCallOrArray_node visit_expr loc var_name m_args v st
     = Ok (node, st') ->
     exists args,
       node = BodyCalls.ArrayRef v args ty /\
       List.length args = List.length m_args) /\
  (forall name f2 module_name original_name access ty node st',
     v = ExternalSymbol_t name f2 module_name original_name access ->
     symbol_type f2 = Some ty ->
     BodyCalls.visit_FuncCallOrArray_node visit_expr loc var_name m_args v st
     = Ok (node, st') ->
     exists args,
       node = BodyCalls.ArrayRef v args ty /\
       List.length args = List.length m_args /\
       Forall (fun ai => BodyCalls.m_left ai = None /\
                         BodyCalls.index_step ai = None) args /\
       Forall (fun a => BodyCalls.m_start a = None) m_args) /\
  match v with
  | Function_t _ _ _ _ _ _ _ | ExternalSymbol_t _ _ _ _ _
  | Variable_t _ _ _ _ _ _ _ _ _ => True
  | _ =>
      BodyCalls.visit_FuncCallOrArray_node visit_expr loc var_name m_args v st
      = Throw (SemanticError
                 ("Symbol '" ++ var_name ++ "' is not a function or an array")
                 loc)
  end.
Proof.
  split; [| split].
  - intros ty node st' T E. destruct v; try discriminate T.
    cbn in T. injection T as ->.
    cbn [BodyCalls.visit_FuncCallOrArray_node] in E.
    destruct (BodyCalls.visit_indices visit_expr m_args [] st)
      as [[args s1] | |] eqn:I; cbn [bind] in E; try discriminate E.
    injection E as <- _. exists args. split; [reflexivity |].
    exact (visit_indices_length _ _ _ _ _ I).
  - intros name f2 module_name original_name access ty node st' -> T E.
    destruct f2; try discriminate T.
    cbn in T. injection T as ->.
    cbn [BodyCalls.visit_FuncCallOrArray_node] in E.
    destruct (BodyCalls.visit_external_indices visit_expr loc m_args [] st)
      as [[args s1] | |] eqn:I; cbn [bind] in E; try discriminate E.
    injection E as <- _. exists args. split; [reflexivity |].
    exact (visit_external_indices_shape _ _ _ _ _ _ I (Forall_nil _)).
  - destruct v; try exact I; reflexivity.
Qed.

End CallsAndReferences.

Lemma visit_FuncCallOrArray_node_cases_witness :
  exists args,
    BodyCalls.ArrayRef (variable "d" real8_array)
      [BodyCalls.mk_array_index (Some (ConstantInteger_t 1 integer4))
         (Some (ConstantInteger_t 2 integer4)) None]
      real8_array
    = BodyCalls.ArrayRef (variable "d" real8_array) args real8_array /\
    List.length args = List.length section_1_2.
Proof.
  exact (proj1 (visit_FuncCallOrArray_node_cases BodyVisitor.visit_expr loc0
                  "d" section_1_2 (variable "d" real8_array) state_d)
           real8_array
           (BodyCalls.ArrayRef (variable "d" real8_array)
              [BodyCalls.mk_array_index (Some (ConstantInteger_t 1 integer4))
                 (Some (ConstantInteger_t 2 integer4)) None]
              real8_array)
           (BodyVisitor.set_tmp state_d
              (Some (expr (ConstantInteger_t 2 integer4))))
           eq_refl eq_refl).
Defined.

(* ================================================================== *)
(** * External symbols in the SIR *)
(* ================================================================== *)

Lemma scope_of_sir_trans (s t u : SymbolTable) :
  scope_of_sir s t -> scope_of_sir t u -> scope_of_sir s u.
Proof.
  intros St Tu. induction Tu as [| t' p R IH P | t' k v u' R IH I T].
  - exact St.
  - exact (sir_parent s t' p IH P).
  - exact (sir_unit s t' k v u' IH I T).
Qed.

Lemma scope_of_sir_cases (s t : SymbolTable) :
  scope_of_sir s t ->
  t = s \/
  (exists p, parent s = Some p /\ scope_of_sir p t) \/
  (exists k v u,
     In (k, v) (scope s) /\ symtab_of v = Some u /\ scope_of_sir u t).
Proof.
  intros R. induction R as [| t p R IH P | t k v u R IH I T].
  - left. reflexivity.
  - right. destruct IH as [-> | [(p0 & P0 & R0) | (k0 & v0 & u0 & I0 & T0 & R0)]].
    + left. exists p. split; [exact P | apply sir_here].
    + left. exists p0. split; [exact P0 |].
      exact (sir_parent p0 t p R0 P).
    + right. exists k0, v0, u0. split; [exact I0 |]. split; [exact T0 |].
      exact (sir_parent u0 t p R0 P).
  - right. destruct IH as [-> | [(p0 & P0 & R0) | (k0 & v0 & u0 & I0 & T0 & R0)]].
    + right. exists k, v, u. split; [exact I |]. split; [exact T |].
      apply sir_here.
    + left. exists p0. split; [exact P0 |].
      exact (sir_unit p0 t k v u R0 I T).
    + right. exists k0, v0, u0. split; [exact I0 |]. split; [exact T0 |].
      exact (sir_unit u0 t k v u R0 I T).
Qed.

Lemma sir_unchained_scope (s t : SymbolTable) :
  sir_unchained s -> scope_of_sir s t -> sir_unchained t.
Proof.
  intros U R u Ru. apply U. exact (scope_of_sir_trans s t u R Ru).
Qed.

Lemma sir_unchained_build (s : SymbolTable) :
  scope_unchained (scope s) ->
  (forall p, parent s = Some p -> sir_unchained p) ->
  (forall k v u, In (k, v) (scope s) -> symtab_of v = Some u ->
     sir_unchained u) ->
  sir_unchained s.
Proof.
  intros Here Up Down t R.
  destruct (scope_of_sir_cases s t R)
    as [-> | [(p & P & Rp) | (k & v & u & I & T & Ru)]].
  - exact Here.
  - exact (Up p P t Rp).
  - exact (Down k v u I T t Ru).
Qed.

Lemma sir_unchained_chain (s : SymbolTable) :
  sir_unchained s -> chain_unchained s.
Proof.
  revert s. fix IH 1.
  intros [sc p c] U. cbn [chain_unchained]. split.
  - exact (U _ (sir_here _)).
  - destruct p as [s' |]; [| exact I].
    apply IH. apply (sir_unchained_scope _ _ U).
    exact (sir_parent _ (mk_SymbolTable sc (Some s') c) s' (sir_here _)
             eq_refl).
Qed.

Lemma resolve_symbol_bound (s : SymbolTable) (name : string) (v : symbol_t) :
  resolve_symbol s name = Some v ->
  exists t, scope_of_sir s t /\ In (name, v) (scope t).
Proof.
  revert s. fix IH 1.
  intros [sc p c]. cbn [resolve_symbol].
  destruct (StdMap.find name sc) as [w |] eqn:F.
  - intros [= ->]. exists (mk_SymbolTable sc p c).
    split; [apply sir_here |]. apply StdMap_find_In. exact F.
  - destruct p as [s' |]; [| discriminate].
    intros R. destruct (IH s' R) as (t & Rt & It).
    exists t. split; [| exact It].
    apply (scope_of_sir_trans _ s' t); [| exact Rt].
    exact (sir_parent _ (mk_SymbolTable sc (Some s') c) s' (sir_here _)
             eq_refl).
Qed.

Lemma extended_refl (s : SymbolTable) : extended_by_externals s s.
Proof. split; [reflexivity |]. intros k v I. left. exact I. Qed.

Lemma extended_trans (s t u : SymbolTable) :
  extended_by_externals s t -> extended_by_externals t u ->
  extended_by_externals s u.
Proof.
  intros [P1 E1] [P2 E2]. split; [congruence |].
  intros k v I. destruct (E2 k v I) as [I' | N]; [| right; exact N].
  exact (E1 k v I').
Qed.

Lemma extended_set (s : SymbolTable) (name : string) (v : symbol_t) :
  is_ExternalSymbol v = true -> unchained v ->
  extended_by_externals s (SymbolTableVisitor.scope_set s name v).
Proof.
  intros Ev Uv. split; [reflexivity |].
  intros k w I. cbn in I.
  destruct (StdMap_set_In _ name v (scope s) (k, w) I) as [[= -> ->] | I'].
  - right. split; assumption.
  - left. exact I'.
Qed.

Lemma external_has_no_table (v : symbol_t) :
  is_ExternalSymbol v = true -> symtab_of v = None.
Proof. destruct v; try discriminate; reflexivity. Qed.

Lemma sir_unchained_extended (s s' : SymbolTable) :
  sir_unchained s -> extended_by_externals s s' -> sir_unchained s'.
Proof.
  intros U [P E]. apply sir_unchained_build.
  - unfold scope_unchained. rewrite Forall_forall. intros [k v] I.
    destruct (E k v I) as [I' | [_ Uv]]; [| exact Uv].
    pose proof (U _ (sir_here _)) as Us.
    unfold scope_unchained in Us. rewrite Forall_forall in Us.
    exact (Us (k, v) I').
  - intros p Pp. rewrite P in Pp.
    apply (sir_unchained_scope _ _ U).
    exact (sir_parent _ _ p (sir_here _) Pp).
  - intros k v u I T.
    destruct (E k v I) as [I' | [Ev _]].
    + apply (sir_unchained_scope _ _ U).
      exact (sir_unit _ _ k v u (sir_here _) I' T).
    + rewrite (external_has_no_table v Ev) in T. discriminate T.
Qed.

Section Sites.
Context `{ModuleLoader} `{BodyMembers.NodeLayout} `{AnalysisInput}.

Lemma visit_Use_all_extends (m_name : string)
    (st st' : SymbolTableVisitor.state) (item : string * symbol_t) :
  SymbolTableVisitor.visit_Use_all m_name st item = Ok st' ->
  extended_by_externals (SymbolTableVisitor.current_scope st)
    (SymbolTableVisitor.current_scope st').
Proof.
  intros E. unfold SymbolTableVisitor.visit_Use_all in E.
  destruct item as [k v]. cbn [snd fst] in E.
  destruct v; try discriminate E;
    injection E as <-; cbn; apply extended_set; reflexivity.
Qed.

Lemma visit_Use_only_extends loc (msym : string) (m_symtab : SymbolTable)
    (m_name : string) (st st' : SymbolTableVisitor.state)
    (u : AST.UseSymbol_t) :
  chain_unchained m_symtab ->
  SymbolTableVisitor.visit_Use_only loc msym m_symtab m_name st u = Ok st' ->
  extended_by_externals (SymbolTableVisitor.current_scope st)
    (SymbolTableVisitor.current_scope st').
Proof.
  intros M E. unfold SymbolTableVisitor.visit_Use_only in E.
  destruct (resolve_symbol m_symtab (AST.m_sym u)) as [t |] eqn:R;
    [| discriminate E].
  pose proof (resolve_symbol_unchained _ _ _ M R) as Ut.
  destruct (StdMap.mem _ _); destruct t; try discriminate E;
    injection E as <-; cbn;
    apply extended_set; try reflexivity.
  exact Ut.
Qed.

Lemma visit_Use_module_unchained (x : AST.Use_t)
    (st : SymbolTableVisitor.state) (m_symtab : SymbolTable)
    (m_name : string) (deps : list string) (l : bool) :
  (forall p name loc intrinsic t m_name deps l,
     load_module p name loc intrinsic = Ok (Module_t t m_name deps l) ->
     sir_unchained t) ->
  sir_unchained (SymbolTableVisitor.current_scope st) ->
  SymbolTableVisitor.visit_Use_module x st
  = Ok (Module_t m_symtab m_name deps l) ->
  sir_unchained m_symtab.
Proof.
  intros L U E. unfold SymbolTableVisitor.visit_Use_module in E.
  destruct (parent (SymbolTableVisitor.current_scope st)) as [ps |] eqn:P;
    cbn [deref bind] in E; [| discriminate E].
  destruct (resolve_symbol ps (AST.m_module x)) as [t |] eqn:R.
  - injection E as ->.
    destruct (resolve_symbol_bound _ _ _ R) as (a & Ra & Ia).
    apply (sir_unchained_scope _ _ U).
    apply (sir_unit _ a (AST.m_module x) (Module_t m_symtab m_name deps l));
      [| exact Ia | reflexivity].
    apply (scope_of_sir_trans _ ps a); [| exact Ra].
    exact (sir_parent _ _ ps (sir_here _) P).
  - exact (L _ _ _ _ _ _ _ _ E).
Qed.

Lemma visit_Use_extends (x : AST.Use_t) (st st' : SymbolTableVisitor.state) :
  (forall p name loc intrinsic t m_name deps l,
     load_module p name loc intrinsic = Ok (Module_t t m_name deps l) ->
     sir_unchained t) ->
  sir_unchained (SymbolTableVisitor.current_scope st) ->
  SymbolTableVisitor.visit_Use x st = Ok st' ->
  extended_by_externals (SymbolTableVisitor.current_scope st)
    (SymbolTableVisitor.current_scope st').
Proof.
  intros L U E. unfold SymbolTableVisitor.visit_Use in E.
  rewrite visit_Use_module_dependencies in E.
  destruct (SymbolTableVisitor.visit_Use_module x st) as [t | |] eqn:Mt;
    cbn [bind] in E; try discriminate E.
  destruct t; try discriminate E.
  pose proof (sir_unchained_chain _
                (visit_Use_module_unchained _ _ _ _ _ _ L U Mt)) as M.
  set (st0 := SymbolTableVisitor.with_dependencies st _) in E.
  change (SymbolTableVisitor.current_scope st)
    with (SymbolTableVisitor.current_scope st0).
  destruct (AST.m_symbols x) as [| u us].
  - refine (foldM_invariant _ _
              (fun s => extended_by_externals
                          (SymbolTableVisitor.current_scope st0)
                          (SymbolTableVisitor.current_scope s))
              _ _ _ _ _ _ E).
    + intros s a s' Ps _ F.
      exact (extended_trans _ _ _ Ps (visit_Use_all_extends _ _ _ _ F)).
    + apply extended_refl.
  - refine (foldM_invariant _ _
              (fun s => extended_by_externals
                          (SymbolTableVisitor.current_scope st0)
                          (SymbolTableVisitor.current_scope s))
              _ _ _ _ _ _ E).
    + intros s a s' Ps _ F.
      exact (extended_trans _ _ _ Ps
               (visit_Use_only_extends _ _ _ _ _ _ _ M F)).
    + apply extended_refl.
Qed.

Lemma visit_FuncCallOrArray_symbol_pass1_extends (x : AST.FuncCallOrArray_t)
    (st st' : SymbolTableVisitor.state) (v : symbol_t) :
  SymbolTableVisitor.visit_FuncCallOrArray_symbol x st = Ok (v, st') ->
  extended_by_externals (SymbolTableVisitor.current_scope st)
    (SymbolTableVisitor.current_scope st').
Proof.
  intros E. unfold SymbolTableVisitor.visit_FuncCallOrArray_symbol in E.
  destruct (resolve_symbol _ _).
  - injection E as _ <-. apply extended_refl.
  - destruct (StdMap.find _ intrinsic_procedures); [| discriminate E].
    destruct (load_module _ _ _ _) as [m | |]; cbn [bind] in E;
      try discriminate E.
    destruct m; try discriminate E.
    destruct (resolve_symbol _ _) as [t |]; [| discriminate E].
    destruct t; try discriminate E.
    injection E as _ <-. cbn.
    apply extended_set; reflexivity.
Qed.

Lemma visit_FuncCallOrArray_symbol_pass2_extends (x : AST.FuncCallOrArray_t)
    (otherwise : BodyVisitor.state -> outcome (symbol_t * BodyVisitor.state))
    (st st' : BodyVisitor.state) (v : symbol_t) (module_name : string) :
  resolve_symbol (BodyVisitor.current_scope st) (AST.m_func x) = None ->
  StdMap.find (to_lower (AST.m_func x)) intrinsic_procedures
  = Some module_name ->
  BodyVisitor.visit_FuncCallOrArray_symbol x otherwise st = Ok (v, st') ->
  extended_by_externals (BodyVisitor.current_scope st)
    (BodyVisitor.current_scope st').
Proof.
  intros R F E.
  unfold BodyVisitor.visit_FuncCallOrArray_symbol in E.
  rewrite R, F in E.
  destruct (parent (BodyVisitor.current_scope st)); cbn [deref bind] in E;
    try discriminate E.
  destruct (load_module _ _ _ _) as [m | |]; cbn [bind] in E;
    try discriminate E.
  destruct m; try discriminate E.
  match type of E with
  | context [resolve_symbol ?a ?b] =>
      destruct (resolve_symbol a b) as [t |]; [| discriminate E]
  end.
  destruct t; try discriminate E.
  cbn [BodyVisitor.current_module BodyVisitor.set_current_scope] in E.
  destruct (BodyVisitor.current_module st) as [cm |].
  - destruct cm; try discriminate E.
    injection E as _ <-. cbn.
    apply extended_set; reflexivity.
  - injection E as _ <-. cbn.
    apply extended_set; reflexivity.
Qed.

Lemma visit_SubroutineCall_extends
    (visit_expr : AST.expr_t -> BodyVisitor.state -> outcome BodyVisitor.state)
    (resolve_deriv_type_proc :
       Location -> string -> string -> BodyVisitor.state ->
       outcome (option symbol_t * BodyVisitor.state))
    (x : AST.SubroutineCall_t) (st st1 st2 st' : BodyVisitor.state)
    (original_sym : option symbol_t) (args : list expr_t) :
  call_symbol resolve_deriv_type_proc x st = Ok (original_sym, st1) ->
  BodyVisitor.visit_expr_list visit_expr (AST.m_args x) st1 = Ok (args, st2) ->
  BodyVisitor.visit_SubroutineCall visit_expr resolve_deriv_type_proc x st
  = Ok st' ->
  extended_by_externals (BodyVisitor.current_scope st2)
    (BodyVisitor.current_scope st').
Proof.
  intros R A E.
  unfold BodyVisitor.visit_SubroutineCall in E.
  fold (call_symbol resolve_deriv_type_proc x st) in E.
  rewrite R in E. cbn [bind] in E.
  destruct original_sym as [original_sym |]; [| discriminate E].
  rewrite A in E. cbn [bind] in E.
  destruct original_sym; try discriminate E.
  - injection E as <-. apply extended_refl.
  - destruct (BodyVisitor.select_generic_procedure _ _ _);
      cbn [bind] in E; try discriminate E.
    destruct (nth_error _ _); cbn [deref bind] in E; try discriminate E.
    injection E as <-. apply extended_refl.
  - injection E as <-. apply extended_refl.
  - destruct original_sym.
    5: {
      destruct (BodyVisitor.select_generic_procedure _ _ _);
        cbn [bind] in E; try discriminate E.
      destruct (nth_error _ _) as [final_sym |];
        cbn [deref bind] in E; try discriminate E.
      destruct (is_Subroutine final_sym) eqn:S;
        cbn [negb] in E; try discriminate E.
      destruct (StdMap.find _ _).
      - injection E as <-. apply extended_refl.
      - injection E as <-. cbn.
        apply extended_set; [reflexivity |].
        cbn. destruct final_sym; try discriminate S; reflexivity.
    }
    all: cbn [negb is_Subroutine] in E; try discriminate E;
      injection E as <-; apply extended_refl.
Qed.

Lemma getDerivedRef_t_extends (loc : Location) (v_var : expr_t)
    (member m_derived_type : symbol_t) (st st' : BodyVisitor.state)
    (a : expr_t) :
  unchained m_derived_type ->
  BodyMembers.getDerivedRef_t loc v_var member
    m_derived_type st = Ok (a, st') ->
  extended_by_externals (BodyVisitor.current_scope st)
    (BodyVisitor.current_scope st').
Proof.
  intros Ud E. unfold BodyMembers.getDerivedRef_t in E.
  destruct member; try discriminate E.
  destruct (type m_type);
    try (injection E as _ <-; apply extended_refl).
  destruct (BodyMembers.der_type_fields _) as [der_counter der_name].
  destruct (negb _); [| injection E as _ <-; apply extended_refl].
  match type of E with
  | (let '(_, _) := ?c in _) = _ =>
      destruct c as [m_external module_name] eqn:C
  end.
  assert (is_ExternalSymbol m_external = false) as Ne.
  { destruct m_derived_type; injection C as <- _; try reflexivity.
    exact Ud. }
  destruct (StdMap.find _ _) as [der_ext |].
  - cbn [bind] in E. injection E as _ <-. apply extended_refl.
  - match type of E with
    | context [if ?c then _ else _] => destruct c
    end.
    + cbn [bind] in E. injection E as _ <-. cbn.
      apply extended_set; [reflexivity | exact Ne].
    + destruct (StdMap.find _ _); cbn [deref bind] in E;
        try discriminate E.
      injection E as _ <-. apply extended_refl.
Qed.

Lemma produced_unchained :
  (forall t, symbol_table = Some t -> sir_unchained t) ->
  (forall p name loc intrinsic t m_name deps l,
     load_module p name loc intrinsic = Ok (Module_t t m_name deps l) ->
     sir_unchained t) ->
  forall s, produced s -> sir_unchained s.
Proof.
  intros G L s P.
  induction P as [t Gt | c | p c P IH | s p P IH Pp | s k v t P IH I T
                 | s p Ps IHs Pp IHp | s name v P IH M
                 | s t name v Ps IHs Pt IHt T
                 | p name loc i t m_name deps l E
                 | x st st' P IH E | x st st' v P IH E
                 | x otherwise st st' v module_name P IH R F E
                 | ve rd x st st1 st2 st' original_sym args R A P IH E
                 | loc v_var member m_derived_type s k st st' a P IH Ps IHs I E].
  - exact (G t Gt).
  - apply sir_unchained_build.
    + constructor.
    + discriminate.
    + intros k v u [].
  - apply sir_unchained_build.
    + constructor.
    + intros q [= <-]. exact IH.
    + intros k v u [].
  - apply (sir_unchained_scope _ _ IH).
    exact (sir_parent _ _ p (sir_here _) Pp).
  - apply (sir_unchained_scope _ _ IH).
    exact (sir_unit _ _ k v t (sir_here _) I T).
  - apply sir_unchained_build.
    + exact (IHs _ (sir_here _)).
    + intros q [= <-]. exact IHp.
    + intros k v u I T. apply (sir_unchained_scope _ _ IHs).
      exact (sir_unit s s k v u (sir_here _) I T).
  - apply sir_unchained_build.
    + cbn. apply scope_unchained_set; [exact (IH _ (sir_here _)) |].
      destruct v; try contradiction M; exact I.
    + intros q Q. cbn in Q. apply (sir_unchained_scope _ _ IH).
      exact (sir_parent s s q (sir_here _) Q).
    + intros k w u I T. cbn in I.
      destruct (StdMap_set_In _ name v (scope s) (k, w) I)
        as [[= -> ->] | I'].
      * destruct v; try contradiction M; discriminate T.
      * apply (sir_unchained_scope _ _ IH).
        exact (sir_unit s s k w u (sir_here _) I' T).
  - apply sir_unchained_build.
    + cbn. apply scope_unchained_set; [exact (IHs _ (sir_here _)) |].
      destruct v; try discriminate T; exact I.
    + intros q Q. cbn in Q. apply (sir_unchained_scope _ _ IHs).
      exact (sir_parent s s q (sir_here _) Q).
    + intros k w u I T'. cbn in I.
      destruct (StdMap_set_In _ name v (scope s) (k, w) I)
        as [[= -> ->] | I'].
      * rewrite T in T'. injection T' as <-. exact IHt.
      * apply (sir_unchained_scope _ _ IHs).
        exact (sir_unit s s k w u (sir_here _) I' T').
  - exact (L _ _ _ _ _ _ _ _ E).
  - exact (sir_unchained_extended _ _ IH (visit_Use_extends _ _ _ L IH E)).
  - exact (sir_unchained_extended _ _ IH
             (visit_FuncCallOrArray_symbol_pass1_extends _ _ _ _ E)).
  - exact (sir_unchained_extended _ _ IH
             (visit_FuncCallOrArray_symbol_pass2_extends _ _ _ _ _ _ R F E)).
  - exact (sir_unchained_extended _ _ IH
             (visit_SubroutineCall_extends _ _ _ _ _ _ _ _ _ R A E)).
  - apply (sir_unchained_extended _ _ IH).
    refine (getDerivedRef_t_extends _ _ _ _ _ _ _ _ E).
    pose proof (IHs _ (sir_here _)) as Us.
    unfold scope_unchained in Us. rewrite Forall_forall in Us.
    exact (Us (k, m_derived_type) I).
Qed.

End Sites.

Section UnitsProduced.
Context `{ModuleLoader} `{BodyMembers.NodeLayout} `{AnalysisInput}.


Lemma visit_Use_list_produced (uses : list AST.Use_t)
    (st st' : SymbolTableVisitor.state) :
  produced (SymbolTableVisitor.current_scope st) ->
  foldM (fun st u => SymbolTableVisitor.visit_Use u st) uses st = Ok st' ->
  produced (SymbolTableVisitor.current_scope st').
Proof.
  intros P E.
  refine (foldM_invariant _ _
            (fun s => produced (SymbolTableVisitor.current_scope s))
            _ _ _ _ _ P E).
  intros s a s' Ps _ F.
  exact (produced_visit_Use a s s' Ps F).
Qed.

Lemma visit_Module_produced (x : AST.Module_t)
    (visit_rest : SymbolTableVisitor.state -> outcome SymbolTableVisitor.state) :
  keeps_produced visit_rest ->
  keeps_produced (SymbolTableVisitor.visit_Module x visit_rest).
Proof.
  intros K st st' P E.
  unfold SymbolTableVisitor.visit_Module in E.
  destruct (foldM _ (AST.m_use x) _) as [s1 | |] eqn:U;
    cbn [bind] in E; try discriminate E.
  destruct (visit_rest s1) as [s2 | |] eqn:V;
    cbn [bind] in E; try discriminate E.
  destruct (parent (SymbolTableVisitor.current_scope s2)) as [ps |] eqn:Pa;
    cbn [deref bind] in E; try discriminate E.
  destruct (StdMap.mem _ _); [discriminate E |].
  injection E as <-. cbn [SymbolTableVisitor.current_scope].
  assert (produced (SymbolTableVisitor.current_scope s2)) as P2.
  { apply (K _ _ (visit_Use_list_produced _
                    (SymbolTableVisitor.with_dependencies
                       (SymbolTableVisitor.new_SymbolTable st) []) _
                    (produced_new _
                       (SymbolTableVisitor.next_counter st) P) U) V). }
  apply (produced_unit ps (SymbolTableVisitor.current_scope s2));
    [| exact P2 | reflexivity].
  exact (produced_parent _ ps P2 Pa).
Qed.

Lemma visit_Subroutine_produced (x : AST.Subroutine_t)
    (visit_body : SymbolTableVisitor.state -> outcome SymbolTableVisitor.state) :
  keeps_produced visit_body ->
  keeps_produced (SymbolTableVisitor.visit_Subroutine x visit_body).
Proof.
  intros K st st' P E.
  unfold SymbolTableVisitor.visit_Subroutine in E.
  destruct (visit_body _) as [s1 | |] eqn:V;
    cbn [bind] in E; try discriminate E.
  assert (produced (SymbolTableVisitor.current_scope s1)) as P1.
  { apply (K (SymbolTableVisitor.enter_Subroutine x st) _
             (produced_new _ (SymbolTableVisitor.next_counter st) P) V). }
  destruct (SymbolTableVisitor.convert_arguments _ _ _) as [args | |];
    cbn [bind] in E; try discriminate E.
  destruct (parent (SymbolTableVisitor.current_scope s1)) as [ps |] eqn:Pa;
    cbn [deref bind] in E; try discriminate E.
  match type of E with
  | bind ?c _ = _ => destruct c; cbn [bind] in E; try discriminate E
  end.
  injection E as <-. cbn [SymbolTableVisitor.current_scope].
  apply (produced_unit ps (SymbolTableVisitor.current_scope s1));
    [| exact P1 | reflexivity].
  exact (produced_parent _ ps P1 Pa).
Qed.

Lemma visit_Declaration_sym_produced (loc : Location) (sym : string)
    (make_variable : SymbolTableVisitor.state -> outcome symbol_t) :
  (forall s v, make_variable s = Ok v -> made_node v) ->
  keeps_produced (SymbolTableVisitor.visit_Declaration_sym loc sym make_variable).
Proof.
  intros M st st' P E.
  unfold SymbolTableVisitor.visit_Declaration_sym in E.
  destruct (StdMap.mem _ _).
  - destruct (parent _); [discriminate E |].
    destruct (make_variable st) as [v | |] eqn:V; cbn [bind] in E;
      try discriminate E.
    injection E as <-. cbn.
    exact (produced_node _ sym v P (M _ _ V)).
  - destruct (make_variable st) as [v | |] eqn:V; cbn [bind] in E;
      try discriminate E.
    injection E as <-. cbn.
    exact (produced_node _ sym v P (M _ _ V)).
Qed.

Lemma visit_Function_produced
    (visit_expr : AST.expr_t -> SymbolTableVisitor.state ->
                  outcome SymbolTableVisitor.state)
    (extract_kind : expr_t -> Location -> outcome Z)
    (x : SymbolTableUnits.Function_t)
    (visit_body : SymbolTableVisitor.state -> outcome SymbolTableVisitor.state) :
  (forall e, keeps_produced (visit_expr e)) ->
  keeps_produced visit_body ->
  keeps_produced
    (SymbolTableUnits.visit_Function visit_expr extract_kind x visit_body).
Proof.
  intros Ke K st st' P E.
  unfold SymbolTableUnits.visit_Function in E.
  destruct (visit_body _) as [s1 | |] eqn:V;
    cbn [bind] in E; try discriminate E.
  assert (produced (SymbolTableVisitor.current_scope s1)) as P1.
  { apply (K (SymbolTableUnits.enter_Function x st) _
             (produced_new _ (SymbolTableVisitor.next_counter st) P) V). }
  destruct (SymbolTableVisitor.convert_arguments _ _ _) as [args | |];
    cbn [bind] in E; try discriminate E.
  match type of E with
  | bind ?c _ = _ => destruct c as [return_var_name | |]; cbn [bind] in E;
                     try discriminate E
  end.
  destruct (SymbolTableUnits.find_return_type _ _) as [return_type | |];
    cbn [bind] in E; try discriminate E.
  match type of E with
  | bind ?c _ = _ =>
      destruct c as [[[return_var args'] s2] | |] eqn:R; cbn [bind] in E;
      try discriminate E
  end.
  assert (produced (SymbolTableVisitor.current_scope s2)) as P2.
  { destruct (StdMap.find return_var_name _) as [v |].
    - destruct return_type; [discriminate R |].
      destruct v; try discriminate R.
      destruct (SymbolTableVisitor.convert_arguments _ _ _);
        cbn [bind] in R; try discriminate R.
      injection R as _ _ <-. cbn.
      apply (produced_node _ _ _ P1). exact I.
    - destruct return_type as [return_type |]; [| discriminate R].
      unfold SymbolTableUnits.kind_of_AttrType in R.
      assert (forall a_kind s3,
                produced (SymbolTableVisitor.current_scope s3) ->
                (type <-
                   match SymbolTableUnits.AttrType_type return_type with
                   | SymbolTableUnits.TypeInteger =>
                       Ok (mk_ttype Integer a_kind EmptyString 0)
                   | SymbolTableUnits.TypeReal =>
                       Ok (mk_ttype Real a_kind EmptyString 0)
                   | SymbolTableUnits.TypeComplex =>
                       Ok (mk_ttype Complex a_kind EmptyString 0)
                   | SymbolTableUnits.TypeLogical =>
                       Ok (mk_ttype Logical 4 EmptyString 0)
                   | _ =>
                       Throw (SemanticError "Return type not supported"
                                (SymbolTableUnits.Function_loc x))
                   end ;;
                 Ok (Variable_t return_var_name intent_return_var None None
                       Default type Source Public Required, args,
                     SymbolTableVisitor.current_scope_set s3 return_var_name
                       (Variable_t return_var_name intent_return_var None
                          None Default type Source Public Required)))
                = Ok (return_var, args', s2) ->
                produced (SymbolTableVisitor.current_scope s2)) as Final.
      { intros a_kind s3 P3 F.
        match type of F with
        | bind ?c _ = _ => destruct c as [ty | |]; cbn [bind] in F;
                           try discriminate F
        end.
        injection F as _ _ <-. cbn.
        apply (produced_node _ _ _ P3). exact I. }
      destruct (SymbolTableUnits.AttrType_kind return_type) as [k |].
      + destruct (visit_expr k s1) as [s3 | |] eqn:Vk; cbn [bind] in R;
          try discriminate R.
        destruct (BodyVisitor.EXPR _) as [kind_expr | |]; cbn [bind] in R;
          try discriminate R.
        destruct (extract_kind _ _) as [a_kind | |]; cbn [bind] in R;
          try discriminate R.
        exact (Final a_kind s3 (Ke _ _ _ P1 Vk) R).
      + cbn [bind] in R. exact (Final 4%Z s1 P1 R). }
  destruct (parent (SymbolTableVisitor.current_scope s2)) as [ps |] eqn:Pa;
    cbn [deref bind] in E; try discriminate E.
  match type of E with
  | bind ?c _ = _ => destruct c; cbn [bind] in E; try discriminate E
  end.
  injection E as <-. cbn [SymbolTableVisitor.current_scope].
  apply (produced_unit ps (SymbolTableVisitor.current_scope s2));
    [| exact P2 | reflexivity].
  exact (produced_parent _ ps P2 Pa).
Qed.

Lemma visit_Program_produced (x : SymbolTableUnits.Program_t)
    (visit_rest : SymbolTableVisitor.state -> outcome SymbolTableVisitor.state) :
  keeps_produced visit_rest ->
  keeps_produced (SymbolTableUnits.visit_Program x visit_rest).
Proof.
  intros K st st' P E.
  unfold SymbolTableUnits.visit_Program in E.
  destruct (foldM _ (SymbolTableUnits.Program_use x) _) as [s1 | |] eqn:U;
    cbn [bind] in E; try discriminate E.
  destruct (visit_rest s1) as [s2 | |] eqn:V;
    cbn [bind] in E; try discriminate E.
  destruct (parent (SymbolTableVisitor.current_scope s2)) as [ps |] eqn:Pa;
    cbn [deref bind] in E; try discriminate E.
  destruct (StdMap.mem _ _); [discriminate E |].
  injection E as <-. cbn [SymbolTableVisitor.current_scope].
  assert (produced (SymbolTableVisitor.current_scope s2)) as P2.
  { apply (K _ _ (visit_Use_list_produced _
                    (SymbolTableVisitor.with_dependencies
                       (SymbolTableVisitor.new_SymbolTable st) []) _
                    (produced_new _
                       (SymbolTableVisitor.next_counter st) P) U) V). }
  apply (produced_unit ps (SymbolTableVisitor.current_scope s2));
    [| exact P2 | reflexivity].
  exact (produced_parent _ ps P2 Pa).
Qed.

Lemma visit_DerivedType_produced (x : SymbolTableUnits.DerivedType_t)
    (visit_items : SymbolTableUnits.unit_state ->
                   outcome SymbolTableUnits.unit_state) :
  keeps_produced_unit visit_items ->
  keeps_produced_unit (SymbolTableUnits.visit_DerivedType x visit_items).
Proof.
  intros K u u' P E.
  unfold SymbolTableUnits.visit_DerivedType in E.
  match type of E with
  | bind (visit_items ?a) _ = _ => set (u0 := a) in *
  end.
  destruct (visit_items u0) as [u1 | |] eqn:V;
    cbn [bind] in E; try discriminate E.
  assert (produced (SymbolTableVisitor.current_scope
                      (SymbolTableUnits.base u1))) as P1.
  { apply (K u0 _ (produced_new _
                     (SymbolTableVisitor.next_counter (SymbolTableUnits.base u))
                     P) V). }
  destruct (StdMap.mem _ _); [discriminate E |].
  destruct (parent _) as [ps |] eqn:Pa;
    cbn [deref bind] in E; try discriminate E.
  injection E as <-. cbn.
  apply (produced_unit ps
           (SymbolTableVisitor.current_scope (SymbolTableUnits.base u1)));
    [| exact P1 | reflexivity].
  exact (produced_parent _ ps P1 Pa).
Qed.

Lemma add_generic_procedures_produced :
  keeps_produced_unit SymbolTableUnits.add_generic_procedures.
Proof.
  intros u u' P E.
  unfold SymbolTableUnits.add_generic_procedures in E.
  destruct (foldM _ _ _) as [s1 | |] eqn:F; cbn [bind] in E;
    try discriminate E.
  injection E as <-. cbn.
  refine (foldM_invariant _ _
            (fun s => produced (SymbolTableVisitor.current_scope s))
            _ _ _ _ _ P F).
  intros s a s' Ps _ G.
  unfold SymbolTableUnits.add_generic_procedure in G.
  destruct (mapM _ _) as [symbols | |]; cbn [bind] in G; try discriminate G.
  injection G as <-. cbn.
  apply (produced_node _ _ _ Ps). exact I.
Qed.

End UnitsProduced.

Lemma visit_Use_all_imports (m_name : string)
    (items : list (string * symbol_t)) (st st' : SymbolTableVisitor.state) :
  foldM (SymbolTableVisitor.visit_Use_all m_name) items st = Ok st' ->
  forall k v, In (k, v) items -> is_ExternalSymbol v = false.
Proof.
  revert st.
  induction items as [| item items IH]; intros st E k v I; [destruct I |].
  cbn [foldM] in E.
  destruct (SymbolTableVisitor.visit_Use_all m_name st item) as [s1 | |] eqn:V;
    cbn [bind] in E; try discriminate E.
  destruct I as [-> | I]; [| exact (IH _ E k v I)].
  unfold SymbolTableVisitor.visit_Use_all in V. cbn [snd fst] in V.
  destruct v; try discriminate V; reflexivity.
Qed.

Section BodiesProduced.
Context `{ModuleLoader} `{BodyMembers.NodeLayout} `{AnalysisInput}.
Variable visit_expr :
  AST.expr_t -> BodyVisitor.state -> outcome BodyVisitor.state.
Variable resolve_deriv_type_proc :
  Location -> string -> string -> BodyVisitor.state ->
  outcome (option symbol_t * BodyVisitor.state).
Hypothesis visit_expr_keeps : forall e, keeps_produced_body (visit_expr e).
Hypothesis resolve_deriv_type_proc_keeps :
  forall loc id derived_type_id s r s',
    produced (BodyVisitor.current_scope s) ->
    resolve_deriv_type_proc loc id derived_type_id s = Ok (r, s') ->
    produced (BodyVisitor.current_scope s').

Lemma visit_expr_list_produced (ast_list : list AST.expr_t)
    (st st' : BodyVisitor.state) (asr_list : list expr_t) :
  produced (BodyVisitor.current_scope st) ->
  BodyVisitor.visit_expr_list visit_expr ast_list st = Ok (asr_list, st') ->
  produced (BodyVisitor.current_scope st').
Proof.
  revert st asr_list.
  induction ast_list as [| a l IH]; intros st asr_list P E;
    cbn [BodyVisitor.visit_expr_list] in E.
  - injection E as _ <-. exact P.
  - destruct (visit_expr a st) as [s1 | |] eqn:V; cbn [bind] in E;
      try discriminate E.
    destruct (BodyVisitor.EXPR _) as [e | |]; cbn [bind] in E;
      try discriminate E.
    destruct (BodyVisitor.visit_expr_list visit_expr l s1)
      as [[rest s2] | |] eqn:R; cbn [bind] in E; try discriminate E.
    injection E as _ <-.
    exact (IH _ _ (visit_expr_keeps _ _ _ P V) R).
Qed.

Lemma visit_SubroutineCall_produced (x : AST.SubroutineCall_t) :
  keeps_produced_body
    (BodyVisitor.visit_SubroutineCall visit_expr resolve_deriv_type_proc x).
Proof.
  intros st st' P E.
  pose proof E as E0.
  unfold BodyVisitor.visit_SubroutineCall in E.
  fold (call_symbol resolve_deriv_type_proc x st) in E.
  destruct (call_symbol resolve_deriv_type_proc x st)
    as [[original_sym s1] | |] eqn:R; cbn [bind] in E; try discriminate E.
  destruct original_sym as [original_sym |]; [| discriminate E].
  destruct (BodyVisitor.visit_expr_list visit_expr (AST.m_args x) s1)
    as [[args s2] | |] eqn:A; cbn [bind] in E; try discriminate E.
  assert (produced (BodyVisitor.current_scope s1)) as P1.
  { unfold call_symbol in R.
    destruct (AST.m_member x) as [| member [| more]].
    - injection R as _ <-. exact P.
    - exact (resolve_deriv_type_proc_keeps _ _ _ _ _ _ P R).
    - injection R as _ <-. exact P. }
  exact (produced_visit_SubroutineCall visit_expr resolve_deriv_type_proc x
           st s1 s2 st' (Some original_sym) args R A
           (visit_expr_list_produced _ _ _ _ P1 A) E0).
Qed.

Lemma visit_body_produced (AST_stmt_t : Type)
    (visit_stmt : AST_stmt_t -> BodyVisitor.state -> outcome BodyVisitor.state)
    (m_body : list AST_stmt_t) (st st' : BodyVisitor.state)
    (body : list BodyUnits.body_stmt_t) :
  (forall s, keeps_produced_body (visit_stmt s)) ->
  produced (BodyVisitor.current_scope st) ->
  BodyUnits.visit_body AST_stmt_t visit_stmt m_body st = Ok (body, st') ->
  produced (BodyVisitor.current_scope st').
Proof.
  intros K P E. unfold BodyUnits.visit_body in E.
  destruct (BodyUnits.visit_body_stmts AST_stmt_t visit_stmt m_body [] st)
    as [[body0 s1] | |] eqn:L; cbn [bind] in E; try discriminate E.
  assert (produced (BodyVisitor.current_scope s1)) as P1.
  { clear E. revert st P L. generalize (@nil BodyUnits.body_stmt_t).
    induction m_body as [| s m_body IH]; intros b st P L;
      cbn [BodyUnits.visit_body_stmts] in L.
    - injection L as _ <-. exact P.
    - destruct (visit_stmt s st) as [s2 | |] eqn:V; cbn [bind] in L;
        try discriminate L.
      pose proof (K _ _ _ P V) as P2.
      destruct (BodyVisitor.tmp s2) as [[e | tmp_stmt | sy] |];
        try discriminate L.
      + match type of L with
        | bind ?c _ = _ => destruct c as [b1 | |]; cbn [bind] in L;
                           try discriminate L
        end.
        exact (IH _ _ P2 L).
      + exact (IH _ _ P2 L). }
  destruct (BodyUnits.create_implicit_deallocate s1);
    injection E as _ <-; exact P1.
Qed.

End BodiesProduced.

Lemma visit_Use_only_list_repacks loc (msym : string)
    (m_symtab : SymbolTable) (m_name : string)
    (symbols : list AST.UseSymbol_t) (st st' : SymbolTableVisitor.state) :
  foldM (SymbolTableVisitor.visit_Use_only loc msym m_symtab m_name)
    symbols st = Ok st' ->
  forall u n e m o a,
    In u symbols ->
    resolve_symbol m_symtab (AST.m_sym u)
    = Some (ExternalSymbol_t n e m o a) ->
    StdMap.find (local_sym u) (scope (SymbolTableVisitor.current_scope st'))
    = Some (ExternalSymbol_t n e m o a).
Proof.
  revert st.
  induction symbols as [| u0 symbols IH]; intros st E u n e m o a I R;
    [destruct I |].
  cbn [foldM] in E.
  destruct (SymbolTableVisitor.visit_Use_only _ _ _ _ st u0)
    as [s1 | |] eqn:V; cbn [bind] in E; try discriminate E.
  destruct I as [<- | I]; [| exact (IH _ E u n e m o a I R)].
  destruct (visit_Use_only_list _ _ _ _ _ _ _ E) as (_ & Bound & Other).
  unfold SymbolTableVisitor.visit_Use_only in V.
  rewrite R in V. fold (local_sym u0) in V.
  destruct (StdMap.mem _ _); [discriminate V |].
  injection V as <-.
  rewrite Other.
  - cbn. apply StdMap_find_set_same.
  - intros In'. apply in_map_iff in In'. destruct In' as (u' & Eu & Iu).
    destruct (Bound u' Iu) as [M' _].
    rewrite Eu in M'. unfold StdMap.mem in M'. cbn in M'.
    rewrite StdMap_find_set_same in M'. discriminate M'.
Qed.

Section NoChains.
Context `{ModuleLoader} `{BodyMembers.NodeLayout} `{AnalysisInput}.

Lemma module_of_use_found (x : AST.Use_t) (st : SymbolTableVisitor.state)
    (m : symbol_t) :
  module_of_use x st m -> SymbolTableVisitor.visit_Use_module x st = Ok m.
Proof.
  intros (ps & P & [R | [R L]]);
    unfold SymbolTableVisitor.visit_Use_module;
    rewrite P; cbn [deref bind]; rewrite R; [reflexivity | exact L].
Qed.

(** C6.  No external symbol bound in a scope of the SIR points at an
    external symbol.  Provided the table handed to [ast_to_asr] and the
    modules the loader returns hold no external symbol that points at an
    external symbol, every scope the analysis produces, the scopes above
    it and the tables of the units bound in them hold none either, and
    the target of an external symbol that a name resolves to in such a
    scope is never an external symbol.  [visit_Use] re-packs: with a
    list, when the remote symbol is itself an external symbol, the
    statement enters under the local name an external symbol with the
    target, the module name and the original name of the remote one (it
    does for a list of one symbol whose local name is free, and for every
    such symbol of a list it accepts); without a list, it is accepted
    only when the scope of the module holds no external symbol.  The
    visitors of the units of pass 1, [visit_SubroutineCall] and the loop
    over the body of a unit in pass 2 take a scope the analysis produces
    to a scope it produces, when the visitors of their parts do. *)
Theorem no_chained_external_symbols :
  ((forall t, symbol_table = Some t -> sir_unchained t) ->
   (forall p name loc intrinsic t m_name deps l,
      load_module p name loc intrinsic = Ok (Module_t t m_name deps l) ->
      sir_unchained t) ->
   (forall s, produced s -> sir_unchained s) /\
   (forall s name n e m o a,
      produced s ->
      resolve_symbol s name = Some (ExternalSymbol_t n e m o a) ->
      is_ExternalSymbol e = false)) /\
  (forall (x : AST.Use_t) (st : SymbolTableVisitor.state) m_symtab m_name
          deps l u n e m o a,
     module_of_use x st (Module_t m_symtab m_name deps l) ->
     AST.m_symbols x = [u] ->
     resolve_symbol m_symtab (AST.m_sym u)
     = Some (ExternalSymbol_t n e m o a) ->
     StdMap.mem (local_sym u) (scope (SymbolTableVisitor.current_scope st))
     = false ->
     SymbolTableVisitor.visit_Use x st
     = Ok (SymbolTableVisitor.current_scope_set
             (SymbolTableVisitor.with_dependencies st
                (push_back_if_absent
                   (SymbolTableVisitor.current_module_dependencies st)
                   (AST.m_module x)))
             (local_sym u) (ExternalSymbol_t n e m o a))) /\
  (forall (x : AST.Use_t) (st st' : SymbolTableVisitor.state) m_symtab
          m_name deps l,
     module_of_use x st (Module_t m_symtab m_name deps l) ->
     AST.m_symbols x <> [] ->
     SymbolTableVisitor.visit_Use x st = Ok st' ->
     forall u n e m o a,
       In u (AST.m_symbols x) ->
       resolve_symbol m_symtab (AST.m_sym u)
       = Some (ExternalSymbol_t n e m o a) ->
       StdMap.find (local_sym u)
         (scope (SymbolTableVisitor.current_scope st'))
       = Some (ExternalSymbol_t n e m o a)) /\
  (forall (x : AST.Use_t) (st st' : SymbolTableVisitor.state) m_symtab
          m_name deps l,
     module_of_use x st (Module_t m_symtab m_name deps l) ->
     AST.m_symbols x = [] ->
     SymbolTableVisitor.visit_Use x st = Ok st' ->
     forall k v, In (k, v) (scope m_symtab) -> is_ExternalSymbol v = false) /\
  ((forall x visit_rest,
      keeps_produced visit_rest ->
      keeps_produced (SymbolTableVisitor.visit_Module x visit_rest)) /\
   (forall x visit_rest,
      keeps_produced visit_rest ->
      keeps_produced (SymbolTableUnits.visit_Program x visit_rest)) /\
   (forall x visit_body,
      keeps_produced visit_body ->
      keeps_produced (SymbolTableVisitor.visit_Subroutine x visit_body)) /\
   (forall visit_expr extract_kind x visit_body,
      (forall e, keeps_produced (visit_expr e)) ->
      keeps_produced visit_body ->
      keeps_produced
        (SymbolTableUnits.visit_Function visit_expr extract_kind x
           visit_body)) /\
   (forall x visit_items,
      keeps_produced_unit visit_items ->
      keeps_produced_unit (SymbolTableUnits.visit_DerivedType x visit_items)) /\
   (forall loc sym make_variable,
      (forall s v, make_variable s = Ok v -> made_node v) ->
      keeps_produced
        (SymbolTableVisitor.visit_Declaration_sym loc sym make_variable)) /\
   keeps_produced_unit SymbolTableUnits.add_generic_procedures /\
   (forall visit_expr resolve_deriv_type_proc x,
      (forall e, keeps_produced_body (visit_expr e)) ->
      (forall loc id derived_type_id s r s',
         produced (BodyVisitor.current_scope s) ->
         resolve_deriv_type_proc loc id derived_type_id s = Ok (r, s') ->
         produced (BodyVisitor.current_scope s')) ->
      keeps_produced_body
        (BodyVisitor.visit_SubroutineCall visit_expr resolve_deriv_type_proc
           x)) /\
   (forall AST_stmt_t visit_stmt m_body st st' body,
      (forall s, keeps_produced_body (visit_stmt s)) ->
      produced (BodyVisitor.current_scope st) ->
      BodyUnits.visit_body AST_stmt_t visit_stmt m_body st = Ok (body, st') ->
      produced (BodyVisitor.current_scope st'))).
Proof.
  split; [| split; [| split; [| split]]].
  - intros G L. split.
    + exact (produced_unchained G L).
    + intros s name n e m o a P R.
      destruct (resolve_symbol_bound _ _ _ R) as (t & Rt & It).
      pose proof (produced_unchained G L s P t Rt) as U.
      unfold scope_unchained in U. rewrite Forall_forall in U.
      exact (U _ It).
  - intros x st m_symtab m_name deps l u n e m o a M S R F.
    unfold SymbolTableVisitor.visit_Use.
    rewrite visit_Use_module_dependencies, (module_of_use_found _ _ _ M).
    cbn [bind]. rewrite S. cbn [foldM].
    unfold SymbolTableVisitor.visit_Use_only.
    rewrite R. fold (local_sym u).
    cbn [SymbolTableVisitor.current_scope
         SymbolTableVisitor.with_dependencies].
    rewrite F. reflexivity.
  - intros x st st' m_symtab m_name deps l M S E u n e m o a I R.
    unfold SymbolTableVisitor.visit_Use in E.
    rewrite visit_Use_module_dependencies, (module_of_use_found _ _ _ M) in E.
    cbn [bind] in E.
    destruct (AST.m_symbols x) as [| u0 us]; [destruct (S eq_refl) |].
    exact (visit_Use_only_list_repacks _ _ _ _ _ _ _ E u n e m o a I R).
  - intros x st st' m_symtab m_name deps l M S E k v I.
    unfold SymbolTableVisitor.visit_Use in E.
    rewrite visit_Use_module_dependencies, (module_of_use_found _ _ _ M) in E.
    cbn [bind] in E. rewrite S in E.
    exact (visit_Use_all_imports _ _ _ _ E k v I).
  - repeat split.
    + exact visit_Module_produced.
    + exact visit_Program_produced.
    + exact visit_Subroutine_produced.
    + exact visit_Function_produced.
    + exact visit_DerivedType_produced.
    + exact visit_Declaration_sym_produced.
    + exact add_generic_procedures_produced.
    + intros visit_expr rdtp x Ke Kr.
      exact (visit_SubroutineCall_produced visit_expr rdtp Ke Kr x).
    + intros AST_stmt_t visit_stmt m_body st st' body.
      exact (visit_body_produced AST_stmt_t visit_stmt m_body st st' body).
Qed.

End NoChains.

Lemma no_chained_external_symbols_witness :
  sir_unchained (SymbolTableVisitor.current_scope state_unit_used).
Proof.
  refine (proj1 (proj1 (@no_chained_external_symbols loader_m1 layout_by_name
                          no_symbol_table) _ _) _ _).
  - intros t E. discriminate E.
  - intros p name loc intrinsic t m_name deps l E. cbn in E.
    destruct (String.eqb name "m1"); [| discriminate E].
    unfold module_m1 in E. injection E as <- _ _ _.
    apply sir_unchained_build.
    + repeat constructor.
    + discriminate.
    + intros k v u [[= <- <-] | []] T. discriminate T.
  - apply (@produced_visit_Use loader_m1 layout_by_name no_symbol_table
             use_m1_only_r state_unit state_unit_used).
    + apply produced_new, produced_root.
    + reflexivity.
Defined.
